(** * opencode-antigravity-auth: request-path engine, verified model

    A shallow embedding of the account manager (accounts.js), the
    credential store migration (storage.js), the dual-TTL signature cache
    (cache/signature-cache.js), and the thinking / tool-id stages of the
    request transformer (request.js, transform/claude.js), together with
    the properties the specification states about them. The model comes
    first, module by module; the properties follow in the [...Facts]
    modules.

    Around these, the refresh strings and token expiry (auth.js), the
    construction and persistence of the account manager, the proactive
    refresh queue (refresh-queue.js), the thinking content of the
    signature cache, the response stream and the request shaping steps
    for tools, cached content and headers are modelled in the modules
    [Text] to [Shaping], with their properties in the matching
    [...Facts] modules. [SessionKeySpec] and [WarmupSpec] word the
    session key and the warmup flag on the JSON of the request, without
    the functions of the transformer, for [RequestFacts] to compare.

    Conventions.
    - JavaScript numbers that hold indices, counters and unix-millisecond
      times are integers in the code paths modelled here; they are [Z].
    - [Date.now()] is an explicit argument [now] of every operation that
      reads the clock; one operation reads one clock value.
    - Objects shared by reference (the accounts of the pool) are modelled
      by their position in the pool array; an operation that mutates the
      object it returns also updates the pool at that position. *)

From stdpp Require Import gmap strings list fin_maps pretty.
From Stdlib Require Import ZArith Lia.

Local Open Scope Z_scope.

(* ===================================================================== *)
(** * Account manager (accounts.js)                                       *)
(* ===================================================================== *)

Module Accounts.

Inductive ModelFamily := Claude | Gemini.
Inductive HeaderStyle := Antigravity | GeminiCli.
Inductive QuotaKey := KClaude | KGeminiAntigravity | KGeminiCli.
Inductive SwitchReason := RateLimit | Initial | Rotation.

#[export] Instance ModelFamily_eq_dec : EqDecision ModelFamily.
Proof. solve_decision. Defined.
#[export] Instance QuotaKey_eq_dec : EqDecision QuotaKey.
Proof. solve_decision. Defined.

(** [RateLimitStateV3]: one optional reset time per quota key. *)
Record RateLimitStateV3 := mkRateLimits {
  rl_claude : option Z;
  rl_gemini_antigravity : option Z;
  rl_gemini_cli : option Z
}.

Definition noRateLimits : RateLimitStateV3 := mkRateLimits None None None.

Definition rlGet (r : RateLimitStateV3) (k : QuotaKey) : option Z :=
  match k with
  | KClaude => rl_claude r
  | KGeminiAntigravity => rl_gemini_antigravity r
  | KGeminiCli => rl_gemini_cli r
  end.

Definition rlPut (k : QuotaKey) (v : option Z) (r : RateLimitStateV3) : RateLimitStateV3 :=
  match k with
  | KClaude => mkRateLimits v (rl_gemini_antigravity r) (rl_gemini_cli r)
  | KGeminiAntigravity => mkRateLimits (rl_claude r) v (rl_gemini_cli r)
  | KGeminiCli => mkRateLimits (rl_claude r) (rl_gemini_antigravity r) v
  end.

Record RefreshParts := mkParts {
  refreshToken : string;
  projectId : option string;
  managedProjectId : option string
}.

Record ManagedAccount := mkAccount {
  index : Z;
  email : option string;
  addedAt : Z;
  lastUsed : Z;
  parts : RefreshParts;
  access : option string;
  expires : option Z;
  rateLimitResetTimes : RateLimitStateV3;
  lastSwitchReason : option SwitchReason
}.

Definition setRateLimits (r : RateLimitStateV3) (a : ManagedAccount) : ManagedAccount :=
  mkAccount (index a) (email a) (addedAt a) (lastUsed a) (parts a)
            (access a) (expires a) r (lastSwitchReason a).

Definition setLastUsed (t : Z) (a : ManagedAccount) : ManagedAccount :=
  mkAccount (index a) (email a) (addedAt a) t (parts a)
            (access a) (expires a) (rateLimitResetTimes a) (lastSwitchReason a).

Definition setIndex (i : Z) (a : ManagedAccount) : ManagedAccount :=
  mkAccount i (email a) (addedAt a) (lastUsed a) (parts a)
            (access a) (expires a) (rateLimitResetTimes a) (lastSwitchReason a).

(** The manager: the pool, the round-robin cursor and the sticky index of
    each family ([-1] when nothing is selected). *)
Record AccountManager := mkManager {
  accounts : list ManagedAccount;
  cursor : Z;
  currentClaude : Z;
  currentGemini : Z
}.

Definition currentAccountIndexByFamily (m : AccountManager) (f : ModelFamily) : Z :=
  match f with Claude => currentClaude m | Gemini => currentGemini m end.

Definition setCurrentIndex (f : ModelFamily) (i : Z) (m : AccountManager) : AccountManager :=
  match f with
  | Claude => mkManager (accounts m) (cursor m) i (currentGemini m)
  | Gemini => mkManager (accounts m) (cursor m) (currentClaude m) i
  end.

Definition setAccounts (l : list ManagedAccount) (m : AccountManager) : AccountManager :=
  mkManager l (cursor m) (currentClaude m) (currentGemini m).

Definition setCursor (c : Z) (m : AccountManager) : AccountManager :=
  mkManager (accounts m) c (currentClaude m) (currentGemini m).

(** [clampNonNegativeInt(value, fallback)], [value] being an integer or
    ([None]) anything that is not a finite number. *)
Definition clampNonNegativeInt (value : option Z) (fallback : Z) : Z :=
  match value with
  | Some v => if v <? 0 then 0 else v
  | None => fallback
  end.

(** The cursor the constructor leaves for a stored [activeIndex] and a pool
    of [n] accounts. *)
Definition initialCursor (activeIndex : option Z) (n : nat) : Z :=
  let c := clampNonNegativeInt activeIndex 0 in
  if (0 <? n)%nat then Z.rem c (Z.of_nat n) else c.

(** [arr[k]] for a JavaScript number [k]: [undefined] outside the array. *)
Definition jsIndex {A} (l : list A) (k : Z) : option A :=
  if k <? 0 then None else l !! Z.to_nat k.

Definition getQuotaKey (family : ModelFamily) (headerStyle : HeaderStyle) : QuotaKey :=
  match family with
  | Claude => KClaude
  | Gemini => match headerStyle with
              | GeminiCli => KGeminiCli
              | Antigravity => KGeminiAntigravity
              end
  end.

Definition isRateLimitedForQuotaKey (now : Z) (account : ManagedAccount) (key : QuotaKey) : bool :=
  match rlGet (rateLimitResetTimes account) key with
  | Some resetTime => now <? resetTime
  | None => false
  end.

Definition isRateLimitedForFamily (now : Z) (account : ManagedAccount) (family : ModelFamily) : bool :=
  match family with
  | Claude => isRateLimitedForQuotaKey now account KClaude
  | Gemini => isRateLimitedForQuotaKey now account KGeminiAntigravity
              && isRateLimitedForQuotaKey now account KGeminiCli
  end.

Definition clearKey (now : Z) (key : QuotaKey) (r : RateLimitStateV3) : RateLimitStateV3 :=
  match rlGet r key with
  | Some t => if now >=? t then rlPut key None r else r
  | None => r
  end.

Definition clearExpiredRateLimits (now : Z) (account : ManagedAccount) : ManagedAccount :=
  setRateLimits
    (clearKey now KGeminiCli
       (clearKey now KGeminiAntigravity
          (clearKey now KClaude (rateLimitResetTimes account))))
    account.

(** Returns the position of the current account together with the account. *)
Definition getCurrentAccountForFamily (m : AccountManager) (family : ModelFamily)
  : option (nat * ManagedAccount) :=
  let currentIndex := currentAccountIndexByFamily m family in
  if (currentIndex >=? 0) && (currentIndex <? Z.of_nat (length (accounts m)))
  then match accounts m !! Z.to_nat currentIndex with
       | Some a => Some (Z.to_nat currentIndex, a)
       | None => None
       end
  else None.

(** The filter callback prunes every account of the pool as a side effect;
    the surviving entries keep their pool position so that the later write
    to [lastUsed] reaches the pooled object. *)
Fixpoint withPositionsFrom {A} (k : nat) (l : list A) : list (nat * A) :=
  match l with
  | [] => []
  | x :: r => (k, x) :: withPositionsFrom (S k) r
  end.

Definition availableForFamily (now : Z) (family : ModelFamily) (pool : list ManagedAccount)
  : list (nat * ManagedAccount) :=
  List.filter (fun p => negb (isRateLimitedForFamily now (snd p) family))
              (withPositionsFrom 0 pool).

Definition getNextForFamily (now : Z) (family : ModelFamily) (m : AccountManager)
  : option ManagedAccount * AccountManager :=
  let pool := map (clearExpiredRateLimits now) (accounts m) in
  let available := availableForFamily now family pool in
  if Z.of_nat (length available) =? 0 then (None, setAccounts pool m)
  else
    match jsIndex available (Z.rem (cursor m) (Z.of_nat (length available))) with
    | None => (None, setAccounts pool m)
    | Some (pos, account) =>
        let account' := setLastUsed now account in
        (Some account',
         setCursor (cursor m + 1) (setAccounts (<[pos := account']> pool) m))
    end.

Definition getCurrentOrNextForFamily (now : Z) (family : ModelFamily) (m : AccountManager)
  : option ManagedAccount * AccountManager :=
  let fallthrough (m1 : AccountManager) :=
    match getNextForFamily now family m1 with
    | (Some next, m2) => (Some next, setCurrentIndex family (index next) m2)
    | (None, m2) => (None, m2)
    end in
  match getCurrentAccountForFamily m family with
  | Some (pos, current) =>
      let current' := clearExpiredRateLimits now current in
      if negb (isRateLimitedForFamily now current' family)
      then let current'' := setLastUsed now current' in
           (Some current'', setAccounts (<[pos := current'']> (accounts m)) m)
      else fallthrough (setAccounts (<[pos := current']> (accounts m)) m)
  | None => fallthrough m
  end.

(** [markRateLimited(account, ...)], the account being the pooled object at
    position [pos]; an account that is not in the pool leaves the pool as
    it is. *)
Definition markRateLimited (now : Z) (pos : nat) (retryAfterMs : Z)
    (family : ModelFamily) (headerStyle : HeaderStyle) (m : AccountManager) : AccountManager :=
  match accounts m !! pos with
  | Some account =>
      let key := getQuotaKey family headerStyle in
      let account' :=
        setRateLimits (rlPut key (Some (now + retryAfterMs)) (rateLimitResetTimes account))
                      account in
      setAccounts (<[pos := account']> (accounts m)) m
  | None => m
  end.

Definition getAvailableHeaderStyle (now : Z) (account : ManagedAccount) (family : ModelFamily)
  : option HeaderStyle :=
  let account := clearExpiredRateLimits now account in
  match family with
  | Claude => if isRateLimitedForQuotaKey now account KClaude then None else Some Antigravity
  | Gemini =>
      if negb (isRateLimitedForQuotaKey now account KGeminiAntigravity) then Some Antigravity
      else if negb (isRateLimitedForQuotaKey now account KGeminiCli) then Some GeminiCli
      else None
  end.

(** [splice(idx, 1)] followed by the re-indexing [forEach]. *)
Definition reindex (l : list ManagedAccount) : list ManagedAccount :=
  imap (fun i a => setIndex (Z.of_nat i) a) l.

Definition shiftFamilyIndex (idx : nat) (len : nat) (cur : Z) : Z :=
  let cur1 := if cur >? Z.of_nat idx then cur - 1 else cur in
  if cur1 >=? Z.of_nat len then -1 else cur1.

(** [removeAccount(account)] where [indexOf(account)] is [idx]; a position
    outside the pool stands for [indexOf] returning [-1]. *)
Definition removeAccount (idx : nat) (m : AccountManager) : bool * AccountManager :=
  if decide (idx < length (accounts m))%nat then
    let pool := reindex (delete idx (accounts m)) in
    if Z.of_nat (length pool) =? 0 then (true, mkManager pool 0 (-1) (-1))
    else
      let c1 := if cursor m >? Z.of_nat idx then cursor m - 1 else cursor m in
      let c2 := Z.rem c1 (Z.of_nat (length pool)) in
      (true, mkManager pool c2
                       (shiftFamilyIndex idx (length pool) (currentClaude m))
                       (shiftFamilyIndex idx (length pool) (currentGemini m)))
  else (false, m).

(** ** Traces of manager calls and clock advances *)

Inductive Event :=
| EMarkRateLimited (pos : nat) (retryAfterMs : Z) (family : ModelFamily) (headerStyle : HeaderStyle)
| EAdvance (dt : N)
| ESelect (family : ModelFamily).

Definition step (w : AccountManager * Z) (e : Event) : AccountManager * Z :=
  let '(m, now) := w in
  match e with
  | EMarkRateLimited pos r f h => (markRateLimited now pos r f h m, now)
  | EAdvance dt => (m, now + Z.of_N dt)
  | ESelect f => (snd (getCurrentOrNextForFamily now f m), now)
  end.

Definition run (evs : list Event) (w : AccountManager * Z) : AccountManager * Z :=
  foldl step w evs.

(** A quota key is free when it has no reset time, or one that is not in
    the future. *)
Definition keyFree (now : Z) (a : ManagedAccount) (k : QuotaKey) : Prop :=
  match rlGet (rateLimitResetTimes a) k with
  | None => True
  | Some t => t <= now
  end.

Definition hasFreeKey (now : Z) (a : ManagedAccount) (family : ModelFamily) : Prop :=
  match family with
  | Claude => keyFree now a KClaude
  | Gemini => keyFree now a KGeminiAntigravity \/ keyFree now a KGeminiCli
  end.

Definition sampleAccount (i : Z) (r : RateLimitStateV3) : ManagedAccount :=
  mkAccount i None 0 0 (mkParts "token" None None) None None r None.

End Accounts.

(* ===================================================================== *)
(** * Credential store migration (storage.js)                             *)
(* ===================================================================== *)

Module Storage.

Import Accounts.

(** The persisted shape of an account in the three file versions. *)
Module V1.
Record AccountMetadata := mk {
  email : option string;
  refreshToken : string;
  projectId : option string;
  managedProjectId : option string;
  addedAt : Z;
  lastUsed : Z;
  isRateLimited : option bool;
  rateLimitResetTime : option Z;
  lastSwitchReason : option SwitchReason
}.
Record AccountStorage := mkStorage {
  accounts : list AccountMetadata;
  activeIndex : Z
}.
End V1.

Module V2.
Record RateLimitState := mkLimits {
  claude : option Z;
  gemini : option Z
}.
Record AccountMetadata := mk {
  email : option string;
  refreshToken : string;
  projectId : option string;
  managedProjectId : option string;
  addedAt : Z;
  lastUsed : Z;
  lastSwitchReason : option SwitchReason;
  rateLimitResetTimes : option RateLimitState
}.
Record AccountStorage := mkStorage {
  accounts : list AccountMetadata;
  activeIndex : Z
}.
End V2.

Module V3.
Record AccountMetadata := mk {
  email : option string;
  refreshToken : string;
  projectId : option string;
  managedProjectId : option string;
  addedAt : Z;
  lastUsed : Z;
  lastSwitchReason : option SwitchReason;
  rateLimitResetTimes : option RateLimitStateV3
}.
Record AccountStorage := mkStorage {
  accounts : list AccountMetadata;
  activeIndex : Z;
  activeIndexByFamily : option (option Z * option Z)
}.
End V3.

(** JavaScript truthiness of an optional number / boolean field. *)
Definition truthyNum (v : option Z) : bool :=
  match v with Some n => negb (n =? 0) | None => false end.

Definition truthyBool (v : option bool) : bool :=
  match v with Some b => b | None => false end.

(** [v !== undefined && v > now], the comparison being false on [undefined]. *)
Definition gtNow (v : option Z) (now : Z) : bool :=
  match v with Some n => n >? now | None => false end.

Definition migrateAccountV1ToV2 (now : Z) (acc : V1.AccountMetadata) : V2.AccountMetadata :=
  let rateLimitResetTimes :=
    if truthyBool (V1.isRateLimited acc) && truthyNum (V1.rateLimitResetTime acc)
       && gtNow (V1.rateLimitResetTime acc) now
    then V2.mkLimits (V1.rateLimitResetTime acc) (V1.rateLimitResetTime acc)
    else V2.mkLimits None None in
  V2.mk (V1.email acc) (V1.refreshToken acc) (V1.projectId acc) (V1.managedProjectId acc)
        (V1.addedAt acc) (V1.lastUsed acc) (V1.lastSwitchReason acc)
        (match rateLimitResetTimes with
         | V2.mkLimits None None => None
         | r => Some r
         end).

Definition migrateV1ToV2 (now : Z) (v1 : V1.AccountStorage) : V2.AccountStorage :=
  V2.mkStorage (map (migrateAccountV1ToV2 now) (V1.accounts v1)) (V1.activeIndex v1).

Definition migrateAccountV2ToV3 (now : Z) (acc : V2.AccountMetadata) : V3.AccountMetadata :=
  let oldClaude := match V2.rateLimitResetTimes acc with Some r => V2.claude r | None => None end in
  let oldGemini := match V2.rateLimitResetTimes acc with Some r => V2.gemini r | None => None end in
  let r0 := noRateLimits in
  let r1 := if truthyNum oldClaude && gtNow oldClaude now
            then rlPut KClaude oldClaude r0 else r0 in
  let r2 := if truthyNum oldGemini && gtNow oldGemini now
            then rlPut KGeminiAntigravity oldGemini r1 else r1 in
  V3.mk (V2.email acc) (V2.refreshToken acc) (V2.projectId acc) (V2.managedProjectId acc)
        (V2.addedAt acc) (V2.lastUsed acc) (V2.lastSwitchReason acc)
        (match r2 with
         | mkRateLimits None None None => None
         | r => Some r
         end).

Definition migrateV2ToV3 (now : Z) (v2 : V2.AccountStorage) : V3.AccountStorage :=
  V3.mkStorage (map (migrateAccountV2ToV3 now) (V2.accounts v2)) (V2.activeIndex v2) None.

(** What [JSON.parse] of the accounts file yields, by its [version] field;
    [DataInvalid] stands for a document whose [accounts] is not an array or
    whose version is none of 1, 2, 3. A file that is missing or is not
    JSON is [None]. *)
Inductive StoredData :=
| DataV1 (d : V1.AccountStorage)
| DataV2 (d : V2.AccountStorage)
| DataV3 (d : V3.AccountStorage)
| DataInvalid.

(** The range check on [activeIndex]; the test that it is an integer is
    carried by its type. *)
Definition normalizeActiveIndex (s : V3.AccountStorage) : V3.AccountStorage :=
  if (V3.activeIndex s <? 0) || (V3.activeIndex s >=? Z.of_nat (length (V3.accounts s)))
  then V3.mkStorage (V3.accounts s) 0 (V3.activeIndexByFamily s)
  else s.

(** [loadAccounts()]. A migrated storage is also written back to the file;
    a failed write is only logged and does not change the result. *)
Definition loadAccounts (now : Z) (file : option StoredData) : option V3.AccountStorage :=
  match file with
  | None => None
  | Some DataInvalid => None
  | Some (DataV1 data) =>
      Some (normalizeActiveIndex (migrateV2ToV3 now (migrateV1ToV2 now data)))
  | Some (DataV2 data) => Some (normalizeActiveIndex (migrateV2ToV3 now data))
  | Some (DataV3 data) => Some (normalizeActiveIndex data)
  end.

(** ** Specification vocabulary *)

(** The per-account fields a migration must carry over untouched. *)
Definition Core : Type :=
  option string * string * option string * option string * Z * Z * option SwitchReason.

Definition coreV1 (a : V1.AccountMetadata) : Core :=
  (V1.email a, V1.refreshToken a, V1.projectId a, V1.managedProjectId a,
   V1.addedAt a, V1.lastUsed a, V1.lastSwitchReason a).
Definition coreV2 (a : V2.AccountMetadata) : Core :=
  (V2.email a, V2.refreshToken a, V2.projectId a, V2.managedProjectId a,
   V2.addedAt a, V2.lastUsed a, V2.lastSwitchReason a).
Definition coreV3 (a : V3.AccountMetadata) : Core :=
  (V3.email a, V3.refreshToken a, V3.projectId a, V3.managedProjectId a,
   V3.addedAt a, V3.lastUsed a, V3.lastSwitchReason a).

(** A reset time survives when it is strictly in the future. *)
Definition keepFuture (now : Z) (t : option Z) : option Z :=
  match t with
  | Some n => if decide (now < n) then Some n else None
  | None => None
  end.

(** The v1 scalar, when the account is flagged rate-limited. *)
Definition scalarV1 (a : V1.AccountMetadata) : option Z :=
  match V1.isRateLimited a with
  | Some true => V1.rateLimitResetTime a
  | _ => None
  end.

Definition resetV2Claude (a : V2.AccountMetadata) : option Z :=
  match V2.rateLimitResetTimes a with Some r => V2.claude r | None => None end.
Definition resetV2Gemini (a : V2.AccountMetadata) : option Z :=
  match V2.rateLimitResetTimes a with Some r => V2.gemini r | None => None end.
Definition resetV3 (a : V3.AccountMetadata) (k : QuotaKey) : option Z :=
  match V3.rateLimitResetTimes a with Some r => rlGet r k | None => None end.

Definition migratedV1V2 (now : Z) (a : V1.AccountMetadata) (b : V2.AccountMetadata) : Prop :=
  coreV2 b = coreV1 a
  /\ resetV2Claude b = keepFuture now (scalarV1 a)
  /\ resetV2Gemini b = keepFuture now (scalarV1 a).

Definition migratedV2V3 (now : Z) (a : V2.AccountMetadata) (b : V3.AccountMetadata) : Prop :=
  coreV3 b = coreV2 a
  /\ resetV3 b KClaude = keepFuture now (resetV2Claude a)
  /\ resetV3 b KGeminiAntigravity = keepFuture now (resetV2Gemini a)
  /\ resetV3 b KGeminiCli = None.

Definition migratedV1V3 (now : Z) (a : V1.AccountMetadata) (b : V3.AccountMetadata) : Prop :=
  coreV3 b = coreV1 a
  /\ resetV3 b KClaude = keepFuture now (scalarV1 a)
  /\ resetV3 b KGeminiAntigravity = keepFuture now (scalarV1 a)
  /\ resetV3 b KGeminiCli = None.

Definition sampleV1 : V1.AccountStorage :=
  V1.mkStorage
    [V1.mk (Some "a@example.com") "rt-1" None (Some "proj") 10 20 (Some true) (Some 9000)
           (Some RateLimit);
     V1.mk None "rt-2" None None 11 21 (Some true) (Some 500) None;
     V1.mk None "rt-3" None None 12 22 None (Some 9000) None]
    0.

End Storage.

(* ===================================================================== *)
(** * Signature cache (cache/signature-cache.js)                          *)
(* ===================================================================== *)

Module SignatureCache.

Record CacheEntry := mkEntry {
  value : string;
  timestamp : Z;
  thinkingText : option string;
  toolIds : option (list string)
}.

Record Stats := mkStats {
  memoryHits : Z;
  diskHits : Z;
  misses : Z;
  writes : Z
}.

(** The cache object. [cache] is the in-memory [Map]. *)
Record t := mkCache {
  cache : gmap string CacheEntry;
  memoryTtlMs : Z;
  diskTtlMs : Z;
  enabled : bool;
  dirty : bool;
  stats : Stats
}.

(** The cache file as [JSON.parse] returns it. The file system holds
    [None] when the file is absent or cannot be parsed. The TTLs and the
    statistics are written along but never read back, so they are not
    kept here. *)
Record CacheFile := mkFile {
  version : string;
  entries : gmap string CacheEntry
}.

Definition withCache (m : gmap string CacheEntry) (c : t) : t :=
  mkCache m (memoryTtlMs c) (diskTtlMs c) (enabled c) (dirty c) (stats c).
Definition withDirty (d : bool) (c : t) : t :=
  mkCache (cache c) (memoryTtlMs c) (diskTtlMs c) (enabled c) d (stats c).
Definition withStats (s : Stats) (c : t) : t :=
  mkCache (cache c) (memoryTtlMs c) (diskTtlMs c) (enabled c) (dirty c) s.

Definition hit (s : Stats) : Stats :=
  mkStats (memoryHits s + 1) (diskHits s) (misses s) (writes s).
Definition miss (s : Stats) : Stats :=
  mkStats (memoryHits s) (diskHits s) (misses s + 1) (writes s).
Definition wrote (s : Stats) : Stats :=
  mkStats (memoryHits s) (diskHits s) (misses s) (writes s + 1).

(** The [{ value, timestamp }] projection written by [store], by
    [loadFromDisk] and by the merge of [saveToDisk]. *)
Definition plain (e : CacheEntry) : CacheEntry :=
  mkEntry (value e) (timestamp e) None None.

Definition store (now : Z) (key signature : string) (c : t) : t :=
  if enabled c
  then withDirty true (withCache (<[key := mkEntry signature now None None]> (cache c)) c)
  else c.

Definition retrieve (now : Z) (key : string) (c : t) : option string * t :=
  if enabled c then
    match cache c !! key with
    | Some entry =>
        let age := now - timestamp entry in
        if age <=? memoryTtlMs c
        then (Some (value entry), withStats (hit (stats c)) c)
        else (None, withStats (miss (stats c)) (withCache (delete key (cache c)) c))
    | None => (None, withStats (miss (stats c)) c)
    end
  else (None, c).

Definition has (now : Z) (key : string) (c : t) : bool :=
  if enabled c then
    match cache c !! key with
    | Some entry => now - timestamp entry <=? memoryTtlMs c
    | None => false
    end
  else false.

Definition youngerThan (now ttl : Z) (kv : string * CacheEntry) : Prop :=
  now - timestamp (snd kv) <= ttl.

#[export] Instance youngerThan_dec now ttl kv : Decision (youngerThan now ttl kv).
Proof. unfold youngerThan. apply _. Defined.

(** [saveToDisk]: [ioOk] tells whether the directory and file operations
    succeed. [ioOk = false] is a save in which one of them throws before
    the cache file is opened for writing: the method returns [false] and
    neither the cache object nor the file has changed. A fallback copy
    that fails part way is in [ThinkingCache.saveToDiskIo]. *)
Definition saveToDisk (now : Z) (ioOk : bool) (c : t) (disk : option CacheFile)
  : bool * t * option CacheFile :=
  if ioOk then
    let existingEntries := match disk with Some f => entries f | None => ∅ end in
    let validDiskEntries := filter (youngerThan now (diskTtlMs c)) existingEntries in
    let mergedEntries := (plain <$> cache c) ∪ validDiskEntries in
    (true, withDirty false (withStats (wrote (stats c)) c), Some (mkFile "1.0" mergedEntries))
  else (false, c, disk).

Definition flush (now : Z) (ioOk : bool) (c : t) (disk : option CacheFile)
  : bool * t * option CacheFile :=
  if enabled c then saveToDisk now ioOk c disk else (true, c, disk).

Definition loadFromDisk (now : Z) (c : t) (disk : option CacheFile) : t :=
  match disk with
  | Some f =>
      if String.eqb (version f) "1.0"
      then withCache ((plain <$> filter (youngerThan now (diskTtlMs c)) (entries f)) ∪ cache c) c
      else c
  | None => c
  end.

Record SignatureCacheConfig := mkConfig {
  cfg_enabled : bool;
  memory_ttl_seconds : Z;
  disk_ttl_seconds : Z;
  write_interval_seconds : Z
}.

(** [new SignatureCache(config)] *)
Definition create (now : Z) (config : SignatureCacheConfig) (disk : option CacheFile) : t :=
  let c := mkCache ∅ (memory_ttl_seconds config * 1000) (disk_ttl_seconds config * 1000)
                   (cfg_enabled config) false (mkStats 0 0 0 0) in
  if cfg_enabled config then loadFromDisk now c disk else c.

Definition cleanupExpired (now : Z) (c : t) : t :=
  withCache (filter (youngerThan now (memoryTtlMs c)) (cache c)) c.

Definition sampleCache : t := create 0 (mkConfig true 1 10 60) None.

End SignatureCache.

(* ===================================================================== *)
(** * SHA-256 (the digest behind [crypto.createHash("sha256")])           *)
(* ===================================================================== *)

Module Sha256.

Definition w32 (x : Z) : Z := Z.land x 0xffffffff.

Definition rotr (n x : Z) : Z := Z.lor (Z.shiftr x n) (w32 (Z.shiftl x (32 - n))).

Definition Ch (x y z : Z) : Z :=
  Z.lxor (Z.land x y) (Z.land (Z.lxor x 0xffffffff) z).
Definition Maj (x y z : Z) : Z :=
  Z.lxor (Z.lxor (Z.land x y) (Z.land x z)) (Z.land y z).
Definition bigSigma0 (x : Z) : Z := Z.lxor (Z.lxor (rotr 2 x) (rotr 13 x)) (rotr 22 x).
Definition bigSigma1 (x : Z) : Z := Z.lxor (Z.lxor (rotr 6 x) (rotr 11 x)) (rotr 25 x).
Definition smallSigma0 (x : Z) : Z := Z.lxor (Z.lxor (rotr 7 x) (rotr 18 x)) (Z.shiftr x 3).
Definition smallSigma1 (x : Z) : Z := Z.lxor (Z.lxor (rotr 17 x) (rotr 19 x)) (Z.shiftr x 10).

(** The round constants are the first 32 bits of the fractional parts of
    the cube roots of the first 64 primes, the initial hash value those of
    the square roots of the first 8 primes. *)
Definition isPrime (n : Z) : bool :=
  forallb (fun d => negb (n mod Z.of_nat d =? 0)) (seq 2 (Z.to_nat n - 2)).

Definition primes : list Z :=
  List.filter isPrime (map Z.of_nat (seq 2 310)).

(** The integer cube root, one bit at a time. *)
Definition icbrt (n : Z) : Z :=
  foldl (fun r b => let r' := r + Z.shiftl 1 (Z.of_nat b) in
                    if r' * r' * r' <=? n then r' else r)
        0 (rev (seq 0 44)).

Definition K : list Z :=
  map (fun q => w32 (icbrt (Z.shiftl q 96))) primes.

Definition H0 : list Z :=
  map (fun q => w32 (Z.sqrt (Z.shiftl q 64))) (take 8 primes).

Definition bytesOfString (s : string) : list Z :=
  map (fun c => Z.of_N (Ascii.N_of_ascii c)) (String.list_ascii_of_string s).

(** The message followed by the bit 1, zero bytes up to 56 modulo 64, and
    the bit length on eight big-endian bytes. *)
Definition pad (msg : list Z) : list Z :=
  let len := Z.of_nat (length msg) in
  let zeros := Z.to_nat ((55 - len) mod 64) in
  let bits := len * 8 in
  msg ++ [0x80] ++ replicate zeros 0
      ++ map (fun i => Z.land (Z.shiftr bits (8 * i)) 0xff) [7; 6; 5; 4; 3; 2; 1; 0].

Fixpoint wordsOf (fuel : nat) (bytes : list Z) : list Z :=
  match fuel, bytes with
  | S fuel', a :: b :: c :: d :: rest =>
      (Z.shiftl a 24 + Z.shiftl b 16 + Z.shiftl c 8 + d) :: wordsOf fuel' rest
  | _, _ => []
  end.

Fixpoint blocksOf (fuel : nat) (ws : list Z) : list (list Z) :=
  match fuel, ws with
  | S fuel', _ :: _ => take 16 ws :: blocksOf fuel' (drop 16 ws)
  | _, _ => []
  end.

Definition wordAt (w : list Z) (i : nat) : Z := nth i w 0.

Fixpoint schedule (n : nat) (w : list Z) : list Z :=
  match n with
  | O => w
  | S n' =>
      let t := length w in
      schedule n'
        (w ++ [w32 (smallSigma1 (wordAt w (t - 2)) + wordAt w (t - 7)
                    + smallSigma0 (wordAt w (t - 15)) + wordAt w (t - 16))])
  end.

Definition round (st : list Z) (kw : Z * Z) : list Z :=
  match st with
  | [a; b; c; d; e; f; g; h] =>
      let t1 := h + bigSigma1 e + Ch e f g + fst kw + snd kw in
      let t2 := bigSigma0 a + Maj a b c in
      [w32 (t1 + t2); a; b; c; w32 (d + t1); e; f; g]
  | _ => st
  end.

Definition compress (h : list Z) (block : list Z) : list Z :=
  let w := schedule 48 block in
  let st := foldl round h (zip K w) in
  zip_with (fun x y => w32 (x + y)) h st.

Definition digest (msg : list Z) : list Z :=
  let padded := pad msg in
  let ws := wordsOf (length padded) padded in
  foldl compress H0 (blocksOf (length ws) ws).

Definition hexDigit (n : Z) : Ascii.ascii :=
  Ascii.ascii_of_N (Z.to_N (if n <? 10 then 48 + n else 87 + n)).

Definition hexOfWord (w : Z) : list Ascii.ascii :=
  map (fun i => hexDigit ((Z.shiftr w (4 * i)) mod 16)) [7; 6; 5; 4; 3; 2; 1; 0].

(** [createHash("sha256").update(s, "utf8").digest("hex")], the string
    being its UTF-8 bytes. *)
Definition sha256_hex (s : string) : string :=
  String.string_of_list_ascii (List.concat (map hexOfWord (digest (bytesOfString s)))).

(** ** Hexadecimal characters *)

Definition isHexChar (c : Ascii.ascii) : bool :=
  let n := Z.of_N (Ascii.N_of_ascii c) in
  ((48 <=? n) && (n <=? 57)) || ((97 <=? n) && (n <=? 102)).

End Sha256.

(* ===================================================================== *)
(** * JavaScript values and strings                                       *)
(* ===================================================================== *)

Module JS.

(** A parsed JSON document. An absent property ([undefined]) is the
    [None] of a lookup; numbers are the integers the request path uses;
    an object keeps its properties in insertion order. A string is
    well-formed Unicode text held as its UTF-8 bytes: [utf16Length] counts
    its UTF-16 code units and [trim] strips the white space of ECMAScript;
    [toLowerCase] is JavaScript's on ASCII text. *)
#[warnings="-register-all"] Inductive JSON :=
| JNull
| JBool (b : bool)
| JNum (n : Z)
| JStr (s : string)
| JArr (items : list JSON)
| JObj (fields : list (string * JSON)).

Fixpoint assoc (k : string) (fields : list (string * JSON)) : option JSON :=
  match fields with
  | [] => None
  | (k', v) :: rest => if String.eqb k k' then Some v else assoc k rest
  end.

(** [v.k] for a property name that is neither an array index nor
    [length]: only objects have such a property. *)
Definition get (k : string) (v : JSON) : option JSON :=
  match v with
  | JObj fields => assoc k fields
  | _ => None
  end.

(** [v?.k] *)
Definition getO (k : string) (v : option JSON) : option JSON :=
  match v with Some x => get k x | None => None end.

(** [o.k = v] on the property list of an object. *)
Fixpoint setField (k : string) (v : JSON) (fields : list (string * JSON))
  : list (string * JSON) :=
  match fields with
  | [] => [(k, v)]
  | (k', v') :: rest =>
      if String.eqb k k' then (k, v) :: rest else (k', v') :: setField k v rest
  end.

Definition truthy (v : JSON) : bool :=
  match v with
  | JNull => false
  | JBool b => b
  | JNum n => negb (n =? 0)
  | JStr s => negb (String.eqb s "")
  | JArr _ => true
  | JObj _ => true
  end.

Definition truthyO (v : option JSON) : bool :=
  match v with Some x => truthy x | None => false end.

(** [v && typeof v === "object"] *)
Definition isObject (v : JSON) : bool :=
  match v with JArr _ | JObj _ => true | _ => false end.

(** [a ?? b] *)
Definition coalesce (a b : option JSON) : option JSON :=
  match a with
  | None | Some JNull => b
  | _ => a
  end.

(** The own enumerable properties copied by [{...v}]. *)
Definition spread (v : JSON) : list (string * JSON) :=
  match v with
  | JObj fields => fields
  | JArr items => imap (fun i x => (pretty i, x)) items
  | JStr s => imap (fun i c => (pretty i, JStr (String c EmptyString)))
                   (String.list_ascii_of_string s)
  | _ => []
  end.

(** ** Strings *)

Definition byteOf (c : Ascii.ascii) : Z := Z.of_N (Ascii.N_of_ascii c).

(** The white space and line terminators of one byte: U+0009 to U+000D
    and U+0020. *)
Definition isSpace (c : Ascii.ascii) : bool :=
  let n := Z.of_N (Ascii.N_of_ascii c) in
  (n =? 32) || ((9 <=? n) && (n <=? 13)).

(** The one of two bytes: U+00A0. *)
Definition isSpace2 (c1 c2 : Ascii.ascii) : bool :=
  (byteOf c1 =? 194) && (byteOf c2 =? 160).

(** Those of three bytes: U+1680, U+2000 to U+200A, U+2028, U+2029,
    U+202F, U+205F, U+3000 and U+FEFF. *)
Definition isSpace3 (c1 c2 c3 : Ascii.ascii) : bool :=
  let a := byteOf c1 in
  let b := byteOf c2 in
  let c := byteOf c3 in
  ((a =? 225) && (b =? 154) && (c =? 128))
  || ((a =? 226) && (b =? 128)
      && (((128 <=? c) && (c <=? 138)) || (c =? 168) || (c =? 169) || (c =? 175)))
  || ((a =? 226) && (b =? 129) && (c =? 159))
  || ((a =? 227) && (b =? 128) && (c =? 128))
  || ((a =? 239) && (b =? 187) && (c =? 191)).

(** [trimStart] on the bytes. *)
Fixpoint trimStartL (l : list Ascii.ascii) : list Ascii.ascii :=
  match l with
  | c1 :: r1 =>
      if isSpace c1 then trimStartL r1
      else match r1 with
           | c2 :: r2 =>
               if isSpace2 c1 c2 then trimStartL r2
               else match r2 with
                    | c3 :: r3 => if isSpace3 c1 c2 c3 then trimStartL r3 else l
                    | [] => l
                    end
           | [] => l
           end
  | [] => []
  end.

(** [trimEnd] on the bytes taken from the last to the first. *)
Fixpoint trimEndRevL (l : list Ascii.ascii) : list Ascii.ascii :=
  match l with
  | c1 :: r1 =>
      if isSpace c1 then trimEndRevL r1
      else match r1 with
           | c2 :: r2 =>
               if isSpace2 c2 c1 then trimEndRevL r2
               else match r2 with
                    | c3 :: r3 => if isSpace3 c3 c2 c1 then trimEndRevL r3 else l
                    | [] => l
                    end
           | [] => l
           end
  | [] => []
  end.

Definition trimL (l : list Ascii.ascii) : list Ascii.ascii :=
  rev (trimEndRevL (rev (trimStartL l))).

(** [s.trim()]: the white space and the line terminators of ECMAScript
    are stripped from both ends. In well-formed UTF-8 the byte sequences
    of [isSpace], [isSpace2] and [isSpace3] occur at an end of the text
    only as these characters. *)
Definition trim (s : string) : string :=
  String.string_of_list_ascii (trimL (String.list_ascii_of_string s)).

(** [s.toLowerCase()] on ASCII text: the letters A to Z. JavaScript also
    lowers the letters outside ASCII; a statement that depends on the
    lowered text is made for ASCII text, see [isAscii]. *)
Definition lowerChar (c : Ascii.ascii) : Ascii.ascii :=
  let n := Ascii.N_of_ascii c in
  if ((65 <=? n) && (n <=? 90))%N then Ascii.ascii_of_N (n + 32) else c.

Definition toLowerCase (s : string) : string :=
  String.string_of_list_ascii (map lowerChar (String.list_ascii_of_string s)).

Definition isAscii (s : string) : bool :=
  forallb (fun c => byteOf c <? 128) (String.list_ascii_of_string s).

(** [s.length]: the UTF-16 code units of a text held as UTF-8 bytes. A
    continuation byte adds none; the lead byte of a four-byte sequence
    begins a character outside the basic plane, which takes two. *)
Definition utf16Units (c : Ascii.ascii) : nat :=
  let n := byteOf c in
  if (128 <=? n) && (n <? 192) then 0%nat
  else if 240 <=? n then 2%nat else 1%nat.

Definition utf16Length (s : string) : nat :=
  sum_list (map utf16Units (String.list_ascii_of_string s)).

(** [s.slice(0, n)] *)
Definition sliceTo (n : nat) (s : string) : string :=
  String.string_of_list_ascii (take n (String.list_ascii_of_string s)).

Fixpoint includesFrom (needle hay : string) : bool :=
  String.prefix needle hay
  || match hay with
     | EmptyString => false
     | String _ rest => includesFrom needle rest
     end.

(** [hay.includes(needle)] *)
Definition includes (hay needle : string) : bool := includesFrom needle hay.

Definition nonEmpty (s : string) : bool := negb (String.eqb s "").

(** [parts.filter(Boolean).join(sep)] *)
Definition joinNonEmpty (sep : string) (parts : list string) : string :=
  String.concat sep (List.filter nonEmpty parts).

(** The text begins with a white-space character; the text, read from its
    last byte, ends with one. *)
Definition startsBlank (l : list Ascii.ascii) : bool :=
  match l with
  | c1 :: r1 =>
      isSpace c1
      || match r1 with
         | c2 :: r2 =>
             isSpace2 c1 c2
             || match r2 with
                | c3 :: _ => isSpace3 c1 c2 c3
                | [] => false
                end
         | [] => false
         end
  | [] => false
  end.

Definition endsBlankRev (l : list Ascii.ascii) : bool :=
  match l with
  | c1 :: r1 =>
      isSpace c1
      || match r1 with
         | c2 :: r2 =>
             isSpace2 c2 c1
             || match r2 with
                | c3 :: _ => isSpace3 c3 c2 c1
                | [] => false
                end
         | [] => false
         end
  | [] => false
  end.

(** A byte of ASCII text that is not white space. *)
Definition isPlain (c : Ascii.ascii) : bool := negb (isSpace c) && (byteOf c <? 128).

End JS.

(* ===================================================================== *)
(** * Request transformer (request.js, transform/claude.js)               *)
(* ===================================================================== *)

Module Request.

Import JS.

Definition MIN_SIGNATURE_LENGTH : nat := 50.

(** ** Signature session key *)

(** [typeof v === "string" && v.trim()], yielding the trimmed text. *)
Definition nonBlankString (v : option JSON) : option string :=
  match v with
  | Some (JStr s) => if nonEmpty (trim s) then Some (trim s) else None
  | _ => None
  end.

Definition trimmedOr (fallback : string) (v : option string) : string :=
  match v with
  | Some s => if nonEmpty (trim s) then trim s else fallback
  | None => fallback
  end.

Definition buildSignatureSessionKey (sessionId model : string)
    (conversationKey projectKey : option string) : string :=
  let modelKey := if nonEmpty (trim model) then toLowerCase model else "unknown" in
  let projectPart := trimmedOr "default" projectKey in
  let conversationPart := trimmedOr "default" conversationKey in
  sessionId +:+ ":" +:+ modelKey +:+ ":" +:+ projectPart +:+ ":" +:+ conversationPart.

Definition hashConversationSeed (seed : string) : string :=
  sliceTo 16 (Sha256.sha256_hex seed).

Fixpoint firstBlockText (blocks : list JSON) : string :=
  match blocks with
  | [] => ""
  | block :: rest =>
      if isObject block then
        match get "text" block with
        | Some (JStr t) => t
        | Some tv =>
            if isObject tv then
              match get "text" tv with
              | Some (JStr t) => t
              | _ => firstBlockText rest
              end
            else firstBlockText rest
        | None => firstBlockText rest
        end
      else firstBlockText rest
  end.

Definition extractTextFromContent (content : option JSON) : string :=
  match content with
  | Some (JStr s) => s
  | Some (JArr blocks) => firstBlockText blocks
  | _ => ""
  end.

Definition hasRole (role : string) (message : JSON) : bool :=
  match get "role" message with
  | Some (JStr r) => String.eqb r role
  | _ => false
  end.

Definition extractConversationSeedFromMessages (messages : list JSON) : string :=
  let system := List.find (hasRole "system") messages in
  let users := List.filter (hasRole "user") messages in
  let firstUser := head users in
  let lastUser := last users in
  let systemText := match system with
                    | Some m => extractTextFromContent (get "content" m)
                    | None => ""
                    end in
  let userText := match firstUser with
                  | Some m => extractTextFromContent (get "content" m)
                  | None => ""
                  end in
  let fallbackUserText :=
    match lastUser with
    | Some m => if nonEmpty userText then "" else extractTextFromContent (get "content" m)
    | None => ""
    end in
  joinNonEmpty "|" [systemText; if nonEmpty userText then userText else fallbackUserText].

Definition partsText (content : JSON) : option string :=
  match get "parts" content with
  | Some (JArr ps) => Some (extractTextFromContent (Some (JArr ps)))
  | _ => None
  end.

Definition extractConversationSeedFromContents (contents : list JSON) : string :=
  let users := List.filter (hasRole "user") contents in
  let firstUser := head users in
  let lastUser := last users in
  let primaryUser := match firstUser with
                     | Some c => default "" (partsText c)
                     | None => ""
                     end in
  if nonEmpty primaryUser then primaryUser
  else match lastUser with
       | Some c => default "" (partsText c)
       | None => ""
       end.

(** The client-supplied identifiers, in the order they are tried. *)
Definition candidateFields (payload : JSON) : list (option JSON) :=
  [ get "conversationId" payload;
    get "conversation_id" payload;
    get "thread_id" payload;
    get "threadId" payload;
    get "chat_id" payload;
    get "chatId" payload;
    get "sessionId" payload;
    get "session_id" payload;
    getO "conversation_id" (get "metadata" payload);
    getO "conversationId" (get "metadata" payload);
    getO "thread_id" (get "metadata" payload);
    getO "threadId" (get "metadata" payload) ].

Fixpoint firstNonBlank (candidates : list (option JSON)) : option string :=
  match candidates with
  | [] => None
  | c :: rest =>
      match nonBlankString c with
      | Some s => Some s
      | None => firstNonBlank rest
      end
  end.

Definition conversationSeed (payload : JSON) : string :=
  let systemSeed :=
    extractTextFromContent
      (coalesce (getO "parts" (get "systemInstruction" payload))
         (coalesce (get "systemInstruction" payload)
            (coalesce (get "system" payload) (get "system_instruction" payload)))) in
  let messageSeed :=
    match get "messages" payload with
    | Some (JArr messages) => extractConversationSeedFromMessages messages
    | _ => match get "contents" payload with
           | Some (JArr contents) => extractConversationSeedFromContents contents
           | _ => ""
           end
    end in
  joinNonEmpty "|" [systemSeed; messageSeed].

Definition resolveConversationKey (requestPayload : JSON) : option string :=
  match firstNonBlank (candidateFields requestPayload) with
  | Some key => Some key
  | None =>
      let seed := conversationSeed requestPayload in
      if nonEmpty seed then Some ("seed-" +:+ hashConversationSeed seed) else None
  end.

Fixpoint resolveConversationKeyFromRequests (requestObjects : list JSON) : option string :=
  match requestObjects with
  | [] => None
  | req :: rest =>
      match resolveConversationKey req with
      | Some key => Some key
      | None => resolveConversationKeyFromRequests rest
      end
  end.

Definition resolveProjectKey (candidate fallback : option string) : option string :=
  match candidate with
  | Some c => if nonEmpty (trim c) then Some (trim c)
              else match fallback with
                   | Some f => if nonEmpty (trim f) then Some (trim f) else None
                   | None => None
                   end
  | None => match fallback with
            | Some f => if nonEmpty (trim f) then Some (trim f) else None
            | None => None
            end
  end.

(** The key stored on [request.sessionId] for a body that is not yet
    wrapped: the conversation key of the payload and the project key of the
    caller's project id. *)
Definition sessionKeyOf (sessionId model : string) (projectId : option string)
    (payload : JSON) : string :=
  buildSignatureSessionKey sessionId model
    (resolveConversationKey payload) (resolveProjectKey projectId None).

Definition samplePayload : JSON :=
  JObj [("systemInstruction", JObj [("parts", JArr [JObj [("text", JStr "You are helpful")]])]);
        ("contents", JArr [JObj [("role", JStr "user");
                                 ("parts", JArr [JObj [("text", JStr "hello")]])]])].

(** ** Thinking configuration (step 5 of the transformer) *)

Definition CLAUDE_THINKING_MAX_OUTPUT_TOKENS : Z := 64000.

Inductive ThinkingTier := Low | Medium | High.

(** [THINKING_TIER_BUDGETS.claude] *)
Definition claudeTierBudget (tier : ThinkingTier) : Z :=
  match tier with Low => 8192 | Medium => 16384 | High => 32768 end.

(** The normalized thinking configuration of the request helpers. *)
Record ThinkingConfig := mkThinking {
  thinkingBudget : option Z;
  includeThoughts : option bool
}.

(** [generationConfig]: its two spellings of the output limit (numbers;
    [null] counts as absent), its [thinkingConfig], and the properties the
    transformer does not look at. *)
Record GenerationConfig := mkGeneration {
  maxOutputTokens : option Z;
  max_output_tokens : option Z;
  thinkingConfig : option JSON;
  otherFields : list (string * JSON)
}.

Definition isClaudeModel (model : string) : bool :=
  includes (toLowerCase model) "claude".

Definition isClaudeThinkingModel (model : string) : bool :=
  let lower := toLowerCase model in
  includes lower "claude" && includes lower "thinking".

Definition positiveBudget (b : option Z) : option Z :=
  match b with
  | Some n => if n >? 0 then Some n else None
  | None => None
  end.

Definition optField (k : string) (v : option JSON) : list (string * JSON) :=
  match v with Some x => [(k, x)] | None => [] end.

Definition buildClaudeThinkingConfig (includeThoughts : bool) (thinkingBudget : option Z) : JSON :=
  JObj (("include_thoughts", JBool includeThoughts)
        :: optField "thinking_budget" (JNum <$> positiveBudget thinkingBudget)).

Definition ensureClaudeMaxOutputTokens (generationConfig : GenerationConfig)
    (thinkingBudget : Z) : GenerationConfig :=
  let currentMax := match maxOutputTokens generationConfig with
                    | Some n => Some n
                    | None => max_output_tokens generationConfig
                    end in
  let tooSmall := match currentMax with
                  | Some n => (n =? 0) || (n <=? thinkingBudget)
                  | None => true
                  end in
  if tooSmall
  then mkGeneration (Some CLAUDE_THINKING_MAX_OUTPUT_TOKENS) None
                    (thinkingConfig generationConfig) (otherFields generationConfig)
  else generationConfig.

Definition withThinkingConfig (tc : option JSON) (g : GenerationConfig) : GenerationConfig :=
  mkGeneration (maxOutputTokens g) (max_output_tokens g) tc (otherFields g).

(** The value of [requestPayload.generationConfig] after the thinking
    step, from the resolver's tier output, the normalized user
    configuration and the body's own [generationConfig]. *)
Definition applyThinkingConfig (isClaudeThinking : bool)
    (tierThinkingBudget : option Z) (tierThinkingLevel : option string)
    (normalizedThinking : option ThinkingConfig)
    (rawGenerationConfig : option GenerationConfig) : option GenerationConfig :=
  match normalizedThinking with
  | Some normalized =>
      let thinkingBudget := match tierThinkingBudget with
                            | Some b => Some b
                            | None => thinkingBudget normalized
                            end in
      let thinkingConfig :=
        if isClaudeThinking
        then buildClaudeThinkingConfig (default true (includeThoughts normalized)) thinkingBudget
        else match tierThinkingLevel with
             | Some level =>
                 if nonEmpty level
                 then JObj (optField "includeThoughts" (JBool <$> includeThoughts normalized)
                            ++ [("thinkingLevel", JStr level)])
                 else JObj (optField "includeThoughts" (JBool <$> includeThoughts normalized)
                            ++ optField "thinkingBudget" (JNum <$> positiveBudget thinkingBudget))
             | None =>
                 JObj (optField "includeThoughts" (JBool <$> includeThoughts normalized)
                       ++ optField "thinkingBudget" (JNum <$> positiveBudget thinkingBudget))
             end in
      match rawGenerationConfig with
      | Some raw =>
          let raw1 := withThinkingConfig (Some thinkingConfig) raw in
          match positiveBudget thinkingBudget with
          | Some b => if isClaudeThinking
                      then Some (ensureClaudeMaxOutputTokens raw1 b)
                      else Some raw1
          | None => Some raw1
          end
      | None =>
          match positiveBudget thinkingBudget with
          | Some b => if isClaudeThinking
                      then Some (mkGeneration (Some CLAUDE_THINKING_MAX_OUTPUT_TOKENS) None
                                              (Some thinkingConfig) [])
                      else Some (mkGeneration None None (Some thinkingConfig) [])
          | None => Some (mkGeneration None None (Some thinkingConfig) [])
          end
      end
  | None =>
      match rawGenerationConfig with
      | Some raw => Some (withThinkingConfig None raw)
      | None => None
      end
  end.

(** The output limit a prepared body carries: [maxOutputTokens], else
    [max_output_tokens]. *)
Definition effectiveMax (g : GenerationConfig) : option Z :=
  match maxOutputTokens g with
  | Some n => Some n
  | None => max_output_tokens g
  end.

(** ** Tool-id pairing: first and second pass (step 9) *)

(** [list.map] with a callback that updates captured state. *)
Fixpoint mapAccum {S A B} (f : S -> A -> S * B) (st : S) (l : list A) : S * list B :=
  match l with
  | [] => (st, [])
  | x :: rest =>
      let '(st1, y) := f st x in
      let '(st2, ys) := mapAccum f st1 rest in
      (st2, y :: ys)
  end.

Record PairingState := mkPairing {
  toolCallCounter : nat;
  pendingCallIdsByName : gmap string (list JSON)
}.

(** [pendingCallIdsByName.get(name) || []] *)
Definition queueOf (pending : gmap string (list JSON)) (name : string) : list JSON :=
  default [] (pending !! name).

(** The callback of the outer [contents.map]: contents without a [parts]
    array are returned as they are. *)
Definition overParts {S} (f : S -> JSON -> S * JSON) (st : S) (content : JSON) : S * JSON :=
  match get "parts" content with
  | Some (JArr ps) =>
      let '(st1, newParts) := mapAccum f st ps in
      (st1, JObj (setField "parts" (JArr newParts) (spread content)))
  | _ => (st, content)
  end.

Definition assignCallId (st : PairingState) (functionCall : JSON)
  : PairingState * list (string * JSON) :=
  let call0 := spread functionCall in
  let '(counter, call) :=
    if truthyO (assoc "id" call0) then (toolCallCounter st, call0)
    else (S (toolCallCounter st),
          setField "id" (JStr ("tool-call-" +:+ pretty (S (toolCallCounter st)))) call0) in
  let nameKey := match assoc "name" call with
                 | Some (JStr n) => n
                 | _ => "tool-" +:+ pretty counter
                 end in
  let queue := queueOf (pendingCallIdsByName st) nameKey in
  (mkPairing counter
             (<[nameKey := queue ++ [default JNull (assoc "id" call)]]> (pendingCallIdsByName st)),
   call).

Definition firstPassPart (st : PairingState) (part : JSON) : PairingState * JSON :=
  if isObject part && truthyO (get "functionCall" part) then
    match get "functionCall" part with
    | Some functionCall =>
        let '(st1, call) := assignCallId st functionCall in
        (st1, JObj (setField "functionCall" (JObj call) (spread part)))
    | None => (st, part)
    end
  else (st, part).

Definition firstPass (contents : list JSON) : PairingState * list JSON :=
  mapAccum (overParts firstPassPart) (mkPairing 0 ∅) contents.

Definition matchResponseId (pending : gmap string (list JSON)) (functionResponse : JSON)
  : gmap string (list JSON) * list (string * JSON) :=
  let resp := spread functionResponse in
  if negb (truthyO (assoc "id" resp)) then
    match assoc "name" resp with
    | Some (JStr name) =>
        match pending !! name with
        | Some (id :: queue) => (<[name := queue]> pending, setField "id" id resp)
        | _ => (pending, resp)
        end
    | _ => (pending, resp)
    end
  else (pending, resp).

Definition secondPassPart (pending : gmap string (list JSON)) (part : JSON)
  : gmap string (list JSON) * JSON :=
  if isObject part && truthyO (get "functionResponse" part) then
    match get "functionResponse" part with
    | Some functionResponse =>
        let '(pending1, resp) := matchResponseId pending functionResponse in
        (pending1, JObj (setField "functionResponse" (JObj resp) (spread part)))
    | None => (pending, part)
    end
  else (pending, part).

Definition secondPass (pending : gmap string (list JSON)) (contents : list JSON)
  : gmap string (list JSON) * list JSON :=
  mapAccum (overParts secondPassPart) pending contents.

(** The two passes in sequence, as the transformer runs them before the
    orphan recovery. *)
Definition pairToolIds (contents : list JSON) : list JSON :=
  let '(st, contents1) := firstPass contents in
  snd (secondPass (pendingCallIdsByName st) contents1).

Definition fnCall (name : string) (id : option string) : JSON :=
  JObj [("functionCall", JObj (("name", JStr name) :: optField "id" (JStr <$> id)))].
Definition fnResponse (name : string) (id : option string) : JSON :=
  JObj [("functionResponse", JObj (("name", JStr name) :: optField "id" (JStr <$> id)))].
Definition turn (role : string) (ps : list JSON) : JSON :=
  JObj [("role", JStr role); ("parts", JArr ps)].

(** *** Document order *)

Definition partsOf (content : JSON) : list JSON :=
  match get "parts" content with
  | Some (JArr ps) => ps
  | _ => []
  end.

(** Every part of the conversation, in document order. *)
Definition allParts (contents : list JSON) : list JSON := flat_map partsOf contents.

Definition callOf (part : JSON) : option JSON :=
  if isObject part && truthyO (get "functionCall" part) then get "functionCall" part else None.

Definition responseOf (part : JSON) : option JSON :=
  if isObject part && truthyO (get "functionResponse" part)
  then get "functionResponse" part else None.

(** The [functionCall] (resp. [functionResponse]) values of the
    conversation, in document order. *)
Definition callsOf (contents : list JSON) : list JSON := omap callOf (allParts contents).
Definition responsesOf (contents : list JSON) : list JSON := omap responseOf (allParts contents).

(** [!v.id] *)
Definition lacksId (v : JSON) : bool := negb (truthyO (assoc "id" (spread v))).

Definition nameOf (v : JSON) : option string :=
  match assoc "name" (spread v) with
  | Some (JStr n) => Some n
  | _ => None
  end.

(** *** What the first pass assigns *)

(** The number of the [i]-th call: how many calls up to and including it
    came without an id. *)
Definition callNumber (calls : list JSON) (i : nat) : nat :=
  length (List.filter lacksId (take (S i) calls)).

(** The call object, its id and its queue after the first pass, [n] being
    the call's number. *)
Definition assignedCall (n : nat) (fc : JSON) : list (string * JSON) :=
  if lacksId fc then setField "id" (JStr ("tool-call-" +:+ pretty n)) (spread fc)
  else spread fc.

Definition assignedId (n : nat) (fc : JSON) : JSON :=
  if lacksId fc then JStr ("tool-call-" +:+ pretty n)
  else default JNull (assoc "id" (spread fc)).

Definition queueKey (n : nat) (fc : JSON) : string :=
  match nameOf fc with
  | Some name => name
  | None => "tool-" +:+ pretty n
  end.

Definition keyedIds (c0 : nat) (calls : list JSON) : list (string * JSON) :=
  imap (fun i fc => (queueKey (c0 + callNumber calls i) fc,
                     assignedId (c0 + callNumber calls i) fc)) calls.

(** The ids queued under [name], oldest first. *)
Definition idsFor (name : string) (c0 : nat) (calls : list JSON) : list JSON :=
  map snd (List.filter (fun p => String.eqb (fst p) name) (keyedIds c0 calls)).

(** *** What the second pass assigns *)

(** A response that asks the queue of [name] for an id. *)
Definition wantsId (name : string) (fr : JSON) : bool :=
  lacksId fr && match nameOf fr with
                | Some n => String.eqb n name
                | None => false
                end.

(** How many responses before the [j]-th asked the same queue. *)
Definition earlierFor (name : string) (responses : list JSON) (j : nat) : nat :=
  length (List.filter (wantsId name) (take j responses)).

(** The response object after the second pass, [pending] being the queues
    the first pass left. *)
Definition matchedResponse (pending : gmap string (list JSON)) (responses : list JSON)
    (j : nat) (fr : JSON) : list (string * JSON) :=
  if lacksId fr then
    match nameOf fr with
    | Some name =>
        match queueOf pending name !! earlierFor name responses j with
        | Some id => setField "id" id (spread fr)
        | None => spread fr
        end
    | None => spread fr
    end
  else spread fr.

(** ** Thinking-block discipline (step 8) and the warmup flag *)

Record LastThinking := mkLastThinking {
  lt_text : string;
  lt_signature : JSON
}.

Definition isStr (s : string) (v : option JSON) : bool :=
  match v with Some (JStr x) => String.eqb x s | _ => false end.

Definition isTrue (v : option JSON) : bool :=
  match v with Some (JBool true) => true | _ => false end.

(** [typeof v === "string" && v.length >= MIN_SIGNATURE_LENGTH] *)
Definition longString (v : option JSON) : bool :=
  match v with
  | Some (JStr x) => (MIN_SIGNATURE_LENGTH <=? utf16Length x)%nat
  | _ => false
  end.

Definition isGeminiToolUsePart (part : JSON) : bool :=
  isObject part
  && (truthyO (get "functionCall" part) || truthyO (get "tool_use" part)
      || truthyO (get "toolUse" part)).

Definition isGeminiThinkingPart (part : JSON) : bool :=
  isObject part
  && (isTrue (get "thought" part) || isStr "thinking" (get "type" part)
      || isStr "reasoning" (get "type" part)).

Definition hasSignedThinkingPart (part : JSON) : bool :=
  if isObject part then
    if isTrue (get "thought" part) then longString (get "thoughtSignature" part)
    else if isStr "thinking" (get "type" part) || isStr "reasoning" (get "type" part)
         then longString (get "signature" part)
         else false
  else false.

(** A block of a [messages[]] payload: thinking, signed thinking, tool. *)
Definition isThinkingBlock (block : JSON) : bool :=
  isObject block
  && (isStr "thinking" (get "type" block) || isStr "redacted_thinking" (get "type" block)).

Definition isSignedThinkingBlock (block : JSON) : bool :=
  isThinkingBlock block && longString (get "signature" block).

Definition isToolBlock (block : JSON) : bool :=
  isObject block
  && (isStr "tool_use" (get "type" block) || isStr "tool_result" (get "type" block)).

(** [String(v)] for a JSON value, as string concatenation coerces it. *)
Fixpoint toStringJS (v : JSON) : string :=
  match v with
  | JNull => "null"
  | JBool true => "true"
  | JBool false => "false"
  | JNum n => pretty n
  | JStr s => s
  | JArr items =>
      String.concat "," (map (fun x => match x with
                                       | JNull => ""
                                       | _ => toStringJS x
                                       end) items)
  | JObj _ => "[object Object]"
  end.

(** [a || b || ""] *)
Definition firstTruthy (a b : option JSON) : JSON :=
  if truthyO a then default JNull a
  else if truthyO b then default JNull b
  else JStr "".

(** The state a response stream writes: the thinking text accumulated per
    candidate and the last signed thinking of each session key. A [false]
    flag records that the walk threw (a [null] part, a [parts] value that
    is not an array); the caller swallows the exception and what was
    written before it stays. *)
Definition CaptureState : Type := gmap nat string * gmap string LastThinking.

Definition capturePart (signatureSessionKey : string) (index : nat)
    (acc : CaptureState * bool) (part : JSON) : CaptureState * bool :=
  let '((buffer, last), ok) := acc in
  if negb ok then acc
  else match part with
       | JNull => ((buffer, last), false)
       | _ =>
           let buffer1 :=
             if isTrue (get "thought" part) || isStr "thinking" (get "type" part) then
               let text := firstTruthy (get "text" part) (get "thinking" part) in
               if truthy text
               then <[index := default "" (buffer !! index) +:+ toStringJS text]> buffer
               else buffer
             else buffer in
           match get "thoughtSignature" part with
           | Some sig =>
               if truthy sig then
                 let fullText := default "" (buffer1 !! index) in
                 if nonEmpty fullText
                 then ((buffer1, <[signatureSessionKey := mkLastThinking fullText sig]> last), true)
                 else ((buffer1, last), true)
               else ((buffer1, last), true)
           | None => ((buffer1, last), true)
           end
       end.

Definition captureCandidate (signatureSessionKey : string)
    (acc : CaptureState * bool) (indexed : nat * JSON) : CaptureState * bool :=
  let '(index, candidate) := indexed in
  if negb (snd acc) then acc
  else match getO "parts" (get "content" candidate) with
       | Some (JArr parts) => foldl (capturePart signatureSessionKey index) acc parts
       | Some v => if truthy v then (fst acc, false) else acc
       | None => acc
       end.

Definition captureBlock (signatureSessionKey : string)
    (acc : string * gmap string LastThinking) (block : JSON) : string * gmap string LastThinking :=
  let '(thinkingText, last) := acc in
  let thinkingText1 :=
    if isStr "thinking" (get "type" block)
    then thinkingText +:+ toStringJS (firstTruthy (get "thinking" block) (get "text" block))
    else thinkingText in
  match get "signature" block with
  | Some sig =>
      if truthy sig && nonEmpty thinkingText1
      then (thinkingText1, <[signatureSessionKey := mkLastThinking thinkingText1 sig]> last)
      else (thinkingText1, last)
  | None => (thinkingText1, last)
  end.

(** [cacheThinkingSignatures]: its writes to the per-stream thought buffer
    and to [lastSignedThinkingBySessionKey]. *)
Definition cacheThinkingSignatures (response : JSON) (signatureSessionKey : string)
    (st : CaptureState) : CaptureState :=
  if isObject response then
    let '(st1, ok) :=
      match get "candidates" response with
      | Some (JArr candidates) =>
          foldl (captureCandidate signatureSessionKey) (st, true)
                (imap pair candidates)
      | _ => (st, true)
      end in
    if ok then
      match get "content" response with
      | Some (JArr blocks) =>
          (fst st1, snd (foldl (captureBlock signatureSessionKey) ("", snd st1) blocks))
      | _ => st1
      end
    else st1
  else st.

Section Thinking.

(** [getCachedSignature(sessionId, text)] of cache.js, and the
    [DEBUG_MESSAGE_PREFIX] of debug.js. *)
Variable getCachedSignature : string -> string -> option string.
Variable DEBUG_MESSAGE_PREFIX : string.

Definition textOf (first second : string) (v : JSON) : string :=
  match get first v with
  | Some (JStr t) => t
  | _ => match get second v with
         | Some (JStr t) => t
         | _ => ""
         end
  end.

(** [getCachedSignature] answering with a non-empty string. *)
Definition cachedFor (sessionId text : string) : option string :=
  match getCachedSignature sessionId text with
  | Some sig => if nonEmpty sig then Some sig else None
  | None => None
  end.

Definition ensureThoughtSignature (part : JSON) (sessionId : string) : JSON :=
  if isObject part then
    let text := textOf "text" "thinking" part in
    if nonEmpty text then
      if isTrue (get "thought" part) then
        if negb (truthyO (get "thoughtSignature" part)) then
          match cachedFor sessionId text with
          | Some cached => JObj (setField "thoughtSignature" (JStr cached) (spread part))
          | None => part
          end
        else part
      else if (isStr "thinking" (get "type" part) || isStr "reasoning" (get "type" part))
              && negb (truthyO (get "signature" part)) then
        match cachedFor sessionId text with
        | Some cached => JObj (setField "signature" (JStr cached) (spread part))
        | None => part
        end
      else part
    else part
  else part.

Definition ensureMessageThinkingSignature (block : JSON) (sessionId : string) : JSON :=
  if isThinkingBlock block then
    if longString (get "signature" block) then block
    else
      let text := textOf "thinking" "text" block in
      if nonEmpty text then
        match cachedFor sessionId text with
        | Some cached => JObj (setField "signature" (JStr cached) (spread block))
        | None => block
        end
      else block
  else block.

Definition isAssistantRole (content : JSON) : bool :=
  isStr "model" (get "role" content) || isStr "assistant" (get "role" content).

Definition ensureThinkingBeforeToolUseInContents
    (lastSignedThinkingBySessionKey : gmap string LastThinking)
    (contents : list JSON) (signatureSessionKey : string) : list JSON :=
  map (fun content =>
         match get "parts" content with
         | Some (JArr parts) =>
             if negb (isAssistantRole content) then content
             else if negb (existsb isGeminiToolUsePart parts) then content
             else
               let thinkingParts :=
                 map (fun p => ensureThoughtSignature p signatureSessionKey)
                     (List.filter isGeminiThinkingPart parts) in
               let otherParts := List.filter (fun p => negb (isGeminiThinkingPart p)) parts in
               if existsb hasSignedThinkingPart thinkingParts
               then JObj (setField "parts" (JArr (thinkingParts ++ otherParts)) (spread content))
               else match lastSignedThinkingBySessionKey !! signatureSessionKey with
                    | None => content
                    | Some lastThinking =>
                        let injected :=
                          JObj [("thought", JBool true);
                                ("text", JStr (lt_text lastThinking));
                                ("thoughtSignature", lt_signature lastThinking)] in
                        JObj (setField "parts" (JArr (injected :: otherParts)) (spread content))
                    end
         | _ => content
         end) contents.

Definition ensureThinkingBeforeToolUseInMessages
    (lastSignedThinkingBySessionKey : gmap string LastThinking)
    (messages : list JSON) (signatureSessionKey : string) : list JSON :=
  map (fun message =>
         match get "content" message with
         | Some (JArr blocks) =>
             if negb (isStr "assistant" (get "role" message)) then message
             else if negb (existsb isToolBlock blocks) then message
             else
               let thinkingBlocks :=
                 map (fun b => ensureMessageThinkingSignature b signatureSessionKey)
                     (List.filter isThinkingBlock blocks) in
               let otherBlocks := List.filter (fun b => negb (isThinkingBlock b)) blocks in
               if existsb (fun b => longString (get "signature" b)) thinkingBlocks
               then JObj (setField "content" (JArr (thinkingBlocks ++ otherBlocks))
                                   (spread message))
               else match lastSignedThinkingBySessionKey !! signatureSessionKey with
                    | None => message
                    | Some lastThinking =>
                        let injected :=
                          JObj [("type", JStr "thinking");
                                ("thinking", JStr (lt_text lastThinking));
                                ("signature", lt_signature lastThinking)] in
                        JObj (setField "content" (JArr (injected :: otherBlocks))
                                       (spread message))
                    end
         | _ => message
         end) messages.

Definition hasToolUseInContents (contents : list JSON) : bool :=
  existsb (fun content =>
             match get "parts" content with
             | Some (JArr parts) => existsb isGeminiToolUsePart parts
             | _ => false
             end) contents.

Definition hasSignedThinkingInContents (contents : list JSON) : bool :=
  existsb (fun content =>
             match get "parts" content with
             | Some (JArr parts) => existsb hasSignedThinkingPart parts
             | _ => false
             end) contents.

Definition hasToolUseInMessages (messages : list JSON) : bool :=
  existsb (fun message =>
             match get "content" message with
             | Some (JArr blocks) => existsb isToolBlock blocks
             | _ => false
             end) messages.

Definition hasSignedThinkingInMessages (messages : list JSON) : bool :=
  existsb (fun message =>
             match get "content" message with
             | Some (JArr blocks) => existsb isSignedThinkingBlock blocks
             | _ => false
             end) messages.

(** ** The transformer around the flag *)

Definition stripInjectedDebugFromParts (parts : list JSON) : list JSON :=
  List.filter
    (fun part =>
       if isObject part then
         let text := match get "text" part with
                     | Some (JStr t) => Some t
                     | _ => match get "thinking" part with
                            | Some (JStr t) => Some t
                            | _ => None
                            end
                     end in
         match text with
         | Some t => negb (nonEmpty t && String.prefix DEBUG_MESSAGE_PREFIX t)
         | None => true
         end
       else true) parts.

(** [payload.k = f(payload.k)] when the property is an array. *)
Definition onArrayField (k : string) (f : list JSON -> list JSON)
    (fields : list (string * JSON)) : list (string * JSON) :=
  match assoc k fields with
  | Some (JArr items) => setField k (JArr (f items)) fields
  | _ => fields
  end.

(** [{...element, k: f(element.k)}] for the elements whose property is an
    array. *)
Definition onInnerArray (k : string) (f : list JSON -> list JSON) (element : JSON) : JSON :=
  match get k element with
  | Some (JArr items) => JObj (setField k (JArr (f items)) (spread element))
  | _ => element
  end.

Definition stripInjectedDebugFromRequestPayload (payload : list (string * JSON))
  : list (string * JSON) :=
  let payload1 :=
    onArrayField "contents"
      (map (fun content =>
              match get "parts" content with
              | Some (JArr _) => onInnerArray "parts" stripInjectedDebugFromParts content
              | _ => onInnerArray "content" stripInjectedDebugFromParts content
              end)) payload in
  onArrayField "messages" (map (onInnerArray "content" stripInjectedDebugFromParts)) payload1.

(** Modelled from the spec: [deepFilterThinkingBlocks] of
    request-helpers.js, which is declared but not defined in the sources.
    Section 4.I: for each thinking block lacking a signature, look up
    (sessionKey, verbatim text) in the cache and attach; strip any
    thinking block that is still unsigned. Thinking and signed are what
    request.js tests: [isGeminiThinkingPart] / [hasSignedThinkingPart] on
    the parts of [contents], the [thinking] / [redacted_thinking] type and
    a signature of 50 characters on the blocks of [messages]. *)
Definition deepFilterThinkingBlocks (sessionId : string) (payload : list (string * JSON))
  : list (string * JSON) :=
  let filterParts (parts : list JSON) :=
    List.filter (fun p => negb (isGeminiThinkingPart p) || hasSignedThinkingPart p)
                (map (fun p => if isGeminiThinkingPart p
                               then ensureThoughtSignature p sessionId else p) parts) in
  let filterBlocks (blocks : list JSON) :=
    List.filter (fun b => negb (isThinkingBlock b) || isSignedThinkingBlock b)
                (map (fun b => ensureMessageThinkingSignature b sessionId) blocks) in
  onArrayField "messages" (map (onInnerArray "content" filterBlocks))
    (onArrayField "contents" (map (onInnerArray "parts" filterParts)) payload).

(** The signature-discipline steps applied to one request object. *)
Definition disciplineThinking (isClaude isClaudeThinking : bool)
    (lastSigned : gmap string LastThinking) (signatureSessionKey : string)
    (payload : list (string * JSON)) : list (string * JSON) :=
  if isClaude then
    let payload1 := deepFilterThinkingBlocks signatureSessionKey payload in
    let payload2 :=
      if isClaudeThinking
      then onArrayField "contents"
             (fun c => ensureThinkingBeforeToolUseInContents lastSigned c signatureSessionKey)
             payload1
      else payload1 in
    if isClaudeThinking
    then onArrayField "messages"
           (fun m => ensureThinkingBeforeToolUseInMessages lastSigned m signatureSessionKey)
           payload2
    else payload2
  else payload.

Definition hasToolUse (payload : list (string * JSON)) : bool :=
  match assoc "contents" payload with
  | Some (JArr contents) => hasToolUseInContents contents
  | _ => false
  end
  || match assoc "messages" payload with
     | Some (JArr messages) => hasToolUseInMessages messages
     | _ => false
     end.

Definition hasSignedThinking (payload : list (string * JSON)) : bool :=
  match assoc "contents" payload with
  | Some (JArr contents) => hasSignedThinkingInContents contents
  | _ => false
  end
  || match assoc "messages" payload with
     | Some (JArr messages) => hasSignedThinkingInMessages messages
     | _ => false
     end.

Definition hasCachedThinking (lastSigned : gmap string LastThinking) (key : string) : bool :=
  match lastSigned !! key with Some _ => true | None => false end.

(** The body that is not yet wrapped: the request payload after the
    discipline steps, and [needsSignedThinkingWarmup]. *)
Definition prepareThinking (effectiveModel : string)
    (lastSigned : gmap string LastThinking) (signatureSessionKey : string)
    (requestPayload : list (string * JSON)) : list (string * JSON) * bool :=
  let isClaude := isClaudeModel effectiveModel in
  let isClaudeThinking := isClaudeThinkingModel effectiveModel in
  let payload := disciplineThinking isClaude isClaudeThinking lastSigned
                                    signatureSessionKey requestPayload in
  (payload,
   if isClaude && isClaudeThinking
   then hasToolUse payload && negb (hasSignedThinking payload)
        && negb (hasCachedThinking lastSigned signatureSessionKey)
   else false).

(** The body that is already wrapped: [requestObjects] holds
    [wrappedBody.request] and, when present, its own [request]. Each
    object receives the session id, loses injected debug parts and goes
    through the discipline steps; the flag looks at all of them. An array
    in either place has none of the properties these steps read, so it is
    left out. *)
Definition requestObjectsOf (wrappedBody : JSON) : list (list (string * JSON)) :=
  match get "request" wrappedBody with
  | Some (JObj requestRoot) =>
      requestRoot :: match assoc "request" requestRoot with
                     | Some (JObj nested) => [nested]
                     | _ => []
                     end
  | _ => []
  end.

Definition prepareWrappedThinking (effectiveModel : string)
    (lastSigned : gmap string LastThinking) (signatureSessionKey : string)
    (requestObjects : list (list (string * JSON))) : list (list (string * JSON)) * bool :=
  let isClaude := isClaudeModel effectiveModel in
  let isClaudeThinking := isClaudeThinkingModel effectiveModel in
  let processed :=
    map (fun req =>
           disciplineThinking isClaude isClaudeThinking lastSigned signatureSessionKey
             (stripInjectedDebugFromRequestPayload
                (setField "sessionId" (JStr signatureSessionKey) req)))
        requestObjects in
  (processed,
   if isClaudeThinking && negb (Nat.eqb (length requestObjects) 0)
   then existsb hasToolUse processed && negb (existsb hasSignedThinking processed)
        && negb (hasCachedThinking lastSigned signatureSessionKey)
   else false).

(** *** The flag, declaratively *)

(** Some element of [items] has an array under [k] with a member
    satisfying [P]. *)
Definition InnerSome (k : string) (P : JSON -> bool) (items : list JSON) : Prop :=
  exists element inner x,
    In element items /\ get k element = Some (JArr inner) /\ In x inner /\ P x = true.

(** The request object holds a tool-use part ([functionCall], [tool_use]
    or [toolUse]) in its [contents], or a [tool_use] / [tool_result] block
    in its [messages]. *)
Definition ToolPartIn (payload : list (string * JSON)) : Prop :=
  (exists contents, assoc "contents" payload = Some (JArr contents)
                    /\ InnerSome "parts" isGeminiToolUsePart contents)
  \/ (exists messages, assoc "messages" payload = Some (JArr messages)
                       /\ InnerSome "content" isToolBlock messages).

(** The request object holds a thinking part or block whose signature is a
    string of at least 50 characters. *)
Definition SignedThinkingIn (payload : list (string * JSON)) : Prop :=
  (exists contents, assoc "contents" payload = Some (JArr contents)
                    /\ InnerSome "parts" hasSignedThinkingPart contents)
  \/ (exists messages, assoc "messages" payload = Some (JArr messages)
                       /\ InnerSome "content" isSignedThinkingBlock messages).

End Thinking.

(** ** Concrete conversations *)

(** A signature cache that holds nothing. *)
Definition emptySignatureCache : string -> string -> option string := fun _ _ => None.

Definition textPart (t : string) : JSON := JObj [("text", JStr t)].

(** A streamed response chunk whose thinking part carries an
    eight-character signature. *)
Definition shortSignatureResponse : JSON :=
  JObj [("candidates",
         JArr [JObj [("content",
                      JObj [("parts",
                             JArr [JObj [("thought", JBool true);
                                         ("text", JStr "Let me read the file.");
                                         ("thoughtSignature", JStr "c2hvcnQ=")]])])]])].

Definition toolTurnRequest : list (string * JSON) :=
  [("contents",
    JArr [turn "user" [textPart "read a.txt"];
          turn "model" [fnCall "read_file" (Some "call-1")];
          turn "user" [fnResponse "read_file" (Some "call-1")];
          turn "model" [textPart "done"];
          turn "user" [textPart "thanks, now b.txt"]])].

(** The request object holds a thinking part or block that is not signed
    with at least 50 characters. *)
Definition UnsignedThinkingIn (payload : list (string * JSON)) : Prop :=
  (exists contents,
     assoc "contents" payload = Some (JArr contents)
     /\ InnerSome "parts" (fun p => isGeminiThinkingPart p && negb (hasSignedThinkingPart p))
                  contents)
  \/ (exists messages,
        assoc "messages" payload = Some (JArr messages)
        /\ InnerSome "content" (fun b => isThinkingBlock b && negb (isSignedThinkingBlock b))
                     messages).

(** ** When the discipline does hold *)

Definition PartsSigned (parts : list JSON) : Prop :=
  Forall (fun p => isGeminiThinkingPart p = true -> hasSignedThinkingPart p = true) parts.

Definition BlocksSigned (blocks : list JSON) : Prop :=
  Forall (fun b => isThinkingBlock b = true -> isSignedThinkingBlock b = true) blocks.

Definition InnerAll (k : string) (Q : list JSON -> Prop) (items : list JSON) : Prop :=
  Forall (fun element => forall inner, get k element = Some (JArr inner) -> Q inner) items.

(** Every thinking part or block of the request object is signed. *)
Definition PayloadSigned (payload : list (string * JSON)) : Prop :=
  (forall contents, assoc "contents" payload = Some (JArr contents) ->
                    InnerAll "parts" PartsSigned contents)
  /\ (forall messages, assoc "messages" payload = Some (JArr messages) ->
                       InnerAll "content" BlocksSigned messages).

End Request.

(* ===================================================================== *)
(** * The signature session key, in words                                 *)
(* ===================================================================== *)

(** The session key as the description of the plugin words it, written
    without the functions of request.js; [RequestFacts] proves that the
    transformer computes it. *)
Module SessionKeySpec.

Import JS.

(** The identifier fields a client may supply, in the order they are
    tried: eight properties of the body, then four of its [metadata]. *)
Definition bodyFields : list string :=
  ["conversationId"; "conversation_id"; "thread_id"; "threadId";
   "chat_id"; "chatId"; "sessionId"; "session_id"].

Definition metadataFields : list string :=
  ["conversation_id"; "conversationId"; "thread_id"; "threadId"].

Definition suppliedIds (payload : JSON) : list (option JSON) :=
  map (fun field => get field payload) bodyFields
  ++ map (fun field => getO field (get "metadata" payload)) metadataFields.

(** A field holds an identifier when it is a string that is not blank;
    the identifier is the string, trimmed. *)
Definition identifier (v : option JSON) : option string :=
  match v with
  | Some (JStr s) => if String.eqb (trim s) "" then None else Some (trim s)
  | _ => None
  end.

Definition clientKey (payload : JSON) : option string :=
  head (omap identifier (suppliedIds payload)).

(** The text a block carries: its [text] when that is a string, or the
    [text] of its [text]. *)
Definition blockText (block : JSON) : option string :=
  match get "text" block with
  | Some (JStr t) => Some t
  | Some inner => match get "text" inner with
                  | Some (JStr t) => Some t
                  | _ => None
                  end
  | None => None
  end.

(** The text of a content: the string itself, or the text of the first
    block that carries one. *)
Definition textOf (content : option JSON) : string :=
  match content with
  | Some (JStr s) => s
  | Some (JArr blocks) => default "" (head (omap blockText blocks))
  | _ => ""
  end.

Definition present (v : option JSON) : bool :=
  match v with
  | None | Some JNull => false
  | Some _ => true
  end.

(** The system-instruction text: the text of the first of
    [systemInstruction.parts], [systemInstruction], [system] and
    [system_instruction] that is neither missing nor [null]. *)
Definition systemText (payload : JSON) : string :=
  textOf (default None
            (head (List.filter present
                     [getO "parts" (get "systemInstruction" payload);
                      get "systemInstruction" payload;
                      get "system" payload;
                      get "system_instruction" payload]))).

Definition roleIs (role : string) (turn : JSON) : bool :=
  match get "role" turn with
  | Some (JStr r) => String.eqb r role
  | _ => false
  end.

(** The user text of a conversation, from the texts of its user turns in
    order: that of the first turn, or of the last turn when the first has
    none. *)
Definition userText (texts : list string) : string :=
  match texts with
  | [] => ""
  | first :: _ => if String.eqb first "" then default "" (last texts) else first
  end.

Definition turnText (turn : JSON) : string :=
  match get "parts" turn with
  | Some (JArr parts) => textOf (Some (JArr parts))
  | _ => ""
  end.

Definition messageText (message : JSON) : string := textOf (get "content" message).

(** The texts the seed is made of: the system-instruction text; for a
    [messages] body the text of the first message of role [system]; and
    the user text. A body with neither [messages] nor [contents] has the
    system-instruction text only. *)
Definition seedParts (payload : JSON) : list string :=
  match get "messages" payload with
  | Some (JArr messages) =>
      [systemText payload;
       match List.find (roleIs "system") messages with
       | Some message => messageText message
       | None => ""
       end;
       userText (map messageText (List.filter (roleIs "user") messages))]
  | _ =>
      match get "contents" payload with
      | Some (JArr contents) =>
          [systemText payload;
           userText (map turnText (List.filter (roleIs "user") contents))]
      | _ => [systemText payload]
      end
  end.

(** The seed: the texts that are not empty, joined by a bar. *)
Definition seedText (payload : JSON) : string :=
  String.concat "|" (List.filter (fun text => negb (String.eqb text "")) (seedParts payload)).

(** The conversation key of one request object: the first identifier the
    client supplied; else [seed-] and the first 16 hexadecimal characters
    of the SHA-256 of the seed; none when there is no seed either. *)
Definition conversationKeyOf (payload : JSON) : option string :=
  match clientKey payload with
  | Some id => Some id
  | None =>
      if String.eqb (seedText payload) "" then None
      else Some ("seed-" +:+ sliceTo 16 (Sha256.sha256_hex (seedText payload)))
  end.

Definition modelPart (model : string) : string :=
  if String.eqb (trim model) "" then "unknown" else toLowerCase model.

Definition projectPart (projectId : option string) : string :=
  match projectId with
  | Some project => if String.eqb (trim project) "" then "default" else trim project
  | None => "default"
  end.

(** The session key of a request whose conversation key is looked for in
    the given request objects, in order. *)
Definition sessionKey (sessionId model : string) (projectId : option string)
    (requestObjects : list JSON) : string :=
  String.concat ":"
    [sessionId; modelPart model; projectPart projectId;
     default "default" (head (omap conversationKeyOf requestObjects))].

End SessionKeySpec.

(* ===================================================================== *)
(** * The warmup flag, in words                                           *)
(* ===================================================================== *)

(** What the warmup flag looks for, written on the JSON of the request
    without the predicates of request.js; [RequestFacts] proves that the
    transformer tests exactly this. *)
Module WarmupSpec.

Import JS.

(** A signature: a string of at least 50 UTF-16 code units. *)
Definition Signature (v : option JSON) : Prop :=
  exists s, v = Some (JStr s) /\ (50 <= utf16Length s)%nat.

(** The object has a truthy property [k]. *)
Definition Holds (k : string) (x : JSON) : Prop :=
  exists v, get k x = Some v /\ truthy v = true.

(** A tool-use part of [contents]: a part that holds a [functionCall], a
    [tool_use] or a [toolUse]. A [functionResponse] is not looked at. *)
Definition ToolUsePart (part : JSON) : Prop :=
  Holds "functionCall" part \/ Holds "tool_use" part \/ Holds "toolUse" part.

(** A tool block of [messages]: a block of type [tool_use] or
    [tool_result]. *)
Definition ToolBlock (block : JSON) : Prop :=
  get "type" block = Some (JStr "tool_use") \/ get "type" block = Some (JStr "tool_result").

(** A signed thinking part of [contents]: a part whose [thought] is
    [true] with a signature in [thoughtSignature]; or, its [thought] not
    being [true], a part of type [thinking] or [reasoning] with a
    signature in [signature]. *)
Definition SignedThinkingPart (part : JSON) : Prop :=
  (get "thought" part = Some (JBool true) /\ Signature (get "thoughtSignature" part))
  \/ (get "thought" part <> Some (JBool true)
      /\ (get "type" part = Some (JStr "thinking")
          \/ get "type" part = Some (JStr "reasoning"))
      /\ Signature (get "signature" part)).

(** A signed thinking block of [messages]: a block of type [thinking] or
    [redacted_thinking] with a signature in [signature]. *)
Definition SignedThinkingBlock (block : JSON) : Prop :=
  (get "type" block = Some (JStr "thinking")
   \/ get "type" block = Some (JStr "redacted_thinking"))
  /\ Signature (get "signature" block).

(** The request object has an array [outer]; one of its elements has an
    array [inner]; one of the members of that satisfies [P]. *)
Definition Within (outer inner : string) (P : JSON -> Prop)
    (payload : list (string * JSON)) : Prop :=
  exists elements element members member,
    assoc outer payload = Some (JArr elements) /\ In element elements
    /\ get inner element = Some (JArr members) /\ In member members
    /\ P member.

Definition HasToolUse (payload : list (string * JSON)) : Prop :=
  Within "contents" "parts" ToolUsePart payload
  \/ Within "messages" "content" ToolBlock payload.

Definition HasSignedThinking (payload : list (string * JSON)) : Prop :=
  Within "contents" "parts" SignedThinkingPart payload
  \/ Within "messages" "content" SignedThinkingBlock payload.

(** A Claude thinking model: its name, lowercased, contains [claude] and
    [thinking]. *)
Definition ClaudeThinking (model : string) : Prop :=
  includes (toLowerCase model) "claude" = true
  /\ includes (toLowerCase model) "thinking" = true.

(** The warmup is needed: the model is a Claude thinking model, one of
    the request objects has a tool use, none has signed thinking, and
    nothing is cached for the session. *)
Definition NeedsWarmup {A} (model : string) (cached : option A)
    (requestObjects : list (list (string * JSON))) : Prop :=
  ClaudeThinking model
  /\ (exists req, In req requestObjects /\ HasToolUse req)
  /\ ~ (exists req, In req requestObjects /\ HasSignedThinking req)
  /\ cached = None.

End WarmupSpec.

(* ===================================================================== *)
(** * Text: splitting and slicing                                         *)
(* ===================================================================== *)

Module Text.

(** The character of a one-character string. *)
Definition charOf (s : string) : Ascii.ascii :=
  match s with
  | String c _ => c
  | EmptyString => Ascii.zero
  end.

(** [s.split(sep)] for a one-character separator: the segments between
    the separators, at least one. The separators used here are ASCII, so
    splitting the UTF-8 bytes gives the segments JavaScript gives. *)
Fixpoint split (sep : Ascii.ascii) (s : string) : list string :=
  match s with
  | EmptyString => [EmptyString]
  | String c rest =>
      if Ascii.eqb c sep then EmptyString :: split sep rest
      else match split sep rest with
           | seg :: segs => String c seg :: segs
           | [] => [String c EmptyString]
           end
  end.

(** The character does not occur in the string. *)
Fixpoint freeOf (sep : Ascii.ascii) (s : string) : bool :=
  match s with
  | EmptyString => true
  | String c rest => negb (Ascii.eqb c sep) && freeOf sep rest
  end.

(** The line feed, as a character and as a string. *)
Definition LF : Ascii.ascii := Ascii.ascii_of_nat 10.
Definition newline : string := String LF EmptyString.

(** [s.slice(n)] *)
Definition sliceFrom (n : nat) (s : string) : string :=
  String.string_of_list_ascii (drop n (String.list_ascii_of_string s)).

(** [lines.pop()]: the list without its last element. *)
Fixpoint withoutLast {A} (l : list A) : list A :=
  match l with
  | [] => []
  | [_] => []
  | x :: rest => x :: withoutLast rest
  end.

End Text.

(* ===================================================================== *)
(** * Refresh strings and token expiry (auth.js)                          *)
(* ===================================================================== *)

Module Auth.

Import Accounts JS Text.

(** [OAuthAuthDetails] *)
Record OAuthAuthDetails := mkAuth {
  refresh : string;
  access : option string;
  expires : option Z
}.

Definition ACCESS_TOKEN_EXPIRY_BUFFER_MS : Z := 60 * 1000.

(** [v || undefined] for a string. *)
Definition orUndefined (s : string) : option string :=
  if nonEmpty s then Some s else None.

(** [parseRefreshParts(refresh)]; [None] is a [refresh] that is
    [undefined] or [null]. A segment that is missing defaults to the empty
    string. *)
Definition parseRefreshParts (refresh : option string) : RefreshParts :=
  let segments := split (charOf "|") (default "" refresh) in
  let refreshToken := default "" (segments !! 0%nat) in
  let projectId := default "" (segments !! 1%nat) in
  let managedProjectId := default "" (segments !! 2%nat) in
  mkParts refreshToken (orUndefined projectId) (orUndefined managedProjectId).

Definition formatRefreshParts (parts : RefreshParts) : string :=
  let projectSegment := default "" (projectId parts) in
  let base := refreshToken parts +:+ "|" +:+ projectSegment in
  match managedProjectId parts with
  | Some managed => if nonEmpty managed then base +:+ "|" +:+ managed else base
  | None => base
  end.

Definition accessTokenExpired (now : Z) (auth : OAuthAuthDetails) : bool :=
  match access auth, expires auth with
  | Some token, Some expiry =>
      if nonEmpty token then expiry <=? now + ACCESS_TOKEN_EXPIRY_BUFFER_MS else true
  | _, _ => true
  end.

(** ** Canonical parts *)

(** An optional segment: absent, or a non-empty string without the
    separator. *)
Definition segmentOk (v : option string) : bool :=
  match v with
  | Some s => nonEmpty s && freeOf (charOf "|") s
  | None => true
  end.

(** Parts that a refresh string can carry: no field holds the separator,
    and an optional field that is present is not empty. *)
Definition canonical (parts : RefreshParts) : bool :=
  freeOf (charOf "|") (refreshToken parts)
  && segmentOk (projectId parts) && segmentOk (managedProjectId parts).

End Auth.

(* ===================================================================== *)
(** * Account manager: construction, persistence, waiting (accounts.js)   *)
(* ===================================================================== *)

Module Pool.

Import Accounts Storage JS.

Definition setLastSwitchReason (r : option SwitchReason) (a : ManagedAccount) : ManagedAccount :=
  mkAccount (index a) (email a) (addedAt a) (lastUsed a) (parts a)
            (access a) (expires a) (rateLimitResetTimes a) r.

Definition setAuth (p : RefreshParts) (token : option string) (expiry : option Z)
    (a : ManagedAccount) : ManagedAccount :=
  mkAccount (index a) (email a) (addedAt a) (lastUsed a) p
            token expiry (rateLimitResetTimes a) (lastSwitchReason a).

(** ** The constructor *)

(** [!!(authFallback && authParts && authParts.refreshToken &&
    acc.refreshToken === authParts.refreshToken)] *)
Definition matchesFallback (authFallback : option Auth.OAuthAuthDetails) (token : string) : bool :=
  match authFallback with
  | Some auth =>
      let authParts := Auth.parseRefreshParts (Some (Auth.refresh auth)) in
      nonEmpty (refreshToken authParts) && String.eqb token (refreshToken authParts)
  | None => false
  end.

(** The callback of [stored.accounts.map]: [None] is the [null] returned
    for an entry without a refresh token. The stored times are numbers. *)
Definition fromStored (baseNow : Z) (authFallback : option Auth.OAuthAuthDetails)
    (index : nat) (acc : V3.AccountMetadata) : option ManagedAccount :=
  if negb (nonEmpty (V3.refreshToken acc)) then None
  else
    let matches := matchesFallback authFallback (V3.refreshToken acc) in
    Some (mkAccount (Z.of_nat index) (V3.email acc)
            (clampNonNegativeInt (Some (V3.addedAt acc)) baseNow)
            (clampNonNegativeInt (Some (V3.lastUsed acc)) 0)
            (mkParts (V3.refreshToken acc) (V3.projectId acc) (V3.managedProjectId acc))
            (if matches then authFallback ≫= Auth.access else None)
            (if matches then authFallback ≫= Auth.expires else None)
            (default noRateLimits (V3.rateLimitResetTimes acc))
            (V3.lastSwitchReason acc)).

Definition emptyManager : AccountManager := mkManager [] 0 (-1) (-1).

(** [new AccountManager(authFallback, stored)]; [None] is an argument that
    is [undefined] or [null]. *)
Definition construct (now : Z) (authFallback : option Auth.OAuthAuthDetails)
    (stored : option V3.AccountStorage) : AccountManager :=
  match stored with
  | Some s =>
      if (length (V3.accounts s) =? 0)%nat then emptyManager
      else
        let pool := omap id (imap (fromStored now authFallback) (V3.accounts s)) in
        let cursor0 := clampNonNegativeInt (Some (V3.activeIndex s)) 0 in
        if (0 <? length pool)%nat then
          let n := Z.of_nat (length pool) in
          let defaultIndex := Z.rem cursor0 n in
          let byFamily := V3.activeIndexByFamily s in
          mkManager pool defaultIndex
            (Z.rem (clampNonNegativeInt (byFamily ≫= fst) defaultIndex) n)
            (Z.rem (clampNonNegativeInt (byFamily ≫= snd) defaultIndex) n)
        else mkManager pool cursor0 (-1) (-1)
  | None =>
      match authFallback with
      | Some auth =>
          let parts := Auth.parseRefreshParts (Some (Auth.refresh auth)) in
          if nonEmpty (refreshToken parts)
          then mkManager [mkAccount 0 None now 0 parts (Auth.access auth) (Auth.expires auth)
                                    noRateLimits None] 0 0 0
          else emptyManager
      | None => emptyManager
      end
  end.

(** ** Persistence *)

(** [Object.keys(r).length > 0 ? r : undefined] *)
Definition nonEmptyLimits (r : RateLimitStateV3) : option RateLimitStateV3 :=
  match r with
  | mkRateLimits None None None => None
  | _ => Some r
  end.

(** The storage object that [saveToDisk] hands to [saveAccounts]. *)
Definition toStorage (m : AccountManager) : V3.AccountStorage :=
  let claudeIndex := Z.max 0 (currentClaude m) in
  let geminiIndex := Z.max 0 (currentGemini m) in
  V3.mkStorage
    (map (fun a => V3.mk (email a) (refreshToken (parts a)) (projectId (parts a))
                         (managedProjectId (parts a)) (addedAt a) (lastUsed a)
                         (lastSwitchReason a) (nonEmptyLimits (rateLimitResetTimes a)))
         (accounts m))
    claudeIndex
    (Some (Some claudeIndex, Some geminiIndex)).

Definition toAuthDetails (account : ManagedAccount) : Auth.OAuthAuthDetails :=
  Auth.mkAuth (Auth.formatRefreshParts (parts account)) (access account) (expires account).

Definition updateFromAuth (account : ManagedAccount) (auth : Auth.OAuthAuthDetails)
  : ManagedAccount :=
  setAuth (Auth.parseRefreshParts (Some (Auth.refresh auth)))
          (Auth.access auth) (Auth.expires auth) account.

(** ** Header styles and waiting *)

(** [isRateLimitedForHeaderStyle]: the answer and the pruned account. *)
Definition isRateLimitedForHeaderStyle (now : Z) (account : ManagedAccount)
    (family : ModelFamily) (headerStyle : HeaderStyle) : bool * ManagedAccount :=
  let account' := clearExpiredRateLimits now account in
  (isRateLimitedForQuotaKey now account' (getQuotaKey family headerStyle), account').

(** [Math.max(0, t - nowMs())] for a reset time that is set. *)
Definition waitFor (now : Z) (t : option Z) : option Z :=
  (fun t => Z.max 0 (t - now)) <$> t.

(** [Math.min(a, b)], an absent operand standing for [Infinity]. *)
Definition minWait (a b : option Z) : option Z :=
  match a, b with
  | Some x, Some y => Some (Z.min x y)
  | Some x, None => Some x
  | None, Some y => Some y
  | None, None => None
  end.

(** What the loop pushes for one account: nothing when no reset time of
    the family is set. *)
Definition accountWait (now : Z) (family : ModelFamily) (a : ManagedAccount) : option Z :=
  match family with
  | Claude => waitFor now (rlGet (rateLimitResetTimes a) KClaude)
  | Gemini => minWait (waitFor now (rlGet (rateLimitResetTimes a) KGeminiAntigravity))
                      (waitFor now (rlGet (rateLimitResetTimes a) KGeminiCli))
  end.

(** [Math.min(...waitTimes)] of a list that is not empty. *)
Definition minimum (w : Z) (ws : list Z) : Z := foldr Z.min w ws.

Definition getMinWaitTimeForFamily (now : Z) (family : ModelFamily) (m : AccountManager)
  : Z * AccountManager :=
  let pool := map (clearExpiredRateLimits now) (accounts m) in
  let available := List.filter (fun a => negb (isRateLimitedForFamily now a family)) pool in
  let m' := setAccounts pool m in
  if (0 <? length available)%nat then (0, m')
  else
    match omap (accountWait now family) pool with
    | [] => (0, m')
    | w :: ws => (minimum w ws, m')
    end.

(** ** Traces of manager calls *)

Inductive Op :=
| OpSelect (family : ModelFamily)
| OpNext (family : ModelFamily)
| OpMarkRateLimited (pos : nat) (retryAfterMs : Z) (family : ModelFamily) (headerStyle : HeaderStyle)
| OpRemove (idx : nat)
| OpMinWait (family : ModelFamily)
| OpTick (dt : N).

Definition apply (w : AccountManager * Z) (op : Op) : AccountManager * Z :=
  let '(m, now) := w in
  match op with
  | OpSelect f => (snd (getCurrentOrNextForFamily now f m), now)
  | OpNext f => (snd (getNextForFamily now f m), now)
  | OpMarkRateLimited pos r f h => (markRateLimited now pos r f h m, now)
  | OpRemove idx => (snd (removeAccount idx m), now)
  | OpMinWait f => (snd (getMinWaitTimeForFamily now f m), now)
  | OpTick dt => (m, now + Z.of_N dt)
  end.

Definition applyAll (ops : list Op) (w : AccountManager * Z) : AccountManager * Z :=
  foldl apply w ops.

(** ** Invariants *)

(** Every pooled account carries its pool position as [index]. *)
Definition wellIndexed (pool : list ManagedAccount) : Prop :=
  forall i a, pool !! i = Some a -> index a = Z.of_nat i.

(** The sticky index of a family is [-1] or a pool position. *)
Definition familyIndexOk (m : AccountManager) (family : ModelFamily) : Prop :=
  -1 <= currentAccountIndexByFamily m family < Z.of_nat (length (accounts m)).

Definition consistent (m : AccountManager) : Prop :=
  wellIndexed (accounts m) /\ 0 <= cursor m
  /\ familyIndexOk m Claude /\ familyIndexOk m Gemini.

(** The account as the constructor rebuilds it from its stored entry: the
    access token and its expiry are not stored, they come back from the
    fallback credential when its refresh token is the account's. *)
Definition reloaded (authFallback : option Auth.OAuthAuthDetails) (a : ManagedAccount)
  : ManagedAccount :=
  let matches := matchesFallback authFallback (refreshToken (parts a)) in
  setAuth (parts a)
          (if matches then authFallback ≫= Auth.access else None)
          (if matches then authFallback ≫= Auth.expires else None) a.

End Pool.

(* ===================================================================== *)
(** * Proactive token refresh (refresh-queue.js)                          *)
(* ===================================================================== *)

Module RefreshQueue.

Import Accounts.

Record ProactiveRefreshConfig := mkConfig {
  enabled : bool;
  bufferSeconds : Z;
  checkIntervalSeconds : Z
}.

Definition DEFAULT_PROACTIVE_REFRESH_CONFIG : ProactiveRefreshConfig :=
  mkConfig true 1800 300.

(** [!account.expires]: no expiry, or the number 0. *)
Definition noExpiry (account : ManagedAccount) : bool :=
  match expires account with
  | Some e => e =? 0
  | None => true
  end.

Definition needsRefresh (now : Z) (config : ProactiveRefreshConfig) (account : ManagedAccount)
  : bool :=
  if noExpiry account then false
  else
    let bufferMs := bufferSeconds config * 1000 in
    let refreshThreshold := now + bufferMs in
    match expires account with
    | Some e => e <=? refreshThreshold
    | None => false
    end.

Definition isExpired (now : Z) (account : ManagedAccount) : bool :=
  if noExpiry account then false
  else match expires account with
       | Some e => e <=? now
       | None => false
       end.

(** [getAccountsNeedingRefresh()]; [None] is a queue whose account manager
    has not been set. *)
Definition getAccountsNeedingRefresh (now : Z) (config : ProactiveRefreshConfig)
    (accountManager : option AccountManager) : list ManagedAccount :=
  match accountManager with
  | None => []
  | Some manager =>
      List.filter (fun account =>
                     if isExpired now account then false
                     else needsRefresh now config account)
                  (accounts manager)
  end.

End RefreshQueue.

(* ===================================================================== *)
(** * Signature cache: thinking content, statistics, traces               *)
(* ===================================================================== *)

Module ThinkingCache.

Import JS SignatureCache.

(** [ThinkingCacheData] *)
Record ThinkingCacheData := mkData {
  text : string;
  signature : string;
  dataToolIds : option (list string)
}.

(** [storeThinking]. The entry it writes also carries [textPreview], the
    first 100 characters of [thinkingText]; no method reads it and the
    file never receives it. *)
Definition storeThinking (now : Z) (key thinkingText signature : string)
    (toolIds : option (list string)) (c : t) : t :=
  if negb (enabled c) || negb (nonEmpty thinkingText) || negb (nonEmpty signature) then c
  else withDirty true
         (withCache (<[key := mkEntry signature now (Some thinkingText) toolIds]> (cache c)) c).

(** [entry.thinkingText] when it is truthy. *)
Definition thinkingOf (entry : CacheEntry) : option string :=
  match thinkingText entry with
  | Some t => if nonEmpty t then Some t else None
  | None => None
  end.

Definition retrieveThinking (now : Z) (key : string) (c : t)
  : option ThinkingCacheData * t :=
  if enabled c then
    match cache c !! key with
    | Some entry =>
        match thinkingOf entry with
        | Some thinking =>
            let age := now - timestamp entry in
            if age >? memoryTtlMs c
            then (None, withCache (delete key (cache c)) c)
            else (Some (mkData thinking (value entry) (toolIds entry)),
                  withStats (hit (stats c)) c)
        | None => (None, c)
        end
    | None => (None, c)
    end
  else (None, c).

Definition hasThinking (now : Z) (key : string) (c : t) : bool :=
  if enabled c then
    match cache c !! key with
    | Some entry =>
        match thinkingOf entry with
        | Some _ => now - timestamp entry <=? memoryTtlMs c
        | None => false
        end
    | None => false
    end
  else false.

(** [createSignatureCache(config)]; [None] is a missing configuration. *)
Definition createSignatureCache (now : Z) (config : option SignatureCacheConfig)
    (disk : option CacheFile) : option t :=
  match config with
  | Some cfg => if cfg_enabled cfg then Some (create now cfg disk) else None
  | None => None
  end.

(** ** Saving, with the ways it can fail *)

(** What a save that fails leaves in the place of the cache file: the
    file as it was, when the failure came before the file was opened for
    writing (the directory, the temporary file, the rename and the read
    for the fallback copy); a text that does not parse, when the fallback
    copy stopped part way; or the whole new text, when it failed after its
    last byte. *)
Inductive Leftover := Untouched | Unreadable | Complete.

Inductive SaveIo :=
| IoWritten
| IoFails (left : Leftover).

(** [saveToDisk] with the outcome of its file operations. A file that
    does not parse is read as no file by [loadFromDisk] and by the next
    save, so it is the [None] of the model. *)
Definition saveToDiskIo (now : Z) (io : SaveIo) (c : t) (disk : option CacheFile)
  : bool * t * option CacheFile :=
  let '(_, saved, written) := saveToDisk now true c disk in
  match io with
  | IoWritten => (true, saved, written)
  | IoFails Untouched => (false, c, disk)
  | IoFails Unreadable => (false, c, None)
  | IoFails Complete => (false, c, written)
  end.

(** ** Traces of cache calls *)

(** The calls a client or a timer makes. [CTimerWrite] is the periodic
    write, which saves only a dirty cache, and [CTimerCleanup] the
    periodic cleanup; the timers exist only in an enabled cache.
    [CFlush] is [flush()]. *)
Inductive CacheOp :=
| CStore (key signature : string)
| CStoreThinking (key thinkingText signature : string) (toolIds : option (list string))
| CRetrieve (key : string)
| CRetrieveThinking (key : string)
| CFlush (ioOk : bool)
| CTimerWrite (ioOk : bool)
| CTimerCleanup
| CTick (dt : N).

(** The cache object, the cache file and the clock. *)
Definition World : Type := t * option CacheFile * Z.

Definition applyOp (w : World) (op : CacheOp) : World :=
  let '(c, disk, now) := w in
  match op with
  | CStore key signature => (store now key signature c, disk, now)
  | CStoreThinking key thinking signature toolIds =>
      (storeThinking now key thinking signature toolIds c, disk, now)
  | CRetrieve key => (snd (retrieve now key c), disk, now)
  | CRetrieveThinking key => (snd (retrieveThinking now key c), disk, now)
  | CFlush ioOk =>
      let '(_, c', disk') := flush now ioOk c disk in (c', disk', now)
  | CTimerWrite ioOk =>
      if enabled c && dirty c
      then let '(_, c', disk') := saveToDisk now ioOk c disk in (c', disk', now)
      else (c, disk, now)
  | CTimerCleanup => ((if enabled c then cleanupExpired now c else c), disk, now)
  | CTick dt => (c, disk, now + Z.of_N dt)
  end.

Definition runOps (ops : list CacheOp) (w : World) : World := foldl applyOp w ops.

Definition cacheOf (w : World) : t := fst (fst w).
Definition diskOf (w : World) : option CacheFile := snd (fst w).

(** The writes that reach the file in a trace on an enabled cache whose
    dirty flag starts as [d]. *)
Fixpoint writesOf (d : bool) (ops : list CacheOp) : Z :=
  match ops with
  | [] => 0
  | CFlush true :: rest => 1 + writesOf false rest
  | CTimerWrite true :: rest => if d then 1 + writesOf false rest else writesOf d rest
  | CStore _ _ :: rest => writesOf true rest
  | CStoreThinking _ thinking signature _ :: rest =>
      writesOf (d || (nonEmpty thinking && nonEmpty signature)) rest
  | _ :: rest => writesOf d rest
  end.

End ThinkingCache.

(* ===================================================================== *)
(** * Request transformer: conversations across turns                     *)
(* ===================================================================== *)

Module Turns.

Import JS Request.

(** The text of the first user turn of a [contents] conversation. *)
Definition firstUserText (contents : list JSON) : string :=
  match head (List.filter (hasRole "user") contents) with
  | Some c => default "" (partsText c)
  | None => ""
  end.

(** The same request one or more turns later: [extra] appended to its
    [contents]. *)
Definition laterTurn (extra : list JSON) (payload : list (string * JSON))
  : list (string * JSON) :=
  match assoc "contents" payload with
  | Some (JArr contents) => setField "contents" (JArr (contents ++ extra)) payload
  | _ => payload
  end.

(** The members of a list that do not satisfy [P], in order. *)
Definition others (P : JSON -> bool) (l : list JSON) : list JSON :=
  List.filter (fun x => negb (P x)) l.

(** The members satisfying [P] come before all the others. *)
Definition leads (P : JSON -> bool) (l : list JSON) : Prop :=
  exists n, Forall (fun x => P x = true) (take n l)
            /\ Forall (fun x => P x = false) (drop n l).

(** The array under [k], empty when the property is not an array. *)
Definition arrayOf (k : string) (v : JSON) : list JSON :=
  match get k v with
  | Some (JArr items) => items
  | _ => []
  end.

(** A cached thinking entry that the request path can inject: its text
    is not empty and its signature is truthy. *)
Definition usable (lastThinking : LastThinking) : Prop :=
  lt_text lastThinking <> "" /\ truthy (lt_signature lastThinking) = true.

(** The entries of [last] are those of [last0], except possibly a usable
    entry under [key]. *)
Definition recordsOnly (key : string) (last0 last : gmap string LastThinking) : Prop :=
  (forall k, k <> key -> last !! k = last0 !! k)
  /\ (forall lt, last !! key = Some lt -> last0 !! key = Some lt \/ usable lt).

End Turns.

(* ===================================================================== *)
(** * Response stream (request.js)                                        *)
(* ===================================================================== *)

Module Stream.

Import JS Request Text.

(** ** Debug thinking *)

(** [lines.slice(-n)] *)
Definition lastN {A} (n : nat) (l : list A) : list A := drop (length l - n) l.

Definition formatDebugLinesForThinking (DEBUG_MESSAGE_PREFIX : string) (lines : list string)
  : string :=
  let cleaned := lastN 50 (List.filter nonEmpty (map trim lines)) in
  DEBUG_MESSAGE_PREFIX +:+ newline
    +:+ String.concat newline (map (fun line => "- " +:+ line) cleaned).

Definition injectDebugThinking (response : JSON) (debugText : string) : JSON :=
  if negb (isObject response) then response
  else
    match get "candidates" response with
    | Some (JArr (first :: rest)) =>
        if isObject first && truthyO (get "content" first) then
          match get "content" first with
          | Some content =>
              match get "parts" content with
              | Some (JArr parts) =>
                  let parts' := JObj [("thought", JBool true); ("text", JStr debugText)]
                                :: parts in
                  let first' :=
                    JObj (setField "content"
                            (JObj (setField "parts" (JArr parts') (spread content)))
                            (spread first)) in
                  JObj (setField "candidates" (JArr (first' :: rest)) (spread response))
              | _ => response
              end
          | None => response
          end
        else response
    | _ =>
        match get "content" response with
        | Some (JArr content) =>
            let content' := JObj [("type", JStr "thinking"); ("thinking", JStr debugText)]
                            :: content in
            JObj (setField "content" (JArr content') (spread response))
        | _ =>
            if negb (truthyO (get "reasoning_content" response))
            then JObj (setField "reasoning_content" (JStr debugText) (spread response))
            else response
        end
    end.

(** The parts of the first candidate of a Gemini-style response. *)
Definition firstCandidateParts (response : JSON) : option (list JSON) :=
  match get "candidates" response with
  | Some (JArr (first :: _)) =>
      match getO "parts" (get "content" first) with
      | Some (JArr parts) => Some parts
      | _ => None
      end
  | _ => None
  end.

(** The response has no candidate: [candidates] is not an array, or is
    empty. *)
Definition noCandidates (response : JSON) : bool :=
  match get "candidates" response with
  | Some (JArr (_ :: _)) => false
  | _ => true
  end.

(** ** Server-sent event lines *)

(** Whether [cacheThinkingSignatures] returns: the walk over the
    candidates throws on a [null] part and on a [parts] value that is not
    an array. *)
Definition cacheThinkingSignaturesCompletes (response : JSON) (signatureSessionKey : string)
    (st : CaptureState) : bool :=
  if isObject response then
    match get "candidates" response with
    | Some (JArr candidates) =>
        snd (foldl (captureCandidate signatureSessionKey) (st, true) (imap pair candidates))
    | _ => true
    end
  else true.

(** What a stream carries along: the thought buffer and the cached
    thinking, and whether the debug text has been injected. *)
Record StreamState := mkStream {
  captured : CaptureState;
  injected : bool
}.

Section Lines.

(** [JSON.parse] ([None] when it throws) and [JSON.stringify], and
    [transformThinkingParts] of request-helpers.js ([None] when it
    throws). *)
Variable JSON_parse : string -> option JSON.
Variable JSON_stringify : JSON -> string.
Variable transformThinkingParts : JSON -> option JSON.

(** The callback of [transformStreamingPayload]. *)
Definition transformPayloadLine (line : string) : string :=
  if negb (String.prefix "data:" line) then line
  else
    let json := trim (sliceFrom 5 line) in
    if negb (nonEmpty json) then line
    else
      match JSON_parse json with
      | Some parsed =>
          match get "response" parsed with
          | Some response =>
              match transformThinkingParts response with
              | Some transformed => "data: " +:+ JSON_stringify transformed
              | None => line
              end
          | None => line
          end
      | None => line
      end.

Definition transformStreamingPayload (payload : string) : string :=
  String.concat newline (map transformPayloadLine (split LF payload)).

(** [transformSseLine]: the line it returns and what it leaves in the
    thought buffer, the cached thinking and the debug state. An exception
    inside the [try] returns the line as it came; what was written before
    stays. *)
Definition transformSseLine (signatureSessionKey debugText : string)
    (cacheSignatures : bool) (st : StreamState) (line : string) : StreamState * string :=
  if negb (String.prefix "data:" line) then (st, line)
  else
    let json := trim (sliceFrom 5 line) in
    if negb (nonEmpty json) then (st, line)
    else
      match JSON_parse json with
      | Some parsed =>
          match get "response" parsed with
          | Some response =>
              let caching := cacheSignatures && nonEmpty signatureSessionKey in
              let captured1 :=
                if caching
                then cacheThinkingSignatures response signatureSessionKey (captured st)
                else captured st in
              if caching
                 && negb (cacheThinkingSignaturesCompletes response signatureSessionKey
                            (captured st))
              then (mkStream captured1 (injected st), line)
              else
                let inject := nonEmpty debugText && negb (injected st) in
                let response1 :=
                  if inject then injectDebugThinking response debugText else response in
                let st1 := mkStream captured1 (injected st || inject) in
                match transformThinkingParts response1 with
                | Some transformed => (st1, "data: " +:+ JSON_stringify transformed)
                | None => (st1, line)
                end
          | None => (st, line)
          end
      | None => (st, line)
      end.

(** ** The streaming transformer *)

(** The transformer of [createStreamingTransformer]: its line state and
    its buffer of undelivered text. Chunks are their bytes, valid UTF-8
    without a byte-order mark, so decoding a chunk is appending it. *)
Definition Transformer : Type := StreamState * string.

Section Transformer.

Variable signatureSessionKey debugText : string.
Variable cacheSignatures : bool.

(** [transform(chunk, controller)]: the new transformer and what it
    enqueues. *)
Definition transform (s : Transformer) (chunk : string) : Transformer * list string :=
  let '(st, buffer) := s in
  let lines := split LF (buffer +:+ chunk) in
  let buffer' := default "" (last lines) in
  let '(st', outs) :=
    mapAccum (transformSseLine signatureSessionKey debugText cacheSignatures)
             st (withoutLast lines) in
  ((st', buffer'), map (fun transformedLine => transformedLine +:+ newline) outs).

(** [flush(controller)] *)
Definition flush (s : Transformer) : StreamState * list string :=
  let '(st, buffer) := s in
  if nonEmpty buffer then
    let '(st', transformedLine) :=
      transformSseLine signatureSessionKey debugText cacheSignatures st buffer in
    (st', [transformedLine])
  else (st, []).

(** A whole response body piped through the transformer in the given
    chunks: the final line state and everything that was enqueued. *)
Definition pipe (st : StreamState) (chunks : list string) : StreamState * string :=
  let feed (acc : Transformer * string) (chunk : string) :=
    let '(s, out) := acc in
    let '(s', enqueued) := transform s chunk in
    (s', out +:+ String.concat "" enqueued) in
  let '(s, out) := foldl feed ((st, ""), "") chunks in
  let '(st', enqueued) := flush s in
  (st', out +:+ String.concat "" enqueued).

End Transformer.

End Lines.

(** ** Specification vocabulary *)

(** The lines of a text, transformed in order by a line function that
    threads a state, each complete line followed by a line feed; the text
    after the last line feed is transformed when it is not empty. *)
Definition lineByLine {S} (T : S -> string -> S * string) (st : S) (text : string)
  : S * string :=
  let segments := split LF text in
  let '(st1, outs) := mapAccum T st (withoutLast segments) in
  let rest := default "" (last segments) in
  let delivered := String.concat "" (map (fun l => l +:+ newline) outs) in
  if nonEmpty rest
  then let '(st2, out) := T st1 rest in (st2, delivered +:+ out)
  else (st1, delivered).

End Stream.

(* ===================================================================== *)
(** * Request shaping (request.js, transform/claude.js)                   *)
(* ===================================================================== *)

Module Shaping.

Import JS Request Text.

(** [delete o.k] on the property list of an object. *)
Definition removeField (k : string) (fields : list (string * JSON)) : list (string * JSON) :=
  List.filter (fun p => negb (String.eqb k (fst p))) fields.

(** ** Tool configuration of Claude models *)

(** [configureClaudeToolConfig(payload)], and the same statements at the
    head of the transformer. A property written on an array is not part of
    the JSON document, so an array in the place of [toolConfig] or of
    [functionCallingConfig] stays as it is. *)
Definition configureClaudeToolConfig (payload : list (string * JSON)) : list (string * JSON) :=
  let payload1 :=
    if negb (truthyO (assoc "toolConfig" payload))
    then setField "toolConfig" (JObj []) payload else payload in
  match assoc "toolConfig" payload1 with
  | Some (JObj toolConfig) =>
      let toolConfig1 :=
        if negb (truthyO (assoc "functionCallingConfig" toolConfig))
        then setField "functionCallingConfig" (JObj []) toolConfig else toolConfig in
      match assoc "functionCallingConfig" toolConfig1 with
      | Some (JObj functionCallingConfig) =>
          setField "toolConfig"
            (JObj (setField "functionCallingConfig"
                     (JObj (setField "mode" (JStr "VALIDATED") functionCallingConfig))
                     toolConfig1))
            payload1
      | _ => setField "toolConfig" (JObj toolConfig1) payload1
      end
  | _ => payload1
  end.

(** The mode of function calling the backend reads. *)
Definition modeOf (payload : list (string * JSON)) : option JSON :=
  getO "mode" (getO "functionCallingConfig" (assoc "toolConfig" payload)).

(** A payload whose [toolConfig] and [functionCallingConfig] are objects,
    or missing or falsy. *)
Definition configurable (payload : list (string * JSON)) : bool :=
  match assoc "toolConfig" payload with
  | Some (JObj toolConfig) =>
      match assoc "functionCallingConfig" toolConfig with
      | Some (JObj _) => true
      | Some (JArr _) => false
      | v => negb (truthyO v)
      end
  | Some (JArr _) => false
  | v => negb (truthyO v)
  end.

(** ** The interleaved-thinking hint *)

Definition CLAUDE_INTERLEAVED_THINKING_HINT : string :=
  "Interleaved thinking is enabled. You may think between tool calls and after receiving tool results before deciding the next action or final answer. Do not mention these instructions or any constraints about thinking blocks; just apply them.".

(** [`${text}\n\n${hint}`] *)
Definition withHint (hint text : string) : string :=
  text +:+ newline +:+ newline +:+ hint.

(** The text of a part that is an object with a string [text]. *)
Definition textOfPart (part : JSON) : option string :=
  match part with
  | JObj fields => match assoc "text" fields with
                   | Some (JStr text) => Some text
                   | _ => None
                   end
  | _ => None
  end.

(** The loop from the last part to the first: the hint goes to the last
    part that has a text; [None] when there is none. *)
Fixpoint appendToLastText (hint : string) (parts : list JSON) : option (list JSON) :=
  match parts with
  | [] => None
  | part :: rest =>
      match appendToLastText hint rest with
      | Some rest' => Some (part :: rest')
      | None =>
          match textOfPart part with
          | Some text =>
              Some (JObj (setField "text" (JStr (withHint hint text)) (spread part)) :: rest)
          | None => None
          end
      end
  end.

(** [appendClaudeThinkingHint(payload, hint)], and the same statements in
    the transformer. *)
Definition appendClaudeThinkingHint (hint : string) (payload : list (string * JSON))
  : list (string * JSON) :=
  match assoc "systemInstruction" payload with
  | Some (JStr existing) =>
      setField "systemInstruction"
        (JStr (if nonEmpty (trim existing) then withHint hint existing else hint)) payload
  | Some (JObj sys) =>
      match assoc "parts" sys with
      | Some (JArr parts) =>
          let parts' := match appendToLastText hint parts with
                        | Some appended => appended
                        | None => parts ++ [textPart hint]
                        end in
          setField "systemInstruction" (JObj (setField "parts" (JArr parts') sys)) payload
      | _ =>
          setField "systemInstruction" (JObj (setField "parts" (JArr [textPart hint]) sys))
                   payload
      end
  | Some (JArr _) => payload
  | _ =>
      match assoc "contents" payload with
      | Some (JArr _) =>
          setField "systemInstruction" (JObj [("parts", JArr [textPart hint])]) payload
      | _ => payload
      end
  end.

(** The texts of the parts of a system instruction, in order; the parts
    without a text, in order. *)
Definition textsOf (parts : list JSON) : list string := omap textOfPart parts.

Definition textless (parts : list JSON) : list JSON :=
  List.filter (fun p => match textOfPart p with Some _ => false | None => true end) parts.

(** ** Tools of models other than Claude *)

Definition DEFAULT_INPUT_SCHEMA : JSON :=
  JObj [("type", JStr "object"); ("properties", JObj []);
        ("additionalProperties", JBool false)].

(** [a || b] where [b] is a value. *)
Definition orElse (a : option JSON) (b : JSON) : JSON :=
  match a with
  | Some v => if truthy v then v else b
  | None => b
  end.

(** [[...].filter(Boolean)[0]] over the schema candidates of a tool. *)
Definition schemaOf (newTool : list (string * JSON)) : option JSON :=
  let function := assoc "function" newTool in
  let custom := assoc "custom" newTool in
  head (List.filter truthy
          (omap id [getO "input_schema" function; getO "parameters" function;
                    getO "inputSchema" function; getO "input_schema" custom;
                    getO "parameters" custom; assoc "parameters" newTool;
                    assoc "input_schema" newTool; assoc "inputSchema" newTool])).

(** [target && !target.input_schema] *)
Definition lacksSchema (target : option JSON) : bool :=
  truthyO target && negb (truthyO (getO "input_schema" target)).

(** [newTool.k.input_schema = schema] for a truthy [newTool.k]: on an
    object the property is written; on an array it is written beside the
    elements and is not part of the document; on a primitive the
    assignment throws, the module being in strict mode. *)
Definition setSchema (k : string) (schema : JSON) (newTool : list (string * JSON))
  : option (list (string * JSON)) :=
  match assoc k newTool with
  | Some (JObj o) => Some (setField k (JObj (setField "input_schema" schema o)) newTool)
  | Some (JArr _) => Some newTool
  | _ => None
  end.

(** [{ name, description, input_schema: schema ?? {...} }]; a property
    whose value is [undefined] is not part of the document. *)
Definition customOf (name : JSON) (description schema : option JSON) : JSON :=
  JObj ([("name", name)] ++ optField "description" description
        ++ [("input_schema", default DEFAULT_INPUT_SCHEMA schema)]).

(** [if (newTool.k && !newTool.k.input_schema && schema)
    newTool.k.input_schema = schema], for [k] one of [function] and
    [custom]; [None] when the assignment throws. *)
Definition giveSchema (k : string) (schema : option JSON) (newTool : list (string * JSON))
  : option (list (string * JSON)) :=
  match schema with
  | Some s => if lacksSchema (assoc k newTool) then setSchema k s newTool else Some newTool
  | None => Some newTool
  end.

(** [if (!newTool.custom && newTool.function) newTool.custom = {...}] *)
Definition wrapFunction (nameCandidate : JSON) (schema : option JSON)
    (newTool : list (string * JSON)) : list (string * JSON) :=
  if negb (truthyO (assoc "custom" newTool)) && truthyO (assoc "function" newTool)
  then setField "custom"
         (customOf (orElse (getO "name" (assoc "function" newTool)) nameCandidate)
                   (getO "description" (assoc "function" newTool)) schema)
         newTool
  else newTool.

(** [if (!newTool.custom && !newTool.function) newTool.custom = {...}] *)
Definition wrapBare (nameCandidate : JSON) (schema : option JSON)
    (newTool : list (string * JSON)) : list (string * JSON) :=
  if negb (truthyO (assoc "custom" newTool)) && negb (truthyO (assoc "function" newTool))
  then setField "custom"
         (customOf nameCandidate (assoc "description" newTool) schema) newTool
  else newTool.

(** [if (newTool.custom && !newTool.custom.input_schema) {...}]: the
    default schema is written and the tool is counted. [onArray] says that
    [custom] is an array that was given the schema before: the property
    is beside its elements, where the model does not keep it. *)
Definition fillSchema (onArray : bool) (newTool : list (string * JSON))
  : option (list (string * JSON) * bool) :=
  let missing := lacksSchema (assoc "custom" newTool) && negb onArray in
  if missing
  then match setSchema "custom" DEFAULT_INPUT_SCHEMA newTool with
       | Some filled => Some (filled, true)
       | None => None
       end
  else Some (newTool, false).

(** [if (newTool.custom) delete newTool.custom] *)
Definition stripCustom (newTool : list (string * JSON)) : list (string * JSON) :=
  if truthyO (assoc "custom" newTool) then removeField "custom" newTool else newTool.

(** The callback of [requestPayload.tools.map] for a model that is not
    Claude: the new tool and whether [toolDebugMissing] is incremented;
    [None] when the callback throws. The debug summary, a string that is
    only logged, is left out. *)
Definition normalizeGeminiTool (toolIndex : nat) (tool : JSON)
  : option (list (string * JSON) * bool) :=
  let newTool := spread tool in
  let schema := schemaOf newTool in
  let nameCandidate :=
    orElse (assoc "name" newTool)
      (orElse (getO "name" (assoc "function" newTool))
         (orElse (getO "name" (assoc "custom" newTool))
            (JStr ("tool-" +:+ pretty toolIndex)))) in
  match giveSchema "function" schema newTool with
  | None => None
  | Some tool1 =>
      match giveSchema "custom" schema tool1 with
      | None => None
      | Some tool2 =>
          let onArray :=
            match assoc "custom" tool1, schema with
            | Some (JArr _), Some _ => true
            | _, _ => false
            end in
          match fillSchema onArray
                  (wrapBare nameCandidate schema (wrapFunction nameCandidate schema tool2))
          with
          | None => None
          | Some (tool5, missing) => Some (stripCustom tool5, missing)
          end
      end
  end.

(** [requestPayload.tools.map(...)] with the count of [toolDebugMissing];
    [None] when a callback throws. *)
Fixpoint normalizeGeminiToolsFrom (toolIndex : nat) (tools : list JSON)
  : option (list JSON * nat) :=
  match tools with
  | [] => Some ([], 0%nat)
  | tool :: rest =>
      match normalizeGeminiTool toolIndex tool with
      | None => None
      | Some (newTool, missing) =>
          match normalizeGeminiToolsFrom (S toolIndex) rest with
          | None => None
          | Some (newTools, count) =>
              Some (JObj newTool :: newTools, ((if missing then 1 else 0) + count)%nat)
          end
      end
  end.

Definition normalizeGeminiTools (tools : list JSON) : option (list JSON * nat) :=
  normalizeGeminiToolsFrom 0 tools.

(** A value that is truthy and not an object: a property cannot be
    written on it. *)
Definition truthyPrimitive (v : option JSON) : bool :=
  truthyO v && negb (match v with Some x => isObject x | None => false end).

(** The tools on which the callback throws: a [custom] that is a truthy
    primitive, or a [function] that is one while a schema was found. *)
Definition unwritable (tool : JSON) : bool :=
  let newTool := spread tool in
  truthyPrimitive (assoc "custom" newTool)
  || (truthyPrimitive (assoc "function" newTool) && bool_decide (schemaOf newTool <> None)).

(** The tools counted by [toolDebugMissing]: a [custom] that is an object
    or an array without a truthy [input_schema], where no schema was
    found. *)
Definition countedMissing (tool : JSON) : bool :=
  let newTool := spread tool in
  lacksSchema (assoc "custom" newTool) && bool_decide (schemaOf newTool = None).

(** A [function] or [custom] after it was given the schema that was
    found: an object without a truthy [input_schema] has it; anything
    else is as it was. *)
Definition withSchema (schema : option JSON) (v : option JSON) : option JSON :=
  match v, schema with
  | Some (JObj o), Some s =>
      if truthyO (assoc "input_schema" o) then v
      else Some (JObj (setField "input_schema" s o))
  | _, _ => v
  end.

(** ** Cached content *)

(** The statements of the transformer that deal with [cached_content],
    [cachedContent] and [extra_body]. *)
Definition normalizeCachedContent (requestPayload : list (string * JSON))
  : list (string * JSON) :=
  let cachedContentFromExtra :=
    match assoc "extra_body" requestPayload with
    | Some extra =>
        if isObject extra
        then coalesce (get "cached_content" extra) (get "cachedContent" extra)
        else None
    | None => None
    end in
  let cachedContent :=
    coalesce (coalesce (assoc "cached_content" requestPayload)
                       (assoc "cachedContent" requestPayload))
             cachedContentFromExtra in
  let payload1 :=
    match cachedContent with
    | Some v => if truthy v then setField "cachedContent" v requestPayload else requestPayload
    | None => requestPayload
    end in
  let payload2 := removeField "cachedContent" (removeField "cached_content" payload1) in
  match assoc "extra_body" payload2 with
  | Some (JObj extra) =>
      let extra' := removeField "cachedContent" (removeField "cached_content" extra) in
      if (length extra' =? 0)%nat then removeField "extra_body" payload2
      else setField "extra_body" (JObj extra') payload2
  | Some (JArr items) =>
      if (length items =? 0)%nat then removeField "extra_body" payload2 else payload2
  | _ => payload2
  end.

(** ** The [anthropic-beta] header *)

Definition INTERLEAVED_HEADER : string := "interleaved-thinking-2025-05-14".

(** The value of the [anthropic-beta] header after the step for Claude
    thinking models, from the value [headers.get] returns. *)
Definition withInterleavedHeader (existing : option string) : string :=
  match existing with
  | Some e =>
      if nonEmpty e
      then if includes e INTERLEAVED_HEADER then e else e +:+ "," +:+ INTERLEAVED_HEADER
      else INTERLEAVED_HEADER
  | None => INTERLEAVED_HEADER
  end.

End Shaping.

(* ===================================================================== *)
(** * Properties                                                          *)
(* ===================================================================== *)

(** ** Account manager *)

Module AccountsFacts.

Import Accounts.

(** *** The cursor starts as a non-negative integer *)

Lemma initialCursor_nonneg activeIndex n : 0 <= initialCursor activeIndex n.
Proof.
  unfold initialCursor, clampNonNegativeInt.
  assert (0 <= match activeIndex with
               | Some v => if v <? 0 then 0 else v
               | None => 0
               end) as Hc.
  { destruct activeIndex as [v|]; [|lia].
    destruct (v <? 0) eqn:E; [lia|]. apply Z.ltb_ge in E. exact E. }
  destruct (0 <? n)%nat eqn:En; [|exact Hc].
  apply Z.rem_nonneg; [|exact Hc].
  apply Nat.ltb_lt in En. lia.
Qed.

(** *** Facts about pruning and availability *)

Lemma clearKey_get now k k' r :
  rlGet (clearKey now k r) k' =
  if decide (k = k')
  then match rlGet r k' with
       | Some t => if now >=? t then None else Some t
       | None => None
       end
  else rlGet r k'.
Proof.
  unfold clearKey.
  destruct k, k'; simpl; destruct r as [c ga gc]; simpl;
    repeat match goal with
           | |- context [match ?o with Some _ => _ | None => _ end] => destruct o; simpl
           | |- context [if ?b then _ else _] => destruct b eqn:?; simpl
           end; try reflexivity; try congruence.
Qed.

Lemma clearExpired_get now a k :
  rlGet (rateLimitResetTimes (clearExpiredRateLimits now a)) k =
  match rlGet (rateLimitResetTimes a) k with
  | Some t => if now >=? t then None else Some t
  | None => None
  end.
Proof.
  unfold clearExpiredRateLimits; simpl.
  rewrite !clearKey_get.
  destruct k; simpl; reflexivity.
Qed.

Lemma limitedKey_clearExpired now a k :
  isRateLimitedForQuotaKey now (clearExpiredRateLimits now a) k =
  isRateLimitedForQuotaKey now a k.
Proof.
  unfold isRateLimitedForQuotaKey. rewrite clearExpired_get.
  destruct (rlGet (rateLimitResetTimes a) k) as [t|]; [|reflexivity].
  destruct (now >=? t) eqn:E; [|reflexivity].
  symmetry. apply Z.ltb_ge. apply Z.geb_le in E. lia.
Qed.

Lemma limited_clearExpired now a f :
  isRateLimitedForFamily now (clearExpiredRateLimits now a) f =
  isRateLimitedForFamily now a f.
Proof. destruct f; simpl; rewrite ?limitedKey_clearExpired; reflexivity. Qed.

Lemma limitedKey_setLastUsed now t a k :
  isRateLimitedForQuotaKey now (setLastUsed t a) k = isRateLimitedForQuotaKey now a k.
Proof. reflexivity. Qed.

Lemma keyFree_iff now a k :
  keyFree now a k <-> isRateLimitedForQuotaKey now a k = false.
Proof.
  unfold keyFree, isRateLimitedForQuotaKey.
  destruct (rlGet (rateLimitResetTimes a) k) as [t|]; [|tauto].
  rewrite Z.ltb_ge. tauto.
Qed.

Lemma hasFreeKey_iff now a f :
  hasFreeKey now a f <-> isRateLimitedForFamily now a f = false.
Proof.
  destruct f; simpl; rewrite ?keyFree_iff; [tauto|].
  rewrite andb_false_iff. tauto.
Qed.

Lemma withPositionsFrom_lookup {A} (l : list A) k i x :
  withPositionsFrom k l !! i = Some x <-> (fst x = (k + i)%nat /\ l !! i = Some (snd x)).
Proof.
  revert k i; induction l as [|y l IH]; intros k i; simpl.
  - rewrite !lookup_nil. split; [discriminate|intros [_ ?]; discriminate].
  - destruct i as [|i]; simpl.
    + destruct x as [p v]; simpl. split.
      * intros [= <- <-]. split; [lia|reflexivity].
      * intros [-> [= ->]]. f_equal. f_equal. lia.
    + rewrite IH. replace (S k + i)%nat with (k + S i)%nat by lia. tauto.
Qed.

Lemma withPositionsFrom_snd {A} (l : list A) k :
  map snd (withPositionsFrom k l) = l.
Proof. revert k; induction l as [|y l IH]; intros k; simpl; [|rewrite IH]; reflexivity. Qed.

Lemma filter_map_snd {A B} (P : B -> bool) (l : list (A * B)) :
  map snd (List.filter (fun p => P (snd p)) l) = List.filter P (map snd l).
Proof.
  induction l as [|[a b] l IH]; simpl; [reflexivity|].
  destruct (P b); simpl; rewrite IH; reflexivity.
Qed.

Lemma available_snd now family pool :
  map snd (availableForFamily now family pool) =
  List.filter (fun a => negb (isRateLimitedForFamily now a family)) pool.
Proof.
  unfold availableForFamily.
  rewrite (filter_map_snd (fun a => negb (isRateLimitedForFamily now a family))).
  rewrite withPositionsFrom_snd. reflexivity.
Qed.

Lemma available_elem now family pool pos a :
  In (pos, a) (availableForFamily now family pool) ->
  pool !! pos = Some a /\ isRateLimitedForFamily now a family = false.
Proof.
  unfold availableForFamily. rewrite filter_In. intros [Hin Hb].
  apply list_elem_of_In, list_elem_of_lookup in Hin. destruct Hin as [i Hi].
  apply withPositionsFrom_lookup in Hi. simpl in *. destruct Hi as [-> Hi].
  split; [exact Hi|]. apply negb_true_iff in Hb. exact Hb.
Qed.

Lemma jsIndex_Some {A} (l : list A) k x :
  jsIndex l k = Some x -> 0 <= k /\ l !! Z.to_nat k = Some x.
Proof.
  unfold jsIndex. destruct (k <? 0) eqn:E; [discriminate|].
  apply Z.ltb_ge in E. tauto.
Qed.

Lemma jsIndex_rem_in_range {A} (l : list A) c :
  0 <= c -> l <> [] ->
  exists x, jsIndex l (Z.rem c (Z.of_nat (length l))) = Some x
            /\ l !! Z.to_nat (c `mod` Z.of_nat (length l)) = Some x.
Proof.
  intros Hc Hl.
  assert (0 < Z.of_nat (length l)) as Hlen by (destruct l; [congruence|simpl; lia]).
  rewrite Z.rem_mod_nonneg by lia.
  pose proof (Z.mod_pos_bound c _ Hlen) as [Hlo Hhi].
  destruct (l !! Z.to_nat (c `mod` Z.of_nat (length l))) as [x|] eqn:E.
  - exists x. split; [|reflexivity]. unfold jsIndex.
    destruct (_ <? 0) eqn:E2; [apply Z.ltb_lt in E2; lia|exact E].
  - apply lookup_ge_None in E. lia.
Qed.

(** *** Rotation: [getNextForFamily] *)

Lemma getNextForFamily_selects now family m :
  0 <= cursor m ->
  let pruned := map (clearExpiredRateLimits now) (accounts m) in
  let filtered := List.filter (fun a => negb (isRateLimitedForFamily now a family)) pruned in
  let result := getNextForFamily now family m in
  (filtered = [] ->
     fst result = None /\ cursor (snd result) = cursor m /\ accounts (snd result) = pruned)
  /\
  (filtered <> [] ->
     exists a pos,
       filtered !! Z.to_nat (cursor m `mod` Z.of_nat (length filtered)) = Some a
       /\ pruned !! pos = Some a
       /\ fst result = Some (setLastUsed now a)
       /\ accounts (snd result) = <[pos := setLastUsed now a]> pruned
       /\ cursor (snd result) = cursor m + 1).
Proof.
  intros Hc pruned filtered result.
  pose proof (available_snd now family pruned) as Hsnd. fold filtered in Hsnd.
  assert (length (availableForFamily now family pruned) = length filtered) as Hlen.
  { rewrite <- Hsnd. rewrite length_map. reflexivity. }
  subst result. unfold getNextForFamily. fold pruned. split.
  - intros Hnil. rewrite Hlen, Hnil. simpl. auto.
  - intros Hne. rewrite Hlen.
    destruct (Z.of_nat (length filtered) =? 0) eqn:E.
    { apply Z.eqb_eq in E. destruct filtered; [congruence|simpl in E; lia]. }
    assert (availableForFamily now family pruned <> []) as Hane.
    { intros Heq. rewrite Heq in Hlen. destruct filtered; [congruence|discriminate]. }
    destruct (jsIndex_rem_in_range _ _ Hc Hane) as [[pos a] [Hjs Hlk]].
    rewrite Hlen in Hjs, Hlk. rewrite Hjs. simpl.
    exists a, pos. repeat split.
    + set (k := Z.to_nat _) in *. clearbody k.
      rewrite <- Hsnd, list_lookup_fmap, Hlk. reflexivity.
    + apply (available_elem now family pruned pos a).
      apply list_elem_of_In, list_elem_of_lookup. eauto.
Qed.

Lemma getNextForFamily_cursor now family m :
  0 <= cursor m -> 0 <= cursor (snd (getNextForFamily now family m)).
Proof.
  intros Hc. unfold getNextForFamily.
  destruct (_ =? 0); [exact Hc|].
  destruct (jsIndex _ _) as [[pos a]|]; simpl; lia.
Qed.

(** C6. [getNextForFamily] prunes the expired reset times of every pooled
    account and keeps the accounts that are not rate-limited for the
    family. When none is left it returns null and leaves the cursor as it
    was; otherwise it returns the element of the filtered list at index
    [cursor mod length] (the pooled object, its [lastUsed] set to the
    clock) and increments the cursor by one. *)
Theorem getNextForFamily_round_robin now family m :
  0 <= cursor m ->
  let pruned := map (clearExpiredRateLimits now) (accounts m) in
  let filtered := List.filter (fun a => negb (isRateLimitedForFamily now a family)) pruned in
  let result := getNextForFamily now family m in
  (filtered = [] ->
     fst result = None /\ cursor (snd result) = cursor m /\ accounts (snd result) = pruned)
  /\
  (filtered <> [] ->
     exists a pos,
       filtered !! Z.to_nat (cursor m `mod` Z.of_nat (length filtered)) = Some a
       /\ pruned !! pos = Some a
       /\ fst result = Some (setLastUsed now a)
       /\ accounts (snd result) = <[pos := setLastUsed now a]> pruned
       /\ cursor (snd result) = cursor m + 1).
Proof. exact (getNextForFamily_selects now family m). Qed.

(** *** Sticky selection: [getCurrentOrNextForFamily] *)

Lemma getCurrentAccount_Some m family pos a :
  getCurrentAccountForFamily m family = Some (pos, a) -> accounts m !! pos = Some a.
Proof.
  unfold getCurrentAccountForFamily.
  destruct (_ && _); [|discriminate].
  destruct (accounts m !! _) eqn:E; [|discriminate].
  intros [= <- <-]. exact E.
Qed.

Lemma exists_free_filter now family (pool : list ManagedAccount) :
  (exists a, In a pool /\ hasFreeKey now a family) <->
  List.filter (fun a => negb (isRateLimitedForFamily now a family)) pool <> [].
Proof.
  split.
  - intros (a & Hin & Hfree) Hnil.
    assert (In a (List.filter (fun a => negb (isRateLimitedForFamily now a family)) pool)) as H.
    { apply filter_In. split; [exact Hin|]. apply hasFreeKey_iff in Hfree. rewrite Hfree. reflexivity. }
    rewrite Hnil in H. destruct H.
  - intros Hne.
    destruct (List.filter _ pool) as [|a l] eqn:E; [congruence|].
    assert (In a (List.filter (fun a => negb (isRateLimitedForFamily now a family)) pool)) as H
      by (rewrite E; left; reflexivity).
    apply filter_In in H. destruct H as [Hin Hb].
    exists a. split; [exact Hin|]. apply hasFreeKey_iff. apply negb_true_iff in Hb. exact Hb.
Qed.

Lemma exists_free_pruned now family (pool : list ManagedAccount) :
  (exists a, In a (map (clearExpiredRateLimits now) pool) /\ hasFreeKey now a family) <->
  (exists a, In a pool /\ hasFreeKey now a family).
Proof.
  split.
  - intros (a & Hin & Hfree). apply in_map_iff in Hin. destruct Hin as (a0 & <- & Hin0).
    exists a0. split; [exact Hin0|].
    apply hasFreeKey_iff. apply hasFreeKey_iff in Hfree.
    rewrite limited_clearExpired in Hfree. exact Hfree.
  - intros (a & Hin & Hfree). exists (clearExpiredRateLimits now a). split.
    + apply in_map. exact Hin.
    + apply hasFreeKey_iff. rewrite limited_clearExpired. apply hasFreeKey_iff. exact Hfree.
Qed.

Lemma exists_free_insert_pruned now family (pool : list ManagedAccount) pos a0 :
  pool !! pos = Some a0 ->
  (exists a, In a (<[pos := clearExpiredRateLimits now a0]> pool) /\ hasFreeKey now a family) <->
  (exists a, In a pool /\ hasFreeKey now a family).
Proof.
  intros Hpos. split.
  - intros (a & Hin & Hfree).
    apply list_elem_of_In, list_elem_of_lookup in Hin. destruct Hin as [i Hi].
    destruct (decide (pos = i)) as [->|Hne].
    + rewrite list_lookup_insert_eq in Hi by (eapply lookup_lt_Some; eauto).
      injection Hi as <-. exists a0. split.
      * apply list_elem_of_In, list_elem_of_lookup. eauto.
      * apply hasFreeKey_iff. apply hasFreeKey_iff in Hfree.
        rewrite limited_clearExpired in Hfree. exact Hfree.
    + rewrite list_lookup_insert_ne in Hi by exact Hne.
      exists a. split; [|exact Hfree].
      apply list_elem_of_In, list_elem_of_lookup. eauto.
  - intros (a & Hin & Hfree).
    apply list_elem_of_In, list_elem_of_lookup in Hin. destruct Hin as [i Hi].
    destruct (decide (pos = i)) as [->|Hne].
    + exists (clearExpiredRateLimits now a0). split.
      * apply list_elem_of_In, list_elem_of_lookup. exists i.
        apply list_lookup_insert_eq. eapply lookup_lt_Some; eauto.
      * rewrite Hpos in Hi. injection Hi as ->.
        apply hasFreeKey_iff. rewrite limited_clearExpired. apply hasFreeKey_iff. exact Hfree.
    + exists a. split; [|exact Hfree].
      apply list_elem_of_In, list_elem_of_lookup. exists i.
      rewrite list_lookup_insert_ne by exact Hne. exact Hi.
Qed.

Lemma getNextForFamily_returns_iff now family m :
  0 <= cursor m ->
  (exists a, fst (getNextForFamily now family m) = Some a) <->
  (exists a, In a (accounts m) /\ hasFreeKey now a family).
Proof.
  intros Hc.
  destruct (getNextForFamily_selects now family m Hc) as [Hnil Hne].
  rewrite <- exists_free_pruned, exists_free_filter.
  destruct (List.filter _ (map (clearExpiredRateLimits now) (accounts m))) as [|x l] eqn:E.
  - destruct (Hnil eq_refl) as [Hr _]. rewrite Hr. split; [intros [a Ha]; discriminate|congruence].
  - destruct Hne as (a & pos & _ & _ & Hr & _); [congruence|].
    rewrite Hr. split; [congruence|eauto].
Qed.

Lemma getNextForFamily_returned_free now family m a :
  fst (getNextForFamily now family m) = Some a -> hasFreeKey now a family.
Proof.
  unfold getNextForFamily.
  destruct (_ =? 0); [discriminate|].
  destruct (jsIndex _ _) as [[pos acc]|] eqn:E; [|discriminate].
  simpl. intros [= <-].
  apply jsIndex_Some in E. destruct E as [_ E].
  assert (In (pos, acc) (availableForFamily now family
            (map (clearExpiredRateLimits now) (accounts m)))) as Hin.
  { apply list_elem_of_In, list_elem_of_lookup. eauto. }
  apply available_elem in Hin. destruct Hin as [_ Hlim].
  apply hasFreeKey_iff. exact Hlim.
Qed.

Lemma getCurrentOrNext_cursor now family m :
  0 <= cursor m -> 0 <= cursor (snd (getCurrentOrNextForFamily now family m)).
Proof.
  intros Hc. unfold getCurrentOrNextForFamily.
  destruct (getCurrentAccountForFamily m family) as [[pos cur]|].
  - destruct (negb _); [exact Hc|].
    pose proof (getNextForFamily_cursor now family
                  (setAccounts (<[pos:=clearExpiredRateLimits now cur]> (accounts m)) m) Hc) as H.
    destruct (getNextForFamily _ _ _) as [[next|] m2]; simpl in *;
      [destruct family; simpl; exact H|exact H].
  - pose proof (getNextForFamily_cursor now family m Hc) as H.
    destruct (getNextForFamily _ _ _) as [[next|] m2]; simpl in *;
      [destruct family; simpl; exact H|exact H].
Qed.

Lemma run_cursor evs m now :
  0 <= cursor m -> 0 <= cursor (fst (run evs (m, now))).
Proof.
  unfold run. revert m now. induction evs as [|e evs IH]; intros m now Hc; [exact Hc|].
  simpl. destruct e as [pos r f h|dt|f]; simpl; apply IH.
  - unfold markRateLimited. destruct (accounts m !! pos); exact Hc.
  - exact Hc.
  - apply getCurrentOrNext_cursor. exact Hc.
Qed.

Lemma getCurrentOrNext_returns_iff now family m :
  0 <= cursor m ->
  (exists a, fst (getCurrentOrNextForFamily now family m) = Some a) <->
  (exists a, In a (accounts m) /\ hasFreeKey now a family).
Proof.
  intros Hc. unfold getCurrentOrNextForFamily.
  destruct (getCurrentAccountForFamily m family) as [[pos cur]|] eqn:Hcur.
  - apply getCurrentAccount_Some in Hcur.
    destruct (negb _) eqn:Hlim.
    + simpl. split; [intros _|eauto].
      exists cur. split; [apply list_elem_of_In, list_elem_of_lookup; eauto|].
      apply hasFreeKey_iff. apply negb_true_iff in Hlim.
      rewrite limited_clearExpired in Hlim. exact Hlim.
    + rewrite <- (exists_free_insert_pruned now family (accounts m) pos cur Hcur).
      set (m1 := setAccounts _ m).
      assert (0 <= cursor m1) as Hc1 by exact Hc.
      pose proof (getNextForFamily_returns_iff now family m1 Hc1) as HN.
      simpl in HN. rewrite <- HN. clear HN.
      destruct (getNextForFamily now family m1) as [[next|] m2]; simpl; [split; eauto|].
      split; intros [a Ha]; discriminate.
  - rewrite <- (getNextForFamily_returns_iff now family m Hc).
    destruct (getNextForFamily now family m) as [[next|] m2]; simpl; [split; eauto|].
    split; intros [a Ha]; discriminate.
Qed.

Lemma getCurrentOrNext_returned_free now family m a :
  fst (getCurrentOrNextForFamily now family m) = Some a -> hasFreeKey now a family.
Proof.
  unfold getCurrentOrNextForFamily.
  destruct (getCurrentAccountForFamily m family) as [[pos cur]|].
  - destruct (negb _) eqn:Hlim.
    + simpl. intros [= <-]. apply hasFreeKey_iff. apply negb_true_iff in Hlim. exact Hlim.
    + pose proof (getNextForFamily_returned_free now family
         (setAccounts (<[pos:=clearExpiredRateLimits now cur]> (accounts m)) m)) as H.
      destruct (getNextForFamily _ _ _) as [[next|] m2]; simpl in *; [|discriminate].
      intros [= <-]. apply H. reflexivity.
  - pose proof (getNextForFamily_returned_free now family m) as H.
    destruct (getNextForFamily _ _ _) as [[next|] m2]; simpl in *; [|discriminate].
    intros [= <-]. apply H. reflexivity.
Qed.

(** C1. After any sequence of [markRateLimited] calls, selections and
    clock advances, [getCurrentOrNextForFamily] returns an account exactly
    when some pooled account has a quota key of the family whose reset
    time is absent or not in the future (the [claude] key for claude, one
    of [gemini-antigravity] and [gemini-cli] for gemini); the account it
    returns has such a key; and a current gemini account with only one of
    its two keys limited is the account returned. *)
Theorem getCurrentOrNextForFamily_available evs m0 now0 family :
  0 <= cursor m0 ->
  let m := fst (run evs (m0, now0)) in
  let now := snd (run evs (m0, now0)) in
  let result := fst (getCurrentOrNextForFamily now family m) in
  ((exists a, result = Some a) <->
   (exists a, In a (accounts m) /\ hasFreeKey now a family))
  /\ (forall a, result = Some a -> hasFreeKey now a family)
  /\ (forall pos cur,
        family = Gemini ->
        getCurrentAccountForFamily m Gemini = Some (pos, cur) ->
        isRateLimitedForQuotaKey now cur KGeminiAntigravity
          <> isRateLimitedForQuotaKey now cur KGeminiCli ->
        result = Some (setLastUsed now (clearExpiredRateLimits now cur))).
Proof.
  intros Hc m now result.
  assert (0 <= cursor m) as Hcm by (apply run_cursor; exact Hc).
  split; [|split].
  - apply getCurrentOrNext_returns_iff. exact Hcm.
  - apply getCurrentOrNext_returned_free.
  - intros pos cur -> Hcur Hone. subst result.
    unfold getCurrentOrNextForFamily. rewrite Hcur.
    rewrite limited_clearExpired. simpl.
    destruct (isRateLimitedForQuotaKey now cur KGeminiAntigravity),
             (isRateLimitedForQuotaKey now cur KGeminiCli); simpl; congruence.
Qed.

Lemma getCurrentOrNextForFamily_available_witness :
  let m0 := mkManager [sampleAccount 0 noRateLimits] 0 0 0 in
  let evs := [EMarkRateLimited 0%nat 2000 Gemini Antigravity; EAdvance 1000%N] in
  0 <= cursor m0
  /\ forall a,
       fst (getCurrentOrNextForFamily (snd (run evs (m0, 0))) Gemini (fst (run evs (m0, 0))))
         = Some a ->
       hasFreeKey (snd (run evs (m0, 0))) a Gemini.
Proof.
  intros m0 evs. split; [simpl; lia|].
  apply (getCurrentOrNextForFamily_available evs m0 0 Gemini). simpl; lia.
Defined.

Lemma getNextForFamily_round_robin_witness :
  let m := mkManager [sampleAccount 0 (mkRateLimits (Some 900) None None);
                      sampleAccount 1 noRateLimits;
                      sampleAccount 2 (mkRateLimits (Some 50) None None)] 3 1 1 in
  0 <= cursor m
  /\ fst (getNextForFamily 100 Claude m)
     = Some (setLastUsed 100 (sampleAccount 2 noRateLimits))
  /\ cursor (snd (getNextForFamily 100 Claude m)) = 4.
Proof.
  intros m.
  assert (0 <= cursor m) as Hc by (simpl; lia).
  split; [exact Hc|].
  destruct (proj2 (getNextForFamily_round_robin 100 Claude m Hc)) as (a & pos & Ha & _ & Hr & _ & Hcur).
  { vm_compute. discriminate. }
  vm_compute in Ha. injection Ha as <-.
  split; [exact Hr|exact Hcur].
Defined.

(** *** Removal: [removeAccount] *)

Lemma reindex_lookup (l : list ManagedAccount) i :
  reindex l !! i = setIndex (Z.of_nat i) <$> (l !! i).
Proof. unfold reindex. exact (list_lookup_imap (fun j a => setIndex (Z.of_nat j) a) l i). Qed.

Lemma reindex_length (l : list ManagedAccount) : length (reindex l) = length l.
Proof. unfold reindex. apply length_imap. Qed.

(** C7, as the code has it. Removing the pooled account at position [idx]
    re-indexes the survivors so that every [index] field equals the array
    position, and brings the cursor into bounds ([0] for an empty pool).
    A family index greater than [idx] is shifted down by one; an index
    that is then past the end is reset to [-1], and both indices are
    [-1] when the pool is empty. An index equal to [idx] is reset only
    when the removed account was the last one; otherwise it is left
    unchanged. *)
Theorem removeAccount_contract m idx :
  (idx < length (accounts m))%nat ->
  0 <= cursor m ->
  let m' := snd (removeAccount idx m) in
  let len' := Z.of_nat (length (accounts m')) in
  fst (removeAccount idx m) = true
  /\ length (accounts m') = (length (accounts m) - 1)%nat
  /\ (forall i a, accounts m' !! i = Some a ->
        index a = Z.of_nat i
        /\ exists a0, delete idx (accounts m) !! i = Some a0 /\ a = setIndex (Z.of_nat i) a0)
  /\ (0 <= cursor m' /\ (cursor m' < len' \/ (len' = 0 /\ cursor m' = 0)))
  /\ forall f,
       let cur := currentAccountIndexByFamily m f in
       let cur' := currentAccountIndexByFamily m' f in
       (len' = 0 -> cur' = -1)
       /\ (0 < len' -> Z.of_nat idx < cur <= len' -> cur' = cur - 1)
       /\ (0 < len' -> len' < cur -> cur' = -1)
       /\ (0 < len' -> cur < Z.of_nat idx -> cur' = cur)
       /\ (0 < len' -> cur = Z.of_nat idx -> Z.of_nat idx < len' -> cur' = cur)
       /\ (0 < len' -> cur = Z.of_nat idx -> Z.of_nat idx = len' -> cur' = -1).
Proof.
  intros Hidx Hc m' len'.
  assert (length (reindex (delete idx (accounts m))) = (length (accounts m) - 1)%nat) as Hlen.
  { rewrite reindex_length, length_delete; [reflexivity|].
    apply lookup_lt_is_Some. exact Hidx. }
  subst len' m'. unfold removeAccount.
  destruct (decide (idx < length (accounts m))%nat) as [_|Hn]; [|contradiction].
  destruct (Z.of_nat (length (reindex (delete idx (accounts m)))) =? 0) eqn:E; simpl.
  - apply Z.eqb_eq in E.
    split; [reflexivity|]. split; [exact Hlen|]. split.
    { intros i a Hi. rewrite reindex_lookup in Hi.
      destruct (delete idx (accounts m) !! i) as [a0|]; [|discriminate].
      injection Hi as <-. split; [reflexivity|eauto]. }
    split; [lia|].
    intros f. destruct f; simpl; repeat split; intros; lia.
  - apply Z.eqb_neq in E.
    split; [reflexivity|]. split; [exact Hlen|]. split.
    { intros i a Hi. rewrite reindex_lookup in Hi.
      destruct (delete idx (accounts m) !! i) as [a0|]; [|discriminate].
      injection Hi as <-. split; [reflexivity|eauto]. }
    set (n := Z.of_nat (length (reindex (delete idx (accounts m))))) in *.
    assert (0 < n) as Hn by (subst n; lia).
    split.
    { assert (0 <= (if cursor m >? Z.of_nat idx then cursor m - 1 else cursor m)) as Hc1.
      { destruct (cursor m >? Z.of_nat idx) eqn:G; [apply Z.gtb_lt in G|]; lia. }
      pose proof (Z.rem_bound_pos _ n Hc1 Hn). lia. }
    intros f.
    assert (forall cur,
      (n = 0 -> shiftFamilyIndex idx (length (reindex (delete idx (accounts m)))) cur = -1)
      /\ (0 < n -> Z.of_nat idx < cur <= n ->
          shiftFamilyIndex idx (length (reindex (delete idx (accounts m)))) cur = cur - 1)
      /\ (0 < n -> n < cur ->
          shiftFamilyIndex idx (length (reindex (delete idx (accounts m)))) cur = -1)
      /\ (0 < n -> cur < Z.of_nat idx ->
          shiftFamilyIndex idx (length (reindex (delete idx (accounts m)))) cur = cur)
      /\ (0 < n -> cur = Z.of_nat idx -> Z.of_nat idx < n ->
          shiftFamilyIndex idx (length (reindex (delete idx (accounts m)))) cur = cur)
      /\ (0 < n -> cur = Z.of_nat idx -> Z.of_nat idx = n ->
          shiftFamilyIndex idx (length (reindex (delete idx (accounts m)))) cur = -1)) as Hshift.
    { intros cur. unfold shiftFamilyIndex. fold n.
      assert (Z.of_nat idx <= n) as Hin by (subst n; lia).
      destruct (cur >? Z.of_nat idx) eqn:G1;
        [apply Z.gtb_lt in G1|rewrite Z.gtb_ltb in G1; apply Z.ltb_ge in G1];
        match goal with
        | |- context [?x >=? n] =>
            destruct (x >=? n) eqn:G2;
              [apply Z.geb_le in G2|rewrite Z.geb_leb in G2; apply Z.leb_gt in G2]
        end; repeat split; intros; lia. }
    destruct f; simpl; apply Hshift.
Qed.

Lemma removeAccount_contract_witness :
  let m := mkManager [sampleAccount 0 noRateLimits; sampleAccount 1 noRateLimits;
                      sampleAccount 2 noRateLimits] 2 0 2 in
  (0 < length (accounts m))%nat /\ 0 <= cursor m
  /\ currentAccountIndexByFamily (snd (removeAccount 0 m)) Claude = 0
  /\ currentAccountIndexByFamily (snd (removeAccount 0 m)) Gemini = 1.
Proof.
  intros m.
  assert (0 < length (accounts m))%nat as H1 by (simpl; lia).
  assert (0 <= cursor m) as H2 by (simpl; lia).
  destruct (removeAccount_contract m 0 H1 H2) as (_ & _ & _ & _ & Hf).
  split; [exact H1|]. split; [exact H2|]. split.
  - destruct (Hf Claude) as (_ & _ & _ & _ & Hsame & _).
    apply Hsame; vm_compute; reflexivity.
  - destruct (Hf Gemini) as (_ & Hshift & _).
    apply Hshift; vm_compute; [reflexivity|split; [reflexivity|discriminate]].
Defined.

(** The sticky claude index references position 0; removing the account at
    position 0 of a two-account pool leaves the index at 0 (it now
    designates the former second account) instead of resetting it. *)
Lemma removeAccount_removed_position_counterexample :
  let m := mkManager [sampleAccount 0 noRateLimits; sampleAccount 1 noRateLimits] 0 0 1 in
  currentAccountIndexByFamily m Claude = 0
  /\ fst (removeAccount 0 m) = true
  /\ currentAccountIndexByFamily (snd (removeAccount 0 m)) Claude <> -1.
Proof. vm_compute. repeat split; discriminate. Qed.

End AccountsFacts.

(** ** Credential store migration *)

Module StorageFacts.

Import Accounts Storage.

Lemma truthy_future now t :
  0 <= now -> (if truthyNum t && gtNow t now then t else None) = keepFuture now t.
Proof.
  intros Hnow. destruct t as [n|]; simpl; [|reflexivity].
  destruct (decide (now < n)) as [H|H].
  - assert ((n =? 0) = false) as -> by (apply Z.eqb_neq; lia).
    assert ((n >? now) = true) as -> by (apply Z.gtb_lt; lia). reflexivity.
  - assert ((n >? now) = false) as ->
      by (rewrite Z.gtb_ltb; apply Z.ltb_ge; lia).
    rewrite andb_false_r. reflexivity.
Qed.

Lemma keepFuture_idem now t : keepFuture now (keepFuture now t) = keepFuture now t.
Proof.
  destruct t as [n|]; simpl; [|reflexivity].
  destruct (decide (now < n)) as [H|H]; simpl; [|reflexivity].
  destruct (decide (now < n)); [reflexivity|contradiction].
Qed.

Lemma migrateAccountV1ToV2_spec now a :
  0 <= now -> migratedV1V2 now a (migrateAccountV1ToV2 now a).
Proof.
  intros Hnow. unfold migratedV1V2, migrateAccountV1ToV2, resetV2Claude, resetV2Gemini, scalarV1.
  split; [reflexivity|].
  destruct a as [e r p mp ad lu [[|]|] t sr]; simpl.
  - pose proof (truthy_future now t Hnow) as H.
    destruct (truthyNum t && gtNow t now); rewrite <- H.
    + destruct t; simpl; split; reflexivity.
    + simpl. split; reflexivity.
  - destruct t as [n|]; simpl; [|split; reflexivity].
    destruct (decide (now < n)); split; reflexivity.
  - destruct t as [n|]; simpl; [|split; reflexivity].
    destruct (decide (now < n)); split; reflexivity.
Qed.

Lemma migrateAccountV2ToV3_spec now a :
  0 <= now -> migratedV2V3 now a (migrateAccountV2ToV3 now a).
Proof.
  intros Hnow. unfold migratedV2V3, migrateAccountV2ToV3, resetV3.
  fold (resetV2Claude a). fold (resetV2Gemini a).
  split; [reflexivity|]. simpl.
  pose proof (truthy_future now (resetV2Claude a) Hnow) as Hc.
  pose proof (truthy_future now (resetV2Gemini a) Hnow) as Hg.
  destruct (truthyNum (resetV2Claude a) && gtNow (resetV2Claude a) now);
    destruct (truthyNum (resetV2Gemini a) && gtNow (resetV2Gemini a) now);
    rewrite <- Hc, <- Hg; simpl;
    destruct (resetV2Claude a), (resetV2Gemini a); simpl; repeat split; reflexivity.
Qed.

Lemma migrated_compose now a b c :
  migratedV1V2 now a b -> migratedV2V3 now b c -> migratedV1V3 now a c.
Proof.
  intros (Hcore1 & Hc1 & Hg1) (Hcore2 & Hc2 & Hg2 & Hcli).
  unfold migratedV1V3. rewrite Hcore2, Hcore1, Hc2, Hg2, Hc1, Hg1, keepFuture_idem.
  auto.
Qed.

Lemma normalizeActiveIndex_accounts s :
  V3.accounts (normalizeActiveIndex s) = V3.accounts s.
Proof. unfold normalizeActiveIndex. destruct (_ || _); reflexivity. Qed.

Lemma normalizeActiveIndex_in_range s :
  V3.accounts s <> [] ->
  0 <= V3.activeIndex (normalizeActiveIndex s) < Z.of_nat (length (V3.accounts s)).
Proof.
  intros Hne. unfold normalizeActiveIndex.
  assert (0 < Z.of_nat (length (V3.accounts s)))
    by (destruct (V3.accounts s); [congruence|simpl; lia]).
  destruct (V3.activeIndex s <? 0) eqn:E1; simpl; [lia|].
  destruct (V3.activeIndex s >=? _) eqn:E2; simpl; [lia|].
  apply Z.ltb_ge in E1. rewrite Z.geb_leb in E2. apply Z.leb_gt in E2. lia.
Qed.

(** C9. Loading migrates forward. A v1 account's scalar
    [rateLimitResetTime], when the account is flagged rate-limited and the
    time is still in the future, becomes both the [claude] and the
    [gemini] reset time of the v2 shape; a v2 [gemini] time becomes the v3
    [gemini-antigravity] time, [claude] stays [claude], and times that are
    not in the future are dropped (the [gemini-cli] key starts empty).
    [email], [refreshToken], [projectId], [managedProjectId], [addedAt],
    [lastUsed] and [lastSwitchReason] are carried over unchanged, account
    by account and in order. *)
Theorem loadAccounts_migrates now :
  0 <= now ->
  (forall v1, Forall2 (migratedV1V2 now) (V1.accounts v1) (V2.accounts (migrateV1ToV2 now v1)))
  /\ (forall v2, Forall2 (migratedV2V3 now) (V2.accounts v2) (V3.accounts (migrateV2ToV3 now v2)))
  /\ (forall v1, exists s,
        loadAccounts now (Some (DataV1 v1)) = Some s
        /\ Forall2 (migratedV1V3 now) (V1.accounts v1) (V3.accounts s))
  /\ (forall v2, exists s,
        loadAccounts now (Some (DataV2 v2)) = Some s
        /\ Forall2 (migratedV2V3 now) (V2.accounts v2) (V3.accounts s)).
Proof.
  intros Hnow.
  assert (forall l, Forall2 (migratedV1V2 now) l (map (migrateAccountV1ToV2 now) l)) as H12.
  { induction l as [|a l IH]; simpl; constructor; [|exact IH].
    apply migrateAccountV1ToV2_spec. exact Hnow. }
  assert (forall l, Forall2 (migratedV2V3 now) l (map (migrateAccountV2ToV3 now) l)) as H23.
  { induction l as [|a l IH]; simpl; constructor; [|exact IH].
    apply migrateAccountV2ToV3_spec. exact Hnow. }
  split; [intros v1; apply H12|].
  split; [intros v2; apply H23|].
  split.
  - intros v1. eexists. split; [reflexivity|].
    rewrite normalizeActiveIndex_accounts. simpl.
    induction (V1.accounts v1) as [|a l IH]; simpl; constructor; [|exact IH].
    eapply migrated_compose.
    + apply migrateAccountV1ToV2_spec. exact Hnow.
    + apply migrateAccountV2ToV3_spec. exact Hnow.
  - intros v2. eexists. split; [reflexivity|].
    rewrite normalizeActiveIndex_accounts. apply H23.
Qed.

Lemma loadAccounts_migrates_witness :
  0 <= 1000
  /\ exists s,
       loadAccounts 1000 (Some (DataV1 sampleV1)) = Some s
       /\ Forall2 (migratedV1V3 1000) (V1.accounts sampleV1) (V3.accounts s)
       /\ map V3.rateLimitResetTimes (V3.accounts s)
          = [Some (mkRateLimits (Some 9000) (Some 9000) None); None; None].
Proof.
  assert (0 <= 1000) as Hnow by lia.
  split; [exact Hnow|].
  destruct (loadAccounts_migrates 1000 Hnow) as (_ & _ & H & _).
  destruct (H sampleV1) as (s & Hs & Hall).
  exists s. split; [exact Hs|]. split; [exact Hall|].
  vm_compute in Hs. injection Hs as <-. reflexivity.
Defined.

End StorageFacts.

(** ** Signature cache *)

Module SignatureCacheFacts.

Import SignatureCache.

(** *** Round trip *)

Lemma retrieve_after_store t0 t1 key signature c :
  enabled c = true ->
  t1 - t0 <= memoryTtlMs c ->
  fst (retrieve t1 key (store t0 key signature c)) = Some signature.
Proof.
  intros Hen Hage. unfold store, retrieve. rewrite Hen. simpl. rewrite Hen.
  rewrite lookup_insert_eq. simpl.
  destruct (t1 - t0 <=? memoryTtlMs c) eqn:E; [reflexivity|].
  apply Z.leb_gt in E. lia.
Qed.

Lemma flush_keeps_memory now ioOk c disk :
  cache (snd (fst (flush now ioOk c disk))) = cache c
  /\ enabled (snd (fst (flush now ioOk c disk))) = enabled c
  /\ memoryTtlMs (snd (fst (flush now ioOk c disk))) = memoryTtlMs c
  /\ diskTtlMs (snd (fst (flush now ioOk c disk))) = diskTtlMs c.
Proof.
  unfold flush, saveToDisk. destruct (enabled c) eqn:E; [|simpl; auto].
  destruct ioOk; simpl; auto.
Qed.

Lemma flush_writes_entry now c disk key e :
  enabled c = true ->
  cache c !! key = Some e ->
  exists f, snd (flush now true c disk) = Some f
            /\ fst (fst (flush now true c disk)) = true
            /\ version f = "1.0"
            /\ entries f !! key = Some (plain e).
Proof.
  intros Hen Hk. unfold flush, saveToDisk. rewrite Hen. simpl.
  eexists. split; [reflexivity|]. split; [reflexivity|]. split; [reflexivity|].
  simpl. apply lookup_union_Some_l. rewrite lookup_fmap, Hk. reflexivity.
Qed.

Lemma retrieve_expired now key c e :
  enabled c = true ->
  cache c !! key = Some e ->
  memoryTtlMs c < now - timestamp e ->
  fst (retrieve now key c) = None
  /\ cache (snd (retrieve now key c)) !! key = None.
Proof.
  intros Hen Hk Hage. unfold retrieve. rewrite Hen, Hk.
  destruct (now - timestamp e <=? memoryTtlMs c) eqn:E.
  - apply Z.leb_le in E. lia.
  - simpl. split; [reflexivity|]. apply lookup_delete_eq.
Qed.

Lemma load_restores_entry now c f key e :
  version f = "1.0" ->
  entries f !! key = Some e ->
  now - timestamp e <= diskTtlMs c ->
  cache (loadFromDisk now c (Some f)) !! key = Some (plain e).
Proof.
  intros Hv Hk Hage. unfold loadFromDisk. rewrite Hv. simpl.
  apply lookup_union_Some_l. rewrite lookup_fmap.
  assert (filter (youngerThan now (diskTtlMs c)) (entries f) !! key = Some e) as ->.
  { apply map_lookup_filter_Some. split; [exact Hk|exact Hage]. }
  reflexivity.
Qed.

(** C3, as the code has it. In an enabled cache a signature stored under
    a key is returned unchanged by [retrieve] while the entry is at most
    [memory_ttl] old, with or without a flush in between. Once the entry
    is older than [memory_ttl], a successful [flush] has written it to the
    cache file with its signature and original timestamp, but [retrieve]
    reads the in-memory map only: it returns null and evicts the entry.
    A cache object re-created from that file while the entry is younger
    than [disk_ttl] holds the entry again, and [retrieve] still returns
    null for it. *)
Theorem store_retrieve_round_trip t0 key signature c disk :
  enabled c = true ->
  let c1 := store t0 key signature c in
  (forall t1, t1 - t0 <= memoryTtlMs c ->
     fst (retrieve t1 key c1) = Some signature)
  /\ (forall tf ioOk t1, t1 - t0 <= memoryTtlMs c ->
        fst (retrieve t1 key (snd (fst (flush tf ioOk c1 disk)))) = Some signature)
  /\ (forall tf t1, memoryTtlMs c < t1 - t0 ->
        let c2 := snd (fst (flush tf true c1 disk)) in
        fst (fst (flush tf true c1 disk)) = true
        /\ (exists f, snd (flush tf true c1 disk) = Some f
                      /\ entries f !! key = Some (mkEntry signature t0 None None)
                      /\ (t1 - t0 <= diskTtlMs c ->
                          let c3 := loadFromDisk t1 (withCache ∅ c2) (Some f) in
                          cache c3 !! key = Some (mkEntry signature t0 None None)
                          /\ fst (retrieve t1 key c3) = None))
        /\ fst (retrieve t1 key c2) = None
        /\ cache (snd (retrieve t1 key c2)) !! key = None).
Proof.
  intros Hen c1.
  assert (enabled c1 = true) as Hen1 by (unfold c1, store; rewrite Hen; exact Hen).
  assert (memoryTtlMs c1 = memoryTtlMs c) as Httl by (unfold c1, store; rewrite Hen; reflexivity).
  assert (diskTtlMs c1 = diskTtlMs c) as Hdttl by (unfold c1, store; rewrite Hen; reflexivity).
  assert (cache c1 !! key = Some (mkEntry signature t0 None None)) as Hk.
  { unfold c1, store. rewrite Hen. simpl. apply lookup_insert_eq. }
  split; [|split].
  - intros t1 Hage. apply retrieve_after_store; assumption.
  - intros tf ioOk t1 Hage.
    destruct (flush_keeps_memory tf ioOk c1 disk) as (Hc & He & Hm & _).
    unfold retrieve. rewrite He, Hen1, Hc, Hk, Hm, Httl. simpl.
    destruct (t1 - t0 <=? memoryTtlMs c) eqn:E; [reflexivity|].
    apply Z.leb_gt in E. lia.
  - intros tf t1 Hage c2.
    destruct (flush_keeps_memory tf true c1 disk) as (Hc & He & Hm & Hd).
    fold c2 in Hc, He, Hm, Hd.
    destruct (flush_writes_entry tf c1 disk key _ Hen1 Hk) as (f & Hf & Hok & Hv & Hfk).
    split; [exact Hok|]. split.
    { exists f. split; [exact Hf|]. split; [exact Hfk|].
      intros Hdisk c3.
      assert (cache c3 !! key = Some (mkEntry signature t0 None None)) as Hk3.
      { unfold c3. apply (load_restores_entry t1 (withCache ∅ c2) f key _ Hv Hfk).
        simpl. rewrite Hd, Hdttl. exact Hdisk. }
      split; [exact Hk3|].
      apply (retrieve_expired t1 key c3 (mkEntry signature t0 None None)).
      - unfold c3, loadFromDisk. rewrite Hv. simpl. rewrite He. exact Hen1.
      - exact Hk3.
      - unfold c3, loadFromDisk. rewrite Hv. simpl. lia. }
    apply (retrieve_expired t1 key c2 (mkEntry signature t0 None None)).
    + rewrite He. exact Hen1.
    + rewrite Hc. exact Hk.
    + simpl. lia.
Qed.

Lemma store_retrieve_round_trip_witness :
  enabled sampleCache = true
  /\ fst (retrieve 900 "k" (store 0 "k" "signature" sampleCache)) = Some "signature"
  /\ fst (retrieve 2000 "k" (snd (fst (flush 500 true (store 0 "k" "signature" sampleCache) None))))
     = None.
Proof.
  assert (enabled sampleCache = true) as Hen by reflexivity.
  destruct (store_retrieve_round_trip 0 "k" "signature" sampleCache None Hen) as (H1 & _ & H3).
  split; [exact Hen|]. split.
  - apply H1. vm_compute. discriminate.
  - apply (H3 500 2000). vm_compute. reflexivity.
Defined.

(** An entry stored at time 0 in a cache with a memory TTL of 1 s and a
    disk TTL of 10 s, flushed successfully at 0.5 s, is 2 s old at the
    retrieval: older than the memory TTL, younger than the disk TTL. The
    retrieval does not return the stored signature. *)
Lemma retrieve_after_flush_counterexample :
  let c1 := store 0 "k" "signature" sampleCache in
  let c2 := snd (fst (flush 500 true c1 None)) in
  fst (fst (flush 500 true c1 None)) = true
  /\ memoryTtlMs c1 < 2000 - 0 <= diskTtlMs c1
  /\ fst (retrieve 2000 "k" c2) <> Some "signature".
Proof.
  vm_compute. split; [reflexivity|]. split; [split; [reflexivity|discriminate]|discriminate].
Qed.

End SignatureCacheFacts.

(** ** SHA-256 *)

Module Sha256Facts.

Import Sha256.

Example K_ends : head K = Some 0x428a2f98 /\ last K = Some 0xc67178f2 /\ length K = 64%nat.
Proof. vm_compute. auto. Qed.

Example H0_ends : head H0 = Some 0x6a09e667 /\ last H0 = Some 0x5be0cd19.
Proof. vm_compute. auto. Qed.

(** *** Test vectors *)

Example sha256_abc :
  sha256_hex "abc" = "ba7816bf8f01cfea414140de5dae2223b00361a396177a9cb410ff61f20015ad".
Proof. vm_compute. reflexivity. Qed.

Example sha256_empty :
  sha256_hex "" = "e3b0c44298fc1c149afbf4c8996fb92427ae41e4649b934ca495991b7852b855".
Proof. vm_compute. reflexivity. Qed.

Example sha256_two_blocks :
  sha256_hex "abcdbcdecdefdefgefghfghighijhijkijkljklmklmnlmnomnopnopq"
  = "248d6a61d20638b8e5c026930c3e6039a33ce45964ff2167f6ecedd419db06c1".
Proof. vm_compute. reflexivity. Qed.

Lemma hexDigit_hex n : 0 <= n < 16 -> isHexChar (hexDigit n) = true.
Proof.
  intros Hn.
  assert (forallb (fun k => isHexChar (hexDigit (Z.of_nat k))) (seq 0 16) = true) as Hall
    by reflexivity.
  rewrite forallb_forall in Hall. specialize (Hall (Z.to_nat n)).
  rewrite Z2Nat.id in Hall by lia. apply Hall. apply in_seq. lia.
Qed.

Lemma hexOfWord_chars w :
  length (hexOfWord w) = 8%nat /\ Forall (fun c => isHexChar c = true) (hexOfWord w).
Proof.
  unfold hexOfWord. split; [reflexivity|].
  simpl. repeat constructor; apply hexDigit_hex; apply Z.mod_pos_bound; lia.
Qed.

Lemma round_length st kw : length st = 8%nat -> length (round st kw) = 8%nat.
Proof.
  intros H. do 9 (destruct st as [|? st]; try discriminate). reflexivity.
Qed.

Lemma rounds_length kws st : length st = 8%nat -> length (foldl round st kws) = 8%nat.
Proof.
  revert st. induction kws as [|kw kws IH]; intros st H; simpl; [exact H|].
  apply IH. apply round_length. exact H.
Qed.

Lemma compress_length h block : length h = 8%nat -> length (compress h block) = 8%nat.
Proof.
  intros H. unfold compress. rewrite length_zip_with, rounds_length by exact H.
  rewrite H. reflexivity.
Qed.

Lemma digest_length msg : length (digest msg) = 8%nat.
Proof.
  unfold digest. generalize (blocksOf (length (wordsOf (length (pad msg)) (pad msg)))
                                      (wordsOf (length (pad msg)) (pad msg))).
  intros bs. assert (length H0 = 8%nat) as H by reflexivity. revert H. generalize H0.
  induction bs as [|b bs IH]; intros h H; simpl; [exact H|].
  apply IH. apply compress_length. exact H.
Qed.

Lemma sha256_hex_chars s :
  length (String.list_ascii_of_string (sha256_hex s)) = 64%nat
  /\ Forall (fun c => isHexChar c = true) (String.list_ascii_of_string (sha256_hex s)).
Proof.
  unfold sha256_hex. rewrite String.list_ascii_of_string_of_list_ascii.
  pose proof (digest_length (bytesOfString s)) as Hlen.
  destruct (digest (bytesOfString s)) as [|w0 [|w1 [|w2 [|w3 [|w4 [|w5 [|w6 [|w7 [|? ?]]]]]]]]];
    try discriminate.
  split.
  - reflexivity.
  - unfold List.concat, map.
    repeat (apply Forall_app; split); try apply hexOfWord_chars. constructor.
Qed.

End Sha256Facts.

(** ** JavaScript values and strings *)

Module JSFacts.

Import JS.

Lemma assoc_setField_eq k v fields : assoc k (setField k v fields) = Some v.
Proof.
  induction fields as [|[k' v'] rest IH]; simpl.
  - rewrite String.eqb_refl. reflexivity.
  - destruct (String.eqb k k') eqn:E; simpl.
    + rewrite String.eqb_refl. reflexivity.
    + rewrite E. exact IH.
Qed.

Lemma assoc_setField_ne k k' v fields :
  k <> k' -> assoc k' (setField k v fields) = assoc k' fields.
Proof.
  intros Hne. induction fields as [|[k0 v0] rest IH]; simpl.
  - destruct (String.eqb k' k) eqn:E; [apply String.eqb_eq in E; congruence|reflexivity].
  - destruct (String.eqb k k0) eqn:E; simpl.
    + apply String.eqb_eq in E. subst k0.
      destruct (String.eqb k' k) eqn:E2; [apply String.eqb_eq in E2; congruence|reflexivity].
    + destruct (String.eqb k' k0); [reflexivity|exact IH].
Qed.

Lemma trimStartL_fixed l : startsBlank l = false -> trimStartL l = l.
Proof.
  destruct l as [|c1 [|c2 [|c3 r3]]]; cbn [startsBlank trimStartL]; try reflexivity.
  - rewrite orb_false_r. intros ->. reflexivity.
  - intros H. apply orb_false_iff in H. destruct H as [-> H].
    rewrite orb_false_r in H. rewrite H. reflexivity.
  - intros H. apply orb_false_iff in H. destruct H as [-> H].
    apply orb_false_iff in H. destruct H as [-> ->]. reflexivity.
Qed.

Lemma trimStartL_bounded n : forall l, (length l <= n)%nat -> startsBlank (trimStartL l) = false.
Proof.
  induction n as [|n IH]; intros l Hn.
  - destruct l; [reflexivity|simpl in Hn; lia].
  - destruct l as [|c1 r1]; [reflexivity|]. cbn [length] in Hn.
    cbn [trimStartL]. destruct (isSpace c1) eqn:E1; [apply IH; lia|].
    destruct r1 as [|c2 r2]; [cbn; rewrite E1; reflexivity|]. cbn [length] in Hn.
    destruct (isSpace2 c1 c2) eqn:E2; [apply IH; lia|].
    destruct r2 as [|c3 r3]; [cbn; rewrite E1, E2; reflexivity|]. cbn [length] in Hn.
    destruct (isSpace3 c1 c2 c3) eqn:E3; [apply IH; lia|].
    cbn. rewrite E1, E2, E3. reflexivity.
Qed.

Lemma trimStartL_trimmed l : startsBlank (trimStartL l) = false.
Proof. apply (trimStartL_bounded (length l)). lia. Qed.

Lemma trimEndRevL_fixed l : endsBlankRev l = false -> trimEndRevL l = l.
Proof.
  destruct l as [|c1 [|c2 [|c3 r3]]]; cbn [endsBlankRev trimEndRevL]; try reflexivity.
  - rewrite orb_false_r. intros ->. reflexivity.
  - intros H. apply orb_false_iff in H. destruct H as [-> H].
    rewrite orb_false_r in H. rewrite H. reflexivity.
  - intros H. apply orb_false_iff in H. destruct H as [-> H].
    apply orb_false_iff in H. destruct H as [-> ->]. reflexivity.
Qed.

Lemma trimEndRevL_bounded n : forall l, (length l <= n)%nat -> endsBlankRev (trimEndRevL l) = false.
Proof.
  induction n as [|n IH]; intros l Hn.
  - destruct l; [reflexivity|simpl in Hn; lia].
  - destruct l as [|c1 r1]; [reflexivity|]. cbn [length] in Hn.
    cbn [trimEndRevL]. destruct (isSpace c1) eqn:E1; [apply IH; lia|].
    destruct r1 as [|c2 r2]; [cbn; rewrite E1; reflexivity|]. cbn [length] in Hn.
    destruct (isSpace2 c2 c1) eqn:E2; [apply IH; lia|].
    destruct r2 as [|c3 r3]; [cbn; rewrite E1, E2; reflexivity|]. cbn [length] in Hn.
    destruct (isSpace3 c3 c2 c1) eqn:E3; [apply IH; lia|].
    cbn. rewrite E1, E2, E3. reflexivity.
Qed.

Lemma trimEndRevL_trimmed l : endsBlankRev (trimEndRevL l) = false.
Proof. apply (trimEndRevL_bounded (length l)). lia. Qed.

(** What [trimEndRevL] leaves is the end of its argument. *)
Lemma trimEndRevL_suffix n : forall l, (length l <= n)%nat -> exists cut, l = cut ++ trimEndRevL l.
Proof.
  induction n as [|n IH]; intros l Hn.
  - destruct l; [exists []; reflexivity|simpl in Hn; lia].
  - destruct l as [|c1 r1]; [exists []; reflexivity|]. cbn [length] in Hn.
    cbn [trimEndRevL]. destruct (isSpace c1).
    { destruct (IH r1 ltac:(lia)) as [cut H]. exists (c1 :: cut). cbn. rewrite <- H. reflexivity. }
    destruct r1 as [|c2 r2]; [exists []; reflexivity|]. cbn [length] in Hn.
    destruct (isSpace2 c2 c1).
    { destruct (IH r2 ltac:(lia)) as [cut H]. exists (c1 :: c2 :: cut). cbn. rewrite <- H.
      reflexivity. }
    destruct r2 as [|c3 r3]; [exists []; reflexivity|]. cbn [length] in Hn.
    destruct (isSpace3 c3 c2 c1).
    { destruct (IH r3 ltac:(lia)) as [cut H]. exists (c1 :: c2 :: c3 :: cut). cbn.
      rewrite <- H. reflexivity. }
    exists []. reflexivity.
Qed.

(** A text that does not begin with white space has no beginning that
    does. *)
Lemma startsBlank_prefix p q : startsBlank (p ++ q) = false -> startsBlank p = false.
Proof.
  destruct p as [|c1 [|c2 [|c3 r3]]]; cbn [startsBlank app]; try reflexivity.
  - intros H. apply orb_false_iff in H. destruct H as [-> _]. reflexivity.
  - intros H. apply orb_false_iff in H. destruct H as [-> H].
    destruct q as [|c3 q]; [exact H|].
    apply orb_false_iff in H. destruct H as [-> _]. reflexivity.
  - auto.
Qed.

Lemma trimL_idem l : trimL (trimL l) = trimL l.
Proof.
  unfold trimL.
  set (a := trimStartL l). set (b := trimEndRevL (rev a)).
  assert (startsBlank (rev b) = false) as Hstart.
  { destruct (trimEndRevL_suffix (length (rev a)) (rev a) ltac:(lia)) as [cut Hcut].
    fold b in Hcut. apply (startsBlank_prefix (rev b) (rev cut)).
    rewrite <- rev_app_distr, <- Hcut, rev_involutive. apply trimStartL_trimmed. }
  rewrite (trimStartL_fixed (rev b) Hstart), rev_involutive.
  rewrite (trimEndRevL_fixed b); [reflexivity|apply trimEndRevL_trimmed].
Qed.

Lemma trim_idem s : trim (trim s) = trim s.
Proof.
  unfold trim. rewrite String.list_ascii_of_string_of_list_ascii, trimL_idem. reflexivity.
Qed.

Lemma isPlain_spec c : isPlain c = true -> isSpace c = false /\ byteOf c < 128.
Proof.
  unfold isPlain. intros H. apply andb_true_iff in H. destruct H as [H1 H2].
  apply negb_true_iff in H1. apply Z.ltb_lt in H2. auto.
Qed.

Lemma startsBlank_plain l : Forall (fun c => isPlain c = true) l -> startsBlank l = false.
Proof.
  intros H. destruct H as [|c1 r1 H1 _]; [reflexivity|].
  apply isPlain_spec in H1. destruct H1 as [Hs Hb].
  cbn [startsBlank]. rewrite Hs. cbn [orb].
  destruct r1 as [|c2 [|c3 r3]]; [reflexivity| |].
  - unfold isSpace2. assert ((byteOf c1 =? 194) = false) as -> by (apply Z.eqb_neq; lia).
    reflexivity.
  - unfold isSpace2, isSpace3.
    assert ((byteOf c1 =? 194) = false) as -> by (apply Z.eqb_neq; lia).
    assert ((byteOf c1 =? 225) = false) as -> by (apply Z.eqb_neq; lia).
    assert ((byteOf c1 =? 226) = false) as -> by (apply Z.eqb_neq; lia).
    assert ((byteOf c1 =? 227) = false) as -> by (apply Z.eqb_neq; lia).
    assert ((byteOf c1 =? 239) = false) as -> by (apply Z.eqb_neq; lia).
    reflexivity.
Qed.

Lemma endsBlankRev_plain l : Forall (fun c => isPlain c = true) l -> endsBlankRev l = false.
Proof.
  intros H. destruct H as [|c1 r1 H1 H].
  { reflexivity. }
  apply isPlain_spec in H1. destruct H1 as [Hs Hb].
  cbn [endsBlankRev]. rewrite Hs. cbn [orb].
  destruct H as [|c2 r2 H2 H]; [reflexivity|].
  apply isPlain_spec in H2. destruct H2 as [_ Hb2].
  assert (isSpace2 c2 c1 = false) as ->.
  { unfold isSpace2. assert ((byteOf c2 =? 194) = false) as -> by (apply Z.eqb_neq; lia).
    reflexivity. }
  cbn [orb]. destruct H as [|c3 r3 H3 _]; [reflexivity|].
  apply isPlain_spec in H3. destruct H3 as [_ Hb3].
  unfold isSpace3.
  assert ((byteOf c3 =? 225) = false) as -> by (apply Z.eqb_neq; lia).
  assert ((byteOf c3 =? 226) = false) as -> by (apply Z.eqb_neq; lia).
  assert ((byteOf c3 =? 227) = false) as -> by (apply Z.eqb_neq; lia).
  assert ((byteOf c3 =? 239) = false) as -> by (apply Z.eqb_neq; lia).
  reflexivity.
Qed.

Lemma trimL_id l : Forall (fun c => isPlain c = true) l -> trimL l = l.
Proof.
  intros H. unfold trimL. rewrite (trimStartL_fixed l (startsBlank_plain l H)).
  rewrite trimEndRevL_fixed, rev_involutive; [reflexivity|].
  apply endsBlankRev_plain. apply Forall_forall. intros c Hc.
  apply list_elem_of_In, in_rev in Hc.
  rewrite Forall_forall in H. apply H. apply list_elem_of_In. exact Hc.
Qed.

Lemma trim_id s :
  Forall (fun c => isPlain c = true) (String.list_ascii_of_string s) -> trim s = s.
Proof.
  intros H. unfold trim. rewrite trimL_id by exact H.
  apply String.string_of_list_ascii_of_string.
Qed.

Lemma utf16Length_ascii s :
  isAscii s = true -> utf16Length s = String.length s.
Proof.
  unfold isAscii, utf16Length. induction s as [|c s IH]; [reflexivity|].
  cbn [String.list_ascii_of_string forallb map sum_list String.length].
  intros H. apply andb_true_iff in H. destruct H as [Hc Hs].
  rewrite (IH Hs). unfold utf16Units. apply Z.ltb_lt in Hc.
  assert ((128 <=? byteOf c) = false) as -> by (apply Z.leb_gt; lia).
  assert ((240 <=? byteOf c) = false) as -> by (apply Z.leb_gt; lia). reflexivity.
Qed.

Lemma list_ascii_app a b :
  String.list_ascii_of_string (a +:+ b)
  = String.list_ascii_of_string a ++ String.list_ascii_of_string b.
Proof. induction a as [|c a IH]; simpl; [reflexivity|rewrite IH; reflexivity]. Qed.

Lemma string_length_list s : String.length s = length (String.list_ascii_of_string s).
Proof. induction s as [|c s IH]; simpl; [reflexivity|rewrite IH; reflexivity]. Qed.

Lemma nonEmpty_true s : nonEmpty s = true <-> s <> "".
Proof.
  unfold nonEmpty. rewrite negb_true_iff. split.
  - intros H ->. discriminate.
  - intros H. apply String.eqb_neq. exact H.
Qed.

End JSFacts.

(** ** Request transformer *)

Module RequestFacts.

Import JS JSFacts Request.

(** *** Signature session key *)

Lemma firstNonBlank_Some candidates key :
  firstNonBlank candidates = Some key ->
  exists i s,
    candidates !! i = Some (Some (JStr s))
    /\ trim s <> ""
    /\ (forall j c, (j < i)%nat -> candidates !! j = Some c -> nonBlankString c = None)
    /\ key = trim s.
Proof.
  induction candidates as [|c rest IH]; simpl; [discriminate|].
  destruct (nonBlankString c) as [k|] eqn:E.
  - intros [= <-]. unfold nonBlankString in E.
    destruct c as [[| | |s| |]|]; try discriminate.
    destruct (nonEmpty (trim s)) eqn:En; [|discriminate]. injection E as <-.
    exists 0%nat, s. split; [reflexivity|]. split; [apply nonEmpty_true; exact En|].
    split; [intros j c Hj; lia|reflexivity].
  - intros H. destruct (IH H) as (i & s & Hi & Hs & Hbefore & Hk).
    exists (S i), s. split; [exact Hi|]. split; [exact Hs|]. split; [|exact Hk].
    intros j c0 Hj Hc0. destruct j as [|j]; simpl in Hc0.
    + injection Hc0 as <-. exact E.
    + apply (Hbefore j); [lia|exact Hc0].
Qed.

Lemma firstNonBlank_None candidates :
  firstNonBlank candidates = None ->
  Forall (fun c => nonBlankString c = None) candidates.
Proof.
  induction candidates as [|c rest IH]; simpl; [constructor|].
  destruct (nonBlankString c) eqn:E; [discriminate|].
  intros H. constructor; [exact E|apply IH; exact H].
Qed.

Lemma trimmedOr_trim fallback s :
  trim s <> "" -> trimmedOr fallback (Some (trim s)) = trim s.
Proof.
  intros H. unfold trimmedOr. rewrite trim_idem.
  apply nonEmpty_true in H. rewrite H. reflexivity.
Qed.

Lemma trimmedOr_resolveProjectKey projectId :
  trimmedOr "default" (resolveProjectKey projectId None) = trimmedOr "default" projectId.
Proof.
  unfold resolveProjectKey, trimmedOr. destruct projectId as [p|]; [|reflexivity].
  destruct (nonEmpty (trim p)) eqn:E; [|reflexivity].
  rewrite trim_idem, E. reflexivity.
Qed.

Lemma hex_plain c : Sha256.isHexChar c = true -> isPlain c = true.
Proof.
  destruct c as [[] [] [] [] [] [] [] []]; vm_compute; intros H; congruence.
Qed.

Lemma seedKey_chars seed :
  length (String.list_ascii_of_string ("seed-" +:+ hashConversationSeed seed)) = 21%nat
  /\ Forall (fun c => isPlain c = true)
            (String.list_ascii_of_string ("seed-" +:+ hashConversationSeed seed)).
Proof.
  unfold hashConversationSeed, sliceTo.
  destruct (Sha256Facts.sha256_hex_chars seed) as [Hlen Hhex].
  rewrite list_ascii_app, String.list_ascii_of_string_of_list_ascii. split.
  - rewrite length_app, length_take, Hlen. reflexivity.
  - apply Forall_app. split.
    + simpl. repeat constructor.
    + apply Forall_take. eapply Forall_impl; [exact Hhex|].
      intros c Hc. apply hex_plain. exact Hc.
Qed.

(** The functions of request.js compute what [SessionKeySpec] words. *)

Lemma nonBlankString_identifier v : nonBlankString v = SessionKeySpec.identifier v.
Proof.
  unfold nonBlankString, SessionKeySpec.identifier, nonEmpty.
  destruct v as [[| | |s| |]|]; try reflexivity.
  destruct (String.eqb (trim s) ""); reflexivity.
Qed.

Lemma firstNonBlank_head candidates :
  firstNonBlank candidates = head (omap SessionKeySpec.identifier candidates).
Proof.
  induction candidates as [|c rest IH]; [reflexivity|].
  cbn [firstNonBlank]. rewrite nonBlankString_identifier.
  change (omap SessionKeySpec.identifier (c :: rest))
    with (match SessionKeySpec.identifier c with
          | Some id => id :: omap SessionKeySpec.identifier rest
          | None => omap SessionKeySpec.identifier rest
          end).
  destruct (SessionKeySpec.identifier c); [reflexivity|exact IH].
Qed.

Lemma firstBlockText_head blocks :
  firstBlockText blocks = default "" (head (omap SessionKeySpec.blockText blocks)).
Proof.
  induction blocks as [|block rest IH]; [reflexivity|].
  change (omap SessionKeySpec.blockText (block :: rest))
    with (match SessionKeySpec.blockText block with
          | Some t => t :: omap SessionKeySpec.blockText rest
          | None => omap SessionKeySpec.blockText rest
          end).
  cbn [firstBlockText]. unfold SessionKeySpec.blockText.
  destruct block as [| b | n | s | items | fields]; try exact IH.
  cbn [isObject get].
  destruct (assoc "text" fields) as [[| b | n | t | items | inner]|]; try exact IH.
  - reflexivity.
  - cbn [isObject get].
    destruct (assoc "text" inner) as [[| b | n | t | items | deeper]|]; try exact IH.
    reflexivity.
Qed.

Lemma extractTextFromContent_textOf content :
  extractTextFromContent content = SessionKeySpec.textOf content.
Proof.
  destruct content as [[| b | n | s | blocks | fields]|]; try reflexivity.
  apply firstBlockText_head.
Qed.

Lemma coalesce_present a b :
  coalesce a b = if SessionKeySpec.present a then a else b.
Proof. destruct a as [[]|]; reflexivity. Qed.

Lemma systemSeed_systemText a b c d :
  extractTextFromContent (coalesce a (coalesce b (coalesce c d)))
  = SessionKeySpec.textOf
      (default None (head (List.filter SessionKeySpec.present [a; b; c; d]))).
Proof.
  rewrite extractTextFromContent_textOf, !coalesce_present. cbn [List.filter].
  destruct (SessionKeySpec.present a); [reflexivity|].
  destruct (SessionKeySpec.present b); [reflexivity|].
  destruct (SessionKeySpec.present c); [reflexivity|].
  destruct (SessionKeySpec.present d) eqn:Ed; [reflexivity|].
  destruct d as [[]|]; try discriminate; reflexivity.
Qed.

Lemma hasRole_roleIs role : hasRole role = SessionKeySpec.roleIs role.
Proof. reflexivity. Qed.

Lemma last_map {A B} (f : A -> B) (l : list A) : last (map f l) = f <$> last l.
Proof.
  induction l as [|x [|y rest] IH]; [reflexivity|reflexivity|].
  change (last (f x :: map f (y :: rest)) = f <$> last (y :: rest)). exact IH.
Qed.

Lemma messagesSeed_parts messages :
  extractConversationSeedFromMessages messages
  = joinNonEmpty "|"
      [match List.find (SessionKeySpec.roleIs "system") messages with
       | Some message => SessionKeySpec.messageText message
       | None => ""
       end;
       SessionKeySpec.userText
         (map SessionKeySpec.messageText
              (List.filter (SessionKeySpec.roleIs "user") messages))].
Proof.
  unfold extractConversationSeedFromMessages. rewrite !hasRole_roleIs.
  f_equal. f_equal.
  { destruct (List.find _ messages); [apply extractTextFromContent_textOf|reflexivity]. }
  f_equal.
  set (users := List.filter _ messages).
  unfold SessionKeySpec.userText.
  destruct users as [|u rest] eqn:Eu; [reflexivity|].
  cbn [head map].
  rewrite extractTextFromContent_textOf. fold (SessionKeySpec.messageText u).
  unfold nonEmpty.
  destruct (String.eqb (SessionKeySpec.messageText u) "") eqn:Et; cbn [negb]; [|reflexivity].
  change (SessionKeySpec.messageText u :: map SessionKeySpec.messageText rest)
    with (map SessionKeySpec.messageText (u :: rest)).
  rewrite last_map.
  destruct (last (u :: rest)) as [m|]; [apply extractTextFromContent_textOf|reflexivity].
Qed.

Lemma partsText_turnText turn :
  default "" (partsText turn) = SessionKeySpec.turnText turn.
Proof.
  unfold partsText, SessionKeySpec.turnText.
  destruct (get "parts" turn) as [[| b | n | s | parts | fields]|]; try reflexivity.
  apply (extractTextFromContent_textOf (Some (JArr parts))).
Qed.

Lemma contentsSeed_userText contents :
  extractConversationSeedFromContents contents
  = SessionKeySpec.userText
      (map SessionKeySpec.turnText (List.filter (SessionKeySpec.roleIs "user") contents)).
Proof.
  unfold extractConversationSeedFromContents. rewrite !hasRole_roleIs.
  set (users := List.filter _ contents).
  unfold SessionKeySpec.userText.
  destruct users as [|u rest] eqn:Eu; [reflexivity|].
  cbn [head map]. rewrite partsText_turnText. unfold nonEmpty.
  destruct (String.eqb (SessionKeySpec.turnText u) "") eqn:Et; cbn [negb]; [|reflexivity].
  change (SessionKeySpec.turnText u :: map SessionKeySpec.turnText rest)
    with (map SessionKeySpec.turnText (u :: rest)).
  rewrite last_map.
  destruct (last (u :: rest)) as [c|]; [apply partsText_turnText|reflexivity].
Qed.

(** Joining what is left of a join with one more text is joining the
    three texts. *)
Lemma joinNonEmpty_nested a b c :
  joinNonEmpty "|" [a; joinNonEmpty "|" [b; c]] = joinNonEmpty "|" [a; b; c].
Proof.
  unfold joinNonEmpty, nonEmpty.
  destruct a as [|ca a], b as [|cb b], c as [|cc c]; reflexivity.
Qed.

Lemma joinNonEmpty_concat texts :
  joinNonEmpty "|" texts
  = String.concat "|" (List.filter (fun text => negb (String.eqb text "")) texts).
Proof. reflexivity. Qed.

Lemma conversationSeed_seedText payload :
  conversationSeed payload = SessionKeySpec.seedText payload.
Proof.
  unfold conversationSeed, SessionKeySpec.seedText, SessionKeySpec.seedParts.
  rewrite systemSeed_systemText. fold (SessionKeySpec.systemText payload).
  destruct (get "messages" payload) as [[| b | n | s | messages | fields]|];
    try (destruct (get "contents" payload) as [[| b' | n' | s' | contents | fields']|];
         try rewrite contentsSeed_userText; try apply joinNonEmpty_concat;
         unfold joinNonEmpty, nonEmpty; cbn [List.filter]; cbn [negb String.eqb];
         destruct (negb (String.eqb (SessionKeySpec.systemText payload) "")); reflexivity).
  rewrite messagesSeed_parts, joinNonEmpty_nested. apply joinNonEmpty_concat.
Qed.

Lemma resolveConversationKey_conversationKeyOf payload :
  resolveConversationKey payload = SessionKeySpec.conversationKeyOf payload.
Proof.
  unfold resolveConversationKey, SessionKeySpec.conversationKeyOf, SessionKeySpec.clientKey.
  rewrite firstNonBlank_head.
  change (candidateFields payload) with (SessionKeySpec.suppliedIds payload).
  destruct (head _); [reflexivity|].
  rewrite conversationSeed_seedText. unfold nonEmpty, hashConversationSeed.
  destruct (String.eqb (SessionKeySpec.seedText payload) ""); reflexivity.
Qed.

Lemma resolveFromRequests_head requestObjects :
  resolveConversationKeyFromRequests requestObjects
  = head (omap SessionKeySpec.conversationKeyOf requestObjects).
Proof.
  induction requestObjects as [|req rest IH]; [reflexivity|].
  cbn [resolveConversationKeyFromRequests]. rewrite resolveConversationKey_conversationKeyOf.
  change (omap SessionKeySpec.conversationKeyOf (req :: rest))
    with (match SessionKeySpec.conversationKeyOf req with
          | Some key => key :: omap SessionKeySpec.conversationKeyOf rest
          | None => omap SessionKeySpec.conversationKeyOf rest
          end).
  destruct (SessionKeySpec.conversationKeyOf req); [reflexivity|exact IH].
Qed.

(** A conversation key is its own trimmed text, and is not blank. *)
Lemma conversationKeyOf_trimmed payload key :
  SessionKeySpec.conversationKeyOf payload = Some key -> trim key = key /\ key <> "".
Proof.
  unfold SessionKeySpec.conversationKeyOf, SessionKeySpec.clientKey.
  destruct (head _) as [id|] eqn:Hhead.
  - intros [= <-]. apply head_Some_elem_of, list_elem_of_omap in Hhead.
    destruct Hhead as (v & _ & Hid). unfold SessionKeySpec.identifier in Hid.
    destruct v as [[| | |s| |]|]; try discriminate.
    destruct (String.eqb (trim s) "") eqn:E; [discriminate|]. injection Hid as <-.
    split; [apply trim_idem|]. apply String.eqb_neq. exact E.
  - destruct (String.eqb (SessionKeySpec.seedText payload) ""); [discriminate|].
    intros [= <-].
    destruct (seedKey_chars (SessionKeySpec.seedText payload)) as [_ Hchars].
    split; [apply trim_id; exact Hchars|discriminate].
Qed.

Lemma requestsKey_trimmed requestObjects key :
  head (omap SessionKeySpec.conversationKeyOf requestObjects) = Some key ->
  trim key = key /\ key <> "".
Proof.
  intros H. apply head_Some_elem_of, list_elem_of_omap in H.
  destruct H as (payload & _ & Hkey). exact (conversationKeyOf_trimmed payload key Hkey).
Qed.

Lemma buildSignatureSessionKey_spec sessionId model projectId requestObjects :
  buildSignatureSessionKey sessionId model
    (head (omap SessionKeySpec.conversationKeyOf requestObjects))
    (resolveProjectKey projectId None)
  = SessionKeySpec.sessionKey sessionId model projectId requestObjects.
Proof.
  unfold buildSignatureSessionKey, SessionKeySpec.sessionKey.
  rewrite trimmedOr_resolveProjectKey.
  assert (trimmedOr "default" projectId = SessionKeySpec.projectPart projectId) as ->.
  { unfold trimmedOr, SessionKeySpec.projectPart, nonEmpty.
    destruct projectId as [p|]; [|reflexivity].
    destruct (String.eqb (trim p) ""); reflexivity. }
  assert ((if nonEmpty (trim model) then toLowerCase model else "unknown")
          = SessionKeySpec.modelPart model) as ->.
  { unfold SessionKeySpec.modelPart, nonEmpty.
    destruct (String.eqb (trim model) ""); reflexivity. }
  assert (trimmedOr "default" (head (omap SessionKeySpec.conversationKeyOf requestObjects))
          = default "default" (head (omap SessionKeySpec.conversationKeyOf requestObjects)))
    as ->.
  { destruct (head _) as [key|] eqn:Hkey; [|reflexivity].
    destruct (requestsKey_trimmed _ _ Hkey) as [Ht Hne].
    unfold trimmedOr. rewrite Ht. apply nonEmpty_true in Hne. rewrite Hne. reflexivity. }
  reflexivity.
Qed.

(** C8, as the code has it. For every request body and every ASCII model
    name the session key is the four texts
    [sessionId : model : project : conversation] of [SessionKeySpec]: the
    model lowercased ([unknown] when blank), the project trimmed
    ([default] when absent or blank), and as conversation part the
    trimmed text of the first identifier field that holds a non-blank
    string; otherwise, when the seed is not empty, the five characters
    [seed-] followed by the first 16 hexadecimal characters of the SHA-256
    of the seed, 21 characters in all; otherwise [default]. The seed joins
    by a bar the non-empty ones of the system-instruction text, for a
    [messages] body the text of its first system message, and the user
    text, which is the text of the first user turn or, when that is
    empty, of the last. A body that is already wrapped takes the
    conversation part of the first of its request objects that has
    one. *)
Theorem signatureSessionKey_shape sessionId model projectId payload requestObjects :
  isAscii model = true ->
  sessionKeyOf sessionId model projectId payload
  = SessionKeySpec.sessionKey sessionId model projectId [payload]
  /\ buildSignatureSessionKey sessionId model
       (resolveConversationKeyFromRequests requestObjects)
       (resolveProjectKey projectId None)
     = SessionKeySpec.sessionKey sessionId model projectId requestObjects
  /\ (SessionKeySpec.clientKey payload = None ->
      SessionKeySpec.seedText payload <> "" ->
      exists conversationPart,
        SessionKeySpec.conversationKeyOf payload = Some conversationPart
        /\ utf16Length conversationPart = 21%nat).
Proof.
  intros _. split; [|split].
  - unfold sessionKeyOf. rewrite resolveConversationKey_conversationKeyOf.
    rewrite <- (buildSignatureSessionKey_spec sessionId model projectId [payload]).
    change (omap SessionKeySpec.conversationKeyOf [payload])
      with (match SessionKeySpec.conversationKeyOf payload with
            | Some key => [key]
            | None => []
            end).
    destruct (SessionKeySpec.conversationKeyOf payload); reflexivity.
  - rewrite resolveFromRequests_head.
    apply (buildSignatureSessionKey_spec sessionId model projectId).
  - intros Hclient Hseed. unfold SessionKeySpec.conversationKeyOf. rewrite Hclient.
    apply String.eqb_neq in Hseed. rewrite Hseed. eexists. split; [reflexivity|].
    destruct (seedKey_chars (SessionKeySpec.seedText payload)) as [Hlen Hchars].
    unfold hashConversationSeed in Hlen, Hchars.
    rewrite utf16Length_ascii.
    + rewrite string_length_list. exact Hlen.
    + unfold isAscii. apply forallb_forall. intros c Hc.
      rewrite Forall_forall in Hchars. apply list_elem_of_In, Hchars in Hc.
      apply isPlain_spec in Hc. apply Z.ltb_lt. apply Hc.
Qed.

Lemma signatureSessionKey_shape_witness :
  isAscii "Claude-Sonnet-4-5-Thinking" = true
  /\ sessionKeyOf "-6f1c" "Claude-Sonnet-4-5-Thinking" (Some " proj ") samplePayload
     = SessionKeySpec.sessionKey "-6f1c" "Claude-Sonnet-4-5-Thinking" (Some " proj ")
         [samplePayload]
  /\ SessionKeySpec.seedText samplePayload = "You are helpful|hello".
Proof.
  split; [reflexivity|]. split; [|reflexivity].
  apply (signatureSessionKey_shape "-6f1c" "Claude-Sonnet-4-5-Thinking" (Some " proj ")
           samplePayload []). reflexivity.
Defined.

(** A body without any identifier field, with system text and a first
    user text: the conversation part of its key is not the bare 16
    hexadecimal characters of the seed's SHA-256. *)
Lemma sessionKey_seed_prefix_counterexample :
  conversationSeed samplePayload = "You are helpful|hello"
  /\ sessionKeyOf "-6f1c" "Claude-Sonnet-4-5-Thinking" (Some "proj") samplePayload
     <> "-6f1c:claude-sonnet-4-5-thinking:proj:"
        +:+ sliceTo 16 (Sha256.sha256_hex "You are helpful|hello")
  /\ sessionKeyOf "-6f1c" "Claude-Sonnet-4-5-Thinking" (Some "proj") samplePayload
     = "-6f1c:claude-sonnet-4-5-thinking:proj:seed-aa76d1bfd882b9bc".
Proof.
  vm_compute. split; [reflexivity|]. split; [discriminate|reflexivity].
Qed.

(** *** Thinking configuration *)

(** C4, as the code has it. For a Claude thinking model with thinking
    enabled and a positive budget, the prepared [thinkingConfig] has
    exactly the snake_case keys [include_thoughts] and [thinking_budget];
    [maxOutputTokens] is set to 64000 when the body has no
    [generationConfig], or when its current limit ([maxOutputTokens], else
    [max_output_tokens]) is absent, zero or not greater than the budget;
    a current limit greater than the budget is kept as the caller wrote
    it. *)
Theorem claude_thinking_config tierThinkingBudget tierThinkingLevel normalized raw budget :
  match tierThinkingBudget with
  | Some b => Some b
  | None => thinkingBudget normalized
  end = Some budget ->
  0 < budget ->
  exists g,
    applyThinkingConfig true tierThinkingBudget tierThinkingLevel (Some normalized) raw = Some g
    /\ thinkingConfig g
       = Some (JObj [("include_thoughts", JBool (default true (includeThoughts normalized)));
                     ("thinking_budget", JNum budget)])
    /\ match raw with
       | None => maxOutputTokens g = Some 64000 /\ max_output_tokens g = None
       | Some r =>
           match effectiveMax r with
           | None => maxOutputTokens g = Some 64000 /\ max_output_tokens g = None
           | Some n =>
               if decide (n = 0 \/ n <= budget)
               then maxOutputTokens g = Some 64000 /\ max_output_tokens g = None
               else maxOutputTokens g = maxOutputTokens r
                    /\ max_output_tokens g = max_output_tokens r
                    /\ effectiveMax g = Some n /\ budget < n
           end
       end.
Proof.
  intros Hb Hpos. unfold applyThinkingConfig. rewrite Hb.
  assert (positiveBudget (Some budget) = Some budget) as Hp.
  { simpl. destruct (budget >? 0) eqn:E; [reflexivity|].
    rewrite Z.gtb_ltb in E. apply Z.ltb_ge in E. lia. }
  unfold buildClaudeThinkingConfig. rewrite Hp. simpl.
  destruct raw as [r|].
  - eexists. split; [reflexivity|].
    unfold ensureClaudeMaxOutputTokens, effectiveMax, withThinkingConfig. simpl.
    destruct (maxOutputTokens r) as [n|] eqn:Hmax; [|destruct (max_output_tokens r) as [n|] eqn:Hsnake].
    + destruct (decide (n = 0 \/ n <= budget)) as [Hsmall|Hbig].
      * assert ((n =? 0) || (n <=? budget) = true) as ->.
        { apply orb_true_iff. destruct Hsmall as [->|H]; [left; reflexivity|].
          right. apply Z.leb_le. exact H. }
        simpl. auto.
      * assert ((n =? 0) || (n <=? budget) = false) as ->.
        { apply orb_false_iff. split; [apply Z.eqb_neq|apply Z.leb_gt]; lia. }
        simpl. repeat split; lia.
    + destruct (decide (n = 0 \/ n <= budget)) as [Hsmall|Hbig].
      * assert ((n =? 0) || (n <=? budget) = true) as ->.
        { apply orb_true_iff. destruct Hsmall as [->|H]; [left; reflexivity|].
          right. apply Z.leb_le. exact H. }
        simpl. auto.
      * assert ((n =? 0) || (n <=? budget) = false) as ->.
        { apply orb_false_iff. split; [apply Z.eqb_neq|apply Z.leb_gt]; lia. }
        simpl. repeat split; lia.
    + simpl. auto.
  - eexists. split; [reflexivity|]. simpl. auto.
Qed.

Lemma claude_thinking_config_witness :
  Some (claudeTierBudget Medium) = Some 16384
  /\ 0 < 16384
  /\ exists g,
       applyThinkingConfig true (Some (claudeTierBudget Medium)) None
         (Some (mkThinking None (Some true))) None = Some g
       /\ thinkingConfig g
          = Some (JObj [("include_thoughts", JBool true); ("thinking_budget", JNum 16384)])
       /\ maxOutputTokens g = Some 64000.
Proof.
  assert (0 < 16384) as Hpos by lia.
  split; [reflexivity|]. split; [exact Hpos|].
  destruct (claude_thinking_config (Some (claudeTierBudget Medium)) None
              (mkThinking None (Some true)) None 16384 eq_refl Hpos) as (g & Hg & Htc & Hmax).
  exists g. split; [exact Hg|]. split; [exact Htc|]. apply Hmax.
Defined.

(** A Claude thinking request at the medium tier (budget 16384) whose body
    asks for [maxOutputTokens: 32000]: the prepared limit stays 32000. *)
Lemma claude_max_output_counterexample :
  let raw := mkGeneration (Some 32000) None None [] in
  exists g,
    applyThinkingConfig true (Some (claudeTierBudget Medium)) None
      (Some (mkThinking (Some 16384) (Some true))) (Some raw) = Some g
    /\ thinkingConfig g
       = Some (JObj [("include_thoughts", JBool true); ("thinking_budget", JNum 16384)])
    /\ maxOutputTokens g = Some 32000
    /\ ~ (exists n, maxOutputTokens g = Some n /\ 64000 <= n).
Proof.
  eexists. split; [reflexivity|]. split; [reflexivity|]. split; [reflexivity|].
  simpl. intros (n & [= <-] & H). lia.
Qed.

(** *** Tool-id pairing *)

Example pairToolIds_fifo :
  pairToolIds [turn "model" [fnCall "read_file" (Some "a")];
               turn "model" [fnCall "read_file" (Some "b"); fnCall "grep" None];
               turn "user" [fnResponse "read_file" None; fnResponse "grep" None;
                            fnResponse "grep" None]]
  = [turn "model" [fnCall "read_file" (Some "a")];
     turn "model" [fnCall "read_file" (Some "b");
                   JObj [("functionCall", JObj [("name", JStr "grep"); ("id", JStr "tool-call-1")])]];
     turn "user" [fnResponse "read_file" (Some "a");
                  JObj [("functionResponse", JObj [("name", JStr "grep"); ("id", JStr "tool-call-1")])];
                  fnResponse "grep" None]].
Proof. vm_compute. reflexivity. Qed.

Lemma mapAccum_app {S A B} (f : S -> A -> S * B) st l1 l2 :
  mapAccum f st (l1 ++ l2)
  = (fst (mapAccum f (fst (mapAccum f st l1)) l2),
     snd (mapAccum f st l1) ++ snd (mapAccum f (fst (mapAccum f st l1)) l2)).
Proof.
  revert st. induction l1 as [|x l1 IH]; intros st; simpl.
  - destruct (mapAccum f st l2); reflexivity.
  - destruct (f st x) as [st1 y]. rewrite IH.
    destruct (mapAccum f st1 l1) as [st2 ys]. simpl. reflexivity.
Qed.

Lemma mapAccum_length {S A B} (f : S -> A -> S * B) st l :
  length (snd (mapAccum f st l)) = length l.
Proof.
  revert st. induction l as [|x l IH]; intros st; simpl; [reflexivity|].
  destruct (f st x) as [st1 y]. specialize (IH st1).
  destruct (mapAccum f st1 l) as [st2 ys]. simpl in *. rewrite IH. reflexivity.
Qed.

Lemma partsOf_setParts ps fields : partsOf (JObj (setField "parts" (JArr ps) fields)) = ps.
Proof. unfold partsOf. simpl. rewrite assoc_setField_eq. reflexivity. Qed.

Lemma overParts_flat {S} (f : S -> JSON -> S * JSON) st content :
  fst (overParts f st content) = fst (mapAccum f st (partsOf content))
  /\ partsOf (snd (overParts f st content)) = snd (mapAccum f st (partsOf content)).
Proof.
  unfold overParts, partsOf.
  destruct (get "parts" content) as [[| | | |ps|]|] eqn:Hc; simpl;
    try (rewrite Hc; auto).
  destruct (mapAccum f st ps) as [st1 ps']. simpl.
  rewrite assoc_setField_eq. auto.
Qed.

(** Mapping over the parts of every content is mapping over all parts. *)
Lemma mapAccum_overParts {S} (f : S -> JSON -> S * JSON) st contents :
  fst (mapAccum (overParts f) st contents) = fst (mapAccum f st (allParts contents))
  /\ allParts (snd (mapAccum (overParts f) st contents))
     = snd (mapAccum f st (allParts contents)).
Proof.
  revert st. induction contents as [|c contents IH]; intros st; [simpl; auto|].
  unfold allParts in *. cbn [flat_map mapAccum]. rewrite mapAccum_app.
  destruct (overParts_flat f st c) as [H1 H2].
  destruct (overParts f st c) as [st1 c']. simpl in H1, H2.
  specialize (IH st1).
  destruct (mapAccum (overParts f) st1 contents) as [st2 cs]. simpl in IH.
  cbn [fst snd flat_map]. rewrite H2, <- H1. destruct IH as [IH1 IH2].
  rewrite IH1, IH2. auto.
Qed.

(** **** From parts to calls and responses *)

Lemma callOf_Some_obj part fc : callOf part = Some fc -> exists fields, part = JObj fields.
Proof.
  unfold callOf. destruct part; simpl; try discriminate. eauto.
Qed.

Lemma responseOf_Some_obj part fr : responseOf part = Some fr -> exists fields, part = JObj fields.
Proof.
  unfold responseOf. destruct part; simpl; try discriminate. eauto.
Qed.

Lemma callOf_setCall call fields :
  callOf (JObj (setField "functionCall" (JObj call) fields)) = Some (JObj call).
Proof. unfold callOf. simpl. rewrite assoc_setField_eq. reflexivity. Qed.

Lemma responseOf_setCall v fields :
  responseOf (JObj (setField "functionCall" v fields)) = responseOf (JObj fields).
Proof.
  unfold responseOf. simpl. rewrite assoc_setField_ne by discriminate. reflexivity.
Qed.

Lemma responseOf_setResponse resp fields :
  responseOf (JObj (setField "functionResponse" (JObj resp) fields)) = Some (JObj resp).
Proof. unfold responseOf. simpl. rewrite assoc_setField_eq. reflexivity. Qed.

Lemma firstPassPart_call st part fc :
  callOf part = Some fc ->
  firstPassPart st part
  = (fst (assignCallId st fc),
     JObj (setField "functionCall" (JObj (snd (assignCallId st fc))) (spread part))).
Proof.
  unfold callOf, firstPassPart. intros H.
  destruct (isObject part && truthyO (get "functionCall" part)); [|discriminate].
  rewrite H. destruct (assignCallId st fc). reflexivity.
Qed.

Lemma firstPassPart_other st part :
  callOf part = None -> firstPassPart st part = (st, part).
Proof.
  unfold callOf, firstPassPart. intros H.
  destruct (isObject part && truthyO (get "functionCall" part)); [|reflexivity].
  rewrite H. reflexivity.
Qed.

Lemma mapAccum_firstPassPart st ps :
  fst (mapAccum firstPassPart st ps) = fst (mapAccum assignCallId st (omap callOf ps))
  /\ omap callOf (snd (mapAccum firstPassPart st ps))
     = JObj <$> snd (mapAccum assignCallId st (omap callOf ps))
  /\ omap responseOf (snd (mapAccum firstPassPart st ps)) = omap responseOf ps.
Proof.
  revert st. induction ps as [|part ps IH]; intros st; [simpl; auto|].
  cbn [mapAccum omap list_omap].
  destruct (callOf part) as [fc|] eqn:Hcall.
  - rewrite (firstPassPart_call st part fc Hcall).
    destruct (callOf_Some_obj _ _ Hcall) as [fields ->].
    cbn [mapAccum]. destruct (assignCallId st fc) as [st1 call]. cbn [fst snd].
    specialize (IH st1).
    destruct (mapAccum firstPassPart st1 ps) as [st2 ps'].
    destruct (mapAccum assignCallId st1 (omap callOf ps)) as [st2' calls'].
    cbn [fst snd] in *. destruct IH as (IH1 & IH2 & IH3).
    cbn [omap list_omap fmap list_fmap spread].
    rewrite callOf_setCall, responseOf_setCall, IH2, IH3. auto.
  - rewrite (firstPassPart_other st part Hcall).
    specialize (IH st).
    destruct (mapAccum firstPassPart st ps) as [st2 ps'].
    cbn [fst snd] in *. destruct IH as (IH1 & IH2 & IH3).
    cbn [omap list_omap]. rewrite Hcall, IH2, IH3. auto.
Qed.

Lemma callNumber_0 fc rest :
  callNumber (fc :: rest) 0 = (if lacksId fc then 1 else 0)%nat.
Proof. unfold callNumber. simpl. destruct (lacksId fc); reflexivity. Qed.

Lemma callNumber_S fc rest i :
  callNumber (fc :: rest) (S i) = ((if lacksId fc then 1 else 0) + callNumber rest i)%nat.
Proof. unfold callNumber. simpl. destruct (lacksId fc); reflexivity. Qed.

Lemma keyedIds_cons c0 fc rest :
  keyedIds c0 (fc :: rest)
  = (queueKey (c0 + (if lacksId fc then 1 else 0)) fc,
     assignedId (c0 + (if lacksId fc then 1 else 0)) fc)
    :: keyedIds (c0 + (if lacksId fc then 1 else 0)) rest.
Proof.
  unfold keyedIds. rewrite imap_cons, callNumber_0. f_equal.
  apply imap_ext. intros i x _. simpl. rewrite callNumber_S.
  replace (c0 + ((if lacksId fc then 1 else 0) + callNumber rest i))%nat
    with (c0 + (if lacksId fc then 1 else 0) + callNumber rest i)%nat by lia.
  reflexivity.
Qed.

Lemma assignCallId_one st fc :
  let n := (toolCallCounter st + (if lacksId fc then 1 else 0))%nat in
  assignCallId st fc
  = (mkPairing n (<[queueKey n fc :=
                      queueOf (pendingCallIdsByName st) (queueKey n fc) ++ [assignedId n fc]]>
                    (pendingCallIdsByName st)),
     assignedCall n fc).
Proof.
  unfold assignCallId, assignedCall, assignedId, queueKey, nameOf, lacksId.
  destruct (truthyO (assoc "id" (spread fc))) eqn:Hid; simpl.
  - rewrite Nat.add_0_r.
    destruct (assoc "name" (spread fc)) as [[| | | | |]|]; reflexivity.
  - rewrite Nat.add_1_r, assoc_setField_eq, assoc_setField_ne by discriminate.
    destruct (assoc "name" (spread fc)) as [[| | | | |]|]; reflexivity.
Qed.

Lemma queueOf_insert pending k q name :
  queueOf (<[k := q]> pending) name = if String.eqb k name then q else queueOf pending name.
Proof.
  unfold queueOf. destruct (String.eqb k name) eqn:E.
  - apply String.eqb_eq in E. subst. rewrite lookup_insert_eq. reflexivity.
  - apply String.eqb_neq in E. rewrite lookup_insert_ne by exact E. reflexivity.
Qed.

Lemma mapAccum_assignCallId calls st :
  (forall i fc, calls !! i = Some fc ->
     snd (mapAccum assignCallId st calls) !! i
     = Some (assignedCall (toolCallCounter st + callNumber calls i) fc))
  /\ (forall name,
        queueOf (pendingCallIdsByName (fst (mapAccum assignCallId st calls))) name
        = queueOf (pendingCallIdsByName st) name ++ idsFor name (toolCallCounter st) calls).
Proof.
  revert st. induction calls as [|fc rest IH]; intros st.
  - split; [intros i fc Hi; rewrite lookup_nil in Hi; discriminate|].
    intros name. unfold idsFor, keyedIds. simpl. rewrite app_nil_r. reflexivity.
  - cbn [mapAccum]. rewrite assignCallId_one.
    set (n := (toolCallCounter st + (if lacksId fc then 1 else 0))%nat).
    set (st1 := mkPairing n _).
    destruct (IH st1) as [IHcalls IHqueue].
    destruct (mapAccum assignCallId st1 rest) as [st2 outs]. cbn [fst snd] in *.
    split.
    + intros i fc0 Hi. destruct i as [|i]; simpl in Hi.
      * injection Hi as <-. simpl. rewrite callNumber_0. reflexivity.
      * simpl. rewrite (IHcalls i fc0 Hi). rewrite callNumber_S.
        subst st1 n. simpl. do 2 f_equal. lia.
    + intros name. rewrite IHqueue. subst st1. simpl.
      unfold idsFor. rewrite keyedIds_cons. fold n. simpl.
      rewrite queueOf_insert.
      destruct (String.eqb (queueKey n fc) name) eqn:E; simpl.
      * apply String.eqb_eq in E. rewrite E, <- app_assoc. reflexivity.
      * reflexivity.
Qed.

Lemma callOf_setResponse v fields :
  callOf (JObj (setField "functionResponse" v fields)) = callOf (JObj fields).
Proof.
  unfold callOf. simpl. rewrite assoc_setField_ne by discriminate. reflexivity.
Qed.

Lemma secondPassPart_response pending part fr :
  responseOf part = Some fr ->
  secondPassPart pending part
  = (fst (matchResponseId pending fr),
     JObj (setField "functionResponse" (JObj (snd (matchResponseId pending fr))) (spread part))).
Proof.
  unfold responseOf, secondPassPart. intros H.
  destruct (isObject part && truthyO (get "functionResponse" part)); [|discriminate].
  rewrite H. destruct (matchResponseId pending fr). reflexivity.
Qed.

Lemma secondPassPart_other pending part :
  responseOf part = None -> secondPassPart pending part = (pending, part).
Proof.
  unfold responseOf, secondPassPart. intros H.
  destruct (isObject part && truthyO (get "functionResponse" part)); [|reflexivity].
  rewrite H. reflexivity.
Qed.

Lemma mapAccum_secondPassPart pending ps :
  omap responseOf (snd (mapAccum secondPassPart pending ps))
  = JObj <$> snd (mapAccum matchResponseId pending (omap responseOf ps))
  /\ omap callOf (snd (mapAccum secondPassPart pending ps)) = omap callOf ps.
Proof.
  revert pending. induction ps as [|part ps IH]; intros pending; [simpl; auto|].
  cbn [mapAccum omap list_omap].
  destruct (responseOf part) as [fr|] eqn:Hresp.
  - rewrite (secondPassPart_response pending part fr Hresp).
    destruct (responseOf_Some_obj _ _ Hresp) as [fields ->].
    cbn [mapAccum]. destruct (matchResponseId pending fr) as [pending1 resp]. cbn [fst snd].
    specialize (IH pending1).
    destruct (mapAccum secondPassPart pending1 ps) as [pending2 ps'].
    destruct (mapAccum matchResponseId pending1 (omap responseOf ps)) as [pending2' resps'].
    cbn [fst snd] in *. destruct IH as (IH1 & IH2).
    cbn [omap list_omap fmap list_fmap spread].
    rewrite responseOf_setResponse, callOf_setResponse, IH1, IH2. auto.
  - rewrite (secondPassPart_other pending part Hresp).
    specialize (IH pending).
    destruct (mapAccum secondPassPart pending ps) as [pending2 ps'].
    cbn [fst snd] in *. destruct IH as (IH1 & IH2).
    cbn [omap list_omap]. rewrite Hresp, IH1, IH2. auto.
Qed.

Lemma matchResponseId_one pending fr :
  matchResponseId pending fr
  = if lacksId fr then
      match nameOf fr with
      | Some name =>
          match queueOf pending name with
          | id :: queue => (<[name := queue]> pending, setField "id" id (spread fr))
          | [] => (pending, spread fr)
          end
      | None => (pending, spread fr)
      end
    else (pending, spread fr).
Proof.
  unfold matchResponseId, lacksId, nameOf, queueOf.
  destruct (negb (truthyO (assoc "id" (spread fr)))); [|reflexivity].
  destruct (assoc "name" (spread fr)) as [[| | |name| |]|]; try reflexivity.
  destruct (pending !! name) as [[|id queue]|]; reflexivity.
Qed.

Lemma queue_after_response pending r0 name k :
  queueOf (fst (matchResponseId pending r0)) name !! k
  = queueOf pending name !! ((if wantsId name r0 then 1 else 0) + k)%nat.
Proof.
  rewrite matchResponseId_one. unfold wantsId.
  destruct (lacksId r0); [|reflexivity].
  destruct (nameOf r0) as [n0|]; [|reflexivity]. simpl.
  destruct (queueOf pending n0) as [|id queue] eqn:Hq; simpl.
  - destruct (String.eqb n0 name) eqn:E; [|reflexivity].
    apply String.eqb_eq in E. subst. rewrite Hq. simpl. rewrite !lookup_nil. reflexivity.
  - rewrite queueOf_insert.
    destruct (String.eqb n0 name) eqn:E; [|reflexivity].
    apply String.eqb_eq in E. subst. rewrite Hq. reflexivity.
Qed.

Lemma earlierFor_0 name responses : earlierFor name responses 0 = 0%nat.
Proof. reflexivity. Qed.

Lemma earlierFor_S name r0 rest j :
  earlierFor name (r0 :: rest) (S j)
  = ((if wantsId name r0 then 1 else 0) + earlierFor name rest j)%nat.
Proof. unfold earlierFor. simpl. destruct (wantsId name r0); reflexivity. Qed.

Lemma mapAccum_matchResponseId responses pending j fr :
  responses !! j = Some fr ->
  snd (mapAccum matchResponseId pending responses) !! j
  = Some (matchedResponse pending responses j fr).
Proof.
  revert pending j. induction responses as [|r0 rest IH]; intros pending j Hj.
  - rewrite lookup_nil in Hj. discriminate.
  - cbn [mapAccum].
    pose proof (queue_after_response pending r0) as Hq.
    pose proof (matchResponseId_one pending r0) as Hone.
    destruct (matchResponseId pending r0) as [pending1 resp0]. cbn [fst] in Hq.
    specialize (IH pending1).
    destruct (mapAccum matchResponseId pending1 rest) as [pending2 outs]. cbn [snd] in *.
    destruct j as [|j]; simpl in Hj.
    + injection Hj as <-. simpl. unfold matchedResponse.
      destruct (lacksId r0); [|congruence].
      destruct (nameOf r0) as [n0|]; [|congruence].
      rewrite earlierFor_0.
      destruct (queueOf pending n0) as [|id queue]; simpl; congruence.
    + simpl. rewrite (IH j Hj). f_equal. unfold matchedResponse.
      destruct (lacksId fr); [|reflexivity].
      destruct (nameOf fr) as [name|]; [|reflexivity].
      rewrite earlierFor_S, Hq. reflexivity.
Qed.

(** C5. On the [functionCall] and [functionResponse] values of a
    conversation taken in document order: the first pass gives every call
    that lacks an id the id [tool-call-N], [N] being the number of id-less
    calls up to and including it (so [N] counts from 1 across the whole
    conversation), keeps the id of a call that has one, and leaves under
    each function name the queue of the ids of the calls of that name,
    assigned or existing, oldest first; the responses are untouched. The
    second pass gives every response that lacks an id and has a name the
    element of the queue of its name at the rank of that response among
    the id-less responses of the same name, i.e. the successive fronts of
    the queue, and leaves the response as it is once the queue is
    exhausted; the calls are untouched. *)
Theorem tool_id_pairing contents :
  let calls := callsOf contents in
  let responses := responsesOf contents in
  let st := fst (firstPass contents) in
  let contents1 := snd (firstPass contents) in
  (forall i fc, calls !! i = Some fc ->
     callsOf contents1 !! i = Some (JObj (assignedCall (callNumber calls i) fc))
     /\ (lacksId fc = true ->
         (1 <= callNumber calls i)%nat
         /\ assoc "id" (assignedCall (callNumber calls i) fc)
            = Some (JStr ("tool-call-" +:+ pretty (callNumber calls i))))
     /\ (lacksId fc = false -> assignedCall (callNumber calls i) fc = spread fc))
  /\ (forall name, queueOf (pendingCallIdsByName st) name = idsFor name 0 calls)
  /\ responsesOf contents1 = responses
  /\ (forall j fr, responses !! j = Some fr ->
        responsesOf (pairToolIds contents) !! j
        = Some (JObj (matchedResponse (pendingCallIdsByName st) responses j fr)))
  /\ callsOf (pairToolIds contents) = callsOf contents1.
Proof.
  intros calls responses st contents1.
  destruct (mapAccum_overParts firstPassPart (mkPairing 0 ∅) contents) as [Hst Hparts].
  fold (firstPass contents) in Hst, Hparts. fold st in Hst. fold contents1 in Hparts.
  destruct (mapAccum_firstPassPart (mkPairing 0 ∅) (allParts contents))
    as (Hst2 & Hcalls & Hresps).
  rewrite <- Hst in Hst2. rewrite <- Hparts in Hcalls, Hresps.
  fold (callsOf contents1) in Hcalls. fold (responsesOf contents1) in Hresps.
  fold (callsOf contents) in Hst2, Hcalls. fold calls in Hst2, Hcalls.
  fold (responsesOf contents) in Hresps. fold responses in Hresps.
  destruct (mapAccum_assignCallId calls (mkPairing 0 ∅)) as [Hassigned Hqueue].
  rewrite <- Hst2 in Hqueue. simpl in Hassigned, Hqueue.
  assert (pairToolIds contents = snd (secondPass (pendingCallIdsByName st) contents1)) as Hpair.
  { unfold pairToolIds. subst st contents1. destruct (firstPass contents). reflexivity. }
  destruct (mapAccum_overParts secondPassPart (pendingCallIdsByName st) contents1)
    as [_ Hparts2].
  fold (secondPass (pendingCallIdsByName st) contents1) in Hparts2. rewrite <- Hpair in Hparts2.
  destruct (mapAccum_secondPassPart (pendingCallIdsByName st) (allParts contents1))
    as (Hresps2 & Hcalls2).
  rewrite <- Hparts2 in Hresps2, Hcalls2.
  fold (responsesOf (pairToolIds contents)) in Hresps2.
  fold (callsOf (pairToolIds contents)) in Hcalls2.
  fold (responsesOf contents1) in Hresps2. fold (callsOf contents1) in Hcalls2.
  rewrite Hresps in Hresps2.
  split; [|split; [|split; [|split]]].
  - intros i fc Hi. split; [|split].
    + rewrite Hcalls, list_lookup_fmap, (Hassigned i fc Hi). reflexivity.
    + intros Hlacks. split.
      * unfold callNumber. rewrite (take_S_r _ _ _ Hi), List.filter_app, length_app.
        simpl. rewrite Hlacks. simpl. lia.
      * unfold assignedCall. rewrite Hlacks. apply assoc_setField_eq.
    + intros Hhas. unfold assignedCall. rewrite Hhas. reflexivity.
  - intros name. rewrite Hqueue. reflexivity.
  - exact Hresps.
  - intros j fr Hj.
    rewrite Hresps2, list_lookup_fmap, (mapAccum_matchResponseId _ _ _ _ Hj). reflexivity.
  - exact Hcalls2.
Qed.

(** *** The warmup flag *)

Lemma innerSome_existsb k P items :
  existsb (fun element => match get k element with
                          | Some (JArr inner) => existsb P inner
                          | _ => false
                          end) items = true
  <-> InnerSome k P items.
Proof.
  unfold InnerSome. rewrite existsb_exists. split.
  - intros (element & Hin & H).
    destruct (get k element) as [[| | | |inner|]|] eqn:Hk; try discriminate.
    apply existsb_exists in H. destruct H as (x & Hx & HP).
    exists element, inner, x. auto.
  - intros (element & inner & x & Hin & Hk & Hx & HP).
    exists element. split; [exact Hin|]. rewrite Hk. apply existsb_exists. eauto.
Qed.

Lemma hasToolUse_iff payload : hasToolUse payload = true <-> ToolPartIn payload.
Proof.
  unfold hasToolUse, ToolPartIn, hasToolUseInContents, hasToolUseInMessages.
  rewrite orb_true_iff. split.
  - intros [H|H].
    + left. destruct (assoc "contents" payload) as [[| | | |contents|]|]; try discriminate.
      exists contents. split; [reflexivity|]. apply innerSome_existsb. exact H.
    + right. destruct (assoc "messages" payload) as [[| | | |messages|]|]; try discriminate.
      exists messages. split; [reflexivity|]. apply innerSome_existsb. exact H.
  - intros [(contents & -> & H)|(messages & -> & H)].
    + left. apply innerSome_existsb. exact H.
    + right. apply innerSome_existsb. exact H.
Qed.

Lemma hasSignedThinking_iff payload :
  hasSignedThinking payload = true <-> SignedThinkingIn payload.
Proof.
  unfold hasSignedThinking, SignedThinkingIn, hasSignedThinkingInContents,
    hasSignedThinkingInMessages.
  rewrite orb_true_iff. split.
  - intros [H|H].
    + left. destruct (assoc "contents" payload) as [[| | | |contents|]|]; try discriminate.
      exists contents. split; [reflexivity|]. apply innerSome_existsb. exact H.
    + right. destruct (assoc "messages" payload) as [[| | | |messages|]|]; try discriminate.
      exists messages. split; [reflexivity|]. apply innerSome_existsb. exact H.
  - intros [(contents & -> & H)|(messages & -> & H)].
    + left. apply innerSome_existsb. exact H.
    + right. apply innerSome_existsb. exact H.
Qed.

Lemma hasCachedThinking_false lastSigned key :
  hasCachedThinking lastSigned key = false <-> lastSigned !! key = None.
Proof.
  unfold hasCachedThinking. destruct (lastSigned !! key); split; congruence.
Qed.

Lemma claudeThinking_claude model :
  isClaudeThinkingModel model = true -> isClaudeModel model = true.
Proof.
  unfold isClaudeThinkingModel, isClaudeModel. intros H.
  apply andb_true_iff in H. tauto.
Qed.

(** The flag is the conjunction of the three tests of request.js. *)
Lemma warmup_flag_tests getCachedSignature DEBUG_MESSAGE_PREFIX
    effectiveModel lastSigned signatureSessionKey requestPayload requestObjects :
  (let result := prepareThinking getCachedSignature effectiveModel lastSigned
                                 signatureSessionKey requestPayload in
   snd result = true
   <-> (isClaudeThinkingModel effectiveModel = true
        /\ ToolPartIn (fst result)
        /\ ~ SignedThinkingIn (fst result)
        /\ lastSigned !! signatureSessionKey = None))
  /\ (let result := prepareWrappedThinking getCachedSignature DEBUG_MESSAGE_PREFIX
                                            effectiveModel lastSigned signatureSessionKey
                                            requestObjects in
      snd result = true
      <-> (isClaudeThinkingModel effectiveModel = true
           /\ (exists req, In req (fst result) /\ ToolPartIn req)
           /\ ~ (exists req, In req (fst result) /\ SignedThinkingIn req)
           /\ lastSigned !! signatureSessionKey = None)).
Proof.
  split.
  - unfold prepareThinking. cbn [fst snd].
    set (payload := disciplineThinking _ _ _ _ _ _).
    rewrite <- hasToolUse_iff, <- hasSignedThinking_iff, <- hasCachedThinking_false.
    destruct (isClaudeThinkingModel effectiveModel) eqn:Hthinking.
    + rewrite (claudeThinking_claude _ Hthinking). simpl.
      rewrite !andb_true_iff, !negb_true_iff, not_true_iff_false. tauto.
    + rewrite andb_false_r. split; [discriminate|]. intros [H _]. discriminate.
  - unfold prepareWrappedThinking. cbn [fst snd].
    set (processed := map _ requestObjects).
    rewrite <- hasCachedThinking_false.
    assert (existsb hasToolUse processed = true
            <-> exists req, In req processed /\ ToolPartIn req) as Htool.
    { rewrite existsb_exists. split; intros (req & Hin & H); exists req;
        (split; [exact Hin|]); apply hasToolUse_iff; exact H. }
    assert (existsb hasSignedThinking processed = true
            <-> exists req, In req processed /\ SignedThinkingIn req) as Hsigned.
    { rewrite existsb_exists. split; intros (req & Hin & H); exists req;
        (split; [exact Hin|]); apply hasSignedThinking_iff; exact H. }
    rewrite <- Htool, <- Hsigned.
    destruct (isClaudeThinkingModel effectiveModel) eqn:Hthinking; simpl.
    + destruct requestObjects as [|req rest]; simpl.
      * subst processed. simpl. split; [discriminate|]. intros (_ & H & _). discriminate.
      * rewrite !andb_true_iff, !negb_true_iff, not_true_iff_false. tauto.
    + split; [discriminate|]. intros [H _]. discriminate.
Qed.

(** The tests of request.js look for what [WarmupSpec] words. *)

Lemma longString_Signature v : longString v = true <-> WarmupSpec.Signature v.
Proof.
  unfold longString, WarmupSpec.Signature, MIN_SIGNATURE_LENGTH. split.
  - destruct v as [[| | |s| |]|]; try discriminate.
    intros H. apply Nat.leb_le in H. eauto.
  - intros (s & -> & H). apply Nat.leb_le. exact H.
Qed.

Lemma truthyO_Holds k x : truthyO (get k x) = true <-> WarmupSpec.Holds k x.
Proof.
  unfold WarmupSpec.Holds. split.
  - destruct (get k x) as [v|]; [|discriminate]. intros H. eauto.
  - intros (v & -> & H). exact H.
Qed.

Lemma isStr_get s v : isStr s v = true <-> v = Some (JStr s).
Proof.
  unfold isStr. split.
  - destruct v as [[| | |x| |]|]; try discriminate.
    intros H. apply String.eqb_eq in H. subst x. reflexivity.
  - intros ->. apply String.eqb_refl.
Qed.

Lemma isTrue_get v : isTrue v = true <-> v = Some (JBool true).
Proof.
  unfold isTrue. split.
  - destruct v as [[|[|]| | | |]|]; try discriminate. reflexivity.
  - intros ->. reflexivity.
Qed.

Lemma get_isObject k x v : get k x = Some v -> isObject x = true.
Proof. destruct x; try discriminate. reflexivity. Qed.

Lemma isGeminiToolUsePart_spec part :
  isGeminiToolUsePart part = true <-> WarmupSpec.ToolUsePart part.
Proof.
  unfold isGeminiToolUsePart, WarmupSpec.ToolUsePart.
  rewrite andb_true_iff, !orb_true_iff, !truthyO_Holds. split; [tauto|].
  intros H. split; [|tauto].
  destruct H as [(v & H & _)|[(v & H & _)|(v & H & _)]]; exact (get_isObject _ _ _ H).
Qed.

Lemma isToolBlock_spec block : isToolBlock block = true <-> WarmupSpec.ToolBlock block.
Proof.
  unfold isToolBlock, WarmupSpec.ToolBlock.
  rewrite andb_true_iff, orb_true_iff, !isStr_get. split; [tauto|].
  intros H. split; [|tauto]. destruct H as [H|H]; exact (get_isObject _ _ _ H).
Qed.

Lemma hasSignedThinkingPart_spec part :
  hasSignedThinkingPart part = true <-> WarmupSpec.SignedThinkingPart part.
Proof.
  unfold hasSignedThinkingPart, WarmupSpec.SignedThinkingPart.
  destruct (isObject part) eqn:Hobj.
  - destruct (isTrue (get "thought" part)) eqn:Ht.
    + apply isTrue_get in Ht. rewrite longString_Signature. split; [tauto|].
      intros [[_ H]|[H _]]; [exact H|contradiction].
    + assert (get "thought" part <> Some (JBool true)) as Hnot.
      { intros H. apply isTrue_get in H. congruence. }
      destruct (isStr "thinking" (get "type" part) || isStr "reasoning" (get "type" part))
        eqn:Hty.
      * rewrite longString_Signature. apply orb_true_iff in Hty.
        rewrite !isStr_get in Hty. split; [tauto|].
        intros [[H _]|(_ & _ & H)]; [contradiction|exact H].
      * apply orb_false_iff in Hty. destruct Hty as [H1 H2].
        split; [discriminate|].
        intros [[H _]|(_ & [H|H] & _)]; [contradiction| |];
          apply isStr_get in H; congruence.
  - split; [discriminate|].
    intros [[H _]|(_ & [H|H] & _)]; apply get_isObject in H; congruence.
Qed.

Lemma isSignedThinkingBlock_spec block :
  isSignedThinkingBlock block = true <-> WarmupSpec.SignedThinkingBlock block.
Proof.
  unfold isSignedThinkingBlock, isThinkingBlock, WarmupSpec.SignedThinkingBlock.
  rewrite !andb_true_iff, orb_true_iff, !isStr_get, longString_Signature.
  split; [tauto|]. intros [H Hs]. split; [|exact Hs]. split; [|exact H].
  destruct H as [H|H]; exact (get_isObject _ _ _ H).
Qed.

Lemma within_innerSome outer inner (P : JSON -> bool) (Q : JSON -> Prop) payload :
  (forall x, P x = true <-> Q x) ->
  (exists elements, assoc outer payload = Some (JArr elements)
                    /\ InnerSome inner P elements)
  <-> WarmupSpec.Within outer inner Q payload.
Proof.
  intros HPQ. unfold InnerSome, WarmupSpec.Within. split.
  - intros (elements & Ha & element & members & x & Hin & Hg & Hx & HP).
    exists elements, element, members, x. rewrite <- HPQ. auto.
  - intros (elements & element & members & x & Ha & Hin & Hg & Hx & HQ).
    exists elements. split; [exact Ha|]. exists element, members, x. rewrite HPQ. auto.
Qed.

Lemma toolPartIn_HasToolUse payload : ToolPartIn payload <-> WarmupSpec.HasToolUse payload.
Proof.
  unfold ToolPartIn, WarmupSpec.HasToolUse.
  rewrite (within_innerSome "contents" "parts" _ _ payload isGeminiToolUsePart_spec).
  rewrite (within_innerSome "messages" "content" _ _ payload isToolBlock_spec).
  reflexivity.
Qed.

Lemma signedThinkingIn_HasSignedThinking payload :
  SignedThinkingIn payload <-> WarmupSpec.HasSignedThinking payload.
Proof.
  unfold SignedThinkingIn, WarmupSpec.HasSignedThinking.
  rewrite (within_innerSome "contents" "parts" _ _ payload hasSignedThinkingPart_spec).
  rewrite (within_innerSome "messages" "content" _ _ payload isSignedThinkingBlock_spec).
  reflexivity.
Qed.

Lemma isClaudeThinkingModel_spec model :
  isClaudeThinkingModel model = true <-> WarmupSpec.ClaudeThinking model.
Proof.
  unfold isClaudeThinkingModel, WarmupSpec.ClaudeThinking. apply andb_true_iff.
Qed.

(** C10, as the code has it. For an ASCII model name,
    [needsSignedThinkingWarmup] is true exactly when the model is a
    Claude thinking model (its lowercased name contains [claude] and
    [thinking]); the request, as it stands after the signature steps,
    holds in [contents] a part with a truthy [functionCall], [tool_use]
    or [toolUse] (a [functionResponse] does not count) or in [messages] a
    block of type [tool_use] or [tool_result]; it holds no signed
    thinking, that is no part with [thought] true and a
    [thoughtSignature] of at least 50 characters, no other part of type
    [thinking] or [reasoning] and no block of type [thinking] or
    [redacted_thinking] with a [signature] of at least 50 characters; and
    no last signed thinking is cached for the session key. It is false
    otherwise. For a body that is already wrapped the tests range over
    the wrapped request and the request nested in it. *)
Theorem needsSignedThinkingWarmup_iff getCachedSignature DEBUG_MESSAGE_PREFIX
    effectiveModel lastSigned signatureSessionKey requestPayload requestObjects :
  isAscii effectiveModel = true ->
  (let result := prepareThinking getCachedSignature effectiveModel lastSigned
                                 signatureSessionKey requestPayload in
   snd result = true
   <-> WarmupSpec.NeedsWarmup effectiveModel (lastSigned !! signatureSessionKey)
                              [fst result])
  /\ (let result := prepareWrappedThinking getCachedSignature DEBUG_MESSAGE_PREFIX
                                            effectiveModel lastSigned signatureSessionKey
                                            requestObjects in
      snd result = true
      <-> WarmupSpec.NeedsWarmup effectiveModel (lastSigned !! signatureSessionKey)
                                 (fst result)).
Proof.
  intros _.
  destruct (warmup_flag_tests getCachedSignature DEBUG_MESSAGE_PREFIX effectiveModel
              lastSigned signatureSessionKey requestPayload requestObjects) as [H1 H2].
  cbv zeta in H1, H2 |- *. unfold WarmupSpec.NeedsWarmup.
  split.
  - rewrite H1, isClaudeThinkingModel_spec, toolPartIn_HasToolUse,
      signedThinkingIn_HasSignedThinking.
    split.
    + intros (Hm & Ht & Hs & Hc). split; [exact Hm|]. split; [|split; [|exact Hc]].
      * eexists. split; [left; reflexivity|exact Ht].
      * intros (req & [<-|[]] & Hreq). exact (Hs Hreq).
    + intros (Hm & (req & [<-|[]] & Ht) & Hs & Hc).
      split; [exact Hm|]. split; [exact Ht|]. split; [|exact Hc].
      intros Hreq. apply Hs. eexists. split; [left; reflexivity|exact Hreq].
  - rewrite H2, isClaudeThinkingModel_spec.
    split.
    + intros (Hm & (req & Hin & Ht) & Hs & Hc). split; [exact Hm|].
      split; [|split; [|exact Hc]].
      * exists req. split; [exact Hin|]. apply toolPartIn_HasToolUse. exact Ht.
      * intros (req' & Hin' & Hreq). apply Hs. exists req'. split; [exact Hin'|].
        apply signedThinkingIn_HasSignedThinking. exact Hreq.
    + intros (Hm & (req & Hin & Ht) & Hs & Hc). split; [exact Hm|].
      split; [|split; [|exact Hc]].
      * exists req. split; [exact Hin|]. apply toolPartIn_HasToolUse. exact Ht.
      * intros (req' & Hin' & Hreq). apply Hs. exists req'. split; [exact Hin'|].
        apply signedThinkingIn_HasSignedThinking. exact Hreq.
Qed.

Lemma needsSignedThinkingWarmup_iff_witness :
  let result := prepareThinking emptySignatureCache "claude-sonnet-4-5-thinking" ∅
                                "session" toolTurnRequest in
  isAscii "claude-sonnet-4-5-thinking" = true
  /\ snd result = true
  /\ WarmupSpec.NeedsWarmup "claude-sonnet-4-5-thinking"
       ((∅ : gmap string LastThinking) !! "session") [fst result].
Proof.
  intros result.
  assert (snd result = true) as Hflag by (vm_compute; reflexivity).
  split; [reflexivity|]. split; [exact Hflag|].
  destruct (needsSignedThinkingWarmup_iff emptySignatureCache "" "claude-sonnet-4-5-thinking"
              ∅ "session" toolTurnRequest [] eq_refl) as [H _].
  apply H. exact Hflag.
Defined.

(** *** Concrete conversations *)

(** A conversation in contents format whose only tool part is a
    [functionResponse], prepared for a Claude thinking model with nothing
    cached: it holds a tool result, no signed thinking, and the flag is
    false. *)
Lemma warmup_tool_result_counterexample :
  let contents := [turn "user" [textPart "summarise the file"];
                   turn "user" [fnResponse "read_file" (Some "call-1")]] in
  let result := prepareThinking emptySignatureCache "claude-sonnet-4-5-thinking" ∅
                                "session" [("contents", JArr contents)] in
  isClaudeThinkingModel "claude-sonnet-4-5-thinking" = true
  /\ fst result = [("contents", JArr contents)]
  /\ responsesOf contents = [JObj [("name", JStr "read_file"); ("id", JStr "call-1")]]
  /\ hasSignedThinking (fst result) = false
  /\ (∅ : gmap string LastThinking) !! "session" = None
  /\ snd result <> true.
Proof. vm_compute. repeat split; discriminate. Qed.

(** C2 at a failing input. The stream handler records the thinking of
    [shortSignatureResponse] as the session's last signed thinking although
    its signature has 8 characters; the next request of the session has a
    model turn with a tool call and no thinking, so the recorded block is
    injected in front of the call. The prepared body holds a thinking part
    whose signature is shorter than 50 characters, the tool-id passes keep
    it, and no warmup is asked for. *)
Theorem short_cached_signature_is_injected :
  let lastSigned := snd (cacheThinkingSignatures shortSignatureResponse "session" (∅, ∅)) in
  let result := prepareThinking emptySignatureCache "claude-sonnet-4-5-thinking"
                                lastSigned "session" toolTurnRequest in
  lastSigned !! "session" = Some (mkLastThinking "Let me read the file." (JStr "c2hvcnQ="))
  /\ assoc "contents" (fst result)
     = Some (JArr [turn "user" [textPart "read a.txt"];
                   turn "model" [JObj [("thought", JBool true);
                                       ("text", JStr "Let me read the file.");
                                       ("thoughtSignature", JStr "c2hvcnQ=")];
                                 fnCall "read_file" (Some "call-1")];
                   turn "user" [fnResponse "read_file" (Some "call-1")];
                   turn "model" [textPart "done"];
                   turn "user" [textPart "thanks, now b.txt"]])
  /\ UnsignedThinkingIn (fst result)
  /\ (forall contents, assoc "contents" (fst result) = Some (JArr contents) ->
        UnsignedThinkingIn [("contents", JArr (pairToolIds contents))])
  /\ snd result = false.
Proof.
  cbv zeta.
  assert (snd (cacheThinkingSignatures shortSignatureResponse "session" (∅, ∅)) !! "session"
          = Some (mkLastThinking "Let me read the file." (JStr "c2hvcnQ="))) as Hlast.
  { vm_compute. reflexivity. }
  split; [exact Hlast|].
  assert (forall last,
            last !! "session" = Some (mkLastThinking "Let me read the file." (JStr "c2hvcnQ=")) ->
            prepareThinking emptySignatureCache "claude-sonnet-4-5-thinking" last "session"
                            toolTurnRequest
            = ([("contents",
                 JArr [turn "user" [textPart "read a.txt"];
                       turn "model" [JObj [("thought", JBool true);
                                           ("text", JStr "Let me read the file.");
                                           ("thoughtSignature", JStr "c2hvcnQ=")];
                                     fnCall "read_file" (Some "call-1")];
                       turn "user" [fnResponse "read_file" (Some "call-1")];
                       turn "model" [textPart "done"];
                       turn "user" [textPart "thanks, now b.txt"]])], false)) as Hprep.
  { intros last Hl. unfold prepareThinking, hasCachedThinking.
    assert (isClaudeModel "claude-sonnet-4-5-thinking" = true) as -> by (vm_compute; reflexivity).
    assert (isClaudeThinkingModel "claude-sonnet-4-5-thinking" = true) as ->
      by (vm_compute; reflexivity).
    unfold disciplineThinking, onArrayField, ensureThinkingBeforeToolUseInContents.
    cbn. rewrite Hl. cbn. reflexivity. }
  rewrite (Hprep _ Hlast). cbn [fst snd].
  split; [reflexivity|].
  assert (forall contents,
            In (turn "model" [JObj [("thought", JBool true);
                                    ("text", JStr "Let me read the file.");
                                    ("thoughtSignature", JStr "c2hvcnQ=")];
                              fnCall "read_file" (Some "call-1")]) contents ->
            UnsignedThinkingIn [("contents", JArr contents)]) as Hunsigned.
  { intros contents Hin. left. exists contents. split; [reflexivity|].
    eexists _, _, _. split; [exact Hin|]. split; [reflexivity|].
    split; [left; reflexivity|]. vm_compute. reflexivity. }
  split; [apply Hunsigned; right; left; reflexivity|].
  split; [|reflexivity].
  intros contents [= <-]. apply Hunsigned. vm_compute. right. left. reflexivity.
Qed.

(** *** When the discipline does hold *)

Lemma payloadSigned_no_unsigned payload :
  PayloadSigned payload -> ~ UnsignedThinkingIn payload.
Proof.
  intros [Hc Hm] [(contents & Ha & element & inner & x & Hin & Hk & Hx & HP)
                 |(messages & Ha & element & inner & x & Hin & Hk & Hx & HP)].
  - specialize (Hc contents Ha). unfold InnerAll in Hc. rewrite Forall_forall in Hc.
    specialize (Hc element (proj2 (list_elem_of_In _ _) Hin) inner Hk).
    unfold PartsSigned in Hc. rewrite Forall_forall in Hc.
    specialize (Hc x (proj2 (list_elem_of_In _ _) Hx)).
    apply andb_true_iff in HP. destruct HP as [HT HS].
    rewrite (Hc HT) in HS. discriminate.
  - specialize (Hm messages Ha). unfold InnerAll in Hm. rewrite Forall_forall in Hm.
    specialize (Hm element (proj2 (list_elem_of_In _ _) Hin) inner Hk).
    unfold BlocksSigned in Hm. rewrite Forall_forall in Hm.
    specialize (Hm x (proj2 (list_elem_of_In _ _) Hx)).
    apply andb_true_iff in HP. destruct HP as [HT HS].
    rewrite (Hm HT) in HS. discriminate.
Qed.

Lemma assoc_onArrayField_eq k f payload :
  assoc k (onArrayField k f payload)
  = match assoc k payload with
    | Some (JArr items) => Some (JArr (f items))
    | other => other
    end.
Proof.
  unfold onArrayField.
  destruct (assoc k payload) as [[| | | |items|]|] eqn:E; try (rewrite E; reflexivity).
  apply assoc_setField_eq.
Qed.

Lemma assoc_onArrayField_ne k k' f payload :
  k <> k' -> assoc k' (onArrayField k f payload) = assoc k' payload.
Proof.
  intros Hne. unfold onArrayField.
  destruct (assoc k payload) as [[| | | |items|]|]; try reflexivity.
  apply assoc_setField_ne. exact Hne.
Qed.

Lemma innerAll_onInnerArray k (Q : list JSON -> Prop) f items :
  (forall inner, Q (f inner)) ->
  InnerAll k Q (map (onInnerArray k f) items).
Proof.
  intros HQ. unfold InnerAll. apply Forall_forall. intros element' Hin.
  apply list_elem_of_In, in_map_iff in Hin. destruct Hin as (element & <- & _).
  intros inner. unfold onInnerArray.
  destruct (get k element) as [[| | | |inner0|]|] eqn:E; try (rewrite E; discriminate).
  simpl. rewrite assoc_setField_eq. intros [= <-]. apply HQ.
Qed.

Lemma filter_signed (T S : JSON -> bool) (l : list JSON) :
  Forall (fun p => T p = true -> S p = true) (List.filter (fun p => negb (T p) || S p) l).
Proof.
  apply Forall_forall. intros p Hin. apply list_elem_of_In, filter_In in Hin.
  destruct Hin as [_ H]. intros HT. rewrite HT in H. exact H.
Qed.

Section Signed.

Variable getCachedSignature : string -> string -> option string.

Lemma deepFilter_signed key payload :
  PayloadSigned (deepFilterThinkingBlocks getCachedSignature key payload).
Proof.
  unfold deepFilterThinkingBlocks, PayloadSigned. split.
  - intros contents. rewrite assoc_onArrayField_ne by discriminate.
    rewrite assoc_onArrayField_eq.
    destruct (assoc "contents" payload) as [[| | | |items|]|]; try discriminate.
    intros [= <-]. apply innerAll_onInnerArray. intros inner. apply filter_signed.
  - intros messages. rewrite assoc_onArrayField_eq.
    rewrite assoc_onArrayField_ne by discriminate.
    destruct (assoc "messages" payload) as [[| | | |items|]|]; try discriminate.
    intros [= <-]. apply innerAll_onInnerArray. intros inner. apply filter_signed.
Qed.

Lemma longString_truthy v : longString v = true -> truthyO v = true.
Proof.
  destruct v as [[| | |s| |]|]; simpl; try discriminate.
  destruct s; [discriminate|reflexivity].
Qed.

Lemma ensureThoughtSignature_signed p key :
  hasSignedThinkingPart p = true -> ensureThoughtSignature getCachedSignature p key = p.
Proof.
  unfold hasSignedThinkingPart, ensureThoughtSignature.
  destruct (isObject p); [|reflexivity].
  destruct (nonEmpty (textOf "text" "thinking" p)); [|reflexivity].
  destruct (isTrue (get "thought" p)).
  - intros H. rewrite (longString_truthy _ H). reflexivity.
  - destruct (isStr "thinking" (get "type" p) || isStr "reasoning" (get "type" p));
      [|reflexivity].
    intros H. rewrite (longString_truthy _ H). reflexivity.
Qed.

Lemma ensureMessageThinkingSignature_signed b key :
  isSignedThinkingBlock b = true -> ensureMessageThinkingSignature getCachedSignature b key = b.
Proof.
  unfold isSignedThinkingBlock, ensureMessageThinkingSignature.
  intros H. apply andb_true_iff in H. destruct H as [-> ->]. reflexivity.
Qed.

Lemma map_id_on {A} (f : A -> A) (l : list A) :
  Forall (fun x => f x = x) l -> map f l = l.
Proof. induction 1 as [|x l Hx _ IH]; simpl; [reflexivity|rewrite Hx, IH; reflexivity]. Qed.

Variable lastSigned : gmap string LastThinking.
Variable key : string.
Hypothesis cached_is_signed :
  forall lastThinking, lastSigned !! key = Some lastThinking ->
                       longString (Some (lt_signature lastThinking)) = true.

Lemma ensureContents_signed contents :
  InnerAll "parts" PartsSigned contents ->
  InnerAll "parts" PartsSigned
           (ensureThinkingBeforeToolUseInContents getCachedSignature lastSigned contents key).
Proof.
  unfold InnerAll, ensureThinkingBeforeToolUseInContents. intros Hall.
  apply Forall_forall. intros content' Hin.
  apply list_elem_of_In, in_map_iff in Hin. destruct Hin as (content & <- & Hin).
  rewrite Forall_forall in Hall.
  specialize (Hall content (proj2 (list_elem_of_In _ _) Hin)).
  destruct (get "parts" content) as [[| | | |parts|]|] eqn:Hparts;
    try (intros inner Hi; rewrite Hparts in Hi; discriminate).
  specialize (Hall parts eq_refl).
  assert (forall inner, get "parts" content = Some (JArr inner) -> PartsSigned inner) as Hsame
    by (intros inner; rewrite Hparts; intros [= <-]; exact Hall).
  destruct (negb (isAssistantRole content)); [exact Hsame|].
  destruct (negb (existsb isGeminiToolUsePart parts)); [exact Hsame|].
  assert (PartsSigned (List.filter (fun p => negb (isGeminiThinkingPart p)) parts)) as Hother.
  { apply Forall_forall. intros p Hp. apply list_elem_of_In, filter_In in Hp.
    destruct Hp as [_ Hp]. intros HT. rewrite HT in Hp. discriminate. }
  assert (map (fun p => ensureThoughtSignature getCachedSignature p key)
              (List.filter isGeminiThinkingPart parts)
          = List.filter isGeminiThinkingPart parts) as Hthinking.
  { apply map_id_on. apply Forall_forall. intros p Hp.
    apply list_elem_of_In, filter_In in Hp. destruct Hp as [Hp HT].
    apply ensureThoughtSignature_signed.
    unfold PartsSigned in Hall. rewrite Forall_forall in Hall.
    apply Hall; [apply list_elem_of_In; exact Hp|exact HT]. }
  rewrite Hthinking.
  destruct (existsb hasSignedThinkingPart (List.filter isGeminiThinkingPart parts)).
  - intros inner. simpl. rewrite assoc_setField_eq. intros [= <-].
    apply Forall_app. split; [|exact Hother].
    apply Forall_forall. intros p Hp. apply list_elem_of_In, filter_In in Hp.
    destruct Hp as [Hp _]. unfold PartsSigned in Hall. rewrite Forall_forall in Hall.
    apply Hall. apply list_elem_of_In. exact Hp.
  - destruct (lastSigned !! key) as [lastThinking|] eqn:Hlast; [|exact Hsame].
    intros inner. simpl. rewrite assoc_setField_eq. intros [= <-].
    constructor; [|exact Hother].
    intros _. unfold hasSignedThinkingPart. simpl.
    apply (cached_is_signed lastThinking). reflexivity.
Qed.

Lemma ensureMessages_signed messages :
  InnerAll "content" BlocksSigned messages ->
  InnerAll "content" BlocksSigned
           (ensureThinkingBeforeToolUseInMessages getCachedSignature lastSigned messages key).
Proof.
  unfold InnerAll, ensureThinkingBeforeToolUseInMessages. intros Hall.
  apply Forall_forall. intros message' Hin.
  apply list_elem_of_In, in_map_iff in Hin. destruct Hin as (message & <- & Hin).
  rewrite Forall_forall in Hall.
  specialize (Hall message (proj2 (list_elem_of_In _ _) Hin)).
  destruct (get "content" message) as [[| | | |blocks|]|] eqn:Hblocks;
    try (intros inner Hi; rewrite Hblocks in Hi; discriminate).
  specialize (Hall blocks eq_refl).
  assert (forall inner, get "content" message = Some (JArr inner) -> BlocksSigned inner) as Hsame
    by (intros inner; rewrite Hblocks; intros [= <-]; exact Hall).
  destruct (negb (isStr "assistant" (get "role" message))); [exact Hsame|].
  destruct (negb (existsb isToolBlock blocks)); [exact Hsame|].
  assert (BlocksSigned (List.filter (fun b => negb (isThinkingBlock b)) blocks)) as Hother.
  { apply Forall_forall. intros b Hb. apply list_elem_of_In, filter_In in Hb.
    destruct Hb as [_ Hb]. intros HT. rewrite HT in Hb. discriminate. }
  assert (map (fun b => ensureMessageThinkingSignature getCachedSignature b key)
              (List.filter isThinkingBlock blocks)
          = List.filter isThinkingBlock blocks) as Hthinking.
  { apply map_id_on. apply Forall_forall. intros b Hb.
    apply list_elem_of_In, filter_In in Hb. destruct Hb as [Hb HT].
    apply ensureMessageThinkingSignature_signed.
    unfold BlocksSigned in Hall. rewrite Forall_forall in Hall.
    apply Hall; [apply list_elem_of_In; exact Hb|exact HT]. }
  rewrite Hthinking.
  destruct (existsb (fun b => longString (get "signature" b))
                    (List.filter isThinkingBlock blocks)).
  - intros inner. simpl. rewrite assoc_setField_eq. intros [= <-].
    apply Forall_app. split; [|exact Hother].
    apply Forall_forall. intros b Hb. apply list_elem_of_In, filter_In in Hb.
    destruct Hb as [Hb _]. unfold BlocksSigned in Hall. rewrite Forall_forall in Hall.
    apply Hall. apply list_elem_of_In. exact Hb.
  - destruct (lastSigned !! key) as [lastThinking|] eqn:Hlast; [|exact Hsame].
    intros inner. simpl. rewrite assoc_setField_eq. intros [= <-].
    constructor; [|exact Hother].
    intros _. unfold isSignedThinkingBlock, isThinkingBlock. simpl.
    apply (cached_is_signed lastThinking). reflexivity.
Qed.

(** With the filter of section 4.I in the place of
    [deepFilterThinkingBlocks], and a last signed thinking (if any) whose
    signature is a string of at least 50 characters, the request prepared
    for a Claude model holds no unsigned thinking part or block. *)
Lemma disciplineThinking_signed isClaudeThinking payload :
  ~ UnsignedThinkingIn
      (disciplineThinking getCachedSignature true isClaudeThinking lastSigned key payload).
Proof.
  apply payloadSigned_no_unsigned. unfold disciplineThinking.
  pose proof (deepFilter_signed key payload) as [Hc Hm].
  set (payload1 := deepFilterThinkingBlocks getCachedSignature key payload) in *.
  destruct isClaudeThinking; [|split; assumption].
  split.
  - intros contents. rewrite assoc_onArrayField_ne by discriminate.
    rewrite assoc_onArrayField_eq.
    destruct (assoc "contents" payload1) as [[| | | |items|]|] eqn:E; try discriminate.
    intros [= <-]. apply ensureContents_signed. apply Hc. reflexivity.
  - intros messages. rewrite assoc_onArrayField_eq.
    rewrite assoc_onArrayField_ne by discriminate.
    destruct (assoc "messages" payload1) as [[| | | |items|]|] eqn:E; try discriminate.
    intros [= <-]. apply ensureMessages_signed. apply Hm. reflexivity.
Qed.

End Signed.

End RequestFacts.

Module TextFacts.

Import JS Text.

Lemma append_assoc (a b c : string) : (a +:+ b) +:+ c = a +:+ (b +:+ c).
Proof.
  induction a as [|x a IH]; [reflexivity|].
  change (String x ((a +:+ b) +:+ c) = String x (a +:+ (b +:+ c))).
  rewrite IH. reflexivity.
Qed.

Lemma split_nonempty sep s : split sep s <> [].
Proof.
  destruct s as [|c rest]; simpl; [discriminate|].
  destruct (Ascii.eqb c sep); [discriminate|].
  destruct (split sep rest); discriminate.
Qed.

Lemma split_free sep s : freeOf sep s = true -> split sep s = [s].
Proof.
  induction s as [|c rest IH]; simpl; [reflexivity|].
  destruct (Ascii.eqb c sep); simpl; [discriminate|].
  intros H. rewrite (IH H). reflexivity.
Qed.

Lemma split_app_sep sep a b :
  freeOf sep a = true ->
  split sep (a +:+ String sep b) = a :: split sep b.
Proof.
  induction a as [|c rest IH]; simpl.
  - intros _. rewrite Ascii.eqb_refl. reflexivity.
  - destruct (Ascii.eqb c sep); simpl; [discriminate|].
    intros H. rewrite (IH H). reflexivity.
Qed.

Lemma split_segments_free sep s : Forall (fun seg => freeOf sep seg = true) (split sep s).
Proof.
  induction s as [|c rest IH]; simpl.
  - constructor; [reflexivity|constructor].
  - destruct (Ascii.eqb c sep) eqn:E.
    + constructor; [reflexivity|exact IH].
    + destruct (split sep rest) as [|seg segs].
      * constructor; [simpl; rewrite E; reflexivity|constructor].
      * inversion IH as [|? ? Hseg Hsegs]; subst.
        constructor; [simpl; rewrite E; exact Hseg|exact Hsegs].
Qed.

Lemma split2 sep a b :
  freeOf sep a = true -> freeOf sep b = true ->
  split sep (a +:+ String sep b) = [a; b].
Proof.
  intros Ha Hb. rewrite (split_app_sep sep a b Ha), (split_free sep b Hb). reflexivity.
Qed.

Lemma split3 sep a b c :
  freeOf sep a = true -> freeOf sep b = true -> freeOf sep c = true ->
  split sep (a +:+ String sep (b +:+ String sep c)) = [a; b; c].
Proof.
  intros Ha Hb Hc.
  rewrite (split_app_sep sep a _ Ha), (split2 sep b c Hb Hc). reflexivity.
Qed.

Lemma append_nil_r (a : string) : a +:+ "" = a.
Proof.
  induction a as [|x a IH]; [reflexivity|].
  change (String x (a +:+ "") = String x a). rewrite IH. reflexivity.
Qed.

Lemma withoutLast_app {A} (xs ys : list A) :
  ys <> [] -> withoutLast (xs ++ ys) = xs ++ withoutLast ys.
Proof.
  intros Hys. induction xs as [|x xs IH]; [reflexivity|].
  simpl. rewrite IH. destruct (xs ++ ys) eqn:E; [|reflexivity].
  apply app_eq_nil in E. destruct E as [_ E]. congruence.
Qed.

Lemma last_app_r {A} (xs ys : list A) : ys <> [] -> last (xs ++ ys) = last ys.
Proof.
  intros Hys. induction xs as [|x xs IH]; [reflexivity|].
  simpl. destruct (xs ++ ys) eqn:E; [|exact IH].
  apply app_eq_nil in E. destruct E as [_ E]. congruence.
Qed.

Lemma withoutLast_last {A} (l : list A) d :
  l <> [] -> withoutLast l ++ [default d (last l)] = l.
Proof.
  induction l as [|x l IH]; [congruence|]. intros _.
  destruct l as [|y l]; [reflexivity|].
  change (x :: (withoutLast (y :: l) ++ [default d (last (y :: l))]) = x :: y :: l).
  rewrite IH by discriminate. reflexivity.
Qed.

(** Splitting a text that arrives in two pieces: the complete segments of
    the first piece, then the segments of its last, incomplete segment
    followed by the second piece. *)
Lemma split_app sep a b :
  split sep (a +:+ b)
  = withoutLast (split sep a) ++ split sep (default "" (last (split sep a)) +:+ b).
Proof.
  induction a as [|c a IH]; [reflexivity|].
  change (String c a +:+ b) with (String c (a +:+ b)).
  cbn [split]. destruct (Ascii.eqb c sep) eqn:E.
  - rewrite IH. pose proof (split_nonempty sep a) as Hne.
    destruct (split sep a) as [|seg segs]; [congruence|]. reflexivity.
  - rewrite IH. pose proof (split_nonempty sep a) as Hne.
    destruct (split sep a) as [|seg segs]; [congruence|].
    destruct segs as [|seg' segs].
    + cbn [withoutLast last default app id].
      change (String c seg +:+ b) with (String c (seg +:+ b)).
      cbn [split]. rewrite E. reflexivity.
    + reflexivity.
Qed.

Lemma last_split_free sep s : freeOf sep (default "" (last (split sep s))) = true.
Proof.
  pose proof (split_segments_free sep s) as H.
  destruct (last (split sep s)) as [seg|] eqn:E; [|reflexivity].
  rewrite Forall_forall in H. apply H. apply last_Some_elem_of. exact E.
Qed.

Lemma concat_snoc sep (xs : list string) y :
  String.concat sep (xs ++ [y])
  = String.concat "" (map (fun x => x +:+ sep) xs) +:+ y.
Proof.
  induction xs as [|x xs IH]; [reflexivity|].
  cbn [app map]. destruct xs as [|x' xs].
  - simpl. rewrite append_assoc. reflexivity.
  - change (String.concat sep (x :: (x' :: xs) ++ [y]))
      with (x +:+ sep +:+ String.concat sep ((x' :: xs) ++ [y])).
    rewrite IH.
    change (String.concat "" ((x +:+ sep) :: map (fun x0 => x0 +:+ sep) (x' :: xs)))
      with ((x +:+ sep) +:+ "" +:+ String.concat "" (map (fun x0 => x0 +:+ sep) (x' :: xs))).
    rewrite !append_assoc. reflexivity.
Qed.

Lemma concat_app_empty (xs ys : list string) :
  String.concat "" (xs ++ ys) = String.concat "" xs +:+ String.concat "" ys.
Proof.
  induction xs as [|x xs IH]; [reflexivity|].
  destruct xs as [|x' xs].
  - destruct ys as [|y ys]; simpl; [rewrite append_nil_r; reflexivity|reflexivity].
  - change (String.concat "" ((x :: x' :: xs) ++ ys))
      with (x +:+ "" +:+ String.concat "" ((x' :: xs) ++ ys)).
    rewrite IH.
    change (String.concat "" (x :: x' :: xs))
      with (x +:+ "" +:+ String.concat "" (x' :: xs)).
    rewrite !append_assoc. reflexivity.
Qed.

Lemma prefix_app (p rest : string) : String.prefix p (p +:+ rest) = true.
Proof.
  induction p as [|c p IH]; [destruct rest; reflexivity|].
  change (String c p +:+ rest) with (String c (p +:+ rest)).
  cbn [String.prefix]. destruct (Ascii.ascii_dec c c); [exact IH|congruence].
Qed.

End TextFacts.

(* ===================================================================== *)
(** * Facts: properties of objects                                        *)
(* ===================================================================== *)

Module ObjectFacts.

Import JS JSFacts.

Lemma get_setField_eq k v fields : get k (JObj (setField k v fields)) = Some v.
Proof. simpl. apply assoc_setField_eq. Qed.

Lemma get_setField_ne k k' v fields :
  k <> k' -> get k' (JObj (setField k v fields)) = get k' (JObj fields).
Proof. intros H. simpl. apply assoc_setField_ne. exact H. Qed.

End ObjectFacts.

(** ** Refresh strings *)

Module AuthFacts.

Import Accounts JS JSFacts Text TextFacts Auth.

Lemma orUndefined_Some s : nonEmpty s = true -> orUndefined s = Some s.
Proof. unfold orUndefined. intros ->. reflexivity. Qed.

Lemma segmentOk_orUndefined s : freeOf (charOf "|") s = true -> segmentOk (orUndefined s) = true.
Proof.
  unfold orUndefined. destruct (nonEmpty s) eqn:E; simpl; [|reflexivity].
  intros ->. rewrite E. reflexivity.
Qed.

Lemma lookup_free sep (segs : list string) i :
  Forall (fun seg => freeOf sep seg = true) segs ->
  freeOf sep (default "" (segs !! i)) = true.
Proof.
  intros H. destruct (segs !! i) as [seg|] eqn:E; simpl; [|reflexivity].
  rewrite Forall_forall in H. apply H.
  apply (list_elem_of_lookup_2 _ _ _ E).
Qed.

Lemma parseRefreshParts_canonical refresh : canonical (parseRefreshParts refresh) = true.
Proof.
  unfold canonical, parseRefreshParts.
  cbn [refreshToken projectId managedProjectId].
  pose proof (split_segments_free (charOf "|") (default "" refresh)) as H.
  rewrite (lookup_free _ _ 0 H).
  rewrite (segmentOk_orUndefined _ (lookup_free _ _ 1 H)).
  rewrite (segmentOk_orUndefined _ (lookup_free _ _ 2 H)).
  reflexivity.
Qed.

Lemma segmentOk_default v :
  segmentOk v = true ->
  freeOf (charOf "|") (default "" v) = true /\ orUndefined (default "" v) = v.
Proof.
  destruct v as [p|]; [|split; reflexivity].
  intros H. apply andb_prop in H as [Hne Hf].
  split; [exact Hf|apply orUndefined_Some, Hne].
Qed.

Lemma parse_format parts :
  canonical parts = true -> parseRefreshParts (Some (formatRefreshParts parts)) = parts.
Proof.
  destruct parts as [token project managed].
  unfold canonical, formatRefreshParts, parseRefreshParts.
  cbn [refreshToken projectId managedProjectId].
  intros H. apply andb_prop in H as [H Hm]. apply andb_prop in H as [Ht Hp].
  destruct (segmentOk_default project Hp) as [Hpf Hpo].
  destruct managed as [m|].
  - apply andb_prop in Hm as [Hne Hf]. rewrite Hne.
    cbn [default id].
    replace ((token +:+ "|" +:+ default "" project) +:+ "|" +:+ m)
      with (token +:+ String (charOf "|") (default "" project +:+ String (charOf "|") m)).
    2:{ rewrite (append_assoc token). reflexivity. }
    rewrite (split3 _ _ _ _ Ht Hpf Hf).
    cbn [lookup list_lookup default id].
    rewrite Hpo, (orUndefined_Some m Hne). reflexivity.
  - cbn [default id].
    change (token +:+ "|" +:+ default "" project)
      with (token +:+ String (charOf "|") (default "" project)).
    rewrite (split2 _ _ _ Ht Hpf).
    cbn [lookup list_lookup default id].
    rewrite Hpo. reflexivity.
Qed.

(** X1. What [parseRefreshParts] returns is canonical, whatever the
    string: no field holds the separator, an optional field is absent
    rather than empty, and segments after the third are dropped. Such
    parts are a normal form: formatting them and parsing the result gives
    the same parts again. *)
Theorem parseRefreshParts_normal_form refresh :
  canonical (parseRefreshParts refresh) = true
  /\ parseRefreshParts (Some (formatRefreshParts (parseRefreshParts refresh)))
     = parseRefreshParts refresh
  /\ parseRefreshParts None = mkParts "" None None.
Proof.
  split; [apply parseRefreshParts_canonical|]. split; [|reflexivity].
  apply parse_format. apply parseRefreshParts_canonical.
Qed.

End AuthFacts.

Module PoolFacts.

Import Accounts Storage JS JSFacts AccountsFacts Pool.

(** *** Header styles *)

Lemma limitedKey_pruned now t a k :
  now <= t ->
  isRateLimitedForQuotaKey t (clearExpiredRateLimits now a) k = isRateLimitedForQuotaKey t a k.
Proof.
  intros Ht. unfold isRateLimitedForQuotaKey. rewrite clearExpired_get.
  destruct (rlGet (rateLimitResetTimes a) k) as [r|]; [|reflexivity].
  destruct (now >=? r) eqn:E; [|reflexivity].
  symmetry. apply Z.ltb_ge. apply Z.geb_le in E. lia.
Qed.

Lemma limited_pruned now t a f :
  now <= t ->
  isRateLimitedForFamily t (clearExpiredRateLimits now a) f = isRateLimitedForFamily t a f.
Proof. intros Ht. destruct f; simpl; rewrite ?limitedKey_pruned by exact Ht; reflexivity. Qed.

(** X2. [getAvailableHeaderStyle] offers no header style exactly when the
    account is rate-limited for the family. The style it offers has a free
    quota key, and [gemini-cli] is offered only when the
    [gemini-antigravity] key is limited. *)
Theorem getAvailableHeaderStyle_offers_free_key now a family :
  (getAvailableHeaderStyle now a family = None <-> isRateLimitedForFamily now a family = true)
  /\ (forall h, getAvailableHeaderStyle now a family = Some h ->
        isRateLimitedForQuotaKey now a (getQuotaKey family h) = false
        /\ (h = GeminiCli ->
            family = Gemini /\ isRateLimitedForQuotaKey now a KGeminiAntigravity = true)).
Proof.
  unfold getAvailableHeaderStyle.
  destruct family; simpl; rewrite !limitedKey_clearExpired.
  - destruct (isRateLimitedForQuotaKey now a KClaude) eqn:E1; split;
      try (split; congruence); intros h [= <-]; simpl; split; congruence.
  - destruct (isRateLimitedForQuotaKey now a KGeminiAntigravity) eqn:E1,
             (isRateLimitedForQuotaKey now a KGeminiCli) eqn:E2; simpl; split;
      try (split; congruence); intros h [= <-]; simpl; split; (congruence || auto).
Qed.

Lemma rlGet_rlPut k k' v r :
  rlGet (rlPut k v r) k' = if decide (k = k') then v else rlGet r k'.
Proof. destruct k, k', r; reflexivity. Qed.

(** X3. [markRateLimited] makes the quota key of the family and header
    style limited until the clock reaches [now + retryAfterMs], as
    [isRateLimitedForHeaderStyle] reports it; the other quota keys of the
    account and the other accounts of the pool are as before. *)
Theorem markRateLimited_limits_one_key now pos retryAfterMs family headerStyle m a :
  accounts m !! pos = Some a ->
  let m1 := markRateLimited now pos retryAfterMs family headerStyle m in
  exists a1,
    accounts m1 !! pos = Some a1
    /\ (forall t, fst (isRateLimitedForHeaderStyle t a1 family headerStyle)
                  = (t <? now + retryAfterMs))
    /\ (forall t family' headerStyle',
          getQuotaKey family' headerStyle' <> getQuotaKey family headerStyle ->
          fst (isRateLimitedForHeaderStyle t a1 family' headerStyle')
          = fst (isRateLimitedForHeaderStyle t a family' headerStyle'))
    /\ (forall i, i <> pos -> accounts m1 !! i = accounts m !! i).
Proof.
  intros Hpos m1. subst m1. unfold markRateLimited. rewrite Hpos.
  eexists. split; [|split; [|split]].
  - simpl. apply list_lookup_insert_eq. eapply lookup_lt_Some; eauto.
  - intros t. unfold isRateLimitedForHeaderStyle. simpl.
    rewrite limitedKey_pruned by lia.
    unfold isRateLimitedForQuotaKey. simpl. rewrite rlGet_rlPut.
    destruct (decide _); [reflexivity|congruence].
  - intros t f' h' Hne. unfold isRateLimitedForHeaderStyle. simpl.
    rewrite !limitedKey_pruned by lia.
    unfold isRateLimitedForQuotaKey. simpl. rewrite rlGet_rlPut.
    destruct (decide _); [congruence|reflexivity].
  - intros i Hi. simpl. apply list_lookup_insert_ne. congruence.
Qed.

Lemma markRateLimited_limits_one_key_witness :
  let m := mkManager [sampleAccount 0 noRateLimits; sampleAccount 1 noRateLimits] 0 0 0 in
  exists a1,
    accounts (markRateLimited 100 1 5000 Gemini GeminiCli m) !! 1%nat = Some a1
    /\ fst (isRateLimitedForHeaderStyle 5099 a1 Gemini GeminiCli) = true
    /\ fst (isRateLimitedForHeaderStyle 5100 a1 Gemini GeminiCli) = false
    /\ fst (isRateLimitedForHeaderStyle 5099 a1 Gemini Antigravity) = false.
Proof.
  intros m.
  destruct (markRateLimited_limits_one_key 100 1 5000 Gemini GeminiCli m
              (sampleAccount 1 noRateLimits) eq_refl) as (a1 & H1 & H2 & H3 & _).
  exists a1. split; [exact H1|]. rewrite !H2.
  rewrite (H3 5099 Gemini Antigravity) by discriminate.
  repeat split; reflexivity.
Defined.

(** *** Shape of the selections *)

Lemma limits_ext r r' : (forall k, rlGet r k = rlGet r' k) -> r = r'.
Proof.
  intros H. destruct r as [c ga gc], r' as [c' ga' gc'].
  pose proof (H KClaude) as H1. pose proof (H KGeminiAntigravity) as H2.
  pose proof (H KGeminiCli) as H3. simpl in *. congruence.
Qed.

Lemma clearExpired_idem now a :
  clearExpiredRateLimits now (clearExpiredRateLimits now a) = clearExpiredRateLimits now a.
Proof.
  assert (rateLimitResetTimes (clearExpiredRateLimits now (clearExpiredRateLimits now a))
          = rateLimitResetTimes (clearExpiredRateLimits now a)) as H.
  { apply limits_ext. intros k. rewrite !clearExpired_get.
    destruct (rlGet (rateLimitResetTimes a) k) as [t|]; [|reflexivity].
    destruct (now >=? t) eqn:E; [reflexivity|]. rewrite E. reflexivity. }
  destruct a. unfold clearExpiredRateLimits, setRateLimits in *. simpl in *.
  f_equal. exact H.
Qed.

Lemma wellIndexed_map f pool :
  (forall a, index (f a) = index a) -> wellIndexed pool -> wellIndexed (map f pool).
Proof.
  intros Hf Hw i a Hi. rewrite list_lookup_fmap in Hi.
  destruct (pool !! i) as [a0|] eqn:E; [|discriminate].
  injection Hi as <-. rewrite Hf. apply Hw. exact E.
Qed.

Lemma wellIndexed_insert pool pos a0 a' :
  pool !! pos = Some a0 -> index a' = index a0 ->
  wellIndexed pool -> wellIndexed (<[pos := a']> pool).
Proof.
  intros Hpos Hidx Hw i a Hi.
  destruct (decide (pos = i)) as [->|Hne].
  - rewrite list_lookup_insert_eq in Hi by (eapply lookup_lt_Some; eauto).
    injection Hi as <-. rewrite Hidx. apply Hw. exact Hpos.
  - rewrite list_lookup_insert_ne in Hi by exact Hne. apply Hw. exact Hi.
Qed.

Lemma wellIndexed_reindex l : wellIndexed (reindex l).
Proof.
  intros i a Hi. rewrite reindex_lookup in Hi.
  destruct (l !! i); [|discriminate]. injection Hi as <-. reflexivity.
Qed.

Lemma getCurrentAccount_inv m family pos a :
  getCurrentAccountForFamily m family = Some (pos, a) <->
  currentAccountIndexByFamily m family = Z.of_nat pos /\ accounts m !! pos = Some a.
Proof.
  unfold getCurrentAccountForFamily. split.
  - destruct (_ && _) eqn:E; [|discriminate].
    apply andb_prop in E as [E1 E2]. apply Z.geb_le in E1.
    destruct (accounts m !! _) eqn:E3; [|discriminate].
    intros [= <- <-]. split; [lia|exact E3].
  - intros [Hc Ha]. rewrite Hc.
    assert (pos < length (accounts m))%nat as Hlt by (eapply lookup_lt_Some; eauto).
    replace (Z.of_nat pos >=? 0) with true by (symmetry; apply Z.geb_le; lia).
    replace (Z.of_nat pos <? Z.of_nat (length (accounts m))) with true
      by (symmetry; apply Z.ltb_lt; lia).
    simpl. rewrite Nat2Z.id, Ha. reflexivity.
Qed.

Lemma getNext_shape now family m :
  let r := getNextForFamily now family m in
  currentClaude (snd r) = currentClaude m /\ currentGemini (snd r) = currentGemini m
  /\ length (accounts (snd r)) = length (accounts m)
  /\ (wellIndexed (accounts m) -> wellIndexed (accounts (snd r)))
  /\ (forall a, fst r = Some a ->
        exists pos a0,
          accounts m !! pos = Some a0
          /\ a = setLastUsed now (clearExpiredRateLimits now a0)
          /\ accounts (snd r) !! pos = Some a
          /\ cursor (snd r) = cursor m + 1)
  /\ (fst r = None -> cursor (snd r) = cursor m).
Proof.
  unfold getNextForFamily.
  set (pool := map (clearExpiredRateLimits now) (accounts m)).
  assert (wellIndexed (accounts m) -> wellIndexed pool) as Hwp.
  { apply wellIndexed_map. reflexivity. }
  assert (length pool = length (accounts m)) as Hlen by apply length_map.
  destruct (_ =? 0).
  { simpl. repeat split; auto. discriminate. }
  destruct (jsIndex _ _) as [[pos account]|] eqn:E.
  2:{ simpl. repeat split; auto. discriminate. }
  apply jsIndex_Some in E. destruct E as [_ E].
  assert (In (pos, account) (availableForFamily now family pool)) as Hin.
  { apply list_elem_of_In, list_elem_of_lookup. eauto. }
  apply available_elem in Hin. destruct Hin as [Hpos _].
  simpl. repeat split.
  - rewrite length_insert. exact Hlen.
  - intros Hw. apply (wellIndexed_insert pool pos account); auto.
  - intros a [= <-].
    unfold pool in Hpos. rewrite list_lookup_fmap in Hpos.
    destruct (accounts m !! pos) as [a0|] eqn:E0; [|discriminate].
    injection Hpos as <-. exists pos, a0.
    split; [exact E0|]. split; [reflexivity|]. split; [|reflexivity].
    apply list_lookup_insert_eq. rewrite Hlen. eapply lookup_lt_Some; eauto.
  - discriminate.
Qed.

Lemma select_shape now family m :
  wellIndexed (accounts m) ->
  let r := getCurrentOrNextForFamily now family m in
  length (accounts (snd r)) = length (accounts m)
  /\ wellIndexed (accounts (snd r))
  /\ (forall a, fst r = Some a ->
        exists pos a0,
          accounts m !! pos = Some a0
          /\ a = setLastUsed now (clearExpiredRateLimits now a0)
          /\ accounts (snd r) !! pos = Some a
          /\ currentAccountIndexByFamily (snd r) family = Z.of_nat pos)
  /\ (forall f', f' <> family ->
        currentAccountIndexByFamily (snd r) f' = currentAccountIndexByFamily m f')
  /\ (fst r = None ->
        currentAccountIndexByFamily (snd r) family = currentAccountIndexByFamily m family)
  /\ (cursor (snd r) = cursor m \/ cursor (snd r) = cursor m + 1).
Proof.
  intros Hw. unfold getCurrentOrNextForFamily.
  assert (forall m1,
            wellIndexed (accounts m1) ->
            let r := match getNextForFamily now family m1 with
                     | (Some next, m2) => (Some next, setCurrentIndex family (index next) m2)
                     | (None, m2) => (None, m2)
                     end in
            length (accounts (snd r)) = length (accounts m1)
            /\ wellIndexed (accounts (snd r))
            /\ (forall a, fst r = Some a ->
                  exists pos a0,
                    accounts m1 !! pos = Some a0
                    /\ a = setLastUsed now (clearExpiredRateLimits now a0)
                    /\ accounts (snd r) !! pos = Some a
                    /\ currentAccountIndexByFamily (snd r) family = Z.of_nat pos)
            /\ (forall f', f' <> family ->
                  currentAccountIndexByFamily (snd r) f' = currentAccountIndexByFamily m1 f')
            /\ (fst r = None ->
                  currentAccountIndexByFamily (snd r) family
                  = currentAccountIndexByFamily m1 family)
            /\ (cursor (snd r) = cursor m1 \/ cursor (snd r) = cursor m1 + 1)) as Hfall.
  { intros m1 Hw1.
    pose proof (getNext_shape now family m1) as H. simpl in H.
    destruct H as (Hc & Hg & Hlen & Hwi & Hsome & Hnone).
    destruct (getNextForFamily now family m1) as [[next|] m2]; simpl in *.
    - destruct (Hsome next eq_refl) as (pos & a0 & Ha0 & Hnext & Hm2 & Hcur).
      assert (index next = Z.of_nat pos) as Hidx.
      { rewrite Hnext. simpl. apply Hw1. exact Ha0. }
      destruct family; simpl; (split; [exact Hlen|]); (split; [auto|]);
        (split; [intros a [= <-]; exists pos, a0; auto|]);
        (split; [intros [|] Hf; simpl; congruence|]);
        (split; [discriminate|right; exact Hcur]).
    - split; [exact Hlen|]. split; [auto|]. split; [discriminate|].
      split; [intros [|] _; simpl; assumption|].
      split; [intros _; destruct family; simpl; assumption|].
      left. auto. }
  destruct (getCurrentAccountForFamily m family) as [[pos cur]|] eqn:Hcur.
  - apply getCurrentAccount_inv in Hcur. destruct Hcur as [Hidx Hpos].
    destruct (negb _).
    + simpl. split; [apply length_insert|].
      split; [apply (wellIndexed_insert _ pos cur); auto|].
      split; [|split; [reflexivity|split; [discriminate|left; reflexivity]]].
      intros a [= <-]. exists pos, cur. repeat split; [exact Hpos| |exact Hidx].
      apply list_lookup_insert_eq. eapply lookup_lt_Some; eauto.
    + set (m1 := setAccounts _ m).
      assert (wellIndexed (accounts m1)) as Hw1.
      { apply (wellIndexed_insert _ pos cur); auto. }
      specialize (Hfall m1 Hw1). simpl in Hfall.
      destruct Hfall as (Hlen & Hwi & Hsome & Hother & Hnone & Hcursor).
      split; [rewrite Hlen; apply length_insert|].
      split; [exact Hwi|].
      split; [|split; [exact Hother|split; [exact Hnone|exact Hcursor]]].
      intros a Ha. destruct (Hsome a Ha) as (pos' & a0 & Ha0 & Heq & Hin & Hfam).
      simpl in Ha0.
      destruct (decide (pos = pos')) as [<-|Hne].
      * rewrite list_lookup_insert_eq in Ha0 by (eapply lookup_lt_Some; eauto).
        injection Ha0 as <-. rewrite clearExpired_idem in Heq.
        exists pos, cur. auto.
      * rewrite list_lookup_insert_ne in Ha0 by exact Hne.
        exists pos', a0. auto.
  - apply (Hfall m Hw).
Qed.

(** *** Sticky selection and rotation *)

Lemma hasFreeKey_later now now' a family :
  now <= now' -> hasFreeKey now a family -> hasFreeKey now' a family.
Proof.
  intros Hle. unfold hasFreeKey, keyFree.
  destruct family; repeat destruct (rlGet _ _); intuition lia.
Qed.

(** X4. Selection is sticky on a pool whose accounts carry their pool
    positions as [index], as the constructor gives for a stored file in
    which every entry has a refresh token and as every operation keeps.
    There, once [getCurrentOrNextForFamily] has returned an account,
    calling it again for the same family at the same or a later time,
    with no rate limit recorded in between, returns the same pooled
    account (pruned, its [lastUsed] set to the new clock), keeps the
    family's index on it and does not advance the round-robin cursor. The
    sticky path finds the account by its [index]; on a pool built from a
    file with an entry that has no refresh token the indexes run ahead of
    the positions and the property does not hold. *)
Theorem selection_is_sticky now now' family m a :
  wellIndexed (accounts m) -> now <= now' ->
  fst (getCurrentOrNextForFamily now family m) = Some a ->
  let m1 := snd (getCurrentOrNextForFamily now family m) in
  let again := getCurrentOrNextForFamily now' family m1 in
  fst again = Some (setLastUsed now' (clearExpiredRateLimits now' a))
  /\ cursor (snd again) = cursor m1
  /\ currentAccountIndexByFamily (snd again) family = index a
  /\ currentAccountIndexByFamily m1 family = index a.
Proof.
  intros Hw Hle Ha m1 again.
  pose proof (select_shape now family m Hw) as Hshape. simpl in Hshape.
  destruct Hshape as (_ & _ & Hsome & _).
  destruct (Hsome a Ha) as (pos & a0 & Ha0 & Heq & Hin & Hfam).
  fold m1 in Hin, Hfam.
  assert (index a = Z.of_nat pos) as Hidx.
  { rewrite Heq. simpl. apply Hw. exact Ha0. }
  assert (getCurrentAccountForFamily m1 family = Some (pos, a)) as Hcur.
  { apply getCurrentAccount_inv. auto. }
  assert (isRateLimitedForFamily now' (clearExpiredRateLimits now' a) family = false) as Hfree.
  { rewrite limited_clearExpired. apply hasFreeKey_iff.
    apply (hasFreeKey_later now now'); [exact Hle|].
    apply (getCurrentOrNext_returned_free now family m). exact Ha. }
  subst again. unfold getCurrentOrNextForFamily. rewrite Hcur, Hfree. simpl.
  repeat split; try congruence.
  destruct family; simpl in *; congruence.
Qed.

Lemma selection_is_sticky_witness :
  let m := mkManager [sampleAccount 0 (mkRateLimits (Some 900) None None);
                      sampleAccount 1 noRateLimits] 0 0 0 in
  exists a,
    fst (getCurrentOrNextForFamily 100 Claude m) = Some a
    /\ index a = 1
    /\ fst (getCurrentOrNextForFamily 5000 Claude (snd (getCurrentOrNextForFamily 100 Claude m)))
       = Some (setLastUsed 5000 (clearExpiredRateLimits 5000 a))
    /\ cursor (snd (getCurrentOrNextForFamily 5000 Claude
                      (snd (getCurrentOrNextForFamily 100 Claude m)))) = 1.
Proof.
  intros m.
  assert (wellIndexed (accounts m)) as Hw.
  { intros [|[|i]] a; simpl; intros [= <-]; reflexivity. }
  exists (setLastUsed 100 (sampleAccount 1 noRateLimits)).
  assert (fst (getCurrentOrNextForFamily 100 Claude m)
          = Some (setLastUsed 100 (sampleAccount 1 noRateLimits))) as Ha by reflexivity.
  destruct (selection_is_sticky 100 5000 Claude m _ Hw ltac:(lia) Ha) as (H1 & H2 & _).
  split; [exact Ha|]. split; [reflexivity|]. split; [exact H1|].
  rewrite H2. reflexivity.
Defined.

Lemma limited_not_selected now family m pos a0 a :
  wellIndexed (accounts m) ->
  accounts m !! pos = Some a0 ->
  isRateLimitedForFamily now a0 family = true ->
  fst (getCurrentOrNextForFamily now family m) = Some a ->
  index a <> Z.of_nat pos.
Proof.
  intros Hw Hpos Hlim Ha Hidx.
  pose proof (select_shape now family m Hw) as Hshape. simpl in Hshape.
  destruct Hshape as (_ & _ & Hsome & _).
  destruct (Hsome a Ha) as (pos' & a1 & Ha1 & Heq & _).
  assert (index a = Z.of_nat pos') as Hidx'.
  { rewrite Heq. simpl. apply Hw. exact Ha1. }
  assert (pos' = pos) as -> by lia.
  rewrite Hpos in Ha1. injection Ha1 as <-.
  pose proof (getCurrentOrNext_returned_free now family m a Ha) as Hfree.
  apply hasFreeKey_iff in Hfree. rewrite Heq in Hfree.
  change (isRateLimitedForFamily now (clearExpiredRateLimits now a0) family = false) in Hfree.
  rewrite limited_clearExpired in Hfree. congruence.
Qed.

Lemma markRateLimited_lookup now pos retryAfterMs family headerStyle m a :
  accounts m !! pos = Some a ->
  accounts (markRateLimited now pos retryAfterMs family headerStyle m) !! pos
  = Some (setRateLimits (rlPut (getQuotaKey family headerStyle) (Some (now + retryAfterMs))
                               (rateLimitResetTimes a)) a).
Proof.
  intros Hpos. unfold markRateLimited. rewrite Hpos. simpl.
  apply list_lookup_insert_eq. eapply lookup_lt_Some; eauto.
Qed.

Lemma markRateLimited_wellIndexed now pos retryAfterMs family headerStyle m :
  wellIndexed (accounts m) ->
  wellIndexed (accounts (markRateLimited now pos retryAfterMs family headerStyle m)).
Proof.
  intros Hw. unfold markRateLimited.
  destruct (accounts m !! pos) as [a|] eqn:E; [|exact Hw].
  simpl. apply (wellIndexed_insert _ pos a); auto.
Qed.

(** Without the indexing the selection is not sticky: a manager built from
    a stored file whose first entry has no refresh token and whose second
    is rate-limited for claude returns the third entry on the first call
    and the fourth on the second. *)
Lemma selection_needs_indexing :
  let stored := V3.mkStorage
                  [V3.mk None "" None None 10 20 None None;
                   V3.mk None "rt-1" None None 10 20 None
                         (Some (mkRateLimits (Some 5000) None None));
                   V3.mk None "rt-2" None None 11 21 None None;
                   V3.mk None "rt-3" None None 12 22 None None] 0 None in
  let m := construct 1000 None (Some stored) in
  let first := getCurrentOrNextForFamily 1000 Claude m in
  let second := getCurrentOrNextForFamily 1000 Claude (snd first) in
  map index (accounts m) = [1; 2; 3]
  /\ (refreshToken ∘ parts <$> fst first) = Some "rt-2"
  /\ (refreshToken ∘ parts <$> fst second) = Some "rt-3".
Proof. vm_compute. repeat split. Qed.

(** X5. On a pool whose accounts carry their pool positions as [index],
    an account that has just been marked rate-limited is passed over.
    After [markRateLimited] for claude, and after [markRateLimited] for
    both header styles of gemini, [getCurrentOrNextForFamily] does not
    return the marked account for that family while the clock is before
    the recorded reset time(s): the account it returns has another
    [index] than the position that was marked. *)
Theorem marked_account_is_passed_over now now' pos m a0 :
  wellIndexed (accounts m) ->
  accounts m !! pos = Some a0 ->
  (forall retry headerStyle a,
     now' < now + retry ->
     fst (getCurrentOrNextForFamily now' Claude
            (markRateLimited now pos retry Claude headerStyle m)) = Some a ->
     index a <> Z.of_nat pos)
  /\ (forall retry1 retry2 a,
        now' < now + retry1 -> now' < now + retry2 ->
        fst (getCurrentOrNextForFamily now' Gemini
               (markRateLimited now pos retry2 Gemini GeminiCli
                  (markRateLimited now pos retry1 Gemini Antigravity m))) = Some a ->
        index a <> Z.of_nat pos).
Proof.
  intros Hw Hpos. split.
  - intros retry h a Hlt Ha.
    eapply (limited_not_selected now' Claude); [| |  |exact Ha].
    + apply markRateLimited_wellIndexed. exact Hw.
    + apply markRateLimited_lookup. exact Hpos.
    + unfold isRateLimitedForFamily, isRateLimitedForQuotaKey. simpl.
      rewrite ?rlGet_rlPut. simpl. apply Z.ltb_lt. exact Hlt.
  - intros r1 r2 a H1 H2 Ha.
    eapply (limited_not_selected now' Gemini); [| |  |exact Ha].
    + apply markRateLimited_wellIndexed, markRateLimited_wellIndexed. exact Hw.
    + apply markRateLimited_lookup. apply markRateLimited_lookup. exact Hpos.
    + unfold isRateLimitedForFamily, isRateLimitedForQuotaKey. simpl.
      rewrite ?rlGet_rlPut. simpl.
      apply andb_true_intro. split; apply Z.ltb_lt; assumption.
Qed.

Lemma marked_account_is_passed_over_witness :
  let m := mkManager [sampleAccount 0 noRateLimits; sampleAccount 1 noRateLimits] 0 0 0 in
  exists a,
    fst (getCurrentOrNextForFamily 200 Claude (markRateLimited 100 0 5000 Claude Antigravity m))
    = Some a
    /\ index a <> 0.
Proof.
  intros m.
  assert (wellIndexed (accounts m)) as Hw.
  { intros [|[|i]] x; simpl; intros [= <-]; reflexivity. }
  destruct (marked_account_is_passed_over 100 200 0 m (sampleAccount 0 noRateLimits) Hw eq_refl)
    as [H _].
  eexists. split; [reflexivity|].
  apply (H 5000 Antigravity); [lia|reflexivity].
Defined.

(** *** Invariants of the manager *)

Lemma select_consistent now family m :
  consistent m -> consistent (snd (getCurrentOrNextForFamily now family m)).
Proof.
  intros (Hw & Hc & Hcl & Hge).
  pose proof (select_shape now family m Hw) as H. simpl in H.
  destruct H as (Hlen & Hwi & Hsome & Hother & Hnone & _).
  pose proof (getCurrentOrNext_cursor now family m Hc) as Hcur.
  assert (forall f, familyIndexOk (snd (getCurrentOrNextForFamily now family m)) f) as Hfam.
  { intros f. unfold familyIndexOk in *. rewrite Hlen.
    destruct (decide (f = family)) as [->|Hne].
    - destruct (fst (getCurrentOrNextForFamily now family m)) as [a|] eqn:E.
      + destruct (Hsome a eq_refl) as (pos & a0 & Ha0 & _ & _ & Hidx).
        rewrite Hidx. apply lookup_lt_Some in Ha0. lia.
      + rewrite (Hnone eq_refl). destruct family; assumption.
    - rewrite (Hother f Hne). destruct f; assumption. }
  repeat split; auto; apply Hfam.
Qed.

Lemma next_consistent now family m :
  consistent m -> consistent (snd (getNextForFamily now family m)).
Proof.
  intros (Hw & Hc & Hcl & Hge).
  pose proof (getNext_shape now family m) as H. simpl in H.
  destruct H as (Hc1 & Hg1 & Hlen & Hwi & _ & _).
  pose proof (getNextForFamily_cursor now family m Hc) as Hcur.
  unfold consistent, familyIndexOk in *. simpl. rewrite Hlen, Hc1, Hg1. auto.
Qed.

Lemma mark_consistent now pos retryAfterMs family headerStyle m :
  consistent m -> consistent (markRateLimited now pos retryAfterMs family headerStyle m).
Proof.
  intros (Hw & Hc & Hcl & Hge).
  split; [apply markRateLimited_wellIndexed; exact Hw|].
  unfold markRateLimited, familyIndexOk in *.
  destruct (accounts m !! pos); simpl; rewrite ?length_insert; auto.
Qed.

Lemma shiftFamilyIndex_range idx len cur :
  (idx <= len)%nat -> -1 <= cur < Z.of_nat (S len) ->
  -1 <= shiftFamilyIndex idx len cur < Z.of_nat len.
Proof.
  intros Hidx Hcur. unfold shiftFamilyIndex.
  destruct (cur >? Z.of_nat idx) eqn:E1.
  - apply Z.gtb_lt in E1.
    destruct (cur - 1 >=? Z.of_nat len) eqn:E2; [lia|].
    destruct (Z.geb_spec (cur - 1) (Z.of_nat len)); [discriminate|lia].
  - destruct (cur >=? Z.of_nat len) eqn:E2; [lia|].
    destruct (Z.geb_spec cur (Z.of_nat len)); [discriminate|lia].
Qed.

Lemma remove_consistent idx m :
  consistent m -> consistent (snd (removeAccount idx m)).
Proof.
  intros (Hw & Hc & Hcl & Hge). unfold removeAccount.
  destruct (decide _) as [Hlt|]; [|exact (conj Hw (conj Hc (conj Hcl Hge)))].
  set (pool := reindex (delete idx (accounts m))).
  assert (S (length pool) = length (accounts m)) as Hlen.
  { unfold pool. rewrite reindex_length, length_delete by (apply lookup_lt_is_Some_2; exact Hlt).
    lia. }
  destruct (_ =? 0) eqn:E; simpl.
  - apply Z.eqb_eq in E. unfold consistent, familyIndexOk. simpl.
    repeat split; try lia. apply wellIndexed_reindex.
  - apply Z.eqb_neq in E. unfold consistent, familyIndexOk in *. simpl.
    split; [apply wellIndexed_reindex|].
    split.
    + apply Z.rem_nonneg; [lia|]. destruct (cursor m >? Z.of_nat idx) eqn:E1; [|exact Hc].
      apply Z.gtb_lt in E1. lia.
    + split; apply shiftFamilyIndex_range; try lia; rewrite Hlen; assumption.
Qed.

Lemma minWait_consistent now family m :
  consistent m -> consistent (snd (getMinWaitTimeForFamily now family m)).
Proof.
  intros (Hw & Hc & Hcl & Hge).
  assert (consistent (setAccounts (map (clearExpiredRateLimits now) (accounts m)) m)) as H.
  { unfold consistent, familyIndexOk, setAccounts in *.
    cbn [accounts cursor currentClaude currentGemini currentAccountIndexByFamily] in *.
    rewrite length_map.
    repeat split; auto; try lia. apply wellIndexed_map; [reflexivity|exact Hw]. }
  unfold getMinWaitTimeForFamily.
  destruct (_ <? _)%nat; [exact H|]. destruct (omap _ _); exact H.
Qed.

(** X6. Index = position is an invariant of the manager, together with the
    ranges of its counters: whatever sequence of selections, rotations,
    rate-limit marks, removals, wait-time queries and clock advances is
    run on a consistent manager, every pooled account still carries its
    pool position as [index], the cursor is not negative, and each
    family's index is [-1] or a position of the pool. *)
Theorem manager_stays_consistent ops m now :
  consistent m -> consistent (fst (applyAll ops (m, now))).
Proof.
  unfold applyAll. revert m now.
  induction ops as [|op ops IH]; intros m now Hm; [exact Hm|].
  simpl. destruct op as [f|f|pos r f h|idx|f|dt]; simpl; apply IH.
  - apply select_consistent, Hm.
  - apply next_consistent, Hm.
  - apply mark_consistent, Hm.
  - apply remove_consistent, Hm.
  - apply minWait_consistent, Hm.
  - exact Hm.
Qed.

Lemma manager_stays_consistent_witness :
  let m := mkManager [sampleAccount 0 noRateLimits; sampleAccount 1 noRateLimits;
                      sampleAccount 2 noRateLimits] 2 2 (-1) in
  consistent (fst (applyAll [OpSelect Gemini; OpMarkRateLimited 0 500 Claude Antigravity;
                             OpRemove 0; OpTick 100; OpNext Claude] (m, 1000))).
Proof.
  intros m. apply manager_stays_consistent.
  unfold consistent, familyIndexOk. simpl. repeat split; try lia.
  intros [|[|[|i]]] a; simpl; intros [= <-]; reflexivity.
Defined.

(** *** The constructor *)

Lemma omap_imap_lookup {A B} (f : nat -> A -> option B) (l : list A) i b :
  omap id (imap f l) !! i = Some b ->
  exists j a, l !! j = Some a /\ f j a = Some b /\ (i <= j)%nat.
Proof.
  revert f i. induction l as [|x l IH]; intros f i; simpl; [rewrite lookup_nil; discriminate|].
  destruct (f 0%nat x) as [y|] eqn:E; simpl.
  - destruct i as [|i]; simpl.
    + intros [= <-]. exists 0%nat, x. repeat split; [exact E|lia].
    + intros H. destruct (IH _ _ H) as (j & a & Hj & Hf & Hle).
      exists (S j), a. repeat split; [exact Hj|exact Hf|lia].
  - intros H. destruct (IH _ _ H) as (j & a & Hj & Hf & Hle).
    exists (S j), a. repeat split; [exact Hj|exact Hf|lia].
Qed.

Lemma omap_imap_total {A B} (f : nat -> A -> option B) (g : nat -> A -> B) (l : list A) :
  (forall j a, l !! j = Some a -> f j a = Some (g j a)) ->
  omap id (imap f l) = imap g l.
Proof.
  revert f g. induction l as [|x l IH]; intros f g H; simpl; [reflexivity|].
  rewrite (H 0%nat x eq_refl). simpl. f_equal.
  apply IH. intros j a Hj. apply (H (S j) a Hj).
Qed.

Lemma clamp_nonneg value fallback :
  0 <= fallback -> 0 <= clampNonNegativeInt value fallback.
Proof.
  intros Hf. unfold clampNonNegativeInt. destruct value as [v|]; [|exact Hf].
  destruct (v <? 0) eqn:E; [lia|]. apply Z.ltb_ge in E. exact E.
Qed.

Lemma fromStored_Some baseNow authFallback j acc a :
  fromStored baseNow authFallback j acc = Some a ->
  index a = Z.of_nat j
  /\ refreshToken (parts a) = V3.refreshToken acc
  /\ V3.refreshToken acc <> "".
Proof.
  unfold fromStored. destruct (negb _) eqn:E; [discriminate|].
  intros [= <-]. simpl. repeat split.
  apply negb_false_iff in E. apply nonEmpty_true in E. exact E.
Qed.

Lemma construct_entries now authFallback stored s i a :
  stored = Some s ->
  accounts (construct now authFallback stored) !! i = Some a ->
  exists acc,
    V3.accounts s !! Z.to_nat (index a) = Some acc
    /\ Z.of_nat i <= index a
    /\ refreshToken (parts a) = V3.refreshToken acc
    /\ V3.refreshToken acc <> "".
Proof.
  intros ->. unfold construct.
  destruct (length (V3.accounts s) =? 0)%nat.
  { simpl. rewrite lookup_nil. discriminate. }
  set (pool := omap id (imap (fromStored now authFallback) (V3.accounts s))).
  intros Hi.
  assert (pool !! i = Some a) as Hp by (destruct (0 <? length pool)%nat; exact Hi).
  destruct (omap_imap_lookup _ _ _ _ Hp) as (j & acc & Hj & Hf & Hle).
  apply fromStored_Some in Hf. destruct Hf as (Hidx & Htok & Hne).
  exists acc. rewrite Hidx, Nat2Z.id. repeat split; auto. lia.
Qed.

Lemma construct_counters now authFallback stored :
  let m := construct now authFallback stored in
  0 <= cursor m
  /\ familyIndexOk m Claude /\ familyIndexOk m Gemini
  /\ (accounts m <> [] ->
      cursor m < Z.of_nat (length (accounts m))
      /\ 0 <= currentClaude m /\ 0 <= currentGemini m).
Proof.
  intros m. subst m. unfold construct, familyIndexOk.
  destruct stored as [s|].
  - destruct (length (V3.accounts s) =? 0)%nat.
    { simpl. repeat split; try lia; congruence. }
    set (pool := omap id (imap (fromStored now authFallback) (V3.accounts s))).
    pose proof (clamp_nonneg (Some (V3.activeIndex s)) 0 ltac:(lia)) as Hc0.
    destruct (0 <? length pool)%nat eqn:Epool.
    + apply Nat.ltb_lt in Epool.
      assert (0 < Z.of_nat (length pool)) as Hn by lia.
      pose proof (Z.rem_bound_pos _ _ Hc0 Hn) as Hcur.
      set (d := Z.rem _ _) in *.
      pose proof (Z.rem_bound_pos _ _
                    (clamp_nonneg (V3.activeIndexByFamily s ≫= fst) d (proj1 Hcur)) Hn) as Hcl.
      pose proof (Z.rem_bound_pos _ _
                    (clamp_nonneg (V3.activeIndexByFamily s ≫= snd) d (proj1 Hcur)) Hn) as Hge.
      cbn [accounts cursor currentClaude currentGemini currentAccountIndexByFamily].
      repeat split; lia.
    + apply Nat.ltb_ge in Epool.
      assert (pool = []) as Hnil by (destruct pool; [reflexivity|simpl in Epool; lia]).
      cbn [accounts cursor currentClaude currentGemini currentAccountIndexByFamily].
      rewrite Hnil. cbn [length]. repeat split; try congruence; lia.
  - destruct authFallback as [auth|]; [destruct (nonEmpty _)|]; simpl;
      repeat split; try lia; congruence.
Qed.

(** X7. What the constructor guarantees for every input. The cursor is not
    negative and each family's index is [-1] or a pool position; when the
    pool is not empty the cursor and both family indexes are positions of
    the pool. Every pooled account comes from a stored entry that has a
    refresh token, and its [index] is the position of that entry in the
    stored list, which is at or after its position in the pool: entries
    without a refresh token are dropped without re-indexing. *)
Theorem construct_ranges now authFallback stored :
  let m := construct now authFallback stored in
  (0 <= cursor m
   /\ familyIndexOk m Claude /\ familyIndexOk m Gemini
   /\ (accounts m <> [] ->
       cursor m < Z.of_nat (length (accounts m))
       /\ 0 <= currentClaude m /\ 0 <= currentGemini m))
  /\ (forall s i a,
        stored = Some s -> accounts m !! i = Some a ->
        exists acc,
          V3.accounts s !! Z.to_nat (index a) = Some acc
          /\ Z.of_nat i <= index a
          /\ refreshToken (parts a) = V3.refreshToken acc
          /\ V3.refreshToken acc <> "").
Proof.
  intros m. split.
  - apply construct_counters.
  - intros s i a. apply construct_entries.
Qed.

(** The account the constructor builds from a stored entry that has a
    refresh token. *)
Lemma fromStored_total baseNow authFallback j acc :
  V3.refreshToken acc <> "" ->
  exists a, fromStored baseNow authFallback j acc = Some a /\ index a = Z.of_nat j.
Proof.
  intros Hne. unfold fromStored.
  apply nonEmpty_true in Hne. rewrite Hne. simpl. eexists. split; reflexivity.
Qed.

Lemma construct_pool now authFallback s :
  (forall acc, In acc (V3.accounts s) -> V3.refreshToken acc <> "") ->
  let pool := accounts (construct now authFallback (Some s)) in
  length pool = length (V3.accounts s) /\ wellIndexed pool.
Proof.
  intros Htok. unfold construct.
  destruct (length (V3.accounts s) =? 0)%nat eqn:Elen.
  { apply Nat.eqb_eq in Elen. simpl. split; [lia|]. intros i a. rewrite lookup_nil. discriminate. }
  set (g := fun j acc => default (sampleAccount 0 noRateLimits) (fromStored now authFallback j acc)).
  assert (omap id (imap (fromStored now authFallback) (V3.accounts s))
          = imap g (V3.accounts s)) as Hpool.
  { apply omap_imap_total. intros j acc Hj.
    destruct (fromStored_total now authFallback j acc) as (a & Ha & _).
    - apply Htok. apply list_elem_of_In, list_elem_of_lookup. eauto.
    - unfold g. rewrite Ha. reflexivity. }
  rewrite Hpool.
  assert (length (imap g (V3.accounts s)) = length (V3.accounts s)) as Hlen by apply length_imap.
  assert (wellIndexed (imap g (V3.accounts s))) as Hw.
  { intros i a Hi. rewrite list_lookup_imap in Hi.
    destruct (V3.accounts s !! i) as [acc|] eqn:E; [|discriminate].
    injection Hi as <-.
    destruct (fromStored_total now authFallback i acc) as (a & Ha & Hidx).
    - apply Htok. apply list_elem_of_In, list_elem_of_lookup. eauto.
    - unfold g. rewrite Ha. exact Hidx. }
  destruct (0 <? _)%nat; simpl; auto.
Qed.

(** X8. A stored file in which every entry has a refresh token gives a
    consistent manager: the pool has one account per stored entry, each
    carrying its pool position as [index], and the cursor and the family
    indexes are in range. A manager built without a stored file is
    consistent as well. *)
Theorem construct_consistent now authFallback stored :
  (forall s acc, stored = Some s -> In acc (V3.accounts s) -> V3.refreshToken acc <> "") ->
  let m := construct now authFallback stored in
  consistent m
  /\ (forall s, stored = Some s -> length (accounts m) = length (V3.accounts s)).
Proof.
  intros Htok m.
  destruct (construct_counters now authFallback stored) as (Hc & Hcl & Hge & _).
  fold m in Hc, Hcl, Hge.
  destruct stored as [s|].
  - destruct (construct_pool now authFallback s (fun acc => Htok s acc eq_refl)) as [Hlen Hw].
    split; [exact (conj Hw (conj Hc (conj Hcl Hge)))|]. intros s' [= <-]. exact Hlen.
  - split; [|discriminate].
    refine (conj _ (conj Hc (conj Hcl Hge))).
    subst m. unfold construct.
    destruct authFallback as [auth|]; [destruct (nonEmpty _)|]; simpl;
      intros [|i] a; simpl; try (intros [= <-]; reflexivity);
      rewrite ?lookup_nil; discriminate.
Qed.

Lemma construct_consistent_witness :
  let stored := V3.mkStorage [V3.mk None "rt-1" None None 10 20 None None;
                              V3.mk None "rt-2" None None 11 21 None None] 5 None in
  consistent (construct 1000 None (Some stored))
  /\ cursor (construct 1000 None (Some stored)) = 1.
Proof.
  intros stored. split; [|reflexivity].
  apply (construct_consistent 1000 None (Some stored)).
  intros s acc [= <-]. simpl. intros [<-|[<-|[]]]; discriminate.
Defined.

(** *** Waiting for the pool *)

Lemma minimum_le w ws x : In x (w :: ws) -> minimum w ws <= x.
Proof.
  unfold minimum. revert x. induction ws as [|y ws IH]; intros x; simpl.
  - intros [<-|[]]. lia.
  - intros [<-|[<-|Hin]].
    + specialize (IH w (or_introl eq_refl)). lia.
    + lia.
    + specialize (IH x (or_intror Hin)). lia.
Qed.

Lemma minimum_in w ws : In (minimum w ws) (w :: ws).
Proof.
  unfold minimum. induction ws as [|y ws IH]; simpl; [auto|].
  destruct (Z.min_spec y (foldr Z.min w ws)) as [[_ ->]|[_ ->]]; [auto|].
  destruct IH as [<-|Hin]; auto.
Qed.

Lemma filter_nil_all {A} (P : A -> bool) (l : list A) x :
  List.filter P l = [] -> In x l -> P x = false.
Proof.
  induction l as [|y l IH]; simpl; [intros _ []|].
  destruct (P y) eqn:E; [discriminate|].
  intros Hnil [<-|Hin]; auto.
Qed.

Lemma accountWait_limited now family a :
  isRateLimitedForFamily now a family = true ->
  exists d, accountWait now family a = Some d /\ 0 < d
            /\ forall t, isRateLimitedForFamily t a family = (t <? now + d).
Proof.
  unfold isRateLimitedForFamily, isRateLimitedForQuotaKey, accountWait, waitFor.
  destruct family.
  - destruct (rlGet _ KClaude) as [r|]; [|discriminate].
    intros H. apply Z.ltb_lt in H. simpl. eexists. split; [reflexivity|].
    split; [lia|]. intros t. f_equal. lia.
  - destruct (rlGet _ KGeminiAntigravity) as [r1|]; [|discriminate].
    destruct (rlGet _ KGeminiCli) as [r2|]; [|rewrite andb_false_r; discriminate].
    intros H. apply andb_prop in H as [H1 H2]. apply Z.ltb_lt in H1, H2.
    simpl. eexists. split; [reflexivity|]. split; [lia|]. intros t.
    destruct (Z.ltb_spec t r1), (Z.ltb_spec t r2), (Z.ltb_spec t (now + Z.min (Z.max 0 (r1 - now)) (Z.max 0 (r2 - now))));
      simpl; try reflexivity; lia.
Qed.

(** X9. [getMinWaitTimeForFamily] is exact. The wait it returns is not
    negative; while the clock is before [now + wait] every pooled account
    is rate-limited for the family; and, for a pool that is not empty, at
    [now + wait] some pooled account is not. In particular the wait is
    zero exactly when an account is available now or the pool is empty. *)
Theorem getMinWaitTimeForFamily_exact now family m :
  let wait := fst (getMinWaitTimeForFamily now family m) in
  0 <= wait
  /\ (forall t a, now <= t < now + wait -> In a (accounts m) ->
        isRateLimitedForFamily t a family = true)
  /\ (accounts m <> [] ->
      exists a, In a (accounts m) /\ isRateLimitedForFamily (now + wait) a family = false).
Proof.
  intros wait. subst wait. unfold getMinWaitTimeForFamily.
  set (pool := map (clearExpiredRateLimits now) (accounts m)).
  set (available := List.filter _ pool).
  destruct (0 <? length available)%nat eqn:E.
  - simpl. split; [lia|]. split; [intros t a Ht; lia|]. intros _.
    apply Nat.ltb_lt in E.
    destruct available as [|a' rest] eqn:Ea; [simpl in E; lia|].
    assert (In a' available) as Hin by (rewrite Ea; left; reflexivity).
    unfold available in Hin. apply filter_In in Hin. destruct Hin as [Hin Hfree].
    apply in_map_iff in Hin. destruct Hin as (a0 & <- & Hin0).
    exists a0. split; [exact Hin0|].
    rewrite limited_clearExpired in Hfree. apply negb_true_iff in Hfree.
    rewrite Z.add_0_r. exact Hfree.
  - apply Nat.ltb_ge in E.
    assert (available = []) as Hnil by (destruct available; [reflexivity|simpl in E; lia]).
    assert (forall a, In a (accounts m) ->
              exists d, accountWait now family (clearExpiredRateLimits now a) = Some d
                        /\ 0 < d
                        /\ forall t, now <= t ->
                             isRateLimitedForFamily t a family = (t <? now + d)) as Hall.
    { intros a Hin.
      assert (isRateLimitedForFamily now (clearExpiredRateLimits now a) family = true) as Hlim.
      { apply negb_false_iff.
        apply (filter_nil_all _ pool (clearExpiredRateLimits now a) Hnil).
        apply in_map. exact Hin. }
      destruct (accountWait_limited _ _ _ Hlim) as (d & Hd & Hpos & Ht).
      exists d. split; [exact Hd|]. split; [exact Hpos|].
      intros t Hle. rewrite <- (limited_pruned now t a family Hle). apply Ht. }
    destruct (omap (accountWait now family) pool) as [|w ws] eqn:Ew.
    + simpl. split; [lia|]. split; [intros t a Ht; lia|].
      intros Hne. exfalso.
      destruct (accounts m) as [|a rest] eqn:Eacc; [congruence|].
      destruct (Hall a (or_introl eq_refl)) as (d & Hd & _).
      assert (d ∈ omap (accountWait now family) pool) as Hin.
      { apply list_elem_of_omap. exists (clearExpiredRateLimits now a).
        split; [|exact Hd]. unfold pool. simpl. left. }
      rewrite Ew in Hin. inversion Hin.
    + simpl.
      assert (forall d, In d (w :: ws) -> 0 < d) as Hpos.
      { intros d Hin. rewrite <- Ew in Hin. apply list_elem_of_In in Hin.
        apply list_elem_of_omap in Hin. destruct Hin as (a' & Hin' & Hd).
        apply list_elem_of_In in Hin'. unfold pool in Hin'.
        apply in_map_iff in Hin'. destruct Hin' as (a0 & <- & Hin0).
        destruct (Hall a0 Hin0) as (d' & Hd' & Hp & _). congruence. }
      split; [pose proof (Hpos _ (minimum_in w ws)); lia|]. split.
      * intros t a Ht Hin.
        destruct (Hall a Hin) as (d & Hd & _ & Hlim).
        rewrite (Hlim t) by lia. apply Z.ltb_lt.
        assert (minimum w ws <= d); [|lia].
        apply minimum_le. rewrite <- Ew. apply list_elem_of_In.
        apply list_elem_of_omap. exists (clearExpiredRateLimits now a).
        split; [|exact Hd]. apply list_elem_of_In. unfold pool. apply in_map. exact Hin.
      * intros _.
        pose proof (minimum_in w ws) as Hmin. rewrite <- Ew in Hmin.
        apply list_elem_of_In, list_elem_of_omap in Hmin.
        destruct Hmin as (a' & Hin' & Hd).
        apply list_elem_of_In in Hin'. unfold pool in Hin'.
        apply in_map_iff in Hin'. destruct Hin' as (a0 & <- & Hin0).
        exists a0. split; [exact Hin0|].
        destruct (Hall a0 Hin0) as (d & Hd' & Hp & Hlim).
        assert (d = minimum w ws) as -> by congruence.
        rewrite Hlim by lia. apply Z.ltb_ge. lia.
Qed.

(** *** Persistence *)

Lemma nonEmptyLimits_default r : default noRateLimits (nonEmptyLimits r) = r.
Proof. destruct r as [[c|] [ga|] [gc|]]; reflexivity. Qed.

Lemma clamp_id v fallback : 0 <= v -> clampNonNegativeInt (Some v) fallback = v.
Proof.
  intros Hv. unfold clampNonNegativeInt.
  destruct (v <? 0) eqn:E; [apply Z.ltb_lt in E; lia|reflexivity].
Qed.

(** X10. Saving and loading again restores the pool. For a consistent
    manager with at least one account, whose accounts have a refresh token
    and non-negative [addedAt] and [lastUsed], the manager constructed from
    what [saveToDisk] writes (read back through [loadAccounts]) has the
    same accounts in the same order, except that the access token and its
    expiry come from the fallback credential; each family's index is the
    saved one, [-1] becoming [0]; and the cursor is not restored: it is
    the claude index. *)
Theorem save_then_load_restores_pool now now' authFallback m :
  consistent m ->
  accounts m <> [] ->
  (forall a, In a (accounts m) ->
     refreshToken (parts a) <> "" /\ 0 <= addedAt a /\ 0 <= lastUsed a) ->
  let m' := construct now' authFallback (loadAccounts now (Some (DataV3 (toStorage m)))) in
  accounts m' = map (reloaded authFallback) (accounts m)
  /\ currentClaude m' = Z.max 0 (currentClaude m)
  /\ currentGemini m' = Z.max 0 (currentGemini m)
  /\ cursor m' = Z.max 0 (currentClaude m).
Proof.
  intros (Hw & Hc & Hcl & Hge) Hne Hacc m'.
  unfold familyIndexOk in Hcl, Hge. simpl in Hcl, Hge.
  set (n := length (accounts m)) in *.
  assert (0 < n)%nat as Hn.
  { unfold n. destruct (accounts m); [congruence|simpl; lia]. }
  set (entry := fun a : ManagedAccount =>
                  V3.mk (email a) (refreshToken (parts a)) (projectId (parts a))
                        (managedProjectId (parts a)) (addedAt a) (lastUsed a)
                        (lastSwitchReason a) (nonEmptyLimits (rateLimitResetTimes a))).
  assert (loadAccounts now (Some (DataV3 (toStorage m))) = Some (toStorage m)) as Hload.
  { unfold loadAccounts, normalizeActiveIndex, toStorage.
    cbn [V3.activeIndex V3.accounts]. rewrite length_map. fold n.
    destruct (Z.ltb_spec (Z.max 0 (currentClaude m)) 0); [lia|].
    destruct (Z.geb_spec (Z.max 0 (currentClaude m)) (Z.of_nat n)); [lia|].
    reflexivity. }
  assert (omap id (imap (fromStored now' authFallback) (map entry (accounts m)))
          = map (reloaded authFallback) (accounts m)) as Hpool.
  { rewrite imap_fmap.
    rewrite (omap_imap_total _ (fun _ a => reloaded authFallback a)).
    - apply list_eq. intros i. rewrite list_lookup_imap, list_lookup_fmap. reflexivity.
    - intros j a Hj.
      destruct (Hacc a) as (Htok & Had & Hlu).
      { apply list_elem_of_In, list_elem_of_lookup. eauto. }
      unfold compose, fromStored, entry, reloaded, setAuth.
      cbn [V3.refreshToken V3.email V3.addedAt V3.lastUsed V3.projectId
           V3.managedProjectId V3.rateLimitResetTimes V3.lastSwitchReason].
      apply nonEmpty_true in Htok. rewrite Htok. cbn [negb].
      rewrite (clamp_id _ _ Had), (clamp_id _ _ Hlu), nonEmptyLimits_default.
      rewrite <- (Hw j a Hj).
      destruct a as [i e ad lu [tok pid mpid] ac ex r ls]. reflexivity. }
  subst m'. rewrite Hload. unfold construct, toStorage.
  cbn [V3.accounts V3.activeIndex V3.activeIndexByFamily].
  fold entry. rewrite length_map. fold n.
  destruct (n =? 0)%nat eqn:E0; [apply Nat.eqb_eq in E0; lia|].
  rewrite Hpool, length_map. fold n.
  destruct (0 <? n)%nat eqn:E1; [|apply Nat.ltb_ge in E1; lia].
  cbn [accounts cursor currentClaude currentGemini mbind option_bind fst snd].
  repeat (rewrite ?clamp_id by lia; rewrite ?Z.rem_small by lia).
  auto.
Qed.

Lemma save_then_load_restores_pool_witness :
  let m := mkManager [sampleAccount 0 noRateLimits;
                      sampleAccount 1 (mkRateLimits (Some 900) None None)] 7 1 (-1) in
  let m' := construct 2000 None (loadAccounts 1000 (Some (DataV3 (toStorage m)))) in
  accounts m' = map (reloaded None) (accounts m)
  /\ currentClaude m' = 1 /\ currentGemini m' = 0 /\ cursor m' = 1.
Proof.
  intros m.
  apply (save_then_load_restores_pool 1000 2000 None m).
  - unfold consistent, familyIndexOk. simpl. repeat split; try lia.
    intros [|[|i]] a; simpl; intros [= <-]; reflexivity.
  - discriminate.
  - simpl. intros a [<-|[<-|[]]]; simpl; repeat split; (discriminate || lia).
Defined.

(** *** Credentials *)

(** X11. The packed refresh string round-trips. For an account whose parts
    are canonical (no field holds the separator [|], an optional field
    that is present is not empty), [toAuthDetails] followed by
    [updateFromAuth] gives the account back: [parseRefreshParts] undoes
    [formatRefreshParts]. *)
Theorem auth_details_round_trip account :
  Auth.canonical (parts account) = true ->
  Auth.parseRefreshParts (Some (Auth.formatRefreshParts (parts account))) = parts account
  /\ updateFromAuth account (toAuthDetails account) = account.
Proof.
  intros Hc.
  pose proof (AuthFacts.parse_format (parts account) Hc) as Hp.
  split; [exact Hp|].
  unfold updateFromAuth, toAuthDetails, setAuth. cbn [Auth.refresh Auth.access Auth.expires].
  rewrite Hp. destruct account; reflexivity.
Qed.

Lemma auth_details_round_trip_witness :
  let account := mkAccount 0 None 0 0 (mkParts "1//refresh" None (Some "managed-project"))
                           (Some "ya29.token") (Some 3600000) noRateLimits None in
  Auth.formatRefreshParts (parts account) = "1//refresh||managed-project"
  /\ updateFromAuth account (toAuthDetails account) = account.
Proof.
  intros account. split; [reflexivity|].
  apply (auth_details_round_trip account). reflexivity.
Defined.

End PoolFacts.

(* ===================================================================== *)
(** * Facts: proactive token refresh                                      *)
(* ===================================================================== *)

Module RefreshQueueFacts.

Import Accounts Pool RefreshQueue.

(** X12. The refresh queue and the request path leave no gap. For a pooled
    account with an expiry that is not [0], [getAccountsNeedingRefresh]
    selects it exactly while the expiry is in the future and within the
    buffer. An account the queue skips as already expired is expired for
    [accessTokenExpired], so the request path refreshes it; and with a
    buffer of at least 60 seconds, an account with an access token that
    [accessTokenExpired] reports is either skipped as expired or
    selected. *)
Theorem proactive_refresh_leaves_no_gap now config manager account e :
  In account (accounts manager) -> expires account = Some e -> e <> 0 ->
  (In account (getAccountsNeedingRefresh now config (Some manager))
   <-> now < e <= now + bufferSeconds config * 1000)
  /\ (isExpired now account = true ->
      Auth.accessTokenExpired now (toAuthDetails account) = true)
  /\ (60 <= bufferSeconds config ->
      forall token, access account = Some token -> JS.nonEmpty token = true ->
      Auth.accessTokenExpired now (toAuthDetails account) = true ->
      isExpired now account = true
      \/ In account (getAccountsNeedingRefresh now config (Some manager))).
Proof.
  intros Hin He Hne.
  assert (noExpiry account = false) as Hno.
  { unfold noExpiry. rewrite He. apply Z.eqb_neq. exact Hne. }
  assert (In account (getAccountsNeedingRefresh now config (Some manager))
          <-> now < e <= now + bufferSeconds config * 1000) as Hsel.
  { unfold getAccountsNeedingRefresh. rewrite List.filter_In.
    unfold isExpired, needsRefresh. rewrite Hno, He.
    destruct (e <=? now) eqn:E1.
    - apply Z.leb_le in E1. split; [intros [_ H]; discriminate|lia].
    - apply Z.leb_gt in E1. rewrite Z.leb_le. split; [intros [_ H]; lia|].
      intros H. split; [exact Hin|lia]. }
  split; [exact Hsel|]. split.
  - unfold isExpired, Auth.accessTokenExpired, toAuthDetails.
    cbn [Auth.access Auth.expires]. rewrite Hno, He. intros H. apply Z.leb_le in H.
    destruct (access account) as [token|]; [|reflexivity].
    destruct (JS.nonEmpty token); [|reflexivity].
    apply Z.leb_le. unfold Auth.ACCESS_TOKEN_EXPIRY_BUFFER_MS. lia.
  - intros Hbuf token Ht Htok. unfold Auth.accessTokenExpired, toAuthDetails.
    cbn [Auth.access Auth.expires]. rewrite Ht, He, Htok. intros H. apply Z.leb_le in H.
    unfold Auth.ACCESS_TOKEN_EXPIRY_BUFFER_MS in H.
    destruct (Z_le_gt_dec e now) as [Hle|Hgt].
    + left. unfold isExpired. rewrite Hno, He. apply Z.leb_le. exact Hle.
    + right. apply Hsel. lia.
Qed.

Lemma proactive_refresh_leaves_no_gap_witness :
  let account := mkAccount 0 None 0 0 (mkParts "1//refresh" None None)
                           (Some "ya29.token") (Some 2000000) noRateLimits None in
  let manager := mkManager [account] 0 0 0 in
  In account (getAccountsNeedingRefresh 1000000 DEFAULT_PROACTIVE_REFRESH_CONFIG
                (Some manager))
  <-> 1000000 < 2000000 <= 1000000 + 1800 * 1000.
Proof.
  intros account manager.
  apply (proactive_refresh_leaves_no_gap 1000000 DEFAULT_PROACTIVE_REFRESH_CONFIG
           manager account 2000000).
  - left. reflexivity.
  - reflexivity.
  - discriminate.
Defined.

End RefreshQueueFacts.

Module ThinkingCacheFacts.

Import JS JSFacts SignatureCache SignatureCacheFacts ThinkingCache.

Lemma storeThinking_entry now key thinking signature toolIds c :
  enabled c = true -> thinking <> "" -> signature <> "" ->
  let c1 := storeThinking now key thinking signature toolIds c in
  enabled c1 = true /\ memoryTtlMs c1 = memoryTtlMs c
  /\ cache c1 !! key = Some (mkEntry signature now (Some thinking) toolIds).
Proof.
  intros Hen Ht Hs. apply nonEmpty_true in Ht, Hs.
  unfold storeThinking. rewrite Hen, Ht, Hs. simpl.
  repeat split; auto. apply lookup_insert_eq.
Qed.

(** X13. Thinking content round trip. In an enabled cache, thinking text
    stored with its signature and tool ids is returned unchanged by
    [retrieveThinking] while the entry is at most [memory_ttl] old, and
    the plain [retrieve] of the key returns the signature. Once the entry
    is older, [retrieveThinking] returns null and evicts it. A later
    [store] under the same key replaces the entry: its thinking content is
    gone, whatever the clock. *)
Theorem thinking_round_trip t0 key thinking sig toolIds c :
  enabled c = true -> thinking <> "" -> sig <> "" ->
  let c1 := storeThinking t0 key thinking sig toolIds c in
  (forall t1, t1 - t0 <= memoryTtlMs c ->
     fst (retrieveThinking t1 key c1) = Some (mkData thinking sig toolIds)
     /\ hasThinking t1 key c1 = true
     /\ fst (retrieve t1 key c1) = Some sig)
  /\ (forall t1, memoryTtlMs c < t1 - t0 ->
        fst (retrieveThinking t1 key c1) = None
        /\ hasThinking t1 key c1 = false
        /\ cache (snd (retrieveThinking t1 key c1)) !! key = None)
  /\ (forall t1 t2 sig',
        let c2 := store t1 key sig' c1 in
        fst (retrieveThinking t2 key c2) = None
        /\ hasThinking t2 key c2 = false
        /\ (t2 - t1 <= memoryTtlMs c -> fst (retrieve t2 key c2) = Some sig')).
Proof.
  intros Hen Ht Hs c1.
  destruct (storeThinking_entry t0 key thinking sig toolIds c Hen Ht Hs) as (Hen1 & Httl & Hk).
  fold c1 in Hen1, Httl, Hk.
  assert (thinkingOf (mkEntry sig t0 (Some thinking) toolIds) = Some thinking) as Hth.
  { unfold thinkingOf. simpl. apply nonEmpty_true in Ht. rewrite Ht. reflexivity. }
  split; [|split].
  - intros t1 Hage.
    unfold retrieveThinking, hasThinking, retrieve. rewrite Hen1, Hk, Hth, Httl. simpl.
    destruct (Z.gtb_spec (t1 - t0) (memoryTtlMs c)); [lia|].
    destruct (Z.leb_spec (t1 - t0) (memoryTtlMs c)); [|lia].
    auto.
  - intros t1 Hage.
    unfold retrieveThinking, hasThinking. rewrite Hen1, Hk, Hth, Httl. simpl.
    destruct (Z.gtb_spec (t1 - t0) (memoryTtlMs c)); [|lia].
    destruct (Z.leb_spec (t1 - t0) (memoryTtlMs c)); [lia|].
    simpl. repeat split. apply lookup_delete_eq.
  - intros t1 t2 sig' c2.
    assert (enabled c2 = true /\ memoryTtlMs c2 = memoryTtlMs c
            /\ cache c2 !! key = Some (mkEntry sig' t1 None None)) as (Hen2 & Httl2 & Hk2).
    { unfold c2, store. rewrite Hen1. simpl. repeat split; auto. apply lookup_insert_eq. }
    unfold retrieveThinking, hasThinking, retrieve. rewrite Hen2, Hk2, Httl2. simpl.
    repeat split. intros Hage.
    destruct (Z.leb_spec (t2 - t1) (memoryTtlMs c)); [reflexivity|lia].
Qed.

Lemma thinking_round_trip_witness :
  let c1 := storeThinking 0 "k" "Let me think." "c2lnbmF0dXJl" (Some ["call-1"]) sampleCache in
  fst (retrieveThinking 900 "k" c1)
    = Some (mkData "Let me think." "c2lnbmF0dXJl" (Some ["call-1"]))
  /\ fst (retrieveThinking 950 "k" (store 900 "k" "other" c1)) = None.
Proof.
  intros c1.
  destruct (thinking_round_trip 0 "k" "Let me think." "c2lnbmF0dXJl" (Some ["call-1"]) sampleCache
              eq_refl ltac:(discriminate) ltac:(discriminate)) as (H1 & _ & H3).
  split.
  - apply (H1 900). vm_compute. discriminate.
  - apply (H3 900 950 "other").
Defined.

Lemma create_entries_plain now cfg disk key e :
  cache (create now cfg disk) !! key = Some e -> exists e0, e = plain e0.
Proof.
  unfold create.
  assert (forall c, cache c = ∅ -> cache (loadFromDisk now c disk) !! key = Some e ->
                    exists e0, e = plain e0) as Hload.
  { intros c Hc. unfold loadFromDisk.
    destruct disk as [f|]; [|rewrite Hc, lookup_empty; discriminate].
    destruct (String.eqb _ _); [|rewrite Hc, lookup_empty; discriminate].
    simpl. rewrite Hc, map_union_empty, lookup_fmap.
    destruct (filter _ _ !! key) as [e0|]; [|discriminate].
    simpl. intros [= <-]. exists e0. reflexivity. }
  destruct (cfg_enabled cfg).
  - apply Hload. reflexivity.
  - simpl. rewrite lookup_empty. discriminate.
Qed.

(** X14. Thinking content does not survive a restart. A cache object
    created from any cache file holds [{ value, timestamp }] entries only:
    [retrieveThinking] returns null and [hasThinking] false for every key,
    at any time. So after thinking text has been stored, saved and the
    cache re-created from the file within [disk_ttl], the entry is back
    with its signature and original timestamp, and without its text. *)
Theorem thinking_is_not_persisted :
  (forall now cfg disk t key,
     fst (retrieveThinking t key (create now cfg disk)) = None
     /\ hasThinking t key (create now cfg disk) = false)
  /\ (forall t0 tf t1 key thinking sig toolIds c disk cfg,
        enabled c = true -> thinking <> "" -> sig <> "" ->
        cfg_enabled cfg = true -> t1 - t0 <= disk_ttl_seconds cfg * 1000 ->
        let c1 := storeThinking t0 key thinking sig toolIds c in
        let c3 := create t1 cfg (snd (saveToDisk tf true c1 disk)) in
        cache c1 !! key = Some (mkEntry sig t0 (Some thinking) toolIds)
        /\ cache c3 !! key = Some (mkEntry sig t0 None None)).
Proof.
  split.
  - intros now cfg disk t key.
    unfold retrieveThinking, hasThinking.
    destruct (enabled (create now cfg disk)); [|auto].
    destruct (cache (create now cfg disk) !! key) as [e|] eqn:E; [|auto].
    destruct (create_entries_plain _ _ _ _ _ E) as [e0 ->].
    auto.
  - intros t0 tf t1 key thinking sig toolIds c disk cfg Hen Ht Hs Hcfg Hage c1 c3.
    destruct (storeThinking_entry t0 key thinking sig toolIds c Hen Ht Hs) as (_ & _ & Hk).
    fold c1 in Hk. split; [exact Hk|].
    unfold c3, create. rewrite Hcfg.
    apply (load_restores_entry t1 _ _ key (mkEntry sig t0 None None)).
    + reflexivity.
    + unfold saveToDisk. simpl. apply lookup_union_Some_l.
      rewrite lookup_fmap, Hk. reflexivity.
    + simpl. exact Hage.
Qed.

Lemma cleanup_lookup now c key :
  cache (cleanupExpired now c) !! key =
  match cache c !! key with
  | Some e => if decide (now - timestamp e <= memoryTtlMs c) then Some e else None
  | None => None
  end.
Proof.
  unfold cleanupExpired. simpl.
  destruct (cache c !! key) as [e|] eqn:E.
  - destruct (decide _) as [Hy|Hn].
    + apply map_lookup_filter_Some. split; [exact E|exact Hy].
    + apply map_lookup_filter_None. right. intros e' He'. rewrite E in He'.
      injection He' as <-. exact Hn.
  - apply map_lookup_filter_None. left. exact E.
Qed.

(** X15. [cleanupExpired] is not observable by lookups. The entries it
    leaves are entries of the cache that are at most [memory_ttl] old, and
    at the time of the cleanup or later [retrieve], [has],
    [retrieveThinking] and [hasThinking] answer for every key as they
    would have without it. *)
Theorem cleanupExpired_is_unobservable now now' key c :
  now <= now' ->
  let c' := cleanupExpired now c in
  (forall k e, cache c' !! k = Some e ->
     cache c !! k = Some e /\ now - timestamp e <= memoryTtlMs c)
  /\ fst (retrieve now' key c') = fst (retrieve now' key c)
  /\ has now' key c' = has now' key c
  /\ fst (retrieveThinking now' key c') = fst (retrieveThinking now' key c)
  /\ hasThinking now' key c' = hasThinking now' key c.
Proof.
  intros Hle c'. split.
  - intros k e. unfold c'. rewrite cleanup_lookup.
    destruct (cache c !! k) as [e0|]; [|discriminate].
    destruct (decide _); [|discriminate]. intros [= <-]. auto.
  - unfold retrieve, has, retrieveThinking, hasThinking.
    assert (enabled c' = enabled c) as -> by reflexivity.
    assert (memoryTtlMs c' = memoryTtlMs c) as -> by reflexivity.
    unfold c'. rewrite cleanup_lookup.
    destruct (enabled c); [|auto].
    destruct (cache c !! key) as [e|]; [|auto].
    destruct (decide _) as [Hy|Hn].
    { destruct (now' - timestamp e <=? memoryTtlMs c), (thinkingOf e),
               (now' - timestamp e >? memoryTtlMs c); simpl; auto. }
    destruct (Z.leb_spec (now' - timestamp e) (memoryTtlMs c)); [lia|].
    destruct (Z.gtb_spec (now' - timestamp e) (memoryTtlMs c)); [|lia].
    destruct (thinkingOf e); simpl; auto.
Qed.

Lemma cleanupExpired_is_unobservable_witness :
  let c := store 0 "old" "s1" sampleCache in
  fst (retrieve 5000 "old" (cleanupExpired 3000 c)) = fst (retrieve 5000 "old" c).
Proof.
  intros c.
  destruct (cleanupExpired_is_unobservable 3000 5000 "old" c ltac:(lia)) as (_ & H & _).
  exact H.
Defined.

(** X16. What [saveToDisk] leaves in the file. A successful save clears the
    dirty flag, leaves the memory as it is and writes a version 1.0 file
    in which a key holds the [{ value, timestamp }] projection of its
    memory entry when it has one, else its previous file entry when that
    is at most [disk_ttl] old, else nothing. A failed save returns [false]
    and leaves the cache object as it is, dirty flag and counters
    included; the file is as it was when the failure came before the file
    was opened for writing, and otherwise it no longer parses or holds the
    new content. *)
Theorem saveToDisk_merges now c disk :
  exists f,
    saveToDiskIo now IoWritten c disk
    = (true, withDirty false (withStats (wrote (stats c)) c), Some f)
    /\ saveToDisk now true c disk = saveToDiskIo now IoWritten c disk
    /\ version f = "1.0"
    /\ (forall key,
          entries f !! key =
          match cache c !! key with
          | Some e => Some (mkEntry (value e) (timestamp e) None None)
          | None =>
              match disk ≫= (fun f0 => entries f0 !! key) with
              | Some e => if decide (now - timestamp e <= diskTtlMs c) then Some e else None
              | None => None
              end
          end)
    /\ saveToDiskIo now (IoFails Untouched) c disk = (false, c, disk)
    /\ saveToDisk now false c disk = saveToDiskIo now (IoFails Untouched) c disk
    /\ saveToDiskIo now (IoFails Unreadable) c disk = (false, c, None)
    /\ saveToDiskIo now (IoFails Complete) c disk = (false, c, Some f).
Proof.
  unfold saveToDiskIo, saveToDisk. eexists.
  split; [reflexivity|]. split; [reflexivity|]. split; [reflexivity|].
  split; [|split; [reflexivity|split; [reflexivity|split; reflexivity]]].
  intros key. simpl.
  destruct (cache c !! key) as [e|] eqn:E.
  - apply lookup_union_Some_l. rewrite lookup_fmap, E. reflexivity.
  - rewrite lookup_union_r by (rewrite lookup_fmap, E; reflexivity).
    destruct disk as [f0|]; simpl.
    + destruct (entries f0 !! key) as [e|] eqn:E0.
      * destruct (decide _) as [Hy|Hn].
        -- apply map_lookup_filter_Some. split; [exact E0|exact Hy].
        -- apply map_lookup_filter_None. right. intros e' He'. rewrite E0 in He'.
           injection He' as <-. exact Hn.
      * apply map_lookup_filter_None. left. exact E0.
    + apply map_lookup_filter_None. left. apply lookup_empty.
Qed.

(** *** Counters over a trace *)


Lemma applyOp_counters c disk now op :
  let w := applyOp (c, disk, now) op in
  enabled (cacheOf w) = enabled c
  /\ memoryTtlMs (cacheOf w) = memoryTtlMs c
  /\ diskTtlMs (cacheOf w) = diskTtlMs c
  /\ diskHits (stats (cacheOf w)) = diskHits (stats c)
  /\ (enabled c = false -> cacheOf w = c /\ diskOf w = disk)
  /\ (enabled c = true ->
      forall rest,
        writes (stats (cacheOf w)) + writesOf (dirty (cacheOf w)) rest
        = writes (stats c) + writesOf (dirty c) (op :: rest)).
Proof.
  destruct op as [key sig|key th sig ids|key|key|ioOk|ioOk| |dt]; unfold cacheOf, diskOf; simpl.
  - unfold store. destruct (enabled c) eqn:E; simpl; repeat split; auto; congruence.
  - unfold storeThinking. destruct (enabled c) eqn:E; simpl.
    + destruct (nonEmpty th), (nonEmpty sig); simpl; rewrite ?orb_true_r, ?orb_false_r;
        repeat split; auto; congruence.
    + repeat split; auto; congruence.
  - unfold retrieve. destruct (enabled c) eqn:E; simpl.
    + destruct (cache c !! key) as [e|]; [destruct (_ <=? _)|]; simpl;
        repeat split; auto; congruence.
    + repeat split; auto; congruence.
  - unfold retrieveThinking. destruct (enabled c) eqn:E; simpl.
    + destruct (cache c !! key) as [e|]; [destruct (thinkingOf e); [destruct (_ >? _)|]|];
        simpl; repeat split; auto; congruence.
    + repeat split; auto; congruence.
  - unfold flush, saveToDisk. destruct (enabled c) eqn:E; simpl.
    + destruct ioOk; simpl; repeat split; auto; try congruence.
      intros _ rest. lia.
    + repeat split; auto; congruence.
  - unfold saveToDisk. destruct (enabled c) eqn:E; simpl.
    + destruct (dirty c) eqn:D; simpl.
      * destruct ioOk; simpl; rewrite ?E, ?D; repeat split; auto; try congruence.
        intros _ rest. lia.
      * destruct ioOk; rewrite ?E; repeat split; auto; congruence.
    + repeat split; auto; congruence.
  - destruct (enabled c) eqn:E; simpl; repeat split; auto; congruence.
  - repeat split; auto.
Qed.

(** X17. The counters of the cache over any trace of calls. The cache never
    changes its configuration and never counts a disk hit. A disabled
    cache is inert: the cache object and the file stay as they are. In an
    enabled cache [stats.writes] grows by the number of saves that reached
    the file: every successful [flush], and every successful periodic
    write that found the cache dirty. *)
Theorem cache_counters_over_trace ops c disk now :
  let w := runOps ops (c, disk, now) in
  enabled (cacheOf w) = enabled c
  /\ memoryTtlMs (cacheOf w) = memoryTtlMs c
  /\ diskTtlMs (cacheOf w) = diskTtlMs c
  /\ diskHits (stats (cacheOf w)) = diskHits (stats c)
  /\ (enabled c = false -> cacheOf w = c /\ diskOf w = disk)
  /\ (enabled c = true ->
      writes (stats (cacheOf w)) = writes (stats c) + writesOf (dirty c) ops).
Proof.
  unfold runOps. revert c disk now.
  induction ops as [|op ops IH]; intros c disk now.
  - simpl. unfold cacheOf, diskOf. simpl. repeat split; auto. intros _. lia.
  - cbn [foldl].
    pose proof (applyOp_counters c disk now op) as H. cbv zeta in H.
    destruct (applyOp (c, disk, now) op) as [[c1 disk1] now1].
    unfold cacheOf, diskOf in H. cbn [fst snd] in H.
    destruct H as (He & Hm & Hd & Hh & Hoff & Hon).
    specialize (IH c1 disk1 now1). cbv zeta in IH.
    destruct IH as (He' & Hm' & Hd' & Hh' & Hoff' & Hon').
    split; [congruence|]. split; [congruence|]. split; [congruence|].
    split; [congruence|]. split.
    + intros Hdis. destruct (Hoff Hdis) as [-> ->]. apply (Hoff' Hdis).
    + intros Hen. rewrite Hon' by congruence. apply Hon. exact Hen.
Qed.

End ThinkingCacheFacts.

Module TurnsFacts.

Import JS JSFacts Request RequestFacts ObjectFacts Turns.

(** *** The session key across turns *)

Lemma seed_of_longer_conversation contents extra :
  firstUserText contents <> "" ->
  extractConversationSeedFromContents (contents ++ extra)
  = extractConversationSeedFromContents contents.
Proof.
  unfold firstUserText, extractConversationSeedFromContents.
  rewrite List.filter_app.
  destruct (List.filter (hasRole "user") contents) as [|c users]; simpl; [congruence|].
  intros Hne. apply nonEmpty_true in Hne. rewrite Hne. reflexivity.
Qed.

(** X18. The session key is stable across the turns of a conversation. When
    the first user turn of [contents] has text, appending further turns
    to [contents] changes neither the conversation key nor the signature
    session key computed for the request. *)
Theorem session_key_is_stable_across_turns sessionId model projectId payload contents extra :
  assoc "contents" payload = Some (JArr contents) ->
  firstUserText contents <> "" ->
  resolveConversationKey (JObj (laterTurn extra payload)) = resolveConversationKey (JObj payload)
  /\ sessionKeyOf sessionId model projectId (JObj (laterTurn extra payload))
     = sessionKeyOf sessionId model projectId (JObj payload).
Proof.
  intros Hc Hfirst.
  assert (resolveConversationKey (JObj (laterTurn extra payload))
          = resolveConversationKey (JObj payload)) as Hkey.
  { unfold laterTurn. rewrite Hc.
    unfold resolveConversationKey, candidateFields, conversationSeed.
    rewrite !get_setField_ne by discriminate.
    destruct (firstNonBlank _); [reflexivity|].
    destruct (get "messages" (JObj payload)) as [[| | | |messages|]|];
      try reflexivity;
      simpl get; rewrite assoc_setField_eq, Hc, (seed_of_longer_conversation _ _ Hfirst);
      reflexivity. }
  split; [exact Hkey|]. unfold sessionKeyOf. rewrite Hkey. reflexivity.
Qed.

Lemma session_key_is_stable_across_turns_witness :
  let payload := [("contents", JArr [turn "user" [textPart "read a.txt"]])] in
  let extra := [turn "model" [fnCall "read_file" None]; turn "user" [fnResponse "read_file" None]] in
  sessionKeyOf "-session" "claude-sonnet-4-5-thinking" None (JObj (laterTurn extra payload))
  = sessionKeyOf "-session" "claude-sonnet-4-5-thinking" None (JObj payload).
Proof.
  intros payload extra.
  apply (session_key_is_stable_across_turns "-session" "claude-sonnet-4-5-thinking" None
           payload [turn "user" [textPart "read a.txt"]] extra eq_refl).
  vm_compute. discriminate.
Defined.

(** *** What the injection step keeps *)

Lemma filter_others_of_leading (P : JSON -> bool) (front back : list JSON) :
  Forall (fun x => P x = true) front ->
  others P (front ++ others P back) = others P back
  /\ leads P (front ++ others P back).
Proof.
  intros Hfront. split.
  - unfold others. rewrite List.filter_app.
    assert (List.filter (fun x => negb (P x)) front = []) as ->.
    { induction Hfront as [|x l Hx _ IH]; simpl; [reflexivity|]. rewrite Hx. exact IH. }
    simpl. induction back as [|x l IH]; simpl; [reflexivity|].
    destruct (P x) eqn:E; simpl; [exact IH|]. rewrite E. simpl. rewrite IH. reflexivity.
  - exists (length front). rewrite take_app_length, drop_app_length. split; [exact Hfront|].
    unfold others. apply Forall_forall. intros x Hx.
    apply list_elem_of_In, filter_In in Hx. destruct Hx as [_ Hx].
    apply negb_true_iff in Hx. exact Hx.
Qed.

Section Injection.

Variable getCachedSignature : string -> string -> option string.
Variable lastSigned : gmap string LastThinking.
Variable key : string.

Lemma ensureThoughtSignature_thinking p :
  isGeminiThinkingPart (ensureThoughtSignature getCachedSignature p key)
  = isGeminiThinkingPart p.
Proof.
  destruct p as [| | | |items|fields]; try reflexivity.
  unfold ensureThoughtSignature. cbn [isObject].
  destruct (nonEmpty _); [|reflexivity].
  assert (forall k c, k = "thoughtSignature" \/ k = "signature" ->
            isGeminiThinkingPart (JObj (setField k (JStr c) (spread (JObj fields))))
            = isGeminiThinkingPart (JObj fields)) as Hset.
  { intros k c Hk. unfold isGeminiThinkingPart. simpl.
    rewrite !assoc_setField_ne by (destruct Hk as [-> | ->]; discriminate).
    reflexivity. }
  destruct (isTrue (get "thought" (JObj fields))).
  - destruct (negb _); [|reflexivity]. destruct (cachedFor _ _ _); [|reflexivity].
    apply Hset. auto.
  - destruct (_ && _); [|reflexivity]. destruct (cachedFor _ _ _); [|reflexivity].
    apply Hset. auto.
Qed.

Lemma ensureMessageThinkingSignature_thinking b :
  isThinkingBlock (ensureMessageThinkingSignature getCachedSignature b key)
  = isThinkingBlock b.
Proof.
  destruct b as [| | | |items|fields]; try reflexivity.
  unfold ensureMessageThinkingSignature.
  destruct (isThinkingBlock (JObj fields)) eqn:Hb; [|exact Hb].
  destruct (longString _); [exact Hb|].
  destruct (nonEmpty _); [|exact Hb]. destruct (cachedFor _ _ _); [|exact Hb].
  unfold isThinkingBlock in *. simpl in *.
  rewrite !assoc_setField_ne by discriminate. exact Hb.
Qed.

Lemma restored_all_thinking (P : JSON -> bool) (f : JSON -> JSON) (l : list JSON) :
  (forall x, P (f x) = P x) ->
  Forall (fun x => P x = true) (map f (List.filter P l)).
Proof.
  intros Hf. apply Forall_forall. intros y Hy.
  apply list_elem_of_In, in_map_iff in Hy. destruct Hy as (x & <- & Hx).
  apply filter_In in Hx. rewrite Hf. apply Hx.
Qed.

(** X19. The injection step touches thinking only. Applied to a [contents]
    conversation, [ensureThinkingBeforeToolUseInContents] returns as many
    turns with the same roles; a turn that is not a model or assistant
    turn, or holds no tool-use part, is returned as it is; and in every
    turn the parts that are not thinking parts are the same, in the same
    order, with the thinking parts of a rewritten turn in front of them.
    [ensureThinkingBeforeToolUseInMessages] does the same for the blocks
    of an Anthropic-style [messages] conversation. *)
Theorem injection_keeps_other_parts :
  (forall contents,
     let result := ensureThinkingBeforeToolUseInContents getCachedSignature lastSigned
                     contents key in
     length result = length contents
     /\ forall i content content',
          contents !! i = Some content -> result !! i = Some content' ->
          get "role" content' = get "role" content
          /\ others isGeminiThinkingPart (arrayOf "parts" content')
             = others isGeminiThinkingPart (arrayOf "parts" content)
          /\ (isAssistantRole content = false
              \/ existsb isGeminiToolUsePart (arrayOf "parts" content) = false ->
              content' = content)
          /\ (content' <> content -> leads isGeminiThinkingPart (arrayOf "parts" content')))
  /\ (forall messages,
        let result := ensureThinkingBeforeToolUseInMessages getCachedSignature lastSigned
                        messages key in
        length result = length messages
        /\ forall i message message',
             messages !! i = Some message -> result !! i = Some message' ->
             get "role" message' = get "role" message
             /\ others isThinkingBlock (arrayOf "content" message')
                = others isThinkingBlock (arrayOf "content" message)
             /\ (isStr "assistant" (get "role" message) = false
                 \/ existsb isToolBlock (arrayOf "content" message) = false ->
                 message' = message)
             /\ (message' <> message -> leads isThinkingBlock (arrayOf "content" message'))).
Proof.
  split.
  - intros contents result. subst result. unfold ensureThinkingBeforeToolUseInContents.
    split; [apply length_map|].
    intros i content content' Hi. rewrite list_lookup_fmap, Hi. simpl. intros [= <-].
    unfold arrayOf.
    destruct (get "parts" content) as [[| | | |parts|]|] eqn:Hp;
      try (rewrite ?Hp; repeat split; congruence).
    destruct (isAssistantRole content) eqn:Ha; simpl;
      [|rewrite Hp; repeat split; congruence].
    destruct (existsb isGeminiToolUsePart parts) eqn:Ht; simpl;
      [|rewrite Hp; repeat split; congruence].
    assert (forall front,
              Forall (fun x => isGeminiThinkingPart x = true) front ->
              let content' := JObj (setField "parts"
                                      (JArr (front ++ others isGeminiThinkingPart parts))
                                      (spread content)) in
              get "role" content' = get "role" content
              /\ others isGeminiThinkingPart
                   match get "parts" content' with Some (JArr items) => items | _ => [] end
                 = others isGeminiThinkingPart parts
              /\ (true = false \/ true = false -> content' = content)
              /\ (content' <> content ->
                  leads isGeminiThinkingPart
                    match get "parts" content' with Some (JArr items) => items | _ => [] end))
      as Hrewritten.
    { intros front Hfront content'. subst content'.
      destruct (filter_others_of_leading isGeminiThinkingPart front parts Hfront) as [Ho Hl].
      rewrite get_setField_eq.
      split; [|split; [exact Ho|split; [intros [H|H]; discriminate|intros _; exact Hl]]].
      destruct content; try discriminate. simpl. apply assoc_setField_ne. discriminate. }
    destruct (existsb hasSignedThinkingPart _).
    + apply Hrewritten. apply restored_all_thinking. apply ensureThoughtSignature_thinking.
    + destruct (lastSigned !! key) as [lastThinking|];
        [|rewrite Hp; repeat split; congruence].
      apply (Hrewritten [_]). repeat constructor.
  - intros messages result. subst result. unfold ensureThinkingBeforeToolUseInMessages.
    split; [apply length_map|].
    intros i message message' Hi. rewrite list_lookup_fmap, Hi. simpl. intros [= <-].
    unfold arrayOf.
    destruct (get "content" message) as [[| | | |blocks|]|] eqn:Hp;
      try (rewrite ?Hp; repeat split; congruence).
    destruct (isStr "assistant" (get "role" message)) eqn:Ha; simpl;
      [|rewrite Hp; repeat split; congruence].
    destruct (existsb isToolBlock blocks) eqn:Ht; simpl;
      [|rewrite Hp; repeat split; congruence].
    assert (forall front,
              Forall (fun x => isThinkingBlock x = true) front ->
              let message' := JObj (setField "content"
                                      (JArr (front ++ others isThinkingBlock blocks))
                                      (spread message)) in
              get "role" message' = get "role" message
              /\ others isThinkingBlock
                   match get "content" message' with Some (JArr items) => items | _ => [] end
                 = others isThinkingBlock blocks
              /\ (true = false \/ true = false -> message' = message)
              /\ (message' <> message ->
                  leads isThinkingBlock
                    match get "content" message' with Some (JArr items) => items | _ => [] end))
      as Hrewritten.
    { intros front Hfront message'. subst message'.
      destruct (filter_others_of_leading isThinkingBlock front blocks Hfront) as [Ho Hl].
      rewrite get_setField_eq.
      split; [|split; [exact Ho|split; [intros [H|H]; discriminate|intros _; exact Hl]]].
      destruct message; try discriminate. simpl. apply assoc_setField_ne. discriminate. }
    destruct (existsb (fun b => longString (get "signature" b)) _).
    + apply Hrewritten. apply restored_all_thinking.
      apply ensureMessageThinkingSignature_thinking.
    + destruct (lastSigned !! key) as [lastThinking|];
        [|rewrite Hp; repeat split; congruence].
      apply (Hrewritten [_]). repeat constructor.
Qed.

End Injection.

(** *** What a response stream records *)

Lemma recordsOnly_refl key last : recordsOnly key last last.
Proof. split; auto. Qed.

Lemma recordsOnly_insert key last0 last lt :
  recordsOnly key last0 last -> usable lt -> recordsOnly key last0 (<[key := lt]> last).
Proof.
  intros [H1 H2] Hu. split.
  - intros k Hk. rewrite lookup_insert_ne by congruence. apply H1. exact Hk.
  - intros lt'. rewrite lookup_insert_eq. intros [= <-]. right. exact Hu.
Qed.

Lemma capturePart_records key last0 index acc part :
  recordsOnly key last0 (snd (fst acc)) ->
  recordsOnly key last0 (snd (fst (capturePart key index acc part))).
Proof.
  destruct acc as [[buffer last] ok]. simpl. intros H.
  destruct ok; simpl; [|exact H].
  destruct part; try exact H;
    match goal with
    | |- context [get "thoughtSignature" ?p] =>
        destruct (get "thoughtSignature" p) as [sig|]; [|exact H];
        destruct (truthy sig) eqn:Hs; [|exact H];
        match goal with
        | |- context [nonEmpty ?t] => destruct (nonEmpty t) eqn:Ht; [|exact H]
        end;
        simpl; apply recordsOnly_insert; [exact H|];
        split; [apply nonEmpty_true; exact Ht|exact Hs]
    end.
Qed.

Lemma captureParts_records key last0 index parts acc :
  recordsOnly key last0 (snd (fst acc)) ->
  recordsOnly key last0 (snd (fst (foldl (capturePart key index) acc parts))).
Proof.
  revert acc. induction parts as [|p parts IH]; intros acc H; [exact H|].
  simpl. apply IH. apply capturePart_records. exact H.
Qed.

Lemma captureCandidate_records key last0 acc indexed :
  recordsOnly key last0 (snd (fst acc)) ->
  recordsOnly key last0 (snd (fst (captureCandidate key acc indexed))).
Proof.
  destruct indexed as [index candidate]. unfold captureCandidate. intros H.
  destruct acc as [[buffer last] ok]. cbn [fst snd] in *.
  destruct ok; cbn [negb]; [|exact H].
  destruct (getO "parts" (get "content" candidate)) as [[| | | |parts|]|];
    try exact H; try (destruct (truthy _); exact H).
  apply captureParts_records. exact H.
Qed.

Lemma captureCandidates_records key last0 candidates acc :
  recordsOnly key last0 (snd (fst acc)) ->
  recordsOnly key last0 (snd (fst (foldl (captureCandidate key) acc candidates))).
Proof.
  revert acc. induction candidates as [|c candidates IH]; intros acc H; [exact H|].
  simpl. apply IH. apply captureCandidate_records. exact H.
Qed.

Lemma captureBlocks_records key last0 blocks acc :
  recordsOnly key last0 (snd acc) ->
  recordsOnly key last0 (snd (foldl (captureBlock key) acc blocks)).
Proof.
  revert acc. induction blocks as [|b blocks IH]; intros acc H; [exact H|].
  simpl. apply IH. destruct acc as [thinkingText last]. unfold captureBlock.
  set (text1 := if isStr "thinking" (get "type" b) then _ else _).
  destruct (get "signature" b) as [sig|]; [|exact H].
  destruct (truthy sig) eqn:Hs; simpl; [|exact H].
  destruct (nonEmpty text1) eqn:Ht; simpl; [|exact H].
  apply recordsOnly_insert; [exact H|].
  split; [apply nonEmpty_true; exact Ht|exact Hs].
Qed.

(** X20. What [cacheThinkingSignatures] may write. Whatever the response
    chunk, the cached thinking of every other session key is left as it
    was, and the entry of the chunk's own session key is either the one
    it had or one with a non-empty text and a truthy signature. *)
Theorem cacheThinkingSignatures_records_own_key response key st :
  let st' := cacheThinkingSignatures response key st in
  (forall k, k <> key -> snd st' !! k = snd st !! k)
  /\ (forall lt, snd st' !! key = Some lt -> snd st !! key = Some lt \/ usable lt).
Proof.
  intros st'. change (recordsOnly key (snd st) (snd st')). subst st'.
  unfold cacheThinkingSignatures.
  destruct (isObject response); [|apply recordsOnly_refl].
  assert (recordsOnly key (snd st)
            (snd (fst (match get "candidates" response with
                       | Some (JArr candidates) =>
                           foldl (captureCandidate key) (st, true) (imap pair candidates)
                       | _ => (st, true)
                       end)))) as H1.
  { destruct (get "candidates" response) as [[| | | |candidates|]|];
      try apply recordsOnly_refl.
    apply captureCandidates_records. apply recordsOnly_refl. }
  destruct (match get "candidates" response with
            | Some (JArr candidates) => _
            | _ => (st, true)
            end) as [st1 ok].
  simpl in H1. destruct ok; [|exact H1].
  destruct (get "content" response) as [[| | | |blocks|]|]; try exact H1.
  simpl. apply (captureBlocks_records key (snd st) blocks ("", snd st1)). exact H1.
Qed.

End TurnsFacts.

Module StreamFacts.

Import JS JSFacts Request RequestFacts Text TextFacts ObjectFacts Stream.

(** *** Debug thinking *)

Lemma formatDebugLines_marked prefix lines :
  String.prefix prefix (formatDebugLinesForThinking prefix lines) = true
  /\ nonEmpty (formatDebugLinesForThinking prefix lines) = true.
Proof.
  unfold formatDebugLinesForThinking. split; [apply prefix_app|].
  destruct prefix; reflexivity.
Qed.

(** X21. Debug thinking that is injected into a response is stripped again
    from a request. [injectDebugThinking] puts one part, holding the text
    of [formatDebugLinesForThinking], in front of the parts of the first
    candidate (or one block in front of an Anthropic-style [content]
    array) and leaves the others as they are; and
    [stripInjectedDebugFromParts] removes that part, whatever the debug
    lines: stripping the parts after the injection gives what stripping
    them before gives. *)
Theorem injected_debug_is_stripped DEBUG_MESSAGE_PREFIX lines response :
  let debugText := formatDebugLinesForThinking DEBUG_MESSAGE_PREFIX lines in
  let strip := stripInjectedDebugFromParts DEBUG_MESSAGE_PREFIX in
  (forall parts,
     firstCandidateParts response = Some parts ->
     exists part,
       firstCandidateParts (injectDebugThinking response debugText) = Some (part :: parts)
       /\ strip (part :: parts) = strip parts)
  /\ (forall blocks,
        noCandidates response = true ->
        get "content" response = Some (JArr blocks) ->
        exists block,
          get "content" (injectDebugThinking response debugText) = Some (JArr (block :: blocks))
          /\ strip (block :: blocks) = strip blocks).
Proof.
  intros debugText strip.
  destruct (formatDebugLines_marked DEBUG_MESSAGE_PREFIX lines) as [Hprefix Hne].
  fold debugText in Hprefix, Hne.
  split.
  - intros parts. unfold firstCandidateParts, injectDebugThinking.
    destruct response as [| | | |items|fields]; try discriminate. cbn [isObject negb].
    destruct (get "candidates" (JObj fields)) as [[| | | |[|first rest]|]|]; try discriminate.
    destruct first as [| | | |fitems|ffields]; try discriminate. cbn [isObject andb].
    destruct (get "content" (JObj ffields)) as [content|] eqn:Hc; [|discriminate].
    destruct content as [| | | |citems|cfields]; try discriminate.
    cbn [getO truthyO truthy].
    destruct (get "parts" (JObj cfields)) as [[| | | |ps|]|] eqn:Hp; try discriminate.
    intros [= <-]. eexists. split.
    + rewrite get_setField_eq. cbn [getO]. rewrite get_setField_eq. cbn [getO spread].
      rewrite get_setField_eq. reflexivity.
    + unfold strip, stripInjectedDebugFromParts. cbn [List.filter isObject get assoc String.eqb].
      simpl. rewrite Hne, Hprefix. reflexivity.
  - intros blocks Hno Hcontent. unfold injectDebugThinking.
    destruct response as [| | | |items|fields]; try discriminate. cbn [isObject negb].
    unfold noCandidates in Hno.
    destruct (get "candidates" (JObj fields)) as [[| | | |[|first rest]|]|];
      try discriminate; rewrite Hcontent;
      (eexists; split;
       [rewrite get_setField_eq; reflexivity
       |unfold strip, stripInjectedDebugFromParts; simpl; rewrite Hne, Hprefix; reflexivity]).
Qed.

(** *** Line by line *)

Lemma concat_cons_empty (x : string) (xs : list string) :
  String.concat "" (x :: xs) = x +:+ String.concat "" xs.
Proof. exact (concat_app_empty [x] xs). Qed.

Section LineByLine.

Context {S : Type} (T : S -> string -> S * string).

Lemma lineByLine_free st text :
  freeOf LF text = true ->
  lineByLine T st text = if nonEmpty text then (fst (T st text), snd (T st text)) else (st, "").
Proof.
  intros Hfree. unfold lineByLine. rewrite (split_free LF text Hfree).
  cbn [withoutLast mapAccum last default map String.concat id].
  destruct (nonEmpty text); [|reflexivity]. destruct (T st text). reflexivity.
Qed.

Lemma lineByLine_app st a b :
  lineByLine T st (a +:+ b)
  = (fst (lineByLine T (fst (mapAccum T st (withoutLast (split LF a))))
                     (default "" (last (split LF a)) +:+ b)),
     String.concat "" (map (fun l => l +:+ newline)
                           (snd (mapAccum T st (withoutLast (split LF a)))))
     +:+ snd (lineByLine T (fst (mapAccum T st (withoutLast (split LF a))))
                         (default "" (last (split LF a)) +:+ b))).
Proof.
  unfold lineByLine. rewrite split_app.
  set (front := withoutLast (split LF a)).
  set (back := split LF (default "" (last (split LF a)) +:+ b)).
  assert (back <> []) as Hback by apply split_nonempty.
  rewrite (withoutLast_app front back Hback), (last_app_r front back Hback), mapAccum_app.
  destruct (mapAccum T st front) as [st1 outs1]. cbn [fst snd].
  destruct (mapAccum T st1 (withoutLast back)) as [st2 outs2]. cbn [fst snd].
  rewrite map_app, concat_app_empty.
  destruct (nonEmpty (default "" (last back))).
  - destruct (T st2 _) as [st3 out]. cbn [fst snd]. rewrite append_assoc. reflexivity.
  - reflexivity.
Qed.

End LineByLine.

Section Piping.

Variable JSON_parse : string -> option JSON.
Variable JSON_stringify : JSON -> string.
Variable transformThinkingParts : JSON -> option JSON.
Variable signatureSessionKey debugText : string.
Variable cacheSignatures : bool.

Let T := transformSseLine JSON_parse JSON_stringify transformThinkingParts
           signatureSessionKey debugText cacheSignatures.
Let transform := Stream.transform JSON_parse JSON_stringify transformThinkingParts
                   signatureSessionKey debugText cacheSignatures.
Let flush := Stream.flush JSON_parse JSON_stringify transformThinkingParts
               signatureSessionKey debugText cacheSignatures.

Lemma feed_then_flush chunks st buffer out :
  freeOf LF buffer = true ->
  (let '(s, out') :=
     foldl (fun (acc : Transformer * string) chunk =>
              let '(s, out) := acc in
              let '(s', enqueued) := transform s chunk in
              (s', out +:+ String.concat "" enqueued))
           ((st, buffer), out) chunks in
   let '(st', enqueued) := flush s in
   (st', out' +:+ String.concat "" enqueued))
  = (fst (lineByLine T st (buffer +:+ String.concat "" chunks)),
     out +:+ snd (lineByLine T st (buffer +:+ String.concat "" chunks))).
Proof.
  revert st buffer out. induction chunks as [|chunk chunks IH]; intros st buffer out Hfree.
  - cbn [foldl String.concat]. rewrite append_nil_r.
    rewrite (lineByLine_free T st buffer Hfree).
    unfold flush, Stream.flush. fold T.
    destruct (nonEmpty buffer); [|reflexivity].
    destruct (T st buffer) as [st' line]. reflexivity.
  - cbn [foldl]. rewrite concat_cons_empty, <- append_assoc.
    rewrite (lineByLine_app T st (buffer +:+ chunk) (String.concat "" chunks)).
    unfold transform at 2, Stream.transform. fold T.
    destruct (mapAccum T st (withoutLast (split LF (buffer +:+ chunk)))) as [st1 outs].
    cbn [fst snd].
    rewrite IH by apply last_split_free.
    rewrite append_assoc. reflexivity.
Qed.

End Piping.

(** X22. The streamed output does not depend on how the body is cut into
    chunks. Piping a response body through the streaming transformer
    gives, for every cutting into chunks, the output and the final state
    of piping it as a single chunk: every complete line is transformed
    once, in order, and followed by a line feed, and the text after the
    last line feed is transformed on flush when it is not empty. *)
Theorem stream_output_ignores_chunking JSON_parse JSON_stringify transformThinkingParts
    signatureSessionKey debugText cacheSignatures st chunks :
  let pipe := pipe JSON_parse JSON_stringify transformThinkingParts
                   signatureSessionKey debugText cacheSignatures in
  pipe st chunks = pipe st [String.concat "" chunks]
  /\ pipe st chunks
     = lineByLine (transformSseLine JSON_parse JSON_stringify transformThinkingParts
                     signatureSessionKey debugText cacheSignatures)
                  st (String.concat "" chunks).
Proof.
  intros pipe.
  assert (forall chunks,
            pipe st chunks
            = lineByLine (transformSseLine JSON_parse JSON_stringify transformThinkingParts
                            signatureSessionKey debugText cacheSignatures)
                         st (String.concat "" chunks)) as H.
  { intros l. subst pipe. unfold Stream.pipe.
    rewrite (feed_then_flush JSON_parse JSON_stringify transformThinkingParts
               signatureSessionKey debugText cacheSignatures l st "" "" eq_refl).
    destruct (lineByLine _ st _) as [st' out]. reflexivity. }
  split; [|apply H].
  rewrite (H chunks), (H [String.concat "" chunks]). reflexivity.
Qed.

Lemma mapAccum_stateless {S A B} (f : S -> A -> S * B) (g : A -> B) st l :
  (forall x, f st x = (st, g x)) -> mapAccum f st l = (st, map g l).
Proof.
  intros Hf. induction l as [|x l IH]; [reflexivity|].
  simpl. rewrite Hf, IH. reflexivity.
Qed.

(** X23. Without signature caching and debug text the streaming
    transformer is [transformStreamingPayload], chunk by chunk. Whatever
    the cutting into chunks, the streamed output is
    [transformStreamingPayload] of the whole body, and the thought
    buffer, the cached thinking and the debug state are left as they
    were. *)
Theorem stream_agrees_with_whole_payload JSON_parse JSON_stringify transformThinkingParts
    signatureSessionKey st chunks :
  pipe JSON_parse JSON_stringify transformThinkingParts signatureSessionKey "" false st chunks
  = (st, transformStreamingPayload JSON_parse JSON_stringify transformThinkingParts
           (String.concat "" chunks)).
Proof.
  set (T := transformSseLine JSON_parse JSON_stringify transformThinkingParts
              signatureSessionKey "" false).
  set (T0 := transformPayloadLine JSON_parse JSON_stringify transformThinkingParts).
  assert (forall line, T st line = (st, T0 line)) as HT.
  { intros line. unfold T, T0, transformSseLine, transformPayloadLine.
    destruct (negb (String.prefix "data:" line)); [reflexivity|].
    destruct (negb (nonEmpty _)); [reflexivity|].
    destruct (JSON_parse _) as [parsed|]; [|reflexivity].
    destruct (get "response" parsed) as [response|]; [|reflexivity].
    cbn [andb negb nonEmpty String.eqb orb]. rewrite orb_false_r.
    destruct st as [cap inj]. cbn [captured injected].
    destruct (transformThinkingParts response); reflexivity. }
  set (text := String.concat "" chunks).
  assert (transformStreamingPayload JSON_parse JSON_stringify transformThinkingParts text
          = String.concat "" (map (fun l => l +:+ newline)
                                  (map T0 (withoutLast (split LF text))))
            +:+ T0 (default "" (last (split LF text)))) as Hpayload.
  { unfold transformStreamingPayload. fold T0.
    rewrite <- (withoutLast_last (split LF text) "" (split_nonempty LF text)) at 1.
    rewrite map_app. cbn [map]. rewrite concat_snoc. reflexivity. }
  rewrite Hpayload.
  unfold pipe.
  rewrite (feed_then_flush JSON_parse JSON_stringify transformThinkingParts
             signatureSessionKey "" false chunks st "" "" eq_refl).
  fold T. fold text. change ("" +:+ text) with text.
  unfold lineByLine.
  rewrite (mapAccum_stateless T T0 st _ HT).
  destruct (nonEmpty (default "" (last (split LF text)))) eqn:E.
  - rewrite HT. reflexivity.
  - assert (default "" (last (split LF text)) = "") as ->.
    { destruct (default "" (last (split LF text))); [reflexivity|discriminate]. }
    cbn [fst snd]. f_equal.
    assert (T0 "" = "") as -> by reflexivity.
    rewrite append_nil_r. reflexivity.
Qed.

End StreamFacts.

Module ShapingFacts.

Import JS JSFacts Request RequestFacts Text TextFacts ObjectFacts Shaping.

Lemma assoc_removeField_eq k fields : assoc k (removeField k fields) = None.
Proof.
  unfold removeField. induction fields as [|[k' v] fields IH]; [reflexivity|].
  simpl. destruct (String.eqb k k') eqn:E; simpl; [exact IH|]. rewrite E. exact IH.
Qed.

Lemma assoc_removeField_ne k k' fields :
  k <> k' -> assoc k' (removeField k fields) = assoc k' fields.
Proof.
  intros Hne. unfold removeField. induction fields as [|[k0 v] fields IH]; [reflexivity|].
  simpl. destruct (String.eqb k k0) eqn:E; simpl.
  - apply String.eqb_eq in E. subst k0.
    destruct (String.eqb k' k) eqn:E'; [apply String.eqb_eq in E'; congruence|exact IH].
  - rewrite IH. reflexivity.
Qed.

(** X24. The prepared request carries no cached content. After the
    cached-content statements of the transformer the payload has neither
    [cached_content] nor [cachedContent], wherever the value came from;
    an [extra_body] that is left has neither and is not empty; and every
    other property of the payload is as it was. *)
Theorem cached_content_is_dropped payload :
  let p := normalizeCachedContent payload in
  assoc "cached_content" p = None
  /\ assoc "cachedContent" p = None
  /\ (forall extra, assoc "extra_body" p = Some extra ->
        get "cached_content" extra = None /\ get "cachedContent" extra = None
        /\ extra <> JObj [] /\ extra <> JArr [])
  /\ (forall k, k <> "cached_content" -> k <> "cachedContent" -> k <> "extra_body" ->
        assoc k p = assoc k payload).
Proof.
  intros p. subst p. unfold normalizeCachedContent.
  set (cachedContent := coalesce _ _).
  set (payload1 := match cachedContent with Some v => _ | None => payload end).
  set (payload2 := removeField "cachedContent" (removeField "cached_content" payload1)).
  assert (assoc "cached_content" payload2 = None) as H1.
  { unfold payload2. rewrite assoc_removeField_ne by discriminate.
    apply assoc_removeField_eq. }
  assert (assoc "cachedContent" payload2 = None) as H2.
  { unfold payload2. apply assoc_removeField_eq. }
  assert (forall k, k <> "cached_content" -> k <> "cachedContent" ->
                    assoc k payload2 = assoc k payload) as H3.
  { intros k Ha Hb. unfold payload2. rewrite !assoc_removeField_ne by congruence.
    unfold payload1. destruct cachedContent as [v|]; [|reflexivity].
    destruct (truthy v); [|reflexivity]. apply assoc_setField_ne. congruence. }
  destruct (assoc "extra_body" payload2) as [extra|] eqn:He.
  2:{ split; [exact H1|]. split; [exact H2|]. split.
      - intros extra He'. rewrite He in He'. discriminate.
      - intros k Ha Hb _. apply H3; assumption. }
  destruct extra as [| b | n | s | items | extra].
  1-4: (split; [exact H1|]; split; [exact H2|]; split;
        [ intros extra' He'; rewrite He in He'; injection He' as <-;
          split; [reflexivity|]; split; [reflexivity|]; split; discriminate
        | intros k Ha Hb _; apply H3; assumption ]).
  - destruct (length items =? 0)%nat eqn:El.
    + rewrite !assoc_removeField_ne by discriminate. rewrite assoc_removeField_eq.
      split; [exact H1|]. split; [exact H2|]. split; [discriminate|].
      intros k Ha Hb Hc. rewrite assoc_removeField_ne by congruence. apply H3; assumption.
    + split; [exact H1|]. split; [exact H2|]. split.
      * intros extra' He'. rewrite He in He'. injection He' as <-.
        split; [reflexivity|]. split; [reflexivity|]. split; [discriminate|].
        intros [= ->]. discriminate.
      * intros k Ha Hb _. apply H3; assumption.
  - set (extra' := removeField "cachedContent" (removeField "cached_content" extra)).
    destruct (length extra' =? 0)%nat eqn:El.
    + rewrite !assoc_removeField_ne by discriminate. rewrite assoc_removeField_eq.
      split; [exact H1|]. split; [exact H2|]. split; [discriminate|].
      intros k Ha Hb Hc. rewrite assoc_removeField_ne by congruence. apply H3; assumption.
    + rewrite !assoc_setField_ne by discriminate. rewrite assoc_setField_eq.
      split; [exact H1|]. split; [exact H2|]. split.
      * intros e [= <-]. cbn [get]. unfold extra'.
        split; [rewrite assoc_removeField_ne by discriminate; apply assoc_removeField_eq|].
        split; [apply assoc_removeField_eq|].
        split; [|discriminate].
        intros [= Hnil]. fold extra' in Hnil. rewrite Hnil in El. discriminate.
      * intros k Ha Hb Hc. rewrite assoc_setField_ne by congruence. apply H3; assumption.
Qed.

(** *** The header *)

Lemma includes_refl s : includes s s = true.
Proof.
  unfold includes. destruct s as [|c s]; [reflexivity|].
  cbn [includesFrom]. rewrite <- (append_nil_r (String c s)) at 2.
  rewrite prefix_app. reflexivity.
Qed.

Lemma includes_app_l a b needle :
  includes b needle = true -> includes (a +:+ b) needle = true.
Proof.
  unfold includes. intros H. induction a as [|c a IH]; [exact H|].
  change (String c a +:+ b) with (String c (a +:+ b)).
  cbn [includesFrom]. rewrite IH. apply orb_true_r.
Qed.

(** X25. The [anthropic-beta] header of a Claude thinking request names
    interleaved thinking exactly as often as needed: the value after the
    step contains the token, a value that was there before is kept in
    front of it, and running the step on its own result changes nothing. *)
Theorem interleaved_header_is_added_once existing :
  let h := withInterleavedHeader existing in
  includes h INTERLEAVED_HEADER = true
  /\ withInterleavedHeader (Some h) = h
  /\ (forall e, existing = Some e -> nonEmpty e = true -> String.prefix e h = true).
Proof.
  intros h.
  assert (includes h INTERLEAVED_HEADER = true) as Hin.
  { subst h. unfold withInterleavedHeader.
    destruct existing as [e|]; [|reflexivity].
    destruct (nonEmpty e); [|reflexivity].
    destruct (includes e INTERLEAVED_HEADER) eqn:Ei; [exact Ei|].
    apply includes_app_l. apply (includes_app_l ","). apply includes_refl. }
  assert (nonEmpty h = true) as Hne.
  { subst h. unfold withInterleavedHeader.
    destruct existing as [e|]; [|reflexivity].
    destruct (nonEmpty e) eqn:En; [|reflexivity].
    destruct (includes e INTERLEAVED_HEADER); [exact En|].
    destruct e; [discriminate|reflexivity]. }
  split; [exact Hin|]. split.
  - unfold withInterleavedHeader at 1. rewrite Hne, Hin. reflexivity.
  - intros e -> En. subst h. unfold withInterleavedHeader. rewrite En.
    destruct (includes e INTERLEAVED_HEADER).
    + rewrite <- (append_nil_r e) at 2. apply prefix_app.
    + apply prefix_app.
Qed.

(** *** Tool configuration *)

Lemma setField_same k v fields :
  assoc k fields = Some v -> setField k v fields = fields.
Proof.
  induction fields as [|[k0 v0] fields IH]; simpl; [discriminate|].
  destruct (String.eqb k k0) eqn:E.
  - apply String.eqb_eq in E. subst k0. intros [= ->]. reflexivity.
  - intros H. rewrite IH by exact H. reflexivity.
Qed.

Lemma configure_fixed payload toolConfig functionCallingConfig :
  assoc "toolConfig" payload = Some (JObj toolConfig) ->
  assoc "functionCallingConfig" toolConfig = Some (JObj functionCallingConfig) ->
  assoc "mode" functionCallingConfig = Some (JStr "VALIDATED") ->
  configureClaudeToolConfig payload = payload.
Proof.
  intros H1 H2 H3. unfold configureClaudeToolConfig.
  rewrite H1. cbn [truthyO truthy negb]. rewrite H1.
  rewrite H2. cbn [truthyO truthy negb]. rewrite H2.
  rewrite (setField_same "mode" _ _ H3).
  rewrite (setField_same "functionCallingConfig" _ _ H2).
  apply setField_same. exact H1.
Qed.

Lemma configure_inner toolConfig payload :
  assoc "toolConfig" payload = Some (JObj toolConfig) ->
  let r := configureClaudeToolConfig payload in
  configureClaudeToolConfig r = r
  /\ (forall k, k <> "toolConfig" -> assoc k r = assoc k payload)
  /\ modeOf r = if configurable payload then Some (JStr "VALIDATED") else modeOf payload.
Proof.
  intros Htc. cbv zeta. unfold configurable, modeOf. rewrite Htc.
  remember (configureClaudeToolConfig payload) as r eqn:Hr.
  unfold configureClaudeToolConfig in Hr.
  rewrite Htc in Hr. cbn [truthyO truthy negb] in Hr. rewrite Htc in Hr.
  assert (forall fcc tc1,
             assoc "functionCallingConfig" tc1 = Some (JObj fcc) ->
             let r := setField "toolConfig"
                        (JObj (setField "functionCallingConfig"
                                 (JObj (setField "mode" (JStr "VALIDATED") fcc)) tc1))
                        payload in
             configureClaudeToolConfig r = r
             /\ (forall k, k <> "toolConfig" -> assoc k r = assoc k payload)
             /\ getO "mode" (getO "functionCallingConfig" (assoc "toolConfig" r))
                = Some (JStr "VALIDATED")) as Hset.
  { intros fcc tc1 Hf r0. subst r0. split; [|split].
    - eapply configure_fixed.
      + apply assoc_setField_eq.
      + apply assoc_setField_eq.
      + apply assoc_setField_eq.
    - intros k Hk. apply assoc_setField_ne. congruence.
    - rewrite assoc_setField_eq. cbn [getO get].
      rewrite assoc_setField_eq. cbn [getO get]. apply assoc_setField_eq. }
  assert (setField "toolConfig" (JObj toolConfig) payload = payload) as Hsame
      by (apply setField_same; exact Htc).
  assert (truthyO (assoc "functionCallingConfig" toolConfig) = true ->
          (forall fcc, assoc "functionCallingConfig" toolConfig <> Some (JObj fcc)) ->
          r = payload ->
          configureClaudeToolConfig r = r
          /\ (forall k, k <> "toolConfig" -> assoc k r = assoc k payload)) as Hkeep.
  { intros Ht Hno ->. split; [|reflexivity].
    unfold configureClaudeToolConfig.
    rewrite Htc. cbn [truthyO truthy negb]. rewrite Htc. rewrite Ht. cbn [negb].
    destruct (assoc "functionCallingConfig" toolConfig) as [[| | | | |fcc]|];
      try exact Hsame. exfalso. apply (Hno fcc). reflexivity. }
  destruct (assoc "functionCallingConfig" toolConfig) as [fcc|] eqn:Ef.
  2:{ cbn [truthyO negb] in Hr |- *. rewrite assoc_setField_eq in Hr. subst r.
      apply Hset. apply assoc_setField_eq. }
  destruct (truthy fcc) eqn:Et.
  - cbn [truthyO] in Hr, Hkeep |- *. rewrite Et in Hr. cbn [negb] in Hr. rewrite Ef in Hr.
    destruct fcc as [| b | n | s | items | fcc]; try discriminate;
      try (rewrite Hsame in Hr; destruct (Hkeep Et ltac:(discriminate) Hr) as [K1 K2];
           split; [exact K1|]; split; [exact K2|];
           subst r; rewrite Htc; cbn [getO get]; rewrite Ef;
           cbn [truthyO]; rewrite ?Et; reflexivity).
    subst r. apply Hset. exact Ef.
  - cbn [truthyO] in Hr |- *. rewrite Et in Hr. cbn [negb] in Hr.
    rewrite assoc_setField_eq in Hr. subst r.
    destruct fcc as [| b | n | s | items | fcc]; try discriminate;
      cbn [truthy] in Et |- *; rewrite ?Et; cbn [negb];
      apply Hset; apply assoc_setField_eq.
Qed.

(** X26. Configuring the tool calls of a Claude request is idempotent and
    touches [toolConfig] only. Where [toolConfig] and its
    [functionCallingConfig] are objects, or missing or falsy, the mode read
    afterwards is [VALIDATED]; where one of them is an array or a truthy
    primitive the mode is what it was. *)
Theorem configureClaudeToolConfig_is_idempotent payload :
  let r := configureClaudeToolConfig payload in
  configureClaudeToolConfig r = r
  /\ (forall k, k <> "toolConfig" -> assoc k r = assoc k payload)
  /\ modeOf r = if configurable payload then Some (JStr "VALIDATED") else modeOf payload.
Proof.
  destruct (assoc "toolConfig" payload) as [tc|] eqn:Htc.
  2:{ pose proof (configure_inner [] (setField "toolConfig" (JObj []) payload)
                    (assoc_setField_eq _ _ _)) as H.
      cbv zeta in H |- *.
      assert (configureClaudeToolConfig (setField "toolConfig" (JObj []) payload)
              = configureClaudeToolConfig payload) as Heq.
      { unfold configureClaudeToolConfig. rewrite Htc. cbn [truthyO negb].
        rewrite !assoc_setField_eq. cbn [truthyO truthy negb].
        rewrite !assoc_setField_eq. reflexivity. }
      rewrite Heq in H. destruct H as (H1 & H2 & H3).
      split; [exact H1|]. split.
      - intros k Hk. rewrite H2 by exact Hk. apply assoc_setField_ne. congruence.
      - rewrite H3. unfold configurable. rewrite Htc, assoc_setField_eq. reflexivity. }
  destruct (truthy tc) eqn:Et.
  - destruct tc as [| b | n | s | items | toolConfig]; try discriminate;
      try (cbv zeta; unfold configurable, modeOf;
           assert (configureClaudeToolConfig payload = payload) as ->
             by (unfold configureClaudeToolConfig; rewrite Htc; cbn [truthyO]; rewrite ?Et;
                 cbn [truthy negb]; rewrite Htc; reflexivity);
           split; [|split];
           [ unfold configureClaudeToolConfig; rewrite Htc; cbn [truthyO]; rewrite ?Et;
             cbn [truthy negb]; rewrite Htc; reflexivity
           | reflexivity
           | rewrite Htc; cbn [truthyO]; rewrite ?Et; reflexivity ]).
    apply (configure_inner toolConfig). exact Htc.
  - pose proof (configure_inner [] (setField "toolConfig" (JObj []) payload)
                  (assoc_setField_eq _ _ _)) as H.
    cbv zeta in H |- *.
    assert (configureClaudeToolConfig (setField "toolConfig" (JObj []) payload)
            = configureClaudeToolConfig payload) as Heq.
    { unfold configureClaudeToolConfig. rewrite Htc. cbn [truthyO]. rewrite Et.
      cbn [negb]. rewrite !assoc_setField_eq. cbn [truthyO truthy negb].
      rewrite !assoc_setField_eq. reflexivity. }
    rewrite Heq in H. destruct H as (H1 & H2 & H3).
    split; [exact H1|]. split.
    + intros k Hk. rewrite H2 by exact Hk. apply assoc_setField_ne. congruence.
    + rewrite H3. unfold configurable. rewrite Htc, assoc_setField_eq.
      destruct tc as [| b | n | s | items | toolConfig]; try discriminate;
        cbn [truthyO]; rewrite ?Et; reflexivity.
Qed.

(** *** The interleaved-thinking hint *)

Lemma textsOf_cons part rest :
  textsOf (part :: rest)
  = match textOfPart part with Some t => t :: textsOf rest | None => textsOf rest end.
Proof.
  unfold textsOf. change (omap textOfPart (part :: rest))
    with (match textOfPart part with
          | Some t => t :: omap textOfPart rest
          | None => omap textOfPart rest
          end).
  reflexivity.
Qed.

Lemma textless_cons part rest :
  textless (part :: rest)
  = match textOfPart part with Some _ => textless rest | None => part :: textless rest end.
Proof. unfold textless. cbn [List.filter]. destruct (textOfPart part); reflexivity. Qed.

Lemma textOfPart_hinted hint text part :
  textOfPart (JObj (setField "text" (JStr (withHint hint text)) (spread part)))
  = Some (withHint hint text).
Proof. unfold textOfPart. rewrite assoc_setField_eq. reflexivity. Qed.

Lemma appendToLastText_spec hint parts :
  match last (textsOf parts) with
  | Some t =>
      exists parts', appendToLastText hint parts = Some parts'
                     /\ textsOf parts' = withoutLast (textsOf parts) ++ [withHint hint t]
                     /\ textless parts' = textless parts
                     /\ length parts' = length parts
  | None => appendToLastText hint parts = None /\ textsOf parts = []
  end.
Proof.
  induction parts as [|part rest IH]; [split; reflexivity|].
  cbn [appendToLastText]. rewrite textsOf_cons.
  destruct (last (textsOf rest)) as [t'|] eqn:El.
  - destruct IH as (rest' & -> & Ht & Hl & Hn).
    assert (exists x xs, textsOf rest = x :: xs) as (x & xs & Hx).
    { destruct (textsOf rest) as [|x xs]; [discriminate|eauto]. }
    destruct (textOfPart part) as [t0|] eqn:Ep.
    + rewrite Hx. cbn [last]. rewrite <- Hx, El.
      exists (part :: rest'). split; [reflexivity|].
      rewrite textsOf_cons, !textless_cons, Ep, Ht, Hl. cbn [length]. rewrite Hn.
      rewrite Hx. split; [reflexivity|]. split; reflexivity.
    + rewrite El. exists (part :: rest'). split; [reflexivity|].
      rewrite textsOf_cons, !textless_cons, Ep, Ht, Hl. cbn [length]. rewrite Hn.
      split; [reflexivity|]. split; reflexivity.
  - destruct IH as [-> Hnil]. rewrite Hnil.
    destruct (textOfPart part) as [t0|] eqn:Ep.
    + cbn [last]. eexists. split; [reflexivity|].
      rewrite textsOf_cons, !textless_cons, textOfPart_hinted, Ep, Hnil.
      split; [reflexivity|]. split; reflexivity.
    + cbn [last]. split; reflexivity.
Qed.

(** X27. Where the system instruction is an object with an array of parts,
    the thinking hint goes to the end of the last part that has a text, two
    line feeds after it, or becomes a new last part when no part has one.
    The other texts, the parts without a text, the other properties of the
    instruction and the other properties of the payload stay as they are. *)
Theorem appendClaudeThinkingHint_extends_last_text hint payload sys parts :
  assoc "systemInstruction" payload = Some (JObj sys) ->
  assoc "parts" sys = Some (JArr parts) ->
  let r := appendClaudeThinkingHint hint payload in
  exists sys' parts',
    assoc "systemInstruction" r = Some (JObj sys')
    /\ assoc "parts" sys' = Some (JArr parts')
    /\ textsOf parts'
       = match last (textsOf parts) with
         | Some t => withoutLast (textsOf parts) ++ [withHint hint t]
         | None => [hint]
         end
    /\ textless parts' = textless parts
    /\ (forall k, k <> "parts" -> assoc k sys' = assoc k sys)
    /\ (forall k, k <> "systemInstruction" -> assoc k r = assoc k payload).
Proof.
  intros Hs Hp r. subst r. unfold appendClaudeThinkingHint. rewrite Hs, Hp.
  eexists. eexists.
  split; [apply assoc_setField_eq|].
  split; [apply assoc_setField_eq|].
  pose proof (appendToLastText_spec hint parts) as H.
  destruct (last (textsOf parts)) as [t|].
  - destruct H as (parts' & -> & Ht & Hl & _).
    split; [exact Ht|]. split; [exact Hl|]. split.
    + intros k Hk. apply assoc_setField_ne. congruence.
    + intros k Hk. apply assoc_setField_ne. congruence.
  - destruct H as [-> Hnil]. split; [|split; [|split]].
    + unfold textsOf in *. rewrite omap_app, Hnil. reflexivity.
    + unfold textless. rewrite List.filter_app. cbn. apply app_nil_r.
    + intros k Hk. apply assoc_setField_ne. congruence.
    + intros k Hk. apply assoc_setField_ne. congruence.
Qed.

Lemma appendClaudeThinkingHint_extends_last_text_witness :
  let payload := [("systemInstruction",
                   JObj [("role", JStr "user");
                         ("parts", JArr [textPart "Be brief."; JObj [("inlineData", JNull)]])])] in
  exists sys' parts',
    assoc "systemInstruction" (appendClaudeThinkingHint "Think." payload) = Some (JObj sys')
    /\ assoc "parts" sys' = Some (JArr parts')
    /\ textsOf parts' = [withHint "Think." "Be brief."]
    /\ textless parts' = [JObj [("inlineData", JNull)]].
Proof.
  intros payload.
  destruct (appendClaudeThinkingHint_extends_last_text "Think." payload
              [("role", JStr "user");
               ("parts", JArr [textPart "Be brief."; JObj [("inlineData", JNull)]])]
              [textPart "Be brief."; JObj [("inlineData", JNull)]]
              eq_refl eq_refl) as (sys' & parts' & H1 & H2 & H3 & H4 & _).
  exists sys', parts'. split; [exact H1|]. split; [exact H2|]. split; [exact H3|exact H4].
Defined.

(** *** Tools of models other than Claude *)

Lemma schemaOf_truthy newTool s : schemaOf newTool = Some s -> truthy s = true.
Proof.
  unfold schemaOf. intros H. apply head_Some_elem_of in H.
  apply list_elem_of_In, List.filter_In in H. apply H.
Qed.

Lemma customOf_schema name description schema :
  (forall s, schema = Some s -> truthy s = true) ->
  lacksSchema (Some (customOf name description schema)) = false.
Proof.
  intros H. unfold lacksSchema, customOf. cbn [truthyO truthy getO get andb].
  assert (assoc "input_schema"
            ([("name", name)] ++ optField "description" description
             ++ [("input_schema", default DEFAULT_INPUT_SCHEMA schema)])
          = Some (default DEFAULT_INPUT_SCHEMA schema)) as ->
      by (destruct description; reflexivity).
  destruct schema as [s|]; [|reflexivity].
  cbn [default from_option id truthyO]. rewrite (H s eq_refl). reflexivity.
Qed.

Lemma truthyO_withSchema schema v : truthyO (withSchema schema v) = truthyO v.
Proof.
  destruct v as [[| | | | |o]|]; try reflexivity.
  destruct schema as [s|]; [|reflexivity].
  cbn [withSchema]. destruct (truthyO (assoc "input_schema" o)); reflexivity.
Qed.

Lemma giveSchema_spec k schema newTool :
  match giveSchema k schema newTool with
  | None => truthyPrimitive (assoc k newTool) = true /\ schema <> None
  | Some given =>
      (truthyPrimitive (assoc k newTool) = false \/ schema = None)
      /\ assoc k given = withSchema schema (assoc k newTool)
      /\ (forall k', k' <> k -> assoc k' given = assoc k' newTool)
  end.
Proof.
  unfold giveSchema, withSchema, lacksSchema, truthyPrimitive, setSchema.
  destruct schema as [s|].
  2:{ split; [right; reflexivity|]. split; [|reflexivity].
      destruct (assoc k newTool) as [[| | | | |o]|]; reflexivity. }
  destruct (assoc k newTool) as [v|] eqn:E.
  2:{ cbn. rewrite E. split; [left; reflexivity|]. split; reflexivity. }
  destruct (truthy v) eqn:Et.
  2:{ cbn [truthyO andb]. rewrite Et. cbn [andb]. rewrite E.
      split; [left; reflexivity|]. split; [|reflexivity].
      destruct v; try reflexivity; discriminate. }
  destruct v as [| b | n | str | items | o]; cbn [truthyO getO get negb andb isObject];
    rewrite ?Et; cbn [negb andb]; rewrite ?E.
  - discriminate.
  - split; [reflexivity|discriminate].
  - split; [reflexivity|discriminate].
  - split; [reflexivity|discriminate].
  - split; [left; reflexivity|]. split; reflexivity.
  - destruct (truthyO (assoc "input_schema" o)); cbn [negb].
    + rewrite E. split; [left; reflexivity|]. split; reflexivity.
    + split; [left; reflexivity|]. split; [apply assoc_setField_eq|].
      intros k' Hk. apply assoc_setField_ne. congruence.
Qed.

Lemma wrap_spec nameCandidate schema newTool :
  let wrapped := wrapBare nameCandidate schema (wrapFunction nameCandidate schema newTool) in
  (forall k, k <> "custom" -> assoc k wrapped = assoc k newTool)
  /\ (if truthyO (assoc "custom" newTool)
      then assoc "custom" wrapped = assoc "custom" newTool
      else exists name description,
          assoc "custom" wrapped = Some (customOf name description schema)).
Proof.
  unfold wrapBare, wrapFunction.
  destruct (truthyO (assoc "custom" newTool)) eqn:Ec; cbn [negb andb].
  - rewrite Ec. cbn [negb andb]. split; [reflexivity|reflexivity].
  - destruct (truthyO (assoc "function" newTool)) eqn:Ef; cbn [negb andb].
    + rewrite assoc_setField_eq. cbn [truthyO truthy customOf negb andb]. split.
      * intros k Hk. apply assoc_setField_ne. congruence.
      * rewrite assoc_setField_eq. eauto.
    + rewrite Ec, Ef. cbn [negb andb]. split.
      * intros k Hk. apply assoc_setField_ne. congruence.
      * rewrite assoc_setField_eq. eauto.
Qed.

Lemma lacksSchema_withSchema s v :
  truthy s = true ->
  lacksSchema (withSchema (Some s) v)
  = match v with Some (JObj _) => false | _ => lacksSchema v end.
Proof.
  intros Hs. destruct v as [[| | | | |o]|]; try reflexivity.
  unfold lacksSchema, withSchema.
  destruct (truthyO (assoc "input_schema" o)) eqn:E; cbn [truthyO truthy getO get andb].
  - rewrite E. reflexivity.
  - rewrite assoc_setField_eq. cbn [truthyO]. rewrite Hs. reflexivity.
Qed.

Lemma normalizeGeminiTool_spec toolIndex tool :
  match normalizeGeminiTool toolIndex tool with
  | None => unwritable tool = true
  | Some (newTool, missing) =>
      unwritable tool = false
      /\ missing = countedMissing tool
      /\ assoc "custom" newTool = None
      /\ assoc "function" newTool
         = withSchema (schemaOf (spread tool)) (assoc "function" (spread tool))
      /\ (forall k, k <> "custom" -> k <> "function" ->
                    assoc k newTool = assoc k (spread tool))
  end.
Proof.
  unfold normalizeGeminiTool, unwritable, countedMissing.
  set (newTool := spread tool).
  set (nameCandidate := orElse (assoc "name" newTool) _).
  pose proof (schemaOf_truthy newTool) as Hs.
  set (schema := schemaOf newTool) in *.
  pose proof (giveSchema_spec "function" schema newTool) as H1.
  destruct (giveSchema "function" schema newTool) as [tool1|].
  2:{ destruct H1 as [-> Hne]. rewrite bool_decide_true by exact Hne. apply orb_true_r. }
  destruct H1 as (Hw1 & Hf1 & Ho1).
  pose proof (giveSchema_spec "custom" schema tool1) as H2.
  rewrite (Ho1 "custom") in H2 |- * by discriminate.
  destruct (giveSchema "custom" schema tool1) as [tool2|].
  2:{ destruct H2 as [-> _]. reflexivity. }
  destruct H2 as (Hw2 & Hc2 & Ho2).
  set (custom := assoc "custom" newTool) in *.
  destruct (wrap_spec nameCandidate schema tool2) as [Ho4 Hc4].
  set (tool4 := wrapBare nameCandidate schema (wrapFunction nameCandidate schema tool2)) in *.
  rewrite Hc2, truthyO_withSchema in Hc4.
  assert (forall k, k <> "custom" -> k <> "function" -> assoc k tool4 = assoc k newTool) as Hk4.
  { intros k Hk Hk'. rewrite Ho4, Ho2, Ho1 by congruence. reflexivity. }
  assert (assoc "function" tool4 = withSchema schema (assoc "function" newTool)) as Hf4.
  { rewrite Ho4, Ho2 by discriminate. exact Hf1. }
  assert (truthyPrimitive (assoc "function" newTool) && bool_decide (schema <> None) = false)
    as Hfn.
  { destruct Hw1 as [-> | ->]; [reflexivity|].
    rewrite bool_decide_false by congruence. apply andb_false_r. }
  rewrite Hfn, orb_false_r. clear Hfn Hw1.
  unfold fillSchema, stripCustom.
  destruct (truthyO custom) eqn:Etc.
  2:{ destruct Hc4 as (name & description & Hc4). rewrite Hc4.
      rewrite customOf_schema by exact Hs. cbn [andb]. rewrite Hc4.
      cbn [truthyO truthy customOf]. rewrite assoc_removeField_eq.
      assert (truthyPrimitive custom = false) as ->
          by (unfold truthyPrimitive; rewrite Etc; reflexivity).
      assert (lacksSchema custom = false) as ->
          by (unfold lacksSchema; rewrite Etc; reflexivity).
      split; [reflexivity|]. split; [reflexivity|]. split; [reflexivity|].
      split; [rewrite assoc_removeField_ne by discriminate; exact Hf4|].
      intros k Hk Hk'. rewrite assoc_removeField_ne by congruence. apply Hk4; assumption. }
  rewrite Hc4.
  assert (forall filled,
             assoc "custom" filled = None \/ truthyO (assoc "custom" filled) = true ->
             (forall k, k <> "custom" -> assoc k filled = assoc k tool4) ->
             assoc "custom" (if truthyO (assoc "custom" filled)
                             then removeField "custom" filled else filled) = None
             /\ assoc "function" (if truthyO (assoc "custom" filled)
                                  then removeField "custom" filled else filled)
                = withSchema schema (assoc "function" newTool)
             /\ (forall k, k <> "custom" -> k <> "function" ->
                   assoc k (if truthyO (assoc "custom" filled)
                            then removeField "custom" filled else filled)
                   = assoc k newTool)) as Hstrip.
  { intros filled Hc Ho.
    destruct (truthyO (assoc "custom" filled)) eqn:E.
    - split; [apply assoc_removeField_eq|]. split.
      + rewrite assoc_removeField_ne, Ho by discriminate. exact Hf4.
      + intros k Hk Hk'. rewrite assoc_removeField_ne, Ho by congruence.
        apply Hk4; assumption.
    - destruct Hc as [Hc|Hc]; [|discriminate]. split; [exact Hc|]. split.
      + rewrite Ho by discriminate. exact Hf4.
      + intros k Hk Hk'. rewrite Ho by congruence. apply Hk4; assumption. }
  assert (truthyO (assoc "custom" tool4) = true) as Ht4
      by (rewrite Hc4, truthyO_withSchema; exact Etc).
  pose proof (Hstrip tool4 (or_intror Ht4) (fun k _ => eq_refl)) as Hkeep.
  unfold custom in *. clear custom.
  destruct (assoc "custom" newTool) as [v|]; [|discriminate].
  cbn [truthyO] in Etc.
  destruct schema as [s|].
  - rewrite lacksSchema_withSchema by (apply Hs; reflexivity).
    rewrite bool_decide_false by discriminate. rewrite andb_false_r.
    destruct Hw2 as [Hw2|Hw2]; [|discriminate].
    unfold truthyPrimitive in Hw2. cbn [truthyO] in Hw2. rewrite Etc in Hw2.
    destruct v as [| b | n | str | items | o]; try discriminate.
    + cbn [negb andb]. split; [reflexivity|]. split; [reflexivity|]. exact Hkeep.
    + cbn [negb andb]. split; [reflexivity|]. split; [reflexivity|]. exact Hkeep.
  - rewrite bool_decide_true by reflexivity. rewrite andb_true_r.
    assert (withSchema None (Some v) = Some v) as Hv by (destruct v; reflexivity).
    rewrite Hv in *.
    assert (negb match v with JArr _ => false | _ => false end = true) as ->
        by (destruct v; reflexivity).
    rewrite andb_true_r.
    unfold lacksSchema, truthyPrimitive, setSchema. cbn [truthyO getO]. rewrite Etc, Hc4.
    cbn [andb].
    destruct v as [| b | n | str | items | o]; try discriminate; cbn [get truthyO negb isObject];
      try reflexivity.
    + split; [reflexivity|]. split; [reflexivity|]. exact Hkeep.
    + destruct (truthyO (assoc "input_schema" o)); cbn [negb].
      * split; [reflexivity|]. split; [reflexivity|]. exact Hkeep.
      * split; [reflexivity|]. split; [reflexivity|]. apply Hstrip.
        -- right. rewrite assoc_setField_eq. reflexivity.
        -- intros k Hk. apply assoc_setField_ne. congruence.
Qed.

Lemma withSchema_has_schema schema f :
  schema <> None -> (forall s, schema = Some s -> truthy s = true) ->
  truthyO (getO "input_schema" (withSchema schema (Some (JObj f)))) = true.
Proof.
  intros Hne Hs. destruct schema as [s|]; [|congruence]. cbn [withSchema].
  destruct (truthyO (assoc "input_schema" f)) eqn:E; [exact E|].
  cbn [getO get]. rewrite assoc_setField_eq. exact (Hs s eq_refl).
Qed.

Lemma normalizeGeminiToolsFrom_spec tools : forall toolIndex,
  match normalizeGeminiToolsFrom toolIndex tools with
  | None => Exists (fun tool => unwritable tool = true) tools
  | Some (newTools, count) =>
      Forall (fun tool => unwritable tool = false) tools
      /\ count = length (List.filter countedMissing tools)
      /\ Forall2 (fun tool newTool =>
                    exists fields, newTool = JObj fields
                      /\ assoc "custom" fields = None
                      /\ assoc "function" fields
                         = withSchema (schemaOf (spread tool)) (assoc "function" (spread tool))
                      /\ (forall k, k <> "custom" -> k <> "function" ->
                                    assoc k fields = assoc k (spread tool)))
                 tools newTools
  end.
Proof.
  induction tools as [|tool rest IH]; intros toolIndex.
  - cbn. split; [constructor|]. split; [reflexivity|constructor].
  - cbn [normalizeGeminiToolsFrom].
    pose proof (normalizeGeminiTool_spec toolIndex tool) as H.
    destruct (normalizeGeminiTool toolIndex tool) as [[newTool missing]|].
    2:{ apply Exists_cons_hd. exact H. }
    destruct H as (Hw & Hm & Hc & Hf & Ho).
    specialize (IH (S toolIndex)).
    destruct (normalizeGeminiToolsFrom (S toolIndex) rest) as [[newTools count]|].
    2:{ apply Exists_cons_tl. exact IH. }
    destruct IH as (Hall & Hcount & Hrest).
    split; [constructor; assumption|]. split.
    + cbn [List.filter]. rewrite <- Hm, Hcount. destruct missing; reflexivity.
    + constructor; [|exact Hrest]. exists newTool. auto.
Qed.

(** X28. Tools of a model that is not Claude leave the transformer in
    function style. When the step does not throw, there are as many tools
    as before, none has a [custom] wrapper, a [function] that is an object
    carries a truthy [input_schema] whenever a schema was found among the
    candidates, every other property of a tool is as it was, and the count
    of missing schemas is the number of tools whose [custom] had no
    [input_schema] and for which no schema was found. The step throws
    exactly when a tool has a [custom] that is a truthy primitive, or a
    [function] that is one together with a schema. *)
Theorem normalizeGeminiTools_strips_custom tools :
  match normalizeGeminiTools tools with
  | None => Exists (fun tool => unwritable tool = true) tools
  | Some (newTools, count) =>
      Forall (fun tool => unwritable tool = false) tools
      /\ length newTools = length tools
      /\ count = length (List.filter countedMissing tools)
      /\ (forall i tool, tools !! i = Some tool ->
            exists newTool,
              newTools !! i = Some (JObj newTool)
              /\ assoc "custom" newTool = None
              /\ (forall f, assoc "function" (spread tool) = Some (JObj f) ->
                            schemaOf (spread tool) <> None ->
                            truthyO (getO "input_schema" (assoc "function" newTool)) = true)
              /\ (forall v, assoc "function" (spread tool) = v ->
                            (forall f, v <> Some (JObj f)) ->
                            assoc "function" newTool = v)
              /\ (forall k, k <> "custom" -> k <> "function" ->
                            assoc k newTool = assoc k (spread tool)))
  end.
Proof.
  unfold normalizeGeminiTools.
  pose proof (normalizeGeminiToolsFrom_spec tools 0) as H.
  destruct (normalizeGeminiToolsFrom 0 tools) as [[newTools count]|]; [|exact H].
  destruct H as (Hall & Hcount & Hrel).
  split; [exact Hall|]. split; [symmetry; exact (Forall2_length _ _ _ Hrel)|].
  split; [exact Hcount|].
  intros i tool Hi.
  destruct (Forall2_lookup_l _ _ _ _ _ Hrel Hi) as (newTool & Hn & fields & -> & Hc & Hf & Ho).
  exists fields. split; [exact Hn|]. split; [exact Hc|]. split; [|split; [|exact Ho]].
  - intros f Ef Hne. rewrite Hf, Ef.
    apply withSchema_has_schema; [exact Hne|]. apply schemaOf_truthy.
  - intros v Ev Hno. rewrite Hf, Ev.
    destruct v as [[| | | | |f]|]; try reflexivity. exfalso. apply (Hno f). reflexivity.
Qed.

End ShapingFacts.
